(* ===== verification/_CoqProject ===== *)
-Q . S2P
Prelude.v
Bytes.v
NetworkTypes.v
Packet.v
Serde.v
Runtime.v
Ledger.v
UdpServer.v
Sessions.v
UdpServerSpec.v
UdpServerSafety.v
Simulated.v
UdpServerSystem.v
UdpServerRefines.v
UdpServerEvents.v
Threads.v
ThreadsProps.v
ThreadsSystem.v
ClientPointers.v
PacketProps.v
UdpClient.v
UdpClientSpec.v
Links.v
UdpClientSafety.v
UdpClientSystem.v
UdpClientRefines.v
UdpClientProps.v
ClientThreads.v
ClientThreadsProps.v
ClientThreadsSystem.v
ClientInterleavings.v
Dispatch.v
PacketServer.v
PacketServerProps.v
PacketServerSystem.v
PacketServerThreads.v
PacketClient.v
PacketClientProps.v
PacketClientSystem.v
PacketClientPoll.v
PacketThreads.v
EndToEnd.v
Channel.v
StreamServer.v
Streams.v
AsyncClient.v
AsyncClientProps.v
AsyncOrder.v
AwaiterPointers.v
AsyncClientSystem.v
AsyncThreads.v
AsyncConnect.v
Factories.v
Silence.v
KbServer.v
KbServerProps.v
KbServerThreads.v
Networking.v
