(* ===== verification/Prelude.v ===== *)
(** * kb-networking-cpp: a verification library

    The repository is a small C++20 library over Valve's GameNetworkingSockets:
    datagram servers and clients, typed packets on top of them, an asynchronous
    client, and a C interface.  All its own code is modelled; paths below are
    relative to the repository's [src/kb/] unless they say otherwise.

    ** The program and its parts

    - A packet is an eight-byte header (the magic "KBL", a serialization type, a
      32-bit packet type) followed by the serialized object.  [net/udp/packet.hpp]
      reads headers, the serializers of [net/serde/] write them.
    - [UdpServer] and [UdpClient] ([net/udp/server/udp_server.*],
      [net/udp/client/udp_client.*]) own handles of the sockets library, poll it
      for messages, by hand or on a network thread, and receive connection events
      through one static [s_instance] pointer per class.
    - [UdpPacketServer] and [UdpPacketClient] install a data callback that holds a
      weak pointer to them, and dispatch each datagram to the handler bound to its
      packet type.
    - [AsyncUdpPacketClient] registers a pre-handler with a packet client and
      hands packets to coroutines waiting for their type.
    - [net/udp/udp.hpp] makes packet servers, packet clients and asynchronous
      clients of each serialization type.
    - [net/udp/kb_server.cpp] exports [UdpServer] to C, [kb_networking.cpp]
      initialises and shuts down the sockets library.

    ** Foundations

    - [Prelude.v]: faults, the operation monad [M W] (a world to an outcome, a
      value or a fault), its weakest precondition [wp], loops, notations.
    - [Bytes.v]: fixed-width integers with their wrap-around, little-endian
      object representations, buffers with bounds-checked access.
    - [Runtime.v]: the sockets library as the class [SteamSockets], which answers
      every call given the history of calls; its documented behaviour as
      [SteamLaws]; the [world] of a class: the heap of its objects, [s_instance],
      the executing thread, the trace of library calls, and a part for user code.
      [CallbackContract] says what callbacks may rely on and change; [private]
      operations run none, [confined] ones leave the other objects alone.  Tactics
      [wp_step], [wp_steps], [lookup_obj], [private] and [confined] step through
      operations.
    - [Ledger.v]: the messages a trace of library calls received and released, and
      the balance between them, for servers and clients alike.
    - [Simulated.v]: a concrete library that satisfies the laws, and concrete
      instances of every other outside interface.  The witnesses run on it.

    ** Components

    - [NetworkTypes.v] ([net/network_types.*], [net/network_utils.cpp]) and
      [Packet.v] ([net/udp/packet.hpp], the header writer of
      [net/serde/base_packet_serializer.hpp]); properties in [PacketProps.v].
    - [Serde.v] ([net/serde/], [net/udp/serde.hpp]): the serializer interface
      the class templates are parametrised by, as type classes with laws, and the
      binary and msgpack serializers as instances that satisfy them.
    - [UdpServer.v]: one definition per member function.  [Sessions.v]: what a
      process's servers promise, as a small machine: a server is idle or serving a
      port for a set of connections, and one of them gets the events.
      [UdpServerSpec.v]: the exact result of each operation, on every branch.
      [UdpServerSafety.v]: the invariant [world_inv] (which clients are in the
      table, and that the library accepted them; which handles are alive; who holds
      the mutex), kept by every operation together with the ledger and the
      sessions ([keeps], [goes_on]), and the laws [ServerCallbacksLaws] of user
      callbacks: they may call back into the servers wherever their contract lets
      them run.  All of it holds for both kinds of [threading]: operations one at
      a time, or other threads running between the steps of a poll.
      [UdpServerSystem.v]: the operations as a transition system; starting,
      stopping, polling; an echo server.  [UdpServerRefines.v]: the transition
      system refines [Sessions.v].  [UdpServerEvents.v]: broadcast, connection
      events, the network thread.
    - [Threads.v], [ThreadsProps.v], [ThreadsSystem.v]: network threads with a
      position in their loop, one step per message or status change, and [stop] cut
      at its [join], interleaved with the application; the steps put together are
      the operations of [UdpServer.v].  [ClientPointers.v]: the handling of one
      message in two, with a pointer into the table of clients in between.
    - [UdpClient.v]: one definition per member function.  [Links.v]: what a
      client promises of its connection, as a small machine: its link is down, up
      or lost, and it gets the events or not.  [UdpClientSpec.v]: the exact result
      of each operation.  [UdpClientSafety.v]: the invariant [client_world_inv],
      for both kinds of [threading], kept by every operation together with the
      ledger and the link; the laws of the data callback, [ClientCallbacksLaws].
      [UdpClientSystem.v]: the operations as a transition system, for processes
      with one client.  [UdpClientRefines.v]: it refines [Links.v].
      [UdpClientProps.v]: connecting, stopping, sending, losing the connection, and
      what a second client does to the first.
    - [ClientThreads.v], [ClientThreadsProps.v], [ClientThreadsSystem.v],
      [ClientInterleavings.v]: the client's network thread with a position in its
      loop, also between the test of the connection and the receiving on it,
      interleaved with the application and with [stop] cut at its [join].  Two
      positions are exposed to the application; what happens there is proved too.
    - [Dispatch.v]: which handler a datagram is for and what it is given, the
      specification of both receivers.  [PacketServer.v], [PacketServerProps.v] and
      [PacketServerSystem.v], [PacketClient.v], [PacketClientProps.v],
      [PacketClientSystem.v] and [PacketClientPoll.v]: the packet classes, for any
      serializer.  Their data callbacks are instances of [ServerCallbacks] and
      [ClientCallbacks] that satisfy [ServerCallbacksLaws] and
      [ClientCallbacksLaws] as soon as the handlers keep a contract of their own
      ([PacketHandlersLaws], [ClientPacketHandlersLaws]), so the theorems on the
      servers and clients below apply to them.  [PacketServerThreads.v] and
      [PacketThreads.v]: packet servers with the network threads of [Threads.v],
      the packet client with that of [ClientThreads.v].  [EndToEnd.v] joins server
      and client for one packet.  [Streams.v] joins them for a whole connection: a
      client that sends, the server's network thread and its application are a
      first-in first-out channel ([Channel.v]) of objects; [StreamServer.v] has the
      server's half, what its handlers were given against what its library handed
      over.
    - [AsyncClient.v], [AsyncClientProps.v]: a coroutine is cut at its
      [co_await event]; the two halves, the arrival of messages and the order in
      which the scheduler resumes coroutines are the steps of a transition system.
      [AsyncOrder.v]: the order in which they started to wait, beside that system.
      [AwaiterPointers.v]: the pre-handler in pieces, with a pointer it keeps after
      its lock, and coroutines that run between them.
      [AsyncClientSystem.v]: the pre-handler, run by the client below, satisfies
      [ClientPacketHandlersLaws] and is a step of that system.  [AsyncThreads.v]:
      the network thread, the application and the coroutines in one transition
      system, which refines that of the coroutines alone.  [AsyncConnect.v]: the
      waiting loop of [connect] as one more coroutine of it.
    - [Factories.v] ([net/udp/udp.hpp]): the six functions; the serialization type
      of a template is part of the type of the pointer they answer.
    - [KbServer.v], [KbServerProps.v]: the C interface, as a transition system.
      [Silence.v]: while a server has no callbacks, what they would do does not
      matter, so the theorems on servers apply with callbacks that do nothing.
      [KbServerThreads.v]: the C interface with the threads of [Threads.v].
    - [Networking.v]: initialising and shutting down.

    ** What the theorems show

    - Safety: from every state that correct uses can reach no operation faults:
      no access out of bounds or through a dangling pointer, no second lock of a
      mutex, no joinable thread lost, no message leaked or released twice
      ([reachable_safe], [client_reachable_safe], [packet_reachable_safe],
      [packet_client_reachable_safe], [async_reachable_safe], [async_round_safe],
      [c_api_never_delivers]).
    - Concurrency: the same for the interleavings of network threads and the
      application, under the conditions each theorem names ([threads_safe],
      [threads_leak_nothing], [client_threads_safe],
      [packet_server_threads_safe], [packet_threads_safe]), with the coroutines
      ([async_threads_refine], [async_connect_interleaved]), and of the C
      interface ([c_api_threads_silent]); a thread left alone does what the whole
      round does ([uninterrupted_round], [uninterrupted_client_round]); a [stop]
      returns ([stop_returns], [client_stop_returns]).  Two conditions concern
      every client with a thread.  One whose connection is lost is neither destroyed
      nor connected again: each theorem also states that doing so terminates the
      process.  And the application keeps away from the two positions between the
      test of a member and its use, where it makes the network thread fault
      ([exposed_positions_fault]).
    - Refinement: each operation does to [Sessions.v] and [Links.v] what its
      contract says ([operations_refine_sessions], [operations_refine_links]); the
      awaiters and coroutines of an asynchronous client go the steps of their
      system ([async_threads_refine]), also with coroutines between the steps of
      the pre-handler ([one_at_a_time_refines]); handling a message in two steps
      reaches the states of handling it in one ([client_pointers_refine]); a
      sending client and a packet server are a FIFO channel
      ([streams_refine_channel]); the tables are well-typed
      ([tables_well_typed]); one poll of a packet server or client runs what
      [Dispatch.v] selects ([packet_poll_dispatches],
      [packet_client_poll_dispatches]).
    - Function: what [stop] closes, what [poll] delivers, whom [broadcast]
      reaches, what a connecting peer goes through, what [connect] answers, which
      handler a datagram runs, which coroutine a packet wakes and what it gets
      ([packet_reaches_longest_waiting]).
    - Wire format: the header reader accepts exactly what the writer produces;
      objects survive serialization; an object sent by a packet client is what
      the handler of a packet server is given ([sent_packet_is_handled]); what the
      factories make speaks its own serialization type ([factories_speak]).
    - Termination: the loops over messages and clients are structural; the
      waiting loop of the asynchronous [connect] ends after at most twenty
      sleeps, also step by step among all other threads; network threads return
      once they are told to, and so do the [stop]s that wait for them.
    - Behaviours the code should not have, each proved: leaked listen sockets,
      clients that stay in the table, the static instance shared by all servers
      or clients, threads nobody can join, so that a client whose connection is
      lost terminates the process ([lost_connection_terminates]), binary packets
      that lose their type, awaited packets that overwrite each other, pointers to
      an awaiter or a client that dangle ([awaiter_pointer_dangles],
      [client_pointer_dangles]), callbacks never set in C, members a network
      thread tests and then reads again ([exposed_positions_fault]).

    ** Bounds and fuel

    A poll receives at most 32 messages on a server and 16 on a client, the sizes
    of the slot arrays; reading a slot the library did not fill is the fault
    [OutOfBounds].  [network_loop] takes the number of rounds as fuel and answers
    whether it returned; its theorems hold for every number of rounds.
    [connect_loop] takes [max_iters + 1] = 21, which is proved to be enough.
    Sizes handed to the library are 32-bit and buffers shorter than 2^64 bytes;
    theorems on whole payloads say so.

    ** What the model leaves out

    - Threads interleave message by message and event by event, and at the [join]
      of [stop], also of the C interface; coroutines at their [co_await].  What is
      left inside a step is atomic: the handling of one message or status change,
      the calls of the application other than [stop], a [stop] that joins nothing,
      each half of a coroutine.  A mutex is a flag, and locking it twice in one
      thread is the fault [Deadlock]; data races inside a step (entering a client
      without the mutex, an entry erased while the callback given a reference to it
      is running) are outside the model.  Two files are finer: [AwaiterPointers.v],
      where the pre-handler's uses of the awaiter it found are steps, and
      [ClientPointers.v], where the lookup of a message's client and the callback
      are; a [std::deque] and a [std::map] leave an element where it is until it is
      taken out, and each access to the container is still atomic.  The steps
      of the application that a client's thread is exposed to, and the uses of a
      client whose connection is lost, are excluded from [client_thread_allowed]
      and shown to fault.
    - The sockets library, kb-std ([OwningBuffer], the logger), msgpack and libcoro
      are not in the repository.  The first three are classes with the laws the
      code relies on; a coroutine scheduler is an order of steps; log lines have
      no effect.
    - Each world has the objects of one class, so that a server and a client in
      one process share no state; [EndToEnd.v] and [Streams.v] pass bytes from one
      to the other.
    - Memory is not counted: the buffer [msgpack_serialize_packet_internal]
      releases without freeing is not seen as a leak.
    - A handler that unbinds itself destroys the function object it runs in; here
      handlers are names of programs.
    - The declarations of [include/kb/net/kb_client.h], which nothing defines, the
      tests, the Rust example and the build files.

    ** To be extended

    - A finer grain: the tests and the calls of the application inside an
      operation as steps of their own, with the mutexes held between them.
    - A server and a client in one process, over one library state. *)

From Stdlib Require Export ZArith Lia.
From Stdlib Require Strings.Byte.
From stdpp Require Export sorting.
From stdpp Require Export base tactics option numbers strings fin_maps gmap list.
#[global] Set Default Goal Selector "!".

Declare Scope kb_scope.
Delimit Scope kb_scope with kb.
Open Scope kb_scope.

(** Sizes and indices of the code are unsigned integers, modelled in [Z]. *)
#[global] Coercion Z.of_nat : nat >-> Z.

(** Rewrite rules that bring worlds to a normal form. *)
Create Rewrite HintDb world.

Lemma app_snoc2 {X} (l : list X) x y : l ++ [x; y] = (l ++ [x]) ++ [y].
Proof. by rewrite <- app_assoc. Qed.

(** Filters that agree on a list, or take all of it. *)
Lemma list_filter_ext {A} (P Q : A → Prop) `{!∀ x, Decision (P x), !∀ x, Decision (Q x)} (l : list A) :
  (∀ x, x ∈ l → P x ↔ Q x) → filter P l = filter Q l.
Proof.
  induction l as [|x l IH]; intros Hall; [done|]. rewrite !filter_cons.
  rewrite IH by (intros y Hy; apply Hall; by right).
  pose proof (Hall x ltac:(left)). do 2 case_decide; tauto.
Qed.

Lemma list_filter_all {A} (P : A → Prop) `{!∀ x, Decision (P x)} (l : list A) :
  (∀ x, x ∈ l → P x) → filter P l = l.
Proof.
  induction l as [|x l IH]; intros Hall; [done|]. rewrite filter_cons_True by (apply Hall; left).
  f_equal. apply IH. intros y Hy. apply Hall. by right.
Qed.

(** ** Faults and the operation monad *)

(** The ways an operation of the program can leave the language's defined
    behaviour or end the process.  They are outcomes, never silently dropped. *)
Inductive fault :=
| OutOfBounds      (** a read or write outside the object pointed to *)
| NullDeref        (** a call through a null or dangling pointer *)
| Deadlock         (** a second lock of a non-recursive mutex *)
| StdTerminate     (** an escaping exception, or the loss of a joinable thread *)
| AssertFailed     (** a [KB_ASSERT] whose condition is false *)
| Aborted.         (** [KB_ABORT] *)

Inductive outcome (W A : Type) :=
| Done (a : A) (w : W)
| Fault (f : fault) (w : W).
Arguments Done {W A} a w.
Arguments Fault {W A} f w.

(** An operation runs in a world [W], the memory and devices it can touch. *)
Definition M (W A : Type) : Type := W → outcome W A.

#[export] Instance M_ret W : MRet (M W) := λ A a w, Done a w.
#[export] Instance M_bind W : MBind (M W) := λ A B f m w,
  match m w with
  | Done a w' => f a w'
  | Fault e w' => Fault e w'
  end.

Definition fail {W A} (e : fault) : M W A := λ w, Fault e w.
Definition gets {W A} (f : W → A) : M W A := λ w, Done (f w) w.
Definition modify {W} (f : W → W) : M W unit := λ w, Done tt (f w).
Definition skip {W} : M W unit := mret tt.

(** [KB_ASSERT(cond, ...)]. *)
Definition kb_assert {W} (b : bool) : M W unit :=
  if b then skip else fail AssertFailed.

Definition or_fault {W A} (e : fault) (o : option A) : M W A :=
  match o with Some a => mret a | None => fail e end.

(** A range [for] over a container. *)
Fixpoint for_each {W A} (l : list A) (body : A → M W unit) : M W unit :=
  match l with
  | [] => skip
  | x :: l => body x ;; for_each l body
  end.

(** The same loop when its body updates a local variable. *)
Fixpoint fold_each {W A B} (l : list A) (acc : B) (body : B → A → M W B) : M W B :=
  match l with
  | [] => mret acc
  | x :: l => acc' ← body acc x; fold_each l acc' body
  end.

(** ** Weakest preconditions *)

(** [wp m Q w]: from [w], [m] ends without a fault, in a result satisfying [Q]. *)
Definition wp {W A} (m : M W A) (Q : A → W → Prop) (w : W) : Prop :=
  match m w with
  | Done a w' => Q a w'
  | Fault _ _ => False
  end.

Section monad_laws.
Context {W : Type}.

Lemma bind_Done {A B} (m : M W A) (k : A → M W B) w a w' :
  m w = Done a w' → (m ≫= k) w = k a w'.
Proof. unfold mbind, M_bind. by intros ->. Qed.

Lemma bind_Fault {A B} (m : M W A) (k : A → M W B) w e w' :
  m w = Fault e w' → (m ≫= k) w = Fault e w'.
Proof. unfold mbind, M_bind. by intros ->. Qed.

Lemma bind_assoc {A B C} (m : M W A) (k : A → M W B) (h : B → M W C) w :
  ((m ≫= k) ≫= h) w = (m ≫= λ a, k a ≫= h) w.
Proof. unfold mbind, M_bind. by destruct (m w). Qed.

Lemma wp_ret {A} (a : A) Q (w : W) : Q a w → wp (mret a) Q w.
Proof. done. Qed.

Lemma wp_bind {A B} (m : M W A) (k : A → M W B) Q w :
  wp m (λ a, wp (k a) Q) w → wp (m ≫= k) Q w.
Proof. unfold wp, mbind, M_bind. by destruct (m w). Qed.

Lemma wp_mono {A} (m : M W A) (P Q : A → W → Prop) w :
  wp m P w → (∀ a w', P a w' → Q a w') → wp m Q w.
Proof. unfold wp. destruct (m w); auto. Qed.

Lemma wp_gets {A} (f : W → A) Q w : Q (f w) w → wp (gets f) Q w.
Proof. done. Qed.

Lemma wp_modify (f : W → W) Q w : Q tt (f w) → wp (modify f) Q w.
Proof. done. Qed.

Lemma wp_skip Q (w : W) : Q tt w → wp skip Q w.
Proof. done. Qed.

(** An operation whose answer nobody reads. *)
Lemma wp_discard {A} (m : M W A) (Q : unit → W → Prop) w :
  wp m (λ _, Q tt) w → wp (m ;; skip) Q w.
Proof. intros Hm. apply wp_bind. eapply wp_mono; [exact Hm|]. auto. Qed.

Lemma wp_Done {A} (m : M W A) Q w :
  wp m Q w ↔ ∃ a w', m w = Done a w' ∧ Q a w'.
Proof.
  unfold wp. destruct (m w) as [a w'|e w']; split.
  - intros HQ. by exists a, w'.
  - by intros (a' & w'' & [= <- <-] & HQ).
  - done.
  - by intros (a' & w'' & [=] & _).
Qed.

Lemma wp_of_Done {A} (m : M W A) Q w a w' : m w = Done a w' → Q a w' → wp m Q w.
Proof. unfold wp. by intros ->. Qed.

Lemma wp_and {A} (m : M W A) (P Q : A → W → Prop) w :
  wp m P w → wp m Q w → wp m (λ a w', P a w' ∧ Q a w') w.
Proof. unfold wp. by destruct (m w). Qed.

(** Loop rule: the invariant is indexed by the elements already visited. *)
Lemma wp_for_each_prefix {A} (l : list A) (body : A → M W unit) (I : list A → W → Prop) :
  (∀ done x rest w, l = done ++ x :: rest → I done w →
     wp (body x) (λ _, I (done ++ [x])) w) →
  ∀ w, I [] w → wp (for_each l body) (λ _, I l) w.
Proof.
  intros Hbody.
  assert (∀ rest done w, l = done ++ rest → I done w →
    wp (for_each rest body) (λ _, I l) w) as Hgen.
  { induction rest as [|x rest IH]; intros done w Hl HI; simpl.
    - apply wp_skip. by rewrite app_nil_r in Hl; subst.
    - apply wp_bind. eapply wp_mono; [by eapply Hbody|].
      intros [] w' HI'. apply (IH (done ++ [x])); [|done].
      by rewrite <- app_assoc. }
  intros w HI. by apply (Hgen l []).
Qed.

Lemma wp_for_each {A} (l : list A) (body : A → M W unit) (I : W → Prop) w :
  (∀ x w, x ∈ l → I w → wp (body x) (λ _, I) w) →
  I w → wp (for_each l body) (λ _, I) w.
Proof.
  intros Hbody HI.
  apply (wp_for_each_prefix l body (λ _, I)); [|done].
  intros done x rest w' -> HI'. apply Hbody; [set_solver|done].
Qed.

Lemma for_each_app {A} (l1 l2 : list A) (body : A → M W unit) w :
  for_each (l1 ++ l2) body w = (for_each l1 body ;; for_each l2 body) w.
Proof.
  revert w. induction l1 as [|x l1 IH]; intros w; [done|]. simpl.
  unfold mbind, M_bind in *. destruct (body x w); [apply IH|done].
Qed.
End monad_laws.
