(* ===== verification/Bytes.v ===== *)
(** * Machine integers, bytes and raw memory

    The fixed-width integers of [src/kb/types.h] as [Z] with their wrap-around
    written out, the object representation of an unsigned integer on the
    little-endian targets the project builds for (its own test,
    [tests/net/test_serde.cpp], fixes that order), and byte buffers with
    bounds-checked reads and writes. *)

From S2P Require Import Prelude.
Import Strings.Byte.
Local Open Scope Z_scope.

(** ** Fixed-width integers *)

(** Conversion of an integer to an unsigned type of [n] bits. *)
Definition wrap (n z : Z) : Z := z mod 2 ^ n.

Definition u8 (z : Z) : Z := wrap 8 z.
Definition u16 (z : Z) : Z := wrap 16 z.
Definition u32 (z : Z) : Z := wrap 32 z.
Definition u64 (z : Z) : Z := wrap 64 z.

(** Values of an unsigned type of [n] bits. *)
Definition fits (n z : Z) : Prop := 0 ≤ z < 2 ^ n.

#[export] Instance fits_dec n z : Decision (fits n z).
Proof. unfold fits. apply _. Defined.

Lemma wrap_fits n z : 0 ≤ n → fits n (wrap n z).
Proof. intros. unfold fits, wrap. apply Z.mod_pos_bound. lia. Qed.

Lemma wrap_small n z : fits n z → wrap n z = z.
Proof. apply Z.mod_small. Qed.

Lemma fits_le n m z : n ≤ m → fits n z → fits m z.
Proof.
  intros Hnm [H0 Hn]. split; [done|].
  destruct (decide (0 ≤ n)).
  - eapply Z.lt_le_trans; [done|]. apply Z.pow_le_mono_r; lia.
  - rewrite Z.pow_neg_r in Hn by lia. lia.
Qed.

(** ** Bytes *)

Definition Z_of_byte (b : byte) : Z := Z.of_N (to_N b).

Definition byte_of_Z (z : Z) : byte := default x00 (of_N (Z.to_N (u8 z))).

(** A byte read through a [char] pointer: [char] is signed on the targets. *)
Definition char_of_byte (b : byte) : Z :=
  if decide (Z_of_byte b < 128) then Z_of_byte b else Z_of_byte b - 256.

#[export] Instance byte_eq_decision : EqDecision byte := Byte.byte_eq_dec.

Lemma Z_of_byte_fits b : fits 8 (Z_of_byte b).
Proof. unfold fits, Z_of_byte. pose proof (to_N_bounded b). lia. Qed.

Lemma Z_of_byte_of_Z z : Z_of_byte (byte_of_Z z) = u8 z.
Proof.
  unfold Z_of_byte, byte_of_Z.
  pose proof (wrap_fits 8 z ltac:(lia)) as [Hlo Hhi]. fold (u8 z) in Hlo, Hhi.
  destruct (of_N (Z.to_N (u8 z))) as [b|] eqn:Hb; simpl.
  - apply to_of_N in Hb. rewrite Hb, Z2N.id; done.
  - apply of_N_None_iff in Hb. lia.
Qed.

Lemma byte_of_Z_of_byte b : byte_of_Z (Z_of_byte b) = b.
Proof.
  unfold byte_of_Z, u8. rewrite wrap_small by apply Z_of_byte_fits.
  unfold Z_of_byte. by rewrite N2Z.id, of_to_N.
Qed.

Lemma Z_of_byte_inj b c : Z_of_byte b = Z_of_byte c → b = c.
Proof. intros H. by rewrite <- (byte_of_Z_of_byte b), H, byte_of_Z_of_byte. Qed.

Lemma char_of_byte_inj b c : char_of_byte b = char_of_byte c → b = c.
Proof.
  unfold char_of_byte. intros H. apply Z_of_byte_inj.
  pose proof (Z_of_byte_fits b) as Hb. pose proof (Z_of_byte_fits c) as Hc.
  unfold fits in *. repeat case_decide; lia.
Qed.

Lemma char_of_byte_eq b z : char_of_byte b = z → char_of_byte (byte_of_Z z) = z → b = byte_of_Z z.
Proof. intros Hb Hz. apply char_of_byte_inj. by rewrite Hb, Hz. Qed.

(** ** Little-endian object representation *)

(** The [n] bytes [memcpy] copies out of an unsigned integer object. *)
Fixpoint le_bytes (n : nat) (z : Z) : list byte :=
  match n with
  | O => []
  | S n => byte_of_Z z :: le_bytes n (z / 256)
  end.

(** The integer whose object representation is [bs]. *)
Fixpoint le_value (bs : list byte) : Z :=
  match bs with
  | [] => 0
  | b :: bs => Z_of_byte b + 256 * le_value bs
  end.

Lemma length_le_bytes n z : length (le_bytes n z) = n.
Proof. revert z. induction n; intros z; simpl; [done|by rewrite IHn]. Qed.

Lemma le_value_bytes n z : le_value (le_bytes n z) = wrap (8 * n) z.
Proof.
  unfold wrap. revert z. induction n as [|n IH]; intros z; cbn [le_bytes le_value].
  - by rewrite Z.mod_1_r.
  - rewrite IH, Z_of_byte_of_Z. unfold u8, wrap.
    replace (8 * S n) with (8 + 8 * n) by lia.
    rewrite Z.pow_add_r, Z.rem_mul_r by lia. done.
Qed.

Lemma le_bytes_value bs : le_bytes (length bs) (le_value bs) = bs.
Proof.
  induction bs as [|b bs IH]; simpl; [done|].
  pose proof (Z_of_byte_fits b) as Hb. unfold fits in Hb. f_equal.
  - apply Z_of_byte_inj. rewrite Z_of_byte_of_Z. unfold u8, wrap.
    rewrite Z.mul_comm, Z.mod_add by lia. by apply Z.mod_small.
  - rewrite Z.mul_comm, Z.div_add by lia.
    rewrite Z.div_small by lia. by rewrite Z.add_0_l.
Qed.

Lemma le_value_fits bs : fits (8 * length bs) (le_value bs).
Proof.
  rewrite <- (le_bytes_value bs) at 2. rewrite le_value_bytes.
  apply wrap_fits. lia.
Qed.

(** ** Raw buffers *)

(** A buffer is the list of the bytes of the object a pointer points to;
    accesses outside it fault. *)
Definition read_byte {W} (mem : list byte) (i : Z) : M W byte :=
  if decide (0 ≤ i) then or_fault OutOfBounds (mem !! Z.to_nat i) else fail OutOfBounds.

Definition write_byte {W} (mem : list byte) (i : Z) (b : byte) : M W (list byte) :=
  if decide (0 ≤ i < length mem) then mret (<[Z.to_nat i := b]> mem) else fail OutOfBounds.

(** [memcpy(dst + off, src, ...)] of the whole of [src]. *)
Fixpoint memcpy_to {W} (mem : list byte) (off : Z) (src : list byte) : M W (list byte) :=
  match src with
  | [] => mret mem
  | b :: src => mem' ← write_byte mem off b; memcpy_to mem' (off + 1) src
  end.

(** [memcpy(dst, src + off, n)]: the [n] bytes of [mem] from offset [off]. *)
Definition read_bytes {W} (mem : list byte) (off n : Z) : M W (list byte) :=
  if decide (0 ≤ off ∧ 0 ≤ n ∧ off + n ≤ length mem)
  then mret (take (Z.to_nat n) (drop (Z.to_nat off) mem))
  else fail OutOfBounds.

Section buffers.
Context {W : Type}.

Lemma read_byte_Done (mem : list byte) (i : Z) b (w : W) :
  0 ≤ i → mem !! Z.to_nat i = Some b → read_byte mem i w = Done b w.
Proof. intros Hi Hb. unfold read_byte. rewrite decide_True by done. by rewrite Hb. Qed.

Lemma read_bytes_Done (mem : list byte) (off n : Z) (w : W) :
  0 ≤ off → 0 ≤ n → off + n ≤ length mem →
  read_bytes mem off n w = Done (take (Z.to_nat n) (drop (Z.to_nat off) mem)) w.
Proof. intros. unfold read_bytes. by rewrite decide_True. Qed.

Lemma read_bytes_all (mem : list byte) (w : W) :
  read_bytes mem 0 (length mem) w = Done mem w.
Proof.
  rewrite read_bytes_Done by lia.
  by rewrite Nat2Z.id, drop_0, firstn_all.
Qed.

(** Reading the tail of a buffer from offset [length pre]. *)
Lemma read_bytes_suffix (pre post : list byte) (off n : Z) (w : W) :
  off = length pre → n = length post →
  read_bytes (pre ++ post) off n w = Done post w.
Proof.
  intros -> ->. rewrite read_bytes_Done by (rewrite ?length_app; lia).
  by rewrite !Nat2Z.id, drop_app_length, firstn_all.
Qed.

Lemma write_byte_Done (pre post : list byte) x b (off : Z) (w : W) :
  off = length pre → write_byte (pre ++ x :: post) off b w = Done (pre ++ b :: post) w.
Proof.
  intros ->. unfold write_byte. rewrite decide_True; [|rewrite length_app; simpl; lia].
  rewrite Nat2Z.id, insert_app_r_alt, Nat.sub_diag by lia. done.
Qed.

(** [memcpy] over the middle of a buffer replaces exactly that middle. *)
Lemma memcpy_to_Done (src pre mid post : list byte) (off : Z) (w : W) :
  off = length pre → length mid = length src →
  memcpy_to (pre ++ mid ++ post) off src w = Done (pre ++ src ++ post) w.
Proof.
  revert pre mid off. induction src as [|b src IH]; intros pre mid off -> Hlen.
  - by destruct mid.
  - destruct mid as [|x mid]; [done|]. simpl.
    rewrite (bind_Done _ _ _ _ _ (write_byte_Done pre (mid ++ post) x b _ w eq_refl)).
    rewrite (cons_middle b), (app_assoc pre).
    rewrite (IH (pre ++ [b]) mid).
    + by rewrite <- app_assoc.
    + rewrite length_app. simpl. lia.
    + simpl in Hlen. lia.
Qed.
End buffers.
