(* ===== verification/NetworkTypes.v ===== *)
(** * Network types and address utilities

    [src/kb/net/network_types.h], [network_types.cpp], [network_utils.cpp] and
    the constants of [include/kb/net/kb_network_types.h].

    The Steam address type is not part of the repository: it enters through the
    class [SteamIPAddr], whose operations are the members the code uses and
    whose laws are the documented layout (a 16-byte union and a host-order port). *)

From S2P Require Import Prelude Bytes.
Import Strings.Byte.
Local Open Scope Z_scope.

(** ** Identifiers and constants *)

Definition packet_type_t : Type := Z.       (** u32 *)
Definition kb_connection_t : Type := Z.     (** u32 *)

#[export] Instance packet_type_eq_decision : EqDecision packet_type_t.
Proof. unfold packet_type_t. apply _. Defined.
#[export] Instance kb_connection_eq_decision : EqDecision kb_connection_t.
Proof. unfold kb_connection_t. apply _. Defined.

Definition k_invalid_connection : kb_connection_t := 0.
Definition k_invalid_listen_socket : Z := 0.
Definition k_invalid_poll_group : Z := 0.

(** [enum class internal_packet_id_t : packet_type_t]. *)
Inductive internal_packet_id_t := unknown | reserved.

Definition packet_id_value (i : internal_packet_id_t) : packet_type_t :=
  match i with unknown => 0 | reserved => 127 end.

(** [enum class serialization_type_t : u8].  The underlying type is fixed, so
    an object of this type holds any [u8]: the three enumerators are named
    values, and a byte received from the network can be another one. *)
Definition serialization_type_t : Type := Z.

#[export] Instance serialization_type_eq_decision : EqDecision serialization_type_t.
Proof. unfold serialization_type_t. apply _. Defined.

Definition serde_bin : serialization_type_t := 0.
Definition serde_msgpack : serialization_type_t := 1.
Definition serde_custom : serialization_type_t := 7.

(** ** IP addresses *)

(** The address and port of a [SteamNetworkingIPAddr]. *)
Class SteamIPAddr (steam_addr : Type) := {
  steam_union : steam_addr → list byte;      (** the 16 bytes of [m_ipv6] / [m_ipv4] *)
  steam_port : steam_addr → Z;               (** [m_port], host byte order *)
  IsIPv4 : steam_addr → bool;
  ParseString : string → option steam_addr;  (** [None]: [ParseString] returns false *)
}.

Class SteamIPAddrLaws steam_addr `{SteamIPAddr steam_addr} := {
  steam_union_size a : length (steam_union a) = 16%nat;
  steam_port_fits a : fits 16 (steam_port a);
}.

(** [ip_address_t]: [m_ipv6] and [m_ipv4] share one 16-byte union. *)
Record ip_address_t := { m_ip : list byte; m_ip_port : Z }.

(** A value-initialised address. *)
Definition ip_address_zero : ip_address_t := {| m_ip := replicate 16 x00; m_ip_port := 0 |}.

Definition sizeof_m_ipv4 : Z := 8 + 2 + 2 + 4.   (** u64, u16, u16, u8[4] *)
Definition sizeof_m_ipv6 : Z := 16.

Section addresses.
Context {steam_addr : Type} `{SteamIPAddr steam_addr} {W : Type}.

Definition copy_steam_to_ip_address (p_kb_addr : ip_address_t) (p_steam_addr : steam_addr)
    : M W ip_address_t :=
  let port := steam_port p_steam_addr in
  if IsIPv4 p_steam_addr then
    src ← read_bytes (steam_union p_steam_addr) 0 sizeof_m_ipv4;
    ip ← memcpy_to (m_ip p_kb_addr) 0 src;
    mret {| m_ip := ip; m_ip_port := port |}
  else
    src ← read_bytes (steam_union p_steam_addr) 0 sizeof_m_ipv6;
    ip ← memcpy_to (m_ip p_kb_addr) 0 src;
    mret {| m_ip := ip; m_ip_port := port |}.

(** [operator=(const SteamNetworkingIPAddr &)]. *)
Definition ip_address_assign (this : ip_address_t) (p_addr : steam_addr) : M W ip_address_t :=
  copy_steam_to_ip_address this p_addr.

(** The converting constructor, on storage whose bytes are not initialised. *)
Definition ip_address_construct (storage : list byte) (p_addr : steam_addr) : M W ip_address_t :=
  copy_steam_to_ip_address {| m_ip := storage; m_ip_port := steam_port p_addr |} p_addr.

(** [utils::is_valid_ip_address]. *)
Definition is_valid_ip_address (p_ip_address : string) : bool :=
  if String.eqb p_ip_address EmptyString then false
  else match ParseString p_ip_address with Some _ => true | None => false end.

Context `{!SteamIPAddrLaws steam_addr}.

Lemma copy_steam_Done (a : ip_address_t) (s : steam_addr) (w : W) :
  length (m_ip a) = 16%nat →
  copy_steam_to_ip_address a s w
  = Done {| m_ip := steam_union s; m_ip_port := steam_port s |} w.
Proof.
  intros Ha. pose proof (steam_union_size s) as Hs.
  unfold copy_steam_to_ip_address.
  assert (read_bytes (steam_union s) 0 16 w = Done (steam_union s) w) as Hread.
  { replace 16 with (Z.of_nat (length (steam_union s))) by lia. apply read_bytes_all. }
  assert (memcpy_to (m_ip a) 0 (steam_union s) w = Done (steam_union s) w) as Hcpy.
  { rewrite <- (app_nil_r (m_ip a)).
    rewrite (memcpy_to_Done (steam_union s) [] (m_ip a) [] 0 w) by (simpl; lia).
    simpl. by rewrite app_nil_r. }
  change sizeof_m_ipv4 with 16. change sizeof_m_ipv6 with 16.
  destruct (IsIPv4 s);
    rewrite (bind_Done _ _ _ _ _ Hread), (bind_Done _ _ _ _ _ Hcpy); done.
Qed.
End addresses.

(** [struct client_info_t] of [src/kb/net/udp/server/udp_server.hpp]. *)
Record client_info_t := { m_conn : kb_connection_t; m_addr : ip_address_t }.
