(* ===== verification/Packet.v ===== *)
(** * Packets and the wire header

    [src/kb/net/udp/packet.hpp], and [write_internal_packet_header] of
    [src/kb/net/serde/base_packet_serializer.hpp].

    The reader and the writer are translated over raw buffers, cursor by
    cursor; [header_bytes] is the wire format they are proved to agree on.
    [OwningBuffer] (kb-std, not in the repository) is a class. *)

From S2P Require Import Prelude Bytes NetworkTypes.
Import Strings.Byte.
Local Open Scope Z_scope.

(** ** Data *)

Definition k_magic_byte_0 : Z := 75.   (** 0x4B *)
Definition k_magic_byte_1 : Z := 66.   (** 0x42 *)
Definition k_magic_byte_2 : Z := 76.   (** 0x4C *)

(** [constexpr char k_magic_bytes[3]]: elements of type [char]. *)
Definition k_magic_bytes : list Z := [k_magic_byte_0; k_magic_byte_1; k_magic_byte_2].

Record internal_packet_header_t := Header {
  m_magic_header : list byte;
  m_serde_type : serialization_type_t;
  m_packet_type : packet_type_t;
}.

(** The default member initialisers. *)
Definition header_default : internal_packet_header_t :=
  Header (byte_of_Z <$> k_magic_bytes) serde_bin (packet_id_value unknown).

Definition header_create (p_serde_type : serialization_type_t) (p_packet_type : packet_type_t)
    : internal_packet_header_t :=
  Header (m_magic_header header_default) p_serde_type p_packet_type.

(** [sizeof(internal_packet_header_t)]: three bytes, one byte, then a [u32] at
    the next multiple of four. *)
Definition sizeof_packet_type_t : Z := 4.
Definition align_up (n a : Z) : Z := (n + a - 1) / a * a.
Definition sizeof_header : Z :=
  align_up (length k_magic_bytes + 1) sizeof_packet_type_t + sizeof_packet_type_t.

(** kb-std's [OwningBuffer]: [consume(&ptr, size)] takes over a heap array. *)
Class OwningBuffer (B : Type) := {
  ob_consume : list byte → Z → B;
  ob_data : B → list byte;
  ob_size : B → Z;
}.

Class OwningBufferLaws B `{OwningBuffer B} := {
  ob_data_consume mem : ob_data (ob_consume mem (length mem)) = mem;
  ob_size_consume mem : ob_size (ob_consume mem (length mem)) = length mem;
}.

Record internal_packet_t (B : Type) := Packet {
  m_header : internal_packet_header_t;
  m_buffer : B;
  m_pkt_conn : kb_connection_t;
}.
Arguments Packet {B}.
Arguments m_header {B}.
Arguments m_buffer {B}.
Arguments m_pkt_conn {B}.

(** [internal_packet_t::create]: the designated initialiser leaves [m_conn] zero. *)
Definition packet_create `{OwningBuffer B} (p_header : internal_packet_header_t)
    (p_data : list byte) (p_size : Z) : internal_packet_t B :=
  let buffer := ob_consume p_data p_size in
  Packet p_header buffer 0.

(** ** Reading and writing the header *)

Section operations.
Context {W : Type}.

(** The magic-byte loop; [false] is its early [return std::nullopt]. *)
Fixpoint check_magic (data_buffer : list byte) (cursor : Z) (magic : list Z) : M W bool :=
  match magic with
  | [] => mret true
  | magic_byte :: magic =>
      b ← read_byte data_buffer cursor;
      if decide (char_of_byte b ≠ magic_byte) then mret false
      else check_magic data_buffer (cursor + 1) magic
  end.

Definition unpack_internal_packet_header (p_data : list byte) (p_size : Z)
    : M W (option internal_packet_header_t) :=
  if decide (p_size < sizeof_header) then mret None
  else
    found ← check_magic p_data 0 k_magic_bytes;
    if (found : bool) then
      let cursor := Z.of_nat (length k_magic_bytes) in
      serde ← read_byte p_data cursor;
      let serialization_type := Z_of_byte serde in
      let cursor := cursor + 1 in
      raw ← read_bytes p_data cursor sizeof_packet_type_t;
      let packet_type := le_value raw in
      let cursor := cursor + sizeof_packet_type_t in
      kb_assert (bool_decide (cursor = sizeof_header)) ;;
      mret (Some (header_create serialization_type packet_type))
    else mret None.

(** The loop storing the magic bytes. *)
Fixpoint write_magic (p_buffer : list byte) (cursor : Z) (magic : list Z) : M W (list byte) :=
  match magic with
  | [] => mret p_buffer
  | magic_byte :: magic =>
      p_buffer ← write_byte p_buffer cursor (byte_of_Z magic_byte);
      write_magic p_buffer (cursor + 1) magic
  end.

(** Returns the buffer as it is left, and the cursor. *)
Definition write_internal_packet_header (p_buffer : list byte) (p_header : internal_packet_header_t)
    : M W (list byte * Z) :=
  buf ← write_magic p_buffer 0 k_magic_bytes;
  let cursor := Z.of_nat (length k_magic_bytes) in
  buf ← write_byte buf cursor (byte_of_Z (m_serde_type p_header));
  let cursor := cursor + 1 in
  buf ← memcpy_to buf cursor (le_bytes (Z.to_nat sizeof_packet_type_t) (m_packet_type p_header));
  let cursor := cursor + sizeof_packet_type_t in
  kb_assert (bool_decide (cursor = sizeof_header)) ;;
  mret (buf, cursor).
End operations.

(** ** The wire format *)

(** The eight bytes of a header: magic, serialization type, packet type. *)
Definition header_bytes (h : internal_packet_header_t) : list byte :=
  m_magic_header header_default ++ byte_of_Z (m_serde_type h) :: le_bytes 4 (m_packet_type h).

(** Headers the program can build: the fields hold values of their types. *)
Definition header_wf (h : internal_packet_header_t) : Prop :=
  m_magic_header h = m_magic_header header_default ∧
  fits 8 (m_serde_type h) ∧ fits 32 (m_packet_type h).

Lemma header_wf_create s t : fits 8 s → fits 32 t → header_wf (header_create s t).
Proof. done. Qed.

Lemma length_header_bytes h : length (header_bytes h) = 8%nat.
Proof. unfold header_bytes. rewrite length_app. reflexivity. Qed.

Lemma sizeof_header_8 : sizeof_header = 8.
Proof. reflexivity. Qed.

Lemma header_bytes_inj h1 h2 :
  header_wf h1 → header_wf h2 → header_bytes h1 = header_bytes h2 → h1 = h2.
Proof.
  destruct h1 as [m1 s1 t1], h2 as [m2 s2 t2].
  intros (Hm1 & Hs1 & Ht1) (Hm2 & Hs2 & Ht2) Heq.
  unfold header_bytes in Heq. cbn [m_magic_header m_serde_type m_packet_type] in *.
  subst m1 m2. apply app_inv_head in Heq. apply cons_eq_inj in Heq as [Hs Ht]. f_equal.
  - apply (f_equal Z_of_byte) in Hs. rewrite !Z_of_byte_of_Z in Hs.
    unfold u8 in Hs. by rewrite !wrap_small in Hs.
  - assert (le_value (le_bytes 4 t1) = le_value (le_bytes 4 t2)) as H by by rewrite Ht.
    rewrite !le_value_bytes in H. by rewrite !wrap_small in H.
Qed.

(** ** What the reader computes *)

(** The reader as a function of the bytes. *)
Definition parse_header (data : list byte) : option internal_packet_header_t :=
  match data with
  | b0 :: b1 :: b2 :: s :: t0 :: t1 :: t2 :: t3 :: _ =>
      if decide (char_of_byte <$> [b0; b1; b2] = k_magic_bytes)
      then Some (header_create (Z_of_byte s) (le_value [t0; t1; t2; t3]))
      else None
  | _ => None
  end.

Section reader.
Context {W : Type}.

Lemma unpack_short (data : list byte) (size : Z) (w : W) :
  size < 8 → unpack_internal_packet_header data size w = Done None w.
Proof. intros. unfold unpack_internal_packet_header. rewrite decide_True; [done|]. by rewrite sizeof_header_8. Qed.

(** The magic loop compares the bytes at the cursor with the magic bytes. *)
Lemma check_magic_Done (pre bs post : list byte) (cursor : Z) (magic : list Z) (w : W) :
  cursor = length pre → length bs = length magic →
  check_magic (pre ++ bs ++ post) cursor magic w
  = Done (bool_decide (char_of_byte <$> bs = magic)) w.
Proof.
  revert pre bs cursor. induction magic as [|m magic IH]; intros pre bs cursor -> Hlen.
  { by destruct bs. }
  destruct bs as [|b bs]; [done|]. cbn [check_magic app].
  rewrite (bind_Done _ _ w b w).
  2: { apply read_byte_Done; [lia|]. by rewrite Nat2Z.id, list_lookup_middle. }
  case_decide as Hb.
  - rewrite bool_decide_eq_false_2; [done|]. simpl. congruence.
  - rewrite cons_middle, (app_assoc pre), (IH (pre ++ [b]) bs).
    + f_equal. apply bool_decide_ext. simpl. split; [intros <-; by rewrite <- Hb|by intros [= _ ?]].
    + rewrite length_app. simpl. lia.
    + simpl in Hlen. lia.
Qed.

(** The reader never faults on the bytes it is given, and decides [parse_header]. *)
Lemma unpack_Done (data : list byte) (w : W) :
  unpack_internal_packet_header data (length data) w = Done (parse_header data) w.
Proof.
  destruct (decide (length data < 8)) as [Hlt|Hge].
  { rewrite unpack_short by done.
    by do 8 (destruct data as [|? data]; [done|simpl in Hlt]); lia. }
  do 8 (destruct data as [|? data]; [simpl in Hge; lia|]). clear Hge.
  unfold unpack_internal_packet_header, parse_header.
  rewrite decide_False by (rewrite sizeof_header_8; simpl; lia).
  rewrite (bind_Done _ _ _ _ _
    (check_magic_Done [] [b; b0; b1] (b2 :: b3 :: b4 :: b5 :: b6 :: data) 0 k_magic_bytes w eq_refl eq_refl)).
  case_bool_decide; case_decide; try done.
  pose (mem := b :: b0 :: b1 :: b2 :: b3 :: b4 :: b5 :: b6 :: data). fold mem.
  rewrite (bind_Done _ _ _ _ _ (read_byte_Done mem 3 b2 w ltac:(done) eq_refl)).
  rewrite (bind_Done _ _ _ _ _ (read_bytes_Done mem 4 4 w ltac:(done) ltac:(done) ltac:(simpl; lia))).
  done.
Qed.

Lemma parse_header_bytes h payload :
  header_wf h → parse_header (header_bytes h ++ payload) = Some h.
Proof.
  destruct h as [m s t]. intros (Hm & Hs & Ht). simpl in Hm, Hs, Ht. subst m.
  change (parse_header _) with
    (if decide (char_of_byte <$> m_magic_header header_default = k_magic_bytes)
     then Some (header_create (Z_of_byte (byte_of_Z s)) (le_value (le_bytes 4 t)))
     else None).
  rewrite decide_True by (by vm_compute).
  rewrite Z_of_byte_of_Z, le_value_bytes. unfold u8. by rewrite !wrap_small.
Qed.

Lemma parse_header_Some data h :
  parse_header data = Some h → header_wf h ∧ data = header_bytes h ++ drop 8 data.
Proof.
  unfold parse_header. intros Hp.
  do 8 (destruct data as [|? data]; [done|]).
  case_decide as Hmagic; [|done]. injection Hp as <-. injection Hmagic as H0 H1 H2. split.
  - apply header_wf_create; [apply Z_of_byte_fits|]. apply (le_value_fits [_; _; _; _]).
  - unfold header_bytes. cbn [header_create m_serde_type m_packet_type].
    rewrite byte_of_Z_of_byte.
    change 4%nat with (length [b3; b4; b5; b6]). rewrite le_bytes_value.
    by rewrite (char_of_byte_eq _ _ H0 eq_refl), (char_of_byte_eq _ _ H1 eq_refl),
      (char_of_byte_eq _ _ H2 eq_refl).
Qed.
End reader.

(** ** What the writer does *)

Section writer.
Context {W : Type}.

(** The magic loop is a [memcpy] of the converted characters. *)
Lemma write_magic_memcpy (buf : list byte) (cursor : Z) (magic : list Z) (w : W) :
  write_magic buf cursor magic w = memcpy_to buf cursor (byte_of_Z <$> magic) w.
Proof.
  revert buf cursor w. induction magic as [|m magic IH]; intros; [done|]. simpl.
  unfold mbind, M_bind. destruct (write_byte _ _ _ w); [apply IH|done].
Qed.

Lemma write_header_Done (h : internal_packet_header_t) (old rest : list byte) (w : W) :
  length old = 8%nat →
  write_internal_packet_header (old ++ rest) h w = Done (header_bytes h ++ rest, 8) w.
Proof.
  intros Hlen. destruct old as [|a [|b [|c [|d old]]]]; try done.
  pose (magic := byte_of_Z <$> k_magic_bytes).
  pose (ty := le_bytes 4 (m_packet_type h)).
  assert (length ty = 4%nat) by apply length_le_bytes.
  unfold write_internal_packet_header.
  erewrite bind_Done.
  2: { rewrite write_magic_memcpy. by apply (memcpy_to_Done magic [] [a; b; c] ((d :: old) ++ rest)). }
  erewrite bind_Done; [|by apply (write_byte_Done magic)].
  erewrite bind_Done.
  2: { change (magic ++ ?x :: ?l) with ((magic ++ [x]) ++ l).
       apply (memcpy_to_Done ty (magic ++ [_]) old rest); [done|]. simpl in Hlen. lia. }
  done.
Qed.
End writer.
