(* ===== verification/Serde.v ===== *)
(** * Packet serializers

    [src/kb/net/serde/*.hpp] and the traits of [src/kb/net/udp/serde.hpp].

    [PacketDeserializer] and [PacketSerializer] are the static interface the
    CRTP base [BasePacketSerializer] forwards to; [PacketSerializerLaws] is what
    the packet clients and servers rely on.  [BinaryPacketSerializer] and
    [MsgpackPacketSerializer] are its two instances.  The msgpack library and
    the ABI's object representations enter through classes. *)

From S2P Require Import Prelude Bytes NetworkTypes Packet.
Import Strings.Byte.
Local Open Scope Z_scope.

(** ** What is outside the repository *)

(** [new u8[n]]: storage of [n] bytes with unspecified contents. *)
Class Allocator := new_u8 : Z → list byte.
Class AllocatorLaws `{Allocator} := length_new_u8 : ∀ n, 0 ≤ n → Z.of_nat (length (new_u8 n)) = n.

(** Trivially copyable types: an object representation of fixed size. *)
Class TriviallyCopyable (T : Type) := {
  sizeof_T : Z;
  obj_bytes : T → list byte;
  of_obj_bytes : list byte → T;
}.
Class TriviallyCopyableLaws T `{TriviallyCopyable T} := {
  length_obj_bytes x : Z.of_nat (length (obj_bytes x)) = sizeof_T (T:=T);
  of_obj_bytes_bytes x : of_obj_bytes (obj_bytes x) = x;
  sizeof_T_bound : sizeof_T (T:=T) < 2 ^ 63;   (** no object is larger *)
}.

(** msgpack: [pack], [unpack] and [object::convert]; [None] is a thrown
    [std::exception]. *)
Class MsgpackUnpack (obj : Type) := msgpack_unpack : list byte → option obj.
Class MsgpackAdaptor (T obj : Type) := {
  msgpack_pack : T → list byte;
  msgpack_convert : obj → option T;
}.
Class MsgpackLaws T obj `{MsgpackUnpack obj, MsgpackAdaptor T obj} := {
  msgpack_unpack_pack (x : T) :
    ∃ o : obj, msgpack_unpack (msgpack_pack x) = Some o ∧ msgpack_convert o = Some x;
  msgpack_pack_bound (x : T) : length (msgpack_pack (obj:=obj) x) < 2 ^ 63;
}.

(** ** The serializer interface *)

(** The [serde_traits] of a packet client or server: its serialization type
    and [deserialize_packet]. *)
Class PacketDeserializer (payload_t : Type) := {
  SerdeT : serialization_type_t;
  deserialize_packet_internal : ∀ {W}, list byte → Z → M W (option payload_t);
}.

Class PacketSerializer (B T payload_t : Type) `{PacketDeserializer payload_t} := {
  serialize_packet_internal :
    ∀ {W}, kb_connection_t → packet_type_t → T → M W (internal_packet_t B);
  payload_as_internal : ∀ {W}, payload_t → M W (option T);
}.

(** [BasePacketSerializer]: static dispatch to the derived class. *)
Definition serialize_packet `{PacketSerializer B T payload_t} {W}
    (p_conn : kb_connection_t) (p_packet_type : packet_type_t) (p_obj : T)
    : M W (internal_packet_t B) :=
  serialize_packet_internal p_conn p_packet_type p_obj.

Definition deserialize_packet `{PacketDeserializer payload_t} {W}
    (p_payload : list byte) (p_payload_size : Z) : M W (option payload_t) :=
  deserialize_packet_internal p_payload p_payload_size.

Definition payload_as `{PacketSerializer B T payload_t} {W} (p_payload : payload_t)
    : M W (option T) :=
  payload_as_internal p_payload.

(** What a serializer promises: serializing does not fault; the buffer is a
    header followed by a body; the body deserializes and converts back to the
    object.  [wire_packet_type] is the packet type the header on the wire
    carries for a requested one. *)
Class PacketSerializerLaws B T payload_t `{OwningBuffer B, PacketSerializer B T payload_t} := {
  wire_packet_type : packet_type_t → packet_type_t;
  wire_packet_type_fits t : fits 32 t → fits 32 (wire_packet_type t);
  SerdeT_fits : fits 8 SerdeT;
  serialize_packet_law W (conn : kb_connection_t) (t : packet_type_t) (x : T) (w : W) :
    fits 32 t → ∃ pkt body payload,
      serialize_packet conn t x w = Done pkt w ∧
      m_pkt_conn pkt = conn ∧ m_header pkt = header_create SerdeT t ∧
      ob_data (m_buffer pkt) = header_bytes (header_create SerdeT (wire_packet_type t)) ++ body ∧
      ob_size (m_buffer pkt) = length (ob_data (m_buffer pkt)) ∧
      (∀ W' (w' : W'), deserialize_packet body (length body) w' = Done (Some payload) w') ∧
      (∀ W' (w' : W'), payload_as (B:=B) payload w' = Done (Some x) w');
}.

(** What a deserializer promises: it decodes exactly the bytes it is given and
    touches nothing else. *)
Class PacketDeserializerLaws payload_t `{PacketDeserializer payload_t} := {
  decode : list byte → option payload_t;
  deserialize_law W (bytes : list byte) (w : W) :
    deserialize_packet bytes (length bytes) w = Done (decode bytes) w;
}.

(** ** [BinaryPacketSerializer] *)

(** [std::span<const char>]: a pointer into a buffer and a size. *)
Record span := Span { span_data : list byte; span_size : Z }.

Section binary.
Context {B : Type} `{OwningBuffer B} `{Allocator} {W : Type}.

(** [for (i = 0; i < p_size; ++i) buffer[cursor + i] = p_data[i]]. *)
Fixpoint copy_loop (buffer p_data : list byte) (cursor i : Z) (n : nat) : M W (list byte) :=
  match n with
  | O => mret buffer
  | S n =>
      b ← read_byte p_data i;
      buffer ← write_byte buffer (cursor + i) b;
      copy_loop buffer p_data cursor (i + 1) n
  end.

(** [BinaryPacketSerializer::serialize]. *)
Definition serialize (p_conn : kb_connection_t) (p_data : list byte) (p_size : Z)
    (p_packet_type : packet_type_t) : M W (internal_packet_t B) :=
  let data_size := u64 (sizeof_header + p_size) in
  let buffer := new_u8 data_size in
  '(buffer, cursor) ←
    write_internal_packet_header buffer (header_create serde_bin (packet_id_value unknown));
  buffer ← copy_loop buffer p_data cursor 0 (Z.to_nat p_size);
  mret (Packet (header_create serde_bin p_packet_type) (ob_consume buffer data_size) p_conn).

Definition binary_serialize_packet_internal `{TriviallyCopyable T}
    (p_conn : kb_connection_t) (p_packet_type : packet_type_t) (p_payload : T)
    : M W (internal_packet_t B) :=
  serialize p_conn (obj_bytes p_payload) (sizeof_T (T:=T)) p_packet_type.

Definition binary_deserialize_packet_internal (p_payload : list byte) (p_payload_size : Z)
    : M W (option span) :=
  mret (Some (Span p_payload p_payload_size)).

Definition binary_payload_as_internal `{TriviallyCopyable T} (p_payload : span)
    : M W (option T) :=
  if decide (span_size p_payload ≠ sizeof_T (T:=T)) then mret None
  else
    raw ← read_bytes (span_data p_payload) 0 (sizeof_T (T:=T));
    mret (Some (of_obj_bytes raw)).

(** The copy loop is a [memcpy] of the bytes it reads. *)
Lemma copy_loop_memcpy (src pre post buffer : list byte) (cursor i : Z) (w : W) :
  i = length pre →
  copy_loop buffer (pre ++ src ++ post) cursor i (length src) w
  = memcpy_to buffer (cursor + i) src w.
Proof.
  revert pre buffer i. induction src as [|b src IH]; intros pre buffer i ->; [done|].
  cbn [length copy_loop memcpy_to app].
  rewrite (bind_Done _ _ w b w).
  2: { apply read_byte_Done; [lia|]. by rewrite Nat2Z.id, list_lookup_middle. }
  unfold mbind, M_bind. destruct (write_byte _ _ b w) as [buf w'|] eqn:Hw; [|done].
  assert (w' = w) as ->.
  { unfold write_byte, mret, M_ret, fail in Hw. case_decide; congruence. }
  rewrite cons_middle, (app_assoc pre), (IH (pre ++ [b])).
  - f_equal. lia.
  - rewrite length_app. simpl. lia.
Qed.

Lemma copy_loop_all (src buffer : list byte) (cursor : Z) (w : W) :
  copy_loop buffer src cursor 0 (length src) w = memcpy_to buffer cursor src w.
Proof.
  pose proof (copy_loop_memcpy src [] [] buffer cursor 0 w eq_refl) as Hc.
  by rewrite app_nil_r, Z.add_0_r in Hc.
Qed.

Context `{!AllocatorLaws}.

(** The result of [serialize]: the header on the wire, then the data; no byte
    of the fresh buffer is left uninitialised. *)
Lemma serialize_Done (conn : kb_connection_t) (data : list byte) (t : packet_type_t) (w : W) :
  fits 64 (8 + length data) →
  serialize conn data (length data) t w
  = Done (Packet (header_create serde_bin t)
            (ob_consume (header_bytes (header_create serde_bin (packet_id_value unknown)) ++ data)
               (8 + length data)) conn) w.
Proof.
  intros Hfits. unfold serialize. rewrite sizeof_header_8.
  unfold u64. rewrite wrap_small by done.
  pose proof (length_new_u8 (8 + length data) ltac:(lia)) as Hnew.
  rewrite <- (take_drop 8 (new_u8 _)).
  erewrite bind_Done; [|apply write_header_Done; rewrite length_take; lia].
  rewrite Nat2Z.id. erewrite bind_Done; [done|].
  rewrite copy_loop_all, <- (app_nil_r (drop _ _)).
  rewrite (memcpy_to_Done data); [by rewrite app_nil_r|done|].
  rewrite length_drop. lia.
Qed.
End binary.

(** The trait [serializer_traits<serialization_type_t::bin>]. *)
#[export] Instance binary_deserializer : PacketDeserializer span := {|
  SerdeT := serde_bin;
  deserialize_packet_internal W := binary_deserialize_packet_internal;
|}.

#[export] Instance binary_serializer `{OwningBuffer B, Allocator, TriviallyCopyable T} :
    PacketSerializer B T span := {|
  serialize_packet_internal W := binary_serialize_packet_internal;
  payload_as_internal W := binary_payload_as_internal;
|}.

(** The contract holds of the binary serializer with one restriction: whatever
    type is asked for, the wire header says [unknown]. *)
#[export] Instance binary_serializer_laws `{OwningBufferLaws B, AllocatorLaws, TriviallyCopyableLaws T} :
    PacketSerializerLaws B T span.
Proof.
  refine {| wire_packet_type _ := packet_id_value unknown |}.
  - done.
  - done.
  - intros W conn t x w _.
    pose proof (length_obj_bytes x) as Hlen. pose proof (sizeof_T_bound (T:=T)) as Hsz.
    unfold serialize_packet, deserialize_packet, payload_as; simpl.
    unfold binary_serialize_packet_internal. rewrite <- Hlen, serialize_Done.
    2: { unfold fits. lia. }
    do 3 eexists. split; [done|]. cbn [m_pkt_conn m_header m_buffer].
    replace (8 + length (obj_bytes x))
      with (Z.of_nat (length (header_bytes (header_create serde_bin (packet_id_value unknown)) ++ obj_bytes x)))
      by (rewrite length_app, length_header_bytes; lia).
    rewrite ob_data_consume, ob_size_consume.
    do 4 (split; [done|]). split; [done|]. intros W' w'.
    unfold binary_payload_as_internal. cbn [span_size span_data].
    rewrite decide_False by (by rewrite Hlen; auto).
    rewrite <- Hlen, (bind_Done _ _ _ _ _ (read_bytes_all _ w')).
    by rewrite of_obj_bytes_bytes.
Defined.

(** ** [MsgpackPacketSerializer] *)

Section msgpack.
Context {B : Type} `{OwningBuffer B} `{Allocator} {W obj : Type} `{MsgpackUnpack obj}.

Definition msgpack_serialize_packet_internal `{MsgpackAdaptor T obj}
    (p_conn : kb_connection_t) (p_packet_type : packet_type_t) (p_object : T)
    : M W (internal_packet_t B) :=
  let header := header_create serde_msgpack p_packet_type in
  let data_ptr := msgpack_pack p_object in
  let write_size := Z.of_nat (length data_ptr) in
  let packet_buffer_size := u64 (write_size + sizeof_header) in
  let packet_buffer := new_u8 packet_buffer_size in
  '(packet_buffer, cursor) ← write_internal_packet_header packet_buffer header;
  src ← read_bytes data_ptr 0 write_size;
  packet_buffer ← memcpy_to packet_buffer cursor src;
  mret (Packet header (ob_consume packet_buffer packet_buffer_size) p_conn).

Definition msgpack_deserialize_packet_internal (p_payload : list byte) (p_payload_size : Z)
    : M W (option obj) :=
  raw ← read_bytes p_payload 0 p_payload_size;
  mret (msgpack_unpack raw).

Definition msgpack_payload_as_internal `{MsgpackAdaptor T obj} (p_payload : obj)
    : M W (option T) :=
  mret (msgpack_convert p_payload).

Context `{!AllocatorLaws}.

Lemma msgpack_serialize_Done `{MsgpackAdaptor T obj} (conn : kb_connection_t)
    (t : packet_type_t) (x : T) (w : W) :
  fits 64 (8 + length (msgpack_pack x)) →
  msgpack_serialize_packet_internal conn t x w
  = Done (Packet (header_create serde_msgpack t)
            (ob_consume (header_bytes (header_create serde_msgpack t) ++ msgpack_pack x)
               (8 + length (msgpack_pack x))) conn) w.
Proof.
  intros Hfits. unfold msgpack_serialize_packet_internal.
  rewrite sizeof_header_8, Z.add_comm. unfold u64. rewrite wrap_small by done.
  pose proof (length_new_u8 (8 + length (msgpack_pack x)) ltac:(lia)) as Hnew.
  rewrite <- (take_drop 8 (new_u8 _)).
  erewrite bind_Done; [|apply write_header_Done; rewrite length_take; lia].
  cbv beta iota. erewrite bind_Done; [|apply read_bytes_all].
  erewrite bind_Done; [done|].
  rewrite <- (app_nil_r (drop _ _)).
  rewrite (memcpy_to_Done (msgpack_pack x)); [by rewrite app_nil_r|done|].
  rewrite length_drop. lia.
Qed.
End msgpack.

(** The trait [serializer_traits<serialization_type_t::msgpack>]. *)
#[export] Instance msgpack_deserializer `{MsgpackUnpack obj} : PacketDeserializer obj := {|
  SerdeT := serde_msgpack;
  deserialize_packet_internal W := msgpack_deserialize_packet_internal;
|}.

#[export] Instance msgpack_serializer `{OwningBuffer B, Allocator, MsgpackUnpack obj, MsgpackAdaptor T obj} :
    PacketSerializer B T obj := {|
  serialize_packet_internal W := msgpack_serialize_packet_internal;
  payload_as_internal W := msgpack_payload_as_internal;
|}.

#[export] Instance msgpack_serializer_laws
    `{OwningBufferLaws B, AllocatorLaws, MsgpackLaws T obj} :
    PacketSerializerLaws B T obj.
Proof.
  refine {| wire_packet_type t := t |}.
  - done.
  - done.
  - intros W conn t x w _.
    destruct (msgpack_unpack_pack x) as (o & Hunpack & Hconv).
    pose proof (msgpack_pack_bound x) as Hsz.
    unfold serialize_packet, deserialize_packet, payload_as; simpl.
    rewrite msgpack_serialize_Done by (unfold fits; lia).
    exists (Packet (header_create serde_msgpack t)
      (ob_consume (header_bytes (header_create serde_msgpack t) ++ msgpack_pack x)
                 (8 + length (msgpack_pack x))) conn), (msgpack_pack x), o.
    split; [done|]. cbn [m_pkt_conn m_header m_buffer].
    replace (8 + length (msgpack_pack x))
      with (Z.of_nat (length (header_bytes (header_create serde_msgpack t) ++ msgpack_pack x)))
      by (rewrite length_app, length_header_bytes; lia).
    rewrite ob_data_consume, ob_size_consume.
    do 4 (split; [done|]). split.
    + intros W' w'. unfold msgpack_deserialize_packet_internal.
      rewrite (bind_Done _ _ _ _ _ (read_bytes_all _ w')). by rewrite Hunpack.
    + intros W' w'. unfold msgpack_payload_as_internal. by rewrite Hconv.
Defined.

(** ** Deserializers are functions of the bytes *)

#[export] Instance binary_deserializer_laws : PacketDeserializerLaws span.
Proof. by refine {| decode bytes := Some (Span bytes (length bytes)) |}. Defined.

#[export] Instance msgpack_deserializer_laws `{MsgpackUnpack obj} : PacketDeserializerLaws obj.
Proof.
  refine {| decode bytes := msgpack_unpack bytes |}.
  intros W bytes w. unfold deserialize_packet. simpl. unfold msgpack_deserialize_packet_internal.
  rewrite (bind_Done _ _ _ _ _ (read_bytes_all bytes w)). by destruct (msgpack_unpack bytes).
Defined.

(** What a receiver needs of the conversion of payloads it has deserialized. *)
Class PayloadConversionLaws B T payload_t
    `{PacketSerializer B T payload_t, !PacketDeserializerLaws payload_t} := {
  convert : payload_t → option T;
  convert_law W (bytes : list byte) (payload : payload_t) (w : W) :
    decode bytes = Some payload → payload_as (B:=B) payload w = Done (convert payload) w;
}.

#[export] Instance binary_conversion_laws `{OwningBuffer B, Allocator, TriviallyCopyableLaws T} :
    PayloadConversionLaws B T span.
Proof.
  refine {| convert s := if decide (span_size s = sizeof_T (T:=T))
                         then Some (of_obj_bytes (span_data s)) else None |}.
  intros W bytes payload w [= <-]. unfold payload_as. simpl. unfold binary_payload_as_internal.
  cbn [span_size span_data]. destruct (decide (Z.of_nat (length bytes) = sizeof_T (T:=T))) as [Hsz|Hsz].
  - rewrite decide_False by (intros Hne; done). rewrite <- Hsz.
    by rewrite (bind_Done _ _ _ _ _ (read_bytes_all bytes w)).
  - by rewrite decide_True.
Defined.

#[export] Instance msgpack_conversion_laws
    `{OwningBuffer B, Allocator, MsgpackUnpack obj, MsgpackAdaptor T obj} :
    PayloadConversionLaws B T obj.
Proof. by refine {| convert o := msgpack_convert o |}. Defined.
