(* ===== verification/Runtime.v ===== *)
(** * The runtime the sockets code runs on

    The GameNetworkingSockets interface ([ISteamNetworkingSockets]), which is
    not part of the repository, as calls recorded in a trace and answered by a
    parameter ([SteamSockets]); the heap of C++ objects of one class; the file
    static [s_instance]; and the thread that executes. *)

From S2P Require Import Prelude Bytes NetworkTypes.
Import Strings.Byte.
Local Open Scope Z_scope.

(** ** The Steam networking interface *)

Inductive EResult := k_EResultOK | k_EResultFail (code : Z).

#[export] Instance EResult_eq_decision : EqDecision EResult.
Proof. solve_decision. Defined.

(** [ESteamNetworkingConnectionState]; the code names five of its values. *)
Inductive conn_state :=
| StateNone | StateConnecting | StateConnected | StateClosedByPeer
| StateProblemDetectedLocally | StateOther.

#[export] Instance conn_state_eq_decision : EqDecision conn_state.
Proof. solve_decision. Defined.

Inductive send_flags := SendReliable | SendUnreliable.

(** The members of [SteamNetConnectionStatusChangedCallback_t] the code reads. *)
Record status_changed := StatusChanged {
  sc_conn : kb_connection_t;       (** [m_hConn] *)
  sc_state : conn_state;           (** [m_info.m_eState] *)
  sc_old_state : conn_state;       (** [m_eOldState] *)
}.

(** [SteamNetworkingMessage_t]. *)
Record steam_message := SteamMessage {
  msg_conn : kb_connection_t;      (** [m_conn] *)
  m_pData : list byte;
  m_cbSize : Z;                    (** an [int] *)
}.

(** Calls through [ISteamNetworkingSockets *], and the accessor itself. *)
Inductive steam_call (A : Type) :=
| SteamNetworkingSockets
| CreateListenSocketIP (port : Z)
| CloseListenSocket (socket : Z)
| CreatePollGroup
| DestroyPollGroup (group : Z)
| AcceptConnection (conn : kb_connection_t)
| CloseConnection (conn : kb_connection_t) (reason : Z) (debug : option string) (linger : bool)
| SetConnectionPollGroup (conn : kb_connection_t) (group : Z)
| GetConnectionInfo (conn : kb_connection_t)
| ConnectByIPAddress (addr : A)
| SendMessageToConnection (conn : kb_connection_t) (data : list byte) (flags : send_flags)
| ReceiveMessagesOnPollGroup (group max : Z)
| ReceiveMessagesOnConnection (conn : kb_connection_t) (max : Z)
| ReleaseMessage (msg : steam_message)
| RunCallbacks.
Arguments SteamNetworkingSockets {A}.
Arguments CreateListenSocketIP {A}.
Arguments CloseListenSocket {A}.
Arguments CreatePollGroup {A}.
Arguments DestroyPollGroup {A}.
Arguments AcceptConnection {A}.
Arguments CloseConnection {A}.
Arguments SetConnectionPollGroup {A}.
Arguments GetConnectionInfo {A}.
Arguments ConnectByIPAddress {A}.
Arguments SendMessageToConnection {A}.
Arguments ReceiveMessagesOnPollGroup {A}.
Arguments ReceiveMessagesOnConnection {A}.
Arguments ReleaseMessage {A}.
Arguments RunCallbacks {A}.

(** What each call answers.  [RunCallbacks] answers the status changes it
    dispatches, in order, to the registered callback. *)
Definition answer {A} (c : steam_call A) : Type :=
  match c with
  | SteamNetworkingSockets => bool               (** the pointer is not null *)
  | CreateListenSocketIP _ | CreatePollGroup | ConnectByIPAddress _ => Z
  | AcceptConnection _ | SendMessageToConnection _ _ _ => EResult
  | SetConnectionPollGroup _ _ => bool
  | GetConnectionInfo _ => A                     (** [m_addrRemote] *)
  | ReceiveMessagesOnPollGroup _ _ | ReceiveMessagesOnConnection _ _ =>
      Z * list steam_message                     (** the [int] and the slots filled *)
  | RunCallbacks => list status_changed
  | _ => unit
  end.

(** The library: an answer to every call after every history of calls. *)
Class SteamSockets (A : Type) := steam_answer : list (steam_call A) → ∀ c : steam_call A, answer c.

(** ** Handles *)

(** The poll group [g] was created and has not been destroyed since. *)
Definition poll_group_live `{SteamSockets A} (tr : list (steam_call A)) (g : Z) : Prop :=
  g ≠ 0 ∧ ∃ tr1 tr2, tr = tr1 ++ CreatePollGroup :: tr2 ∧
    steam_answer tr1 CreatePollGroup = g ∧ DestroyPollGroup g ∉ tr2.

(** The connection [c] was opened by [ConnectByIPAddress] and is not closed. *)
Definition conn_live `{SteamSockets A} (tr : list (steam_call A)) (c : Z) : Prop :=
  c ≠ 0 ∧ ∃ tr1 tr2 a, tr = tr1 ++ ConnectByIPAddress a :: tr2 ∧
    steam_answer tr1 (ConnectByIPAddress a) = c ∧
    (∀ r d l, CloseConnection c r d l ∉ tr2).

(** A filled array: the count is the number of slots written, whose sizes are
    those of their data. *)
Definition receive_ok (max : Z) (r : Z * list steam_message) : Prop :=
  r.1 = length r.2 ∧ length r.2 ≤ max ∧
  Forall (λ m, m_cbSize m = length (m_pData m) ∧ m_cbSize m < 2 ^ 31) r.2.

(** The documented behaviour the code relies on. *)
Class SteamLaws A `{SteamSockets A} := {
  receive_invalid_group tr max : steam_answer tr (ReceiveMessagesOnPollGroup 0 max) = (-1, []);
  receive_live_group tr g max : 0 ≤ max → poll_group_live tr g →
    receive_ok max (steam_answer tr (ReceiveMessagesOnPollGroup g max));
  create_group_fresh tr : ¬ poll_group_live tr (steam_answer tr CreatePollGroup);
  receive_live_conn tr c max : 0 ≤ max → conn_live tr c →
    receive_ok max (steam_answer tr (ReceiveMessagesOnConnection c max));
  receive_closed_conn tr c max : ¬ conn_live tr c →
    steam_answer tr (ReceiveMessagesOnConnection c max) = (-1, []);
}.

(** [Sequential]: one operation at a time.  [Interleaved]: operations of other
    threads may come between the two halves of a [stop], so a stopped object can
    still have its thread. *)
Inductive threading := Sequential | Interleaved.

(** ** Worlds *)

(** The address of an object. *)
Definition ptr : Type := positive.

(** The objects of class [O], the static [s_instance] of its file, the object
    whose network thread is executing ([None]: another thread), the calls made
    so far, and whatever user callbacks act on. *)
Record world (A O U : Type) := World {
  w_objs : gmap positive O;
  s_instance : option positive;
  w_thread : option positive;
  w_trace : list (steam_call A);
  w_user : U;
}.
Arguments World {A O U}.
Arguments w_objs {A O U}.
Arguments s_instance {A O U}.
Arguments w_thread {A O U}.
Arguments w_trace {A O U}.
Arguments w_user {A O U}.

Section worlds.
Context {A O U : Type}.
Implicit Types w : world A O U.

Definition with_objs (f : gmap positive O → gmap positive O) w : world A O U :=
  World (f (w_objs w)) (s_instance w) (w_thread w) (w_trace w) (w_user w).
Definition with_obj (p : positive) (o : O) w : world A O U := with_objs <[p := o]> w.
Definition with_instance (i : option positive) w : world A O U :=
  World (w_objs w) i (w_thread w) (w_trace w) (w_user w).
Definition with_thread (t : option positive) w : world A O U :=
  World (w_objs w) (s_instance w) t (w_trace w) (w_user w).
Definition with_calls (cs : list (steam_call A)) w : world A O U :=
  World (w_objs w) (s_instance w) (w_thread w) (w_trace w ++ cs) (w_user w).
Definition with_user (f : U → U) w : world A O U :=
  World (w_objs w) (s_instance w) (w_thread w) (w_trace w) (f (w_user w)).

(** Access to the object at [p]; a dangling pointer faults. *)
Definition deref (p : positive) : M (world A O U) O :=
  λ w, or_fault NullDeref (w_objs w !! p) w.

Definition update (p : positive) (f : O → O) : M (world A O U) unit :=
  o ← deref p; modify (with_obj p (f o)).

Definition call `{SteamSockets A} (c : steam_call A) : M (world A O U) (answer c) :=
  λ w, Done (steam_answer (w_trace w) c) (with_calls [c] w).

(** Runs [m] on the network thread of the object at [p]. *)
Definition on_thread {R} (p : positive) (m : M (world A O U) R) : M (world A O U) R :=
  t ← gets w_thread;
  modify (with_thread (Some p)) ;;
  r ← m;
  modify (with_thread t) ;;
  mret r.

Lemma deref_Done p o w : w_objs w !! p = Some o → deref p w = Done o w.
Proof. unfold deref. by intros ->. Qed.

Lemma update_Done p f o w :
  w_objs w !! p = Some o → update p f w = Done tt (with_obj p (f o) w).
Proof. intros Ho. unfold update. by rewrite (bind_Done _ _ _ _ _ (deref_Done _ _ _ Ho)). Qed.

Lemma w_objs_with_obj p o w : w_objs (with_obj p o w) = <[p := o]> (w_objs w).
Proof. done. Qed.

Lemma lookup_with_obj p o w : w_objs (with_obj p o w) !! p = Some o.
Proof. apply lookup_insert_eq. Qed.

Lemma lookup_with_obj_ne p q o w :
  p ≠ q → w_objs (with_obj p o w) !! q = w_objs w !! q.
Proof. apply lookup_insert_ne. Qed.

Lemma with_obj_with_obj p o o' w : with_obj p o (with_obj p o' w) = with_obj p o w.
Proof. unfold with_obj, with_objs. simpl. by rewrite insert_insert_eq. Qed.

Lemma with_obj_id p o w : w_objs w !! p = Some o → with_obj p o w = w.
Proof. intros Ho. destruct w. unfold with_obj, with_objs. simpl in *. by rewrite insert_id. Qed.

Lemma with_calls_app cs cs' w : with_calls cs' (with_calls cs w) = with_calls (cs ++ cs') w.
Proof. unfold with_calls. simpl. by rewrite app_assoc. Qed.

Lemma with_calls_nil w : with_calls [] w = w.
Proof. destruct w. unfold with_calls. simpl. by rewrite app_nil_r. Qed.

Lemma with_calls_with_obj cs p o w :
  with_calls cs (with_obj p o w) = with_obj p o (with_calls cs w).
Proof. done. Qed.

Lemma with_instance_with_obj i p o w :
  with_instance i (with_obj p o w) = with_obj p o (with_instance i w).
Proof. done. Qed.

Lemma with_calls_with_instance cs i w :
  with_calls cs (with_instance i w) = with_instance i (with_calls cs w).
Proof. done. Qed.
End worlds.

(** Two worlds with the same objects and the same executing thread. *)
Section shapes.
Context {A O U : Type}.
Implicit Types (w : world A O U) (o : O) (p : positive).

Definition same_shape w w' : Prop :=
  dom (w_objs w') = dom (w_objs w) ∧ w_thread w' = w_thread w.

#[global] Instance same_shape_preorder : PreOrder same_shape.
Proof.
  split; [done|]. intros w1 w2 w3 [H1 H2] [H3 H4]. unfold same_shape. split; congruence.
Qed.

Lemma same_shape_lookup w w' p : same_shape w w' → is_Some (w_objs w !! p) → is_Some (w_objs w' !! p).
Proof. intros [Hdom _] Hp. apply elem_of_dom. rewrite Hdom. by apply elem_of_dom. Qed.

Lemma same_shape_with_obj w v p s s' :
  w_objs w !! p = Some s → w_objs v = w_objs w → w_thread v = w_thread w →
  same_shape w (with_obj p s' v).
Proof.
  intros Hs Hobjs Hth. split; [|done]. rewrite w_objs_with_obj, Hobjs, dom_insert_L.
  apply subseteq_union_1_L, singleton_subseteq_l. by apply elem_of_dom.
Qed.

Lemma same_shape_with_calls w cs : same_shape w (with_calls cs w).
Proof. done. Qed.
End shapes.

(** ** User code *)

(** What callbacks may rely on, given the addresses of the objects alive and
    the user's state, and what they change of that state. *)
Class CallbackContract (U : Type) := {
  user_frame : relation U;
  user_frame_preorder :: PreOrder user_frame;
  callback_pre : gset positive → U → Prop;
  callback_pre_frame D u u' : user_frame u u' → callback_pre D u → callback_pre D u';
}.

(** Callbacks that rely on nothing and may change all of their state. *)
Definition free_contract (U : Type) : CallbackContract U.
Proof.
  refine {| user_frame _ _ := True; callback_pre _ _ := True |}; [|done].
  by split.
Defined.

Section contracts.
Context {A O U : Type} `{CallbackContract U}.
Implicit Types w : world A O U.

Definition ready w : Prop := callback_pre (dom (w_objs w)) (w_user w).

(** The same objects and thread, and a change of the user's state callbacks
    are allowed to make. *)
Definition steady w w' : Prop := same_shape w w' ∧ user_frame (w_user w) (w_user w').

#[global] Instance steady_preorder : PreOrder steady.
Proof. split; [done|]. intros w1 w2 w3 [Hs Hu] [Hs' Hu']. split; by etrans. Qed.

Lemma same_shape_steady w w' : same_shape w w' → w_user w' = w_user w → steady w w'.
Proof. intros Hs Hu. split; [done|]. by rewrite Hu. Qed.

Lemma steady_ready w w' : steady w w' → ready w → ready w'.
Proof. intros [[Hdom _] Hu] Hr. unfold ready. rewrite Hdom. by eapply callback_pre_frame. Qed.

Lemma steady_lookup w w' p : steady w w' → is_Some (w_objs w !! p) → is_Some (w_objs w' !! p).
Proof. intros [Hs _]. by apply same_shape_lookup. Qed.
End contracts.

(** Worlds in normal form: one object update over an instance change over calls. *)
#[export] Hint Rewrite @with_obj_with_obj @with_calls_app @with_calls_nil
  @with_calls_with_obj @with_instance_with_obj @with_calls_with_instance : world.

Section wp_world.
Context {A O U : Type}.
Implicit Types w : world A O U.

Lemma wp_deref p Q w o : w_objs w !! p = Some o → Q o w → wp (deref p) Q w.
Proof. intros Ho HQ. by eapply wp_of_Done; [apply deref_Done|]. Qed.

Lemma wp_update p f Q w o :
  w_objs w !! p = Some o → Q tt (with_obj p (f o) w) → wp (update p f) Q w.
Proof. intros Ho HQ. by eapply wp_of_Done; [apply update_Done|]. Qed.

Lemma wp_call `{SteamSockets A} c Q w :
  Q (steam_answer (w_trace w) c) (with_calls [c] w) → wp (call c) Q w.
Proof. done. Qed.

Lemma wp_or_fault {R} e (o : option R) a Q w : o = Some a → Q a w → wp (or_fault e o) Q w.
Proof. by intros ->. Qed.

(** A computation that ends in a known result. *)
Lemma wp_eq {R} (m : M (world A O U) R) w a w' :
  wp m (λ b v, b = a ∧ v = w') w → m w = Done a w'.
Proof. unfold wp. destruct (m w) as [b v|e v]; [by intros [-> ->]|done]. Qed.

Lemma with_thread_twice (th th' : option positive) w : with_thread th (with_thread th' w) = with_thread th w.
Proof. done. Qed.

Lemma with_thread_id w : with_thread (w_thread w) w = w.
Proof. by destruct w. Qed.

Lemma on_thread_Done {R} p (m : M (world A O U) R) w r v :
  m (with_thread (Some p) w) = Done r v → on_thread p m w = Done r (with_thread (w_thread w) v).
Proof. unfold on_thread, gets, modify, mbind, M_bind. by intros ->. Qed.

Lemma on_thread_Fault {R} p (m : M (world A O U) R) w e v :
  m (with_thread (Some p) w) = Fault e v → on_thread p m w = Fault e v.
Proof. unfold on_thread, gets, modify, mbind, M_bind. by intros ->. Qed.

Lemma on_thread_skip p w : on_thread p skip w = Done tt w.
Proof. by destruct w. Qed.

Lemma on_thread_eq {R} p (m m' : M (world A O U) R) w :
  m (with_thread (Some p) w) = m' (with_thread (Some p) w) → on_thread p m w = on_thread p m' w.
Proof. unfold on_thread, gets, modify, mbind, M_bind. by intros ->. Qed.

Lemma on_thread_ext {R} p (m m' : M (world A O U) R) w :
  (∀ v, m v = m' v) → on_thread p m w = on_thread p m' w.
Proof. intros Hm. unfold on_thread, mbind, M_bind, gets, modify. by rewrite Hm. Qed.

(** Work on a thread can be cut where it stays on the thread. *)
Lemma on_thread_bind {R S} p (m : M (world A O U) R) (k : R → M (world A O U) S) w :
  (∀ r v, m (with_thread (Some p) w) = Done r v → w_thread v = Some p) →
  on_thread p (m ≫= k) w = (on_thread p m ≫= λ r, on_thread p (k r)) w.
Proof.
  intros Hm. unfold on_thread, gets, modify, mbind, M_bind, mret, M_ret.
  destruct (m (with_thread (Some p) w)) as [r v|e v] eqn:Hr; [|done].
  cbn [w_thread with_thread]. rewrite with_thread_twice.
  by rewrite <- (Hm r v eq_refl), with_thread_id.
Qed.

Lemma wp_on_thread {R} p (m : M (world A O U) R) Q w :
  wp m (λ r w', Q r (with_thread (w_thread w) w')) (with_thread (Some p) w) →
  wp (on_thread p m) Q w.
Proof.
  intros Hm. unfold on_thread. apply wp_bind, wp_gets, wp_bind, wp_modify, wp_bind.
  eapply wp_mono; [exact Hm|]. intros r w' HQ.
  by apply wp_bind, wp_modify, wp_ret.
Qed.
End wp_world.

(** Finds the object at a pointer in a world in normal form. *)
Ltac lookup_obj :=
  simpl; first [eassumption | apply lookup_insert_eq | by simplify_map_eq].

(** One step of symbolic execution of a [wp] goal. *)
Ltac wp_step :=
  lazymatch goal with
  | |- wp (mbind _ _) _ _ => apply wp_bind
  | |- wp (mret _) _ _ => apply wp_ret
  | |- wp skip _ _ => apply wp_skip
  | |- wp (gets _) _ _ => apply wp_gets
  | |- wp (modify _) _ _ => apply wp_modify
  | |- wp (deref _) _ _ => eapply wp_deref; [lookup_obj|]
  | |- wp (update _ _) _ _ => eapply wp_update; [lookup_obj|]
  | |- wp (call ?c) ?Q ?w => apply (wp_call c Q w)
  end; cbv beta; autorewrite with world.

Ltac wp_steps := repeat wp_step.

(** ** Operations that run no user code *)

Section private.
Context {A O U : Type}.
Local Abbreviation W := (world A O U).
Implicit Types w : W.

Definition after {R} (o : outcome W R) : W := match o with Done _ w | Fault _ w => w end.

(** They leave the user's state alone, even when they fault. *)
Definition private {R} (m : M W R) : Prop := ∀ w, w_user (after (m w)) = w_user w.

Lemma private_ret {R} (r : R) : private (mret r).
Proof. done. Qed.
Lemma private_skip : private skip.
Proof. done. Qed.
Lemma private_fail {R} e : private (fail (A:=R) e).
Proof. done. Qed.
Lemma private_gets {R} (f : W → R) : private (gets f).
Proof. done. Qed.
Lemma private_modify f : (∀ w, w_user (f w) = w_user w) → private (modify f).
Proof. intros Hf w. apply Hf. Qed.
Lemma private_or_fault {R} e (o : option R) : private (or_fault e o).
Proof. by destruct o. Qed.

Lemma private_bind {R S} (m : M W R) (k : R → M W S) :
  private m → (∀ r, private (k r)) → private (m ≫= k).
Proof.
  intros Hm Hk w. specialize (Hm w). unfold mbind, M_bind. destruct (m w) as [r v|]; [|done].
  simpl in Hm. by rewrite Hk.
Qed.

Lemma private_deref p : private (deref p).
Proof. intros w. unfold deref. by destruct (w_objs w !! p). Qed.
Lemma private_update p f : private (update p f).
Proof. apply private_bind; [apply private_deref|]. by intros o; apply private_modify. Qed.
Lemma private_call `{SteamSockets A} c : private (call c).
Proof. done. Qed.

Lemma private_for_each {X} (l : list X) (body : X → M W unit) :
  (∀ x, private (body x)) → private (for_each l body).
Proof. intros Hb. induction l; [done|]. by apply private_bind. Qed.

Lemma private_fold_each {X B} (l : list X) (acc : B) (body : B → X → M W B) :
  (∀ b x, private (body b x)) → private (fold_each l acc body).
Proof. intros Hb. revert acc. induction l; intros acc; [done|]. by apply private_bind. Qed.

Lemma wp_private {R} (m : M W R) Q w :
  private m → wp m Q w → wp m (λ r v, Q r v ∧ w_user v = w_user w) w.
Proof. intros Hm Hwp. specialize (Hm w). unfold wp in *. by destruct (m w). Qed.
End private.

Create HintDb private.
#[export] Hint Resolve private_ret private_skip private_fail private_gets private_or_fault
  private_deref private_update private_call private_for_each private_fold_each : private.
#[export] Hint Extern 1 (private (modify _)) => by apply private_modify : private.

(** Goes through an operation's definition. *)
Ltac private :=
  repeat first
    [ solve [eauto with private]
    | apply private_bind; [|intros ?]
    | progress intros
    | match goal with
      | |- private (match ?x with _ => _ end) => destruct x
      | |- private (if ?x then _ else _) => destruct x
      end
    | apply private_for_each
    | apply private_fold_each ].

(** ** Operations on one object *)

Section confined.
Context {A O U : Type}.
Local Abbreviation W := (world A O U).
Implicit Types w : W.

(** They leave the other objects alone. *)
Definition confined (p : positive) {R} (m : M W R) : Prop :=
  ∀ w r w', m w = Done r w' → ∀ q, q ≠ p → w_objs w' !! q = w_objs w !! q.

Lemma confined_steps p {R} (m : M W R) :
  (∀ w r w', m w = Done r w' → w_objs w' = w_objs w) → confined p m.
Proof. intros Hm w r w' Hex q _. by rewrite (Hm w r w' Hex). Qed.

Lemma confined_ret p {R} (r : R) : confined p (mret r).
Proof. apply confined_steps. by intros w r' w' [= _ <-]. Qed.
Lemma confined_skip p : confined p skip.
Proof. apply confined_ret. Qed.
Lemma confined_fail p {R} e : confined p (fail (A:=R) e).
Proof. by intros w r w' [=]. Qed.
Lemma confined_gets p {R} (f : W → R) : confined p (gets f).
Proof. apply confined_steps. by intros w r' w' [= _ <-]. Qed.
Lemma confined_or_fault p {R} e (o : option R) : confined p (or_fault e o).
Proof. destruct o; [apply confined_ret|apply confined_fail]. Qed.
Lemma confined_call p `{SteamSockets A} c : confined p (call c).
Proof. apply confined_steps. by intros w r' w' [= _ <-]. Qed.

Lemma confined_modify p f :
  (∀ w q, q ≠ p → w_objs (f w) !! q = w_objs w !! q) → confined p (modify f).
Proof. intros Hf w r w' [= _ <-]. apply Hf. Qed.

Lemma confined_bind p {R S} (m : M W R) (k : R → M W S) :
  confined p m → (∀ r, confined p (k r)) → confined p (m ≫= k).
Proof.
  intros Hm Hk w r w'. unfold mbind, M_bind. destruct (m w) as [x v|] eqn:Hx; [|done].
  intros Hr q Hq. rewrite (Hk x v r w' Hr q Hq). by eapply Hm.
Qed.

Lemma confined_deref p q : confined p (deref q).
Proof.
  apply confined_steps. intros w r w'. unfold deref. by destruct (w_objs w !! q); intros [= _ <-].
Qed.
Lemma confined_update p f : confined p (update p f).
Proof.
  apply confined_bind; [apply confined_deref|]. intros o. apply confined_modify.
  intros w q Hq. by apply lookup_with_obj_ne.
Qed.

Lemma confined_for_each p {X} (l : list X) (body : X → M W unit) :
  (∀ x, confined p (body x)) → confined p (for_each l body).
Proof. intros Hb. induction l; [apply confined_skip|]. by apply confined_bind. Qed.

Lemma confined_fold_each p {X B} (l : list X) (acc : B) (body : B → X → M W B) :
  (∀ b x, confined p (body b x)) → confined p (fold_each l acc body).
Proof.
  intros Hb. revert acc. induction l; intros acc; [apply confined_ret|]. by apply confined_bind.
Qed.
End confined.

Create HintDb confined.
#[export] Hint Resolve confined_ret confined_skip confined_fail confined_gets confined_or_fault
  confined_deref confined_update : confined.
#[export] Hint Extern 1 (confined _ (call ?c)) => exact (confined_call _ c) : confined.
#[export] Hint Extern 1 (confined _ (modify _)) =>
  apply confined_modify; intros; simpl;
  first [done | apply lookup_insert_ne; congruence | apply lookup_delete_ne; congruence] : confined.

(** Goes through an operation's definition. *)
Ltac confined :=
  repeat first
    [ solve [eauto with confined]
    | apply confined_bind; [|intros ?]
    | progress intros
    | match goal with
      | |- confined _ (match ?x with _ => _ end) => destruct x
      | |- confined _ (if ?x then _ else _) => destruct x
      end
    | apply confined_for_each
    | apply confined_fold_each ].

(** ** Traces *)

Section traces.
Context `{SteamSockets A}.

Lemma poll_group_live_app (tr cs : list (steam_call A)) (g : Z) :
  poll_group_live tr g → DestroyPollGroup g ∉ cs → poll_group_live (tr ++ cs) g.
Proof.
  intros (Hg0 & tr1 & tr2 & -> & Hg & Hd) Hcs. split; [done|]. exists tr1, (tr2 ++ cs).
  split_and!; [by rewrite <- app_assoc|done|]. by rewrite elem_of_app; intros [?|?].
Qed.

Lemma poll_group_live_create (tr : list (steam_call A)) :
  steam_answer tr CreatePollGroup ≠ 0 →
  poll_group_live (tr ++ [CreatePollGroup]) (steam_answer tr CreatePollGroup).
Proof.
  intros Hg. split; [done|]. exists tr, []. split_and!; [done|done|]. apply not_elem_of_nil.
Qed.

Lemma conn_live_app (tr cs : list (steam_call A)) (c : Z) :
  conn_live tr c → (∀ r d l, CloseConnection c r d l ∉ cs) → conn_live (tr ++ cs) c.
Proof.
  intros (Hc0 & tr1 & tr2 & a & -> & Hc & Hd) Hcs. split; [done|]. exists tr1, (tr2 ++ cs), a.
  split_and!; [by rewrite <- app_assoc|done|]. intros r d l.
  rewrite elem_of_app. intros [?|?]; [by eapply Hd|by eapply Hcs].
Qed.

Lemma conn_live_connect (tr : list (steam_call A)) (a : A) :
  steam_answer tr (ConnectByIPAddress a) ≠ 0 →
  conn_live (tr ++ [ConnectByIPAddress a]) (steam_answer tr (ConnectByIPAddress a)).
Proof.
  intros Hc. split; [done|]. exists tr, [], a. split_and!; [done|done|].
  intros r d l. apply not_elem_of_nil.
Qed.
End traces.
