(* ===== verification/Ledger.v ===== *)
(** * Accounting for messages

    Every message the library hands over has to be released once.  What a
    history of calls has received and what it has released, as functions of the
    history; the difference is what is still owed. *)

From S2P Require Import Prelude Bytes NetworkTypes Runtime.
Local Open Scope Z_scope.

Section ledger.
Context {A : Type} `{SteamSockets A}.
Implicit Types (tr cs : list (steam_call A)) (d msgs : list steam_message).

(** The messages a call hands over after the history [tr]. *)
Definition received_by tr (c : steam_call A) : list steam_message :=
  match c as c return answer c → list steam_message with
  | ReceiveMessagesOnPollGroup _ _ | ReceiveMessagesOnConnection _ _ => λ r, r.2
  | _ => λ _, []
  end (steam_answer tr c).

Fixpoint received_from tr cs : list steam_message :=
  match cs with
  | [] => []
  | c :: cs => received_by tr c ++ received_from (tr ++ [c]) cs
  end.

Definition received tr : list steam_message := received_from [] tr.

Definition released_by (c : steam_call A) : list steam_message :=
  match c with ReleaseMessage m => [m] | _ => [] end.

Definition released tr : list steam_message := tr ≫= released_by.

(** After the history the messages [d], and no others, are owed. *)
Definition ledger d tr : Prop := received tr ≡ₚ released tr ++ d.

#[export] Instance ledger_proper : Proper ((≡ₚ) ==> eq ==> iff) ledger.
Proof. intros d1 d2 Hd tr _ <-. unfold ledger. by rewrite Hd. Qed.

Lemma received_from_app tr cs cs' :
  received_from tr (cs ++ cs') = received_from tr cs ++ received_from (tr ++ cs) cs'.
Proof.
  revert tr. induction cs as [|c cs IH]; intros tr; simpl; [by rewrite app_nil_r|].
  by rewrite IH, <- !app_assoc.
Qed.

Lemma received_app tr cs : received (tr ++ cs) = received tr ++ received_from tr cs.
Proof. apply received_from_app. Qed.

Lemma released_app tr cs : released (tr ++ cs) = released tr ++ released cs.
Proof. unfold released. by rewrite (bind_app released_by). Qed.

Lemma ledger_nil : ledger [] [].
Proof. unfold ledger. reflexivity. Qed.

(** Calls that hand over and release nothing, and destroy no poll group. *)
Definition harmless (c : steam_call A) : Prop :=
  match c with
  | ReceiveMessagesOnPollGroup _ _ | ReceiveMessagesOnConnection _ _ | ReleaseMessage _
  | DestroyPollGroup _ => False
  | _ => True
  end.

(** Calls that hand over and release nothing. *)
Definition idle (c : steam_call A) : Prop :=
  match c with
  | ReceiveMessagesOnPollGroup _ _ | ReceiveMessagesOnConnection _ _ | ReleaseMessage _ => False
  | _ => True
  end.

Lemma harmless_idle cs : Forall harmless cs → Forall idle cs.
Proof. intros Hcs. eapply Forall_impl; [exact Hcs|]. by intros []. Qed.

Lemma harmless_no_destroy cs g : Forall harmless cs → DestroyPollGroup g ∉ cs.
Proof. rewrite Forall_forall. by intros Hcs Hin%Hcs. Qed.

Lemma ledger_idle d tr cs : Forall idle cs → ledger d tr → ledger d (tr ++ cs).
Proof.
  intros Hcs. revert tr. induction Hcs as [|c cs Hc _ IH]; intros tr Hd; [by rewrite app_nil_r|].
  rewrite (cons_middle c tr cs), (app_assoc tr [c] cs). apply IH. unfold ledger in *.
  rewrite received_app, released_app, Hd. by destruct c; simpl; rewrite ?app_nil_r.
Qed.

Lemma ledger_receive d tr g max :
  ledger d tr →
  ledger ((steam_answer tr (ReceiveMessagesOnPollGroup g max) : Z * list steam_message).2 ++ d)
    (tr ++ [ReceiveMessagesOnPollGroup g max]).
Proof.
  unfold ledger. rewrite received_app, released_app. intros ->. simpl. rewrite !app_nil_r.
  rewrite <- app_assoc. apply Permutation_app_head, Permutation_app_comm.
Qed.

Lemma ledger_receive_conn d tr conn max :
  ledger d tr →
  ledger ((steam_answer tr (ReceiveMessagesOnConnection conn max) : Z * list steam_message).2 ++ d)
    (tr ++ [ReceiveMessagesOnConnection conn max]).
Proof.
  unfold ledger. rewrite received_app, released_app. intros ->. simpl. rewrite !app_nil_r.
  rewrite <- app_assoc. apply Permutation_app_head, Permutation_app_comm.
Qed.

Lemma ledger_release m d tr : ledger (m :: d) tr → ledger d (tr ++ [ReleaseMessage m]).
Proof.
  unfold ledger. rewrite received_app, released_app. intros ->. simpl.
  by rewrite app_nil_r, <- app_assoc.
Qed.

Lemma ledger_release_all ms d tr : ledger (ms ++ d) tr → ledger d (tr ++ (ReleaseMessage <$> ms)).
Proof.
  revert tr. induction ms as [|m ms IH]; intros tr Hl; simpl; [by rewrite app_nil_r|].
  rewrite cons_middle, app_assoc. by apply IH, ledger_release.
Qed.
End ledger.

#[export] Hint Resolve harmless_idle : core.
