(* ===== verification/UdpServer.v ===== *)
(** * The UDP server

    [src/kb/net/udp/server/udp_server.hpp] and [udp_server.cpp]: the class
    [UdpServer], one definition per member function.  Servers live in a heap;
    [s_instance] is the file's static.  The three user callbacks are
    [ServerCallbacks]: programs over the same world, so a callback may call
    back into the server. *)

From S2P Require Import Prelude Bytes NetworkTypes Runtime.
Import Strings.Byte.
Local Open Scope Z_scope.

(** ** State *)

Record UdpServer (CB : Type) := MkServer {
  m_network_thread : bool;                       (** joinable *)
  m_is_running : bool;
  m_port : Z;
  m_data_received_callback : option CB;
  m_client_connected_callback : option CB;
  m_client_disconnected_callback : option CB;
  m_clients : gmap Z client_info_t;
  m_client_mutex : bool;                         (** held *)
  m_interface : bool;                            (** not null *)
  m_listen_socket : Z;
  m_poll_group : Z;
}.
Arguments MkServer {CB}.
Arguments m_network_thread {CB}.
Arguments m_is_running {CB}.
Arguments m_port {CB}.
Arguments m_data_received_callback {CB}.
Arguments m_client_connected_callback {CB}.
Arguments m_client_disconnected_callback {CB}.
Arguments m_clients {CB}.
Arguments m_client_mutex {CB}.
Arguments m_interface {CB}.
Arguments m_listen_socket {CB}.
Arguments m_poll_group {CB}.

Section setters.
Context {CB : Type}.
Implicit Types s : UdpServer CB.

Definition set_thread v s := let 'MkServer _ b c d e f g h i j k := s in MkServer v b c d e f g h i j k.
Definition set_running v s := let 'MkServer a _ c d e f g h i j k := s in MkServer a v c d e f g h i j k.
Definition set_port v s := let 'MkServer a b _ d e f g h i j k := s in MkServer a b v d e f g h i j k.
Definition set_on_data v s := let 'MkServer a b c _ e f g h i j k := s in MkServer a b c v e f g h i j k.
Definition set_on_connected v s := let 'MkServer a b c d _ f g h i j k := s in MkServer a b c d v f g h i j k.
Definition set_on_disconnected v s := let 'MkServer a b c d e _ g h i j k := s in MkServer a b c d e v g h i j k.
Definition set_clients F s := let 'MkServer a b c d e f g h i j k := s in MkServer a b c d e f (F g) h i j k.
Definition set_mutex v s := let 'MkServer a b c d e f g _ i j k := s in MkServer a b c d e f g v i j k.
Definition set_listen_socket v s := let 'MkServer a b c d e f g h i _ k := s in MkServer a b c d e f g h i v k.
Definition set_poll_group v s := let 'MkServer a b c d e f g h i j _ := s in MkServer a b c d e f g h i j v.

(** The member initialisers, with the interface the constructor fetched. *)
Definition server_init (interface : bool) : UdpServer CB :=
  MkServer false false 0 None None None ∅ false interface
    k_invalid_listen_socket k_invalid_poll_group.

(** [m_clients | std::views::keys]: a [std::map] iterates in key order. *)
Definition client_keys s : list kb_connection_t :=
  merge_sort Z.le (map_to_list (m_clients s)).*1.
End setters.

(** The user callbacks, by the handle stored in the server. *)
Class ServerCallbacks (A CB U : Type) := {
  run_on_data : CB → client_info_t → list byte → Z → M (world A (UdpServer CB) U) unit;
  run_on_connected : CB → client_info_t → M (world A (UdpServer CB) U) unit;
  run_on_disconnected : CB → client_info_t → M (world A (UdpServer CB) U) unit;
}.

(** ** Operations *)

Section operations.
Context {A CB U : Type} `{SteamIPAddr A} `{SteamSockets A} `{ServerCallbacks A CB U}.
Local Abbreviation W := (world A (UdpServer CB) U).

(** A call through [m_interface]. *)
Definition iface (this : positive) (c : steam_call A) : M W (answer c) :=
  s ← deref this;
  if m_interface s then call c else fail NullDeref.

(** [std::scoped_lock lock{ m_client_mutex }] around a block. *)
Definition scoped_lock {R} (this : positive) (block : M W R) : M W R :=
  s ← deref this;
  if m_client_mutex s then fail Deadlock
  else
    update this (set_mutex true) ;;
    r ← block;
    update this (set_mutex false) ;;
    mret r.

Definition construct (this : positive) : M W unit :=
  call SteamNetworkingSockets ≫= λ interface : bool,
  modify (with_obj this (server_init interface)).

Definition on_fatal_message (this : positive) : M W unit :=
  update this (set_running false).

Definition start_manual (this : positive) (p_port : Z) : M W bool :=
  s ← deref this;
  if m_is_running s then mret false
  else
    iface this (CreateListenSocketIP p_port) ≫= λ listen_socket : Z,
    update this (set_listen_socket listen_socket) ;;
    if decide (listen_socket = k_invalid_listen_socket) then
      on_fatal_message this ;; mret false
    else
      iface this CreatePollGroup ≫= λ poll_group : Z,
      update this (set_poll_group poll_group) ;;
      if decide (poll_group = 0) then
        on_fatal_message this ;; mret false
      else
        modify (with_instance (Some this)) ;;
        update this (set_port p_port) ;;
        update this (set_running true) ;;
        mret true.

(** [m_network_thread = std::thread(...)]. *)
Definition spawn_network_thread (this : positive) : M W unit :=
  s ← deref this;
  if m_network_thread s then fail StdTerminate else update this (set_thread true).

Definition start_async (this : positive) (p_port : Z) : M W bool :=
  started ← start_manual this p_port;
  if (started : bool) then spawn_network_thread this ;; mret true else mret false.

(** [m_network_thread.join()]: a thread cannot join itself. *)
Definition join_network_thread (this : positive) : M W unit :=
  t ← gets w_thread;
  if decide (t = Some this) then fail StdTerminate else update this (set_thread false).

(** The two final blocks of [stop]. *)
Definition close_listen_socket (this : positive) : M W unit :=
  s ← deref this;
  if decide (m_listen_socket s ≠ k_invalid_listen_socket) then
    iface this (CloseListenSocket (m_listen_socket s)) ;;
    update this (set_listen_socket k_invalid_listen_socket)
  else skip.

Definition destroy_poll_group (this : positive) : M W unit :=
  s ← deref this;
  if decide (m_poll_group s ≠ k_invalid_poll_group) then
    iface this (DestroyPollGroup (m_poll_group s)) ;;
    update this (set_poll_group k_invalid_poll_group)
  else skip.

Definition close_client (this : positive) (conn : kb_connection_t) : M W unit :=
  iface this (CloseConnection conn 0 (Some "UdpServer shutting down"%string) true).

(** [stop] once no thread is left: every client, the table, the sockets. *)
Definition close_all (this : positive) : M W unit :=
  scoped_lock this (
    s ← deref this;
    for_each (client_keys s) (close_client this) ;;
    update this (set_clients (λ _, ∅)) ;;
    close_listen_socket this ;;
    destroy_poll_group this).

Definition stop (this : positive) : M W unit :=
  modify (with_instance None) ;;
  s ← deref this;
  update this (set_running false) ;;
  if negb (m_is_running s) then skip
  else
    (if m_network_thread s then join_network_thread this else skip) ;;
    close_all this.

(** [~UdpServer()]: [stop()], then the members are destroyed; destroying a
    joinable [std::thread] terminates the process. *)
Definition destruct_server (this : positive) : M W unit :=
  stop this ;;
  s ← deref this;
  if m_network_thread s then fail StdTerminate
  else modify (with_objs (delete this)).

Definition get_client_info (this : positive) (p_conn : kb_connection_t)
    : M W (option client_info_t) :=
  scoped_lock this (s ← deref this; mret (m_clients s !! p_conn)).

Definition on_connection_status_changed (this : positive) (p_info : status_changed) : M W unit :=
  let conn := sc_conn p_info in
  match sc_state p_info with
  | StateNone => skip
  | StateClosedByPeer | StateProblemDetectedLocally =>
      (if decide (sc_old_state p_info = StateConnected) then
         client_info ← get_client_info this conn;
         s ← deref this;
         match m_client_disconnected_callback s, client_info with
         | Some cb, Some client => run_on_disconnected cb client
         | _, _ => skip
         end
       else skip) ;;
      iface this (CloseConnection conn 0 None false)
  | StateConnecting =>
      iface this (AcceptConnection conn) ≫= λ r : EResult,
      if decide (r ≠ k_EResultOK) then iface this (CloseConnection conn 0 None false)
      else
        s ← deref this;
        iface this (SetConnectionPollGroup conn (m_poll_group s)) ≫= λ ok : bool,
        if negb ok then iface this (CloseConnection conn 0 None false)
        else
          iface this (GetConnectionInfo conn) ≫= λ conn_info : A,
          s ← deref this;
          let client := default {| m_conn := 0; m_addr := ip_address_zero |}
                          (m_clients s !! conn) in
          addr ← ip_address_assign (m_addr client) conn_info;
          let client := {| m_conn := conn; m_addr := addr |} in
          update this (set_clients <[conn := client]>) ;;
          s ← deref this;
          match m_client_connected_callback s with
          | Some cb => run_on_connected cb client
          | None => skip
          end
  | StateConnected | StateOther => skip
  end.

(** The static trampoline given to the library. *)
Definition connection_status_changed_callback (p_info : status_changed) : M W unit :=
  i ← gets s_instance;
  match i with
  | None => skip
  | Some instance => on_connection_status_changed instance p_info
  end.

Definition k_message_count : Z := 32.

(** One iteration of the message loop. *)
Definition poll_message (this : positive) (message : steam_message) : M W unit :=
  let conn := msg_conn message in
  s ← deref this;
  (match m_data_received_callback s with
   | Some cb =>
       client ← get_client_info this conn;
       match client with
       | Some client => run_on_data cb client (m_pData message) (u64 (m_cbSize message))
       | None => skip
       end
   | None => skip
   end) ;;
  call (ReleaseMessage message).

(** [for (u32 i = 0; i < message_count; ++i)] over the slots the library
    filled; reading another slot is out of bounds. *)
Fixpoint poll_loop (this : positive) (i message_count : Z) (messages : list steam_message)
    : M W unit :=
  match messages with
  | [] => if decide (i < message_count) then fail OutOfBounds else skip
  | message :: messages =>
      if decide (i < message_count) then
        poll_message this message ;; poll_loop this (i + 1) message_count messages
      else skip
  end.

Definition poll (this : positive) : M W unit :=
  s ← deref this;
  iface this (ReceiveMessagesOnPollGroup (m_poll_group s) k_message_count)
    ≫= λ received : Z * list steam_message,
  let message_count := u32 received.1 in
  poll_loop this 0 message_count received.2 ;;
  iface this RunCallbacks ≫= λ infos : list status_changed,
  for_each infos connection_status_changed_callback.

Definition send (this : positive) (p_conn : kb_connection_t) (p_data : list byte) (p_size : Z)
    (p_reliable : bool) : M W bool :=
  let flags := if p_reliable then SendReliable else SendUnreliable in
  s ← deref this;
  if m_interface s then
    data ← read_bytes p_data 0 p_size;
    call (SendMessageToConnection p_conn data flags) ≫= λ result : EResult,
    mret (bool_decide (result = k_EResultOK))
  else fail NullDeref.

Definition broadcast (this : positive) (p_data : list byte) (p_size : Z) (p_reliable : bool)
    : M W bool :=
  scoped_lock this (
    s ← deref this;
    if decide (m_clients s = ∅) then mret false
    else
      fold_each (client_keys s) true (λ ok conn,
        sent ← send this conn p_data p_size p_reliable;
        mret (if negb sent then false else ok))).

Definition disconnect (this : positive) (p_conn : kb_connection_t) (p_reason : Z) : M W unit :=
  iface this (CloseConnection p_conn p_reason (Some "Disconnected"%string) false) ;;
  scoped_lock this (update this (set_clients (delete p_conn))).

Definition is_running (this : positive) : M W bool := s ← deref this; mret (m_is_running s).
Definition port (this : positive) : M W Z := s ← deref this; mret (m_port s).

Definition set_on_data_callback (this : positive) (p_call : option CB) : M W unit :=
  update this (set_on_data p_call).
Definition set_on_client_connected_callback (this : positive) (p_call : option CB) : M W unit :=
  update this (set_on_connected p_call).
Definition set_on_client_disconnected_callback (this : positive) (p_call : option CB) : M W unit :=
  update this (set_on_disconnected p_call).

(** [network_loop], for at most [fuel] iterations; [true] when it returned. *)
Fixpoint network_loop (fuel : nat) (this : positive) : M W bool :=
  match fuel with
  | O => mret false
  | S fuel =>
      running ← is_running this;
      if (running : bool) then poll this ;; network_loop fuel this else mret true
  end.
End operations.
