(* ===== verification/Sessions.v ===== *)
(** * What a server promises: sessions

    The abstract machine of [UdpServer]: every server is idle or serves a set of
    clients on a port; one server, the one started last, gets the connection
    events.  The detailed operations are proved to implement it. *)

From S2P Require Import Prelude Bytes NetworkTypes Runtime UdpServer.
Local Open Scope Z_scope.

Inductive session :=
| Idle
| Serving (port : Z) (clients : gset kb_connection_t).

(** The servers, and the one that gets the events. *)
Record sessions_state := Sessions {
  ss_servers : gmap positive session;
  ss_events : option positive;
}.

Inductive session_step : relation sessions_state :=
| SsCreate p m i :
    m !! p = None → session_step (Sessions m i) (Sessions (<[p := Idle]> m) i)
| SsStart p port m i :
    m !! p = Some Idle →
    session_step (Sessions m i) (Sessions (<[p := Serving port ∅]> m) (Some p))
| SsConnect p c port cl m :
    m !! p = Some (Serving port cl) →
    session_step (Sessions m (Some p)) (Sessions (<[p := Serving port ({[c]} ∪ cl)]> m) (Some p))
| SsDisconnect p c port cl m i :
    m !! p = Some (Serving port cl) →
    session_step (Sessions m i) (Sessions (<[p := Serving port (cl ∖ {[c]})]> m) i)
| SsSilence m i :                                (** nobody gets the events any more *)
    session_step (Sessions m i) (Sessions m None)
| SsStop p port cl m :                           (** only once it does not get them *)
    m !! p = Some (Serving port cl) →
    session_step (Sessions m None) (Sessions (<[p := Idle]> m) None)
| SsDestroy p m :
    m !! p = Some Idle → session_step (Sessions m None) (Sessions (delete p m) None).

(** ** Invariants of the machine *)

(** The server that gets the events is serving. *)
Definition events_served (ss : sessions_state) : Prop :=
  ∀ p, ss_events ss = Some p → ∃ port cl, ss_servers ss !! p = Some (Serving port cl).

Lemma session_step_served ss ss' : session_step ss ss' → events_served ss → events_served ss'.
Proof.
  intros Hstep Hserved q Hq. specialize (Hserved q).
  destruct Hstep; simpl in *; try done;
    match goal with |- context [<[?p := _]> _ !! _] => destruct (decide (p = q)) as [<-|Hne] end;
    rewrite ?lookup_insert_eq, ?lookup_insert_ne by done; eauto; [|congruence].
  destruct (Hserved Hq) as (pt & cl & Hl). congruence.
Qed.

(** ** The abstraction *)

Section abstraction.
Context {A CB U : Type}.
Local Abbreviation W := (world A (UdpServer CB) U).
Implicit Types (w : W) (s : UdpServer CB) (p : positive).

(** A server is busy until [stop] has joined its thread and closed it. *)
Definition active s : bool := m_is_running s || m_network_thread s.

Definition session_of s : session :=
  if active s then Serving (m_port s) (dom (m_clients s)) else Idle.

Definition sessions w : sessions_state := Sessions (session_of <$> w_objs w) (s_instance w).

Lemma sessions_lookup p w s :
  w_objs w !! p = Some s → ss_servers (sessions w) !! p = Some (session_of s).
Proof. intros Hs. simpl. by rewrite lookup_fmap, Hs. Qed.

Lemma sessions_with_obj p s w :
  sessions (with_obj p s w) = Sessions (<[p := session_of s]> (ss_servers (sessions w))) (s_instance w).
Proof. unfold sessions. simpl. by rewrite fmap_insert. Qed.

(** Replacing a server by one in the same session. *)
Lemma sessions_same p s s' w :
  w_objs w !! p = Some s → session_of s' = session_of s → sessions (with_obj p s' w) = sessions w.
Proof.
  intros Hs Heq. rewrite sessions_with_obj, Heq, insert_id by by apply sessions_lookup. done.
Qed.
End abstraction.
