(* ===== verification/UdpServerSpec.v ===== *)
(** * What each server operation does

    Exact results of the operations of [UdpServer.v] on every branch: the value
    returned, the server afterwards, [s_instance], and the library calls made,
    in order. *)

From S2P Require Import Prelude Bytes NetworkTypes Runtime UdpServer.
Import Strings.Byte.
Local Open Scope Z_scope.

(** ** The client table *)

Section clients.
Context {CB : Type}.
Implicit Types s : UdpServer CB.

Lemma elem_of_client_keys s c : c ∈ client_keys s ↔ is_Some (m_clients s !! c).
Proof.
  unfold client_keys. rewrite merge_sort_Permutation.
  rewrite list_elem_of_fmap. split.
  - intros ([c' ci] & -> & Hin). apply elem_of_map_to_list in Hin. by exists ci.
  - intros [ci Hc]. exists (c, ci). by rewrite elem_of_map_to_list.
Qed.

Lemma NoDup_client_keys s : NoDup (client_keys s).
Proof. unfold client_keys. rewrite merge_sort_Permutation. apply NoDup_fst_map_to_list. Qed.

(** Strictly increasing, the iteration order of [std::map]. *)
Lemma client_keys_sorted s : StronglySorted Z.lt (client_keys s).
Proof.
  pose proof (NoDup_client_keys s) as Hnd.
  assert (StronglySorted Z.le (client_keys s)) as Hs
    by (apply Sorted_StronglySorted; [apply _|apply Sorted_merge_sort; apply _]).
  induction Hs as [|c l Hs IH Hall]; [constructor|].
  apply NoDup_cons in Hnd as [Hc Hnd]. constructor; [by apply IH|].
  rewrite Forall_forall in Hall |- *. intros d Hd. specialize (Hall d Hd).
  assert (c ≠ d) by (by intros ->). lia.
Qed.

Lemma client_keys_empty s : m_clients s = ∅ → client_keys s = [].
Proof. intros Hs. unfold client_keys. by rewrite Hs, map_to_list_empty. Qed.
End clients.

(** ** Rules for the server's primitives *)

Section rules.
Context {A CB U : Type} `{SteamSockets A}.
Local Abbreviation W := (world A (UdpServer CB) U).
Implicit Types (w : W) (s : UdpServer CB) (p : positive).

Lemma wp_iface p c Q w s :
  w_objs w !! p = Some s → m_interface s = true →
  Q (steam_answer (w_trace w) c) (with_calls [c] w) → wp (iface p c) Q w.
Proof.
  intros Hs Hi HQ. unfold iface. apply wp_bind. eapply wp_deref; [done|]. rewrite Hi.
  by apply wp_call.
Qed.

(** The block runs with the mutex held, and the mutex is free afterwards. *)
Lemma wp_scoped_lock {R} p (block : M W R) Q w s :
  w_objs w !! p = Some s → m_client_mutex s = false →
  wp block (λ r w', ∃ s', w_objs w' !! p = Some s' ∧ Q r (with_obj p (set_mutex false s') w'))
    (with_obj p (set_mutex true s) w) →
  wp (scoped_lock p block) Q w.
Proof.
  intros Hs Hm Hb. unfold scoped_lock. wp_steps. rewrite Hm. wp_steps.
  eapply wp_mono; [exact Hb|]. intros r w' (s' & Hs' & HQ). cbv beta. by wp_steps.
Qed.

Lemma get_client_info_Done p conn w s :
  w_objs w !! p = Some s → m_client_mutex s = false →
  get_client_info p conn w = Done (m_clients s !! conn) w.
Proof.
  intros Hs Hm. apply wp_eq. eapply wp_scoped_lock; [done..|]. wp_steps.
  eexists. split; [lookup_obj|]. autorewrite with world.
  destruct s. simpl in *. subst. split; [done|]. by apply with_obj_id.
Qed.

(** A loop of library calls appends them to the trace, in order. *)
Lemma for_each_calls {X} (f : X → steam_call A) (body : X → M W unit) (l : list X) w :
  (∀ x w', w_objs w' = w_objs w → body x w' = Done tt (with_calls [f x] w')) →
  for_each l body w = Done tt (with_calls (f <$> l) w).
Proof.
  intros Hbody.
  assert (∀ w', w_objs w' = w_objs w → for_each l body w' = Done tt (with_calls (f <$> l) w')) as Hall.
  { induction l as [|x l IH]; intros w' Hw'; simpl; [by autorewrite with world|].
    rewrite (bind_Done _ _ _ _ _ (Hbody x w' Hw')), IH by done. by autorewrite with world. }
  by apply Hall.
Qed.

Lemma iface_Done p c w s :
  w_objs w !! p = Some s → m_interface s = true →
  iface p c w = Done (steam_answer (w_trace w) c) (with_calls [c] w).
Proof. intros Hs Hi. apply wp_eq. by eapply wp_iface. Qed.
End rules.

(** A call through the interface of a server that has one. *)
Ltac iface_step :=
  lazymatch goal with
  | |- wp (iface ?p ?c) ?Q ?w =>
      eapply (wp_iface p c Q w);
      [lookup_obj | first [assumption | match goal with s : UdpServer _ |- _ => by destruct s end] | cbv beta; autorewrite with world]
  end.

(** ** Starting *)

Section starting.
Context {A CB U : Type} `{SteamSockets A}.
Local Abbreviation W := (world A (UdpServer CB) U).
Implicit Types (w : W) (s : UdpServer CB) (p : positive).

(** A started server. *)
Definition started (socket group pt : Z) s : UdpServer CB :=
  set_running true (set_port pt (set_poll_group group (set_listen_socket socket s))).

(** [start_manual] on its four branches. *)
Definition start_manual_result (p : positive) (pt : Z) s w : outcome W bool :=
  if m_is_running s then Done false w
  else
    let socket : Z := steam_answer (w_trace w) (CreateListenSocketIP pt) in
    let w1 := with_calls [CreateListenSocketIP pt] w in
    if decide (socket = 0) then Done false (with_obj p (set_listen_socket 0 s) w1)
    else
      let group : Z := steam_answer (w_trace w1) CreatePollGroup in
      let w2 := with_calls [CreatePollGroup] w1 in
      if decide (group = 0)
      then Done false (with_obj p (set_poll_group 0 (set_listen_socket socket s)) w2)
      else Done true (with_obj p (started socket group pt s) (with_instance (Some p) w2)).

Lemma start_manual_Done p pt w s :
  w_objs w !! p = Some s → m_interface s = true →
  start_manual p pt w = start_manual_result p pt s w.
Proof.
  intros Hs Hi. unfold start_manual_result.
  destruct (m_is_running s) eqn:Hr.
  { apply wp_eq. unfold start_manual. wp_steps. rewrite Hr. by wp_steps. }
  cbv zeta. case_decide as Hsock; [|case_decide as Hgrp].
  - apply wp_eq. unfold start_manual. wp_steps. rewrite Hr. wp_steps.
    iface_step. wp_steps. rewrite decide_True by done.
    unfold on_fatal_message. wp_steps.
    rewrite Hsock. destruct s; simpl in *; subst. done.
  - apply wp_eq. unfold start_manual. wp_steps. rewrite Hr. wp_steps.
    iface_step. wp_steps. rewrite decide_False by done. wp_steps.
    iface_step. wp_steps.
    rewrite decide_True by done. unfold on_fatal_message. wp_steps.
    simpl in Hgrp |- *. rewrite Hgrp.
    destruct s; simpl in *; subst. done.
  - apply wp_eq. unfold start_manual. wp_steps. rewrite Hr. wp_steps.
    iface_step. wp_steps. rewrite decide_False by done. wp_steps.
    iface_step. wp_steps.
    rewrite decide_False by done. wp_steps. by destruct s.
Qed.

(** A successful start spawns the network thread of a server without one. *)
Lemma start_async_Done p pt w s :
  w_objs w !! p = Some s → m_interface s = true → m_network_thread s = false →
  start_async p pt w =
    match start_manual_result p pt s w with
    | Done true w' =>
        match w_objs w' !! p with
        | Some s' => Done true (with_obj p (set_thread true s') w')
        | None => Fault NullDeref w'
        end
    | r => r
    end.
Proof.
  intros Hs Hi Ht. unfold start_async, mbind, M_bind.
  rewrite (start_manual_Done p pt w s Hs Hi). unfold start_manual_result.
  destruct (m_is_running s); [done|]. cbv zeta. repeat case_decide; try done.
  rewrite lookup_with_obj. change (λ w0, ?m w0) with m. unfold spawn_network_thread.
  erewrite bind_Done; [|apply deref_Done, lookup_with_obj].
  destruct s; simpl in *; subst. simpl.
  erewrite update_Done; [|apply lookup_with_obj]. done.
Qed.
End starting.

(** ** Stopping *)

Section stopping.
Context {A CB U : Type} `{SteamSockets A}.
Local Abbreviation W := (world A (UdpServer CB) U).
Implicit Types (w : W) (s : UdpServer CB) (p : positive).

Definition shutdown_call (conn : kb_connection_t) : steam_call A :=
  CloseConnection conn 0 (Some "UdpServer shutting down"%string) true.

(** The calls [stop] makes: every client in key order, then the listen
    socket, then the poll group. *)
Definition stop_calls s : list (steam_call A) :=
  (shutdown_call <$> client_keys s) ++
  (if decide (m_listen_socket s ≠ 0) then [CloseListenSocket (m_listen_socket s)] else []) ++
  (if decide (m_poll_group s ≠ 0) then [DestroyPollGroup (m_poll_group s)] else []).

Definition stopped s : UdpServer CB :=
  set_thread false (set_running false
    (set_clients (λ _, ∅) (set_listen_socket 0 (set_poll_group 0 s)))).

Definition stop_result (p : positive) s w : outcome W unit :=
  if m_is_running s
  then Done tt (with_obj p (stopped s) (with_instance None (with_calls (stop_calls s) w)))
  else Done tt (with_instance None w).

Lemma close_listen_socket_Done p w s :
  w_objs w !! p = Some s → m_interface s = true →
  close_listen_socket p w =
    Done tt (with_obj p (set_listen_socket 0 s)
      (with_calls (if decide (m_listen_socket s ≠ 0) then [CloseListenSocket (m_listen_socket s)] else []) w)).
Proof.
  intros Hs Hi. apply wp_eq. unfold close_listen_socket, k_invalid_listen_socket. wp_steps.
  case_decide as Hls; [wp_steps; iface_step; by wp_steps|]. wp_steps. split; [done|].
  destruct s; simpl in *; subst. by rewrite with_obj_id.
Qed.

Lemma destroy_poll_group_Done p w s :
  w_objs w !! p = Some s → m_interface s = true →
  destroy_poll_group p w =
    Done tt (with_obj p (set_poll_group 0 s)
      (with_calls (if decide (m_poll_group s ≠ 0) then [DestroyPollGroup (m_poll_group s)] else []) w)).
Proof.
  intros Hs Hi. apply wp_eq. unfold destroy_poll_group, k_invalid_poll_group. wp_steps.
  case_decide as Hls; [wp_steps; iface_step; by wp_steps|]. wp_steps. split; [done|].
  destruct s; simpl in *; subst. by rewrite with_obj_id.
Qed.

Lemma close_clients_Done p w s (l : list kb_connection_t) :
  w_objs w !! p = Some s → m_interface s = true →
  for_each l (close_client p) w = Done tt (with_calls (shutdown_call <$> l) w).
Proof.
  intros Hs Hi. apply for_each_calls. intros c w' Hw'. unfold close_client.
  rewrite (iface_Done p _ w' s); [|by rewrite Hw'|done]. by destruct (steam_answer _ _).
Qed.

Lemma close_all_Done p w s :
  w_objs w !! p = Some s → m_interface s = true → m_client_mutex s = false →
  close_all p w =
    Done tt (with_obj p (set_clients (λ _, ∅) (set_listen_socket 0 (set_poll_group 0 s)))
      (with_calls (stop_calls s) w)).
Proof.
  intros Hs Hi Hm. apply wp_eq.
  eapply wp_scoped_lock; [done..|]. wp_steps.
  eapply wp_of_Done; [eapply close_clients_Done; [lookup_obj|by destruct s]|].
  wp_steps. eapply wp_of_Done; [eapply close_listen_socket_Done; [lookup_obj|by destruct s]|].
  autorewrite with world. wp_steps.
  eapply wp_of_Done; [eapply destroy_poll_group_Done; [lookup_obj|by destruct s]|].
  autorewrite with world. eexists. split; [lookup_obj|]. autorewrite with world.
  split; [done|]. destruct s; simpl in *; subst. unfold stop_calls. simpl.
  by rewrite <- app_assoc.
Qed.

Lemma stop_Done p w s :
  w_objs w !! p = Some s → m_interface s = true → m_client_mutex s = false →
  (m_network_thread s = true → w_thread w ≠ Some p) →
  stop p w = stop_result p s w.
Proof.
  intros Hs Hi Hm Hth. unfold stop_result. destruct (m_is_running s) eqn:Hr.
  - apply wp_eq. unfold stop. wp_steps. rewrite Hr. simpl negb. cbv iota.
    assert (∀ Q, Q tt (with_obj p (set_thread false (set_running false s)) (with_instance None w)) →
      wp (if m_network_thread s then join_network_thread p else skip) Q
        (with_obj p (set_running false s) (with_instance None w))) as Hjoin.
    { intros Q HQ. destruct (m_network_thread s) eqn:Ht.
      - unfold join_network_thread. wp_steps. rewrite decide_False by (by apply Hth). by wp_steps.
      - wp_steps. destruct s; simpl in *; by subst. }
    wp_steps. apply Hjoin.
    eapply wp_of_Done; [apply close_all_Done; [lookup_obj|by destruct s..]|].
    autorewrite with world. split; [done|]. by destruct s.
  - apply wp_eq. unfold stop. wp_steps. rewrite Hr. simpl. wp_steps.
    split; [done|]. destruct s; simpl in *; subst. by rewrite with_obj_id.
Qed.
End stopping.

(** ** Sending *)

Section sending.
Context {A CB U : Type} `{SteamSockets A}.
Local Abbreviation W := (world A (UdpServer CB) U).
Implicit Types (w : W) (s : UdpServer CB) (p : positive).

Definition flags_of (reliable : bool) : send_flags :=
  if reliable then SendReliable else SendUnreliable.

Definition send_call (data : list byte) (reliable : bool) (conn : kb_connection_t) : steam_call A :=
  SendMessageToConnection conn data (flags_of reliable).

(** The library accepts every message of the sequence. *)
Fixpoint all_accepted (tr : list (steam_call A)) (cs : list kb_connection_t)
    (data : list byte) (reliable : bool) : bool :=
  match cs with
  | [] => true
  | c :: cs =>
      bool_decide (steam_answer tr (send_call data reliable c) = k_EResultOK) &&
      all_accepted (tr ++ [send_call data reliable c]) cs data reliable
  end.

Lemma send_Done p conn data size reliable w s :
  w_objs w !! p = Some s → m_interface s = true → 0 ≤ size ≤ length data →
  let c := send_call (take (Z.to_nat size) data) reliable conn in
  send p conn data size reliable w
  = Done (bool_decide (steam_answer (w_trace w) c = k_EResultOK)) (with_calls [c] w).
Proof.
  intros Hs Hi Hsz. apply wp_eq. unfold send. wp_steps. rewrite Hi. wp_steps.
  eapply wp_of_Done; [by apply read_bytes_Done; lia|]. rewrite drop_0.
  apply wp_bind.
  match goal with |- wp (call ?c) ?Q ?w => apply (wp_call c Q w) end.
  by apply wp_ret.
Qed.

Lemma fold_send_Done p data size reliable (cs : list kb_connection_t) ok w s :
  w_objs w !! p = Some s → m_interface s = true → 0 ≤ size ≤ length data →
  let d := take (Z.to_nat size) data in
  fold_each cs ok (λ ok conn, sent ← send p conn data size reliable;
                              mret (if negb sent then false else ok)) w
  = Done (ok && all_accepted (w_trace w) cs d reliable) (with_calls (send_call d reliable <$> cs) w).
Proof.
  intros Hs Hi Hsz d. revert ok w Hs. induction cs as [|c cs IH]; intros ok w Hs.
  { simpl. rewrite andb_true_r. by autorewrite with world. }
  cbn [fold_each]. erewrite bind_Done.
  2: { erewrite bind_Done; [|by eapply send_Done]. done. }
  rewrite IH by done. autorewrite with world. fold d. f_equal. cbn [all_accepted w_trace with_calls].
  by destruct (bool_decide _), ok.
Qed.

Lemma broadcast_Done p data size reliable w s :
  w_objs w !! p = Some s → m_interface s = true → m_client_mutex s = false →
  0 ≤ size ≤ length data →
  let d := take (Z.to_nat size) data in
  broadcast p data size reliable w
  = if decide (m_clients s = ∅) then Done false w
    else Done (all_accepted (w_trace w) (client_keys s) d reliable)
           (with_calls (send_call d reliable <$> client_keys s) w).
Proof.
  intros Hs Hi Hm Hsz d.
  assert (∀ cs, with_obj p (set_mutex false (set_mutex true s)) (with_calls cs w) = with_calls cs w) as Hid.
  { intros cs. apply with_obj_id. destruct s; simpl in *; by subst. }
  case_decide as Hcl.
  - apply wp_eq. eapply wp_scoped_lock; [done..|]. wp_steps.
    rewrite decide_True by by destruct s. wp_steps. eexists. split; [lookup_obj|].
    autorewrite with world. split; [done|]. by rewrite <- (with_calls_nil w), Hid.
  - apply wp_eq. eapply wp_scoped_lock; [done..|]. wp_steps.
    rewrite decide_False by by destruct s.
    eapply wp_of_Done; [eapply fold_send_Done; [lookup_obj|by destruct s|done]|].
    cbv beta. autorewrite with world. eexists. split; [lookup_obj|].
    replace (client_keys (set_mutex true s)) with (client_keys s) by by destruct s.
    autorewrite with world. split; [done|]. apply Hid.
Qed.

Lemma disconnect_Done p conn reason w s :
  w_objs w !! p = Some s → m_interface s = true → m_client_mutex s = false →
  disconnect p conn reason w
  = Done tt (with_obj p (set_clients (delete conn) s)
      (with_calls [CloseConnection conn reason (Some "Disconnected"%string) false] w)).
Proof.
  intros Hs Hi Hm. apply wp_eq. unfold disconnect. wp_steps. iface_step.
  eapply wp_scoped_lock; [done..|]. wp_steps. eexists. split; [lookup_obj|].
  autorewrite with world. split; [done|]. destruct s; simpl in *; by subst.
Qed.
End sending.

(** ** Connection status changes *)

Section status.
Context {A CB U : Type} `{SteamIPAddr A} `{SteamSockets A} `{ServerCallbacks A CB U}.
Context `{!SteamIPAddrLaws A}.
Local Abbreviation W := (world A (UdpServer CB) U).
Implicit Types (w : W) (s : UdpServer CB) (p : positive).

(** A full address: sixteen bytes and a 16-bit port. *)
Definition address_ok (a : ip_address_t) : Prop := length (m_ip a) = 16%nat ∧ fits 16 (m_ip_port a).

(** Every client entry is keyed by its connection and has a full address. *)
Definition clients_ok s : Prop :=
  map_Forall (λ c ci, m_conn ci = c ∧ address_ok (m_addr ci)) (m_clients s).

Definition reject_call (conn : kb_connection_t) : steam_call A := CloseConnection conn 0 None false.

Definition new_client (conn : kb_connection_t) (a : A) : client_info_t :=
  {| m_conn := conn; m_addr := {| m_ip := steam_union a; m_ip_port := steam_port a |} |}.

Lemma reject_Done p conn w s :
  w_objs w !! p = Some s → m_interface s = true →
  iface p (CloseConnection conn 0 None false) w = Done tt (with_calls [reject_call conn] w).
Proof.
  intros Hs Hi. rewrite (iface_Done p _ w s) by done. by destruct (steam_answer _ _).
Qed.

(** A connecting peer: refused by the library, refused for want of the poll
    group, or entered in the table and announced. *)
Definition connecting_result (p : positive) (conn : kb_connection_t) s w : outcome W unit :=
  let w1 := with_calls [AcceptConnection conn] w in
  if negb (bool_decide (steam_answer (w_trace w) (AcceptConnection conn) = k_EResultOK))
  then Done tt (with_calls [reject_call conn] w1)
  else
    let w2 := with_calls [SetConnectionPollGroup conn (m_poll_group s)] w1 in
    if negb (steam_answer (w_trace w1) (SetConnectionPollGroup conn (m_poll_group s)))
    then Done tt (with_calls [reject_call conn] w2)
    else
      let info : A := steam_answer (w_trace w2) (GetConnectionInfo conn) in
      let client := new_client conn info in
      let w3 := with_obj p (set_clients <[conn := client]> s)
                  (with_calls [GetConnectionInfo conn] w2) in
      match m_client_connected_callback s with
      | Some cb => run_on_connected cb client w3
      | None => Done tt w3
      end.

Lemma connecting_Done p info w s :
  sc_state info = StateConnecting →
  w_objs w !! p = Some s → m_interface s = true → clients_ok s →
  on_connection_status_changed p info w = connecting_result p (sc_conn info) s w.
Proof.
  intros Hst Hs Hi Hok. unfold on_connection_status_changed. rewrite Hst.
  set (conn := sc_conn info). unfold connecting_result.
  assert (length (m_ip (m_addr (default {| m_conn := 0; m_addr := ip_address_zero |}
            (m_clients s !! conn)))) = 16%nat) as Hlen.
  { destruct (m_clients s !! conn) as [ci|] eqn:Hci; [|done]. by apply (Hok conn ci Hci). }
  rewrite (bind_Done _ _ _ _ _ (iface_Done p (AcceptConnection conn) w s Hs Hi)).
  destruct (steam_answer (w_trace w) (AcceptConnection conn)) as [|code];
    simpl; [|by rewrite (reject_Done p conn _ s)].
  erewrite bind_Done; [|by apply deref_Done].
  rewrite (bind_Done _ _ _ _ _ (iface_Done p (SetConnectionPollGroup conn (m_poll_group s)) (with_calls [AcceptConnection conn] w) s Hs Hi)).
  simpl. destruct (steam_answer _ (SetConnectionPollGroup conn (m_poll_group s)));
    simpl; [|by rewrite (reject_Done p conn _ s)].
  match goal with |- (iface _ _ ≫= _) ?v = _ =>
    rewrite (bind_Done _ _ _ _ _ (iface_Done p (GetConnectionInfo conn) v s Hs Hi)) end.
  erewrite bind_Done; [|by apply deref_Done].
  erewrite bind_Done; [|by apply copy_steam_Done].
  erewrite bind_Done; [|by apply update_Done].
  erewrite bind_Done; [|by apply deref_Done, lookup_with_obj].
  destruct s as [???? [cb|] ??????]; done.
Qed.

(** The disconnect notification of a closed connection. *)
Definition notify_disconnected (info : status_changed) s : M W unit :=
  if decide (sc_old_state info = StateConnected) then
    match m_client_disconnected_callback s, m_clients s !! sc_conn info with
    | Some cb, Some client => run_on_disconnected cb client
    | _, _ => skip
    end
  else skip.

Lemma closed_Done p info w s :
  sc_state info = StateClosedByPeer ∨ sc_state info = StateProblemDetectedLocally →
  w_objs w !! p = Some s → m_client_mutex s = false →
  on_connection_status_changed p info w
  = (notify_disconnected info s ;; iface p (reject_call (sc_conn info))) w.
Proof.
  intros Hst Hs Hm. unfold on_connection_status_changed, notify_disconnected.
  assert (∀ (k : M W unit) (a b : M W unit), a w = b w → (a ;; k) w = (b ;; k) w) as Hcong.
  { intros k a b Hab. unfold mbind, M_bind. by rewrite Hab. }
  destruct Hst as [-> | ->]; apply Hcong; case_decide; try done;
    (erewrite bind_Done; [|by apply get_client_info_Done]);
    (erewrite bind_Done; [|by apply deref_Done]); done.
Qed.
End status.

(** ** Polling *)

Section polling.
Context {A CB U : Type} `{SteamIPAddr A} `{SteamSockets A} `{ServerCallbacks A CB U}.
Local Abbreviation W := (world A (UdpServer CB) U).
Implicit Types (w : W) (s : UdpServer CB) (p : positive).

(** The indexed loop over the slots is a loop over the messages. *)
Lemma poll_loop_for_each p (i count : Z) (messages : list steam_message) w :
  count = i + length messages →
  poll_loop p i count messages w = for_each messages (poll_message p) w.
Proof.
  revert i w. induction messages as [|m messages IH]; intros i w ->; cbn [poll_loop for_each].
  - by rewrite decide_False by (simpl; lia).
  - rewrite decide_True by (simpl; lia). unfold mbind, M_bind.
    destruct (poll_message p m w); [|done]. apply IH. simpl. lia.
Qed.

(** What [poll] does with the messages and status changes it is handed. *)
Definition poll_body (p : positive) (messages : list steam_message) : M W unit :=
  for_each messages (poll_message p) ;;
  iface p RunCallbacks ≫= λ infos : list status_changed,
  for_each infos connection_status_changed_callback.

Lemma poll_Done p w s :
  w_objs w !! p = Some s → m_interface s = true →
  let c := ReceiveMessagesOnPollGroup (m_poll_group s) 32 in
  receive_ok 32 (steam_answer (w_trace w) c) →
  poll p w = poll_body p (steam_answer (w_trace w) c).2 (with_calls [c] w).
Proof.
  intros Hs Hi c (Hcount & Hmax & _). unfold poll, poll_body.
  erewrite bind_Done; [|by apply deref_Done].
  rewrite (bind_Done _ _ _ _ _ (iface_Done p c w s Hs Hi)).
  set (r := steam_answer (w_trace w) c) in *.
  unfold mbind, M_bind at 1. rewrite poll_loop_for_each; [done|].
  rewrite Z.add_0_l, <- Hcount. unfold u32. apply wrap_small. unfold fits. lia.
Qed.

(** With an invalid poll group the count is [(u32)-1], and the loop reads
    slots the library never filled. *)
Lemma poll_invalid_group p w s :
  w_objs w !! p = Some s → m_interface s = true →
  let c := ReceiveMessagesOnPollGroup (m_poll_group s) 32 in
  steam_answer (w_trace w) c = (-1, []) →
  poll p w = Fault OutOfBounds (with_calls [c] w).
Proof.
  intros Hs Hi c Hans. unfold poll.
  erewrite bind_Done; [|by apply deref_Done].
  rewrite (bind_Done _ _ _ _ _ (iface_Done p c w s Hs Hi)), Hans. done.
Qed.
End polling.
