(* ===== verification/UdpServerSafety.v ===== *)
(** * Safety of the UDP server

    The invariant of every world the server's operations can reach, and the
    absence of faults: no null or dangling pointer, no double lock, no slot read
    past the messages received, no joinable thread lost.  Beside it, what every
    operation keeps: the session machine is followed, and the messages received
    are accounted for.  All of it in two versions: when operations run one at a
    time, and when a server can be stopping while its thread still runs. *)

From S2P Require Import Prelude Bytes NetworkTypes Runtime Ledger UdpServer Sessions UdpServerSpec.
Local Open Scope Z_scope.

(** ** The invariant *)

Section invariant.
Context {A CB U : Type} `{SteamSockets A}.
Local Abbreviation W := (world A (UdpServer CB) U).
Implicit Types (k : threading) (w : W) (s t : UdpServer CB) (p q : positive).
Implicit Types (tr cs : list (steam_call A)).

(** The library accepted the connection [c] and put it in the poll group [g]. *)
Definition accepted tr (g c : Z) : Prop :=
  ∃ tr1 tr2, tr = tr1 ++ AcceptConnection c :: SetConnectionPollGroup c g :: tr2 ∧
    (steam_answer tr1 (AcceptConnection c) : EResult) = k_EResultOK ∧
    (steam_answer (tr1 ++ [AcceptConnection c]) (SetConnectionPollGroup c g) : bool) = true.

Lemma accepted_app tr cs g c : accepted tr g c → accepted (tr ++ cs) g c.
Proof.
  intros (tr1 & tr2 & -> & Ha & Hg). exists tr1, (tr2 ++ cs). by rewrite <- app_assoc.
Qed.

(** One server: the library is there; the mutex is free between operations; an
    active server has a listen socket and a live poll group; one that is not has
    no clients; the client table is well-formed, and every client in it was
    accepted and put in the server's poll group. *)
Record server_ok tr s : Prop := {
  ok_interface : m_interface s = true;
  ok_mutex : m_client_mutex s = false;
  ok_listen : active s = true → m_listen_socket s ≠ 0;
  ok_group : active s = true → poll_group_live tr (m_poll_group s);
  ok_stopped : active s = false → m_clients s = ∅;
  ok_clients : clients_ok s;
  ok_accepted : map_Forall (λ c _, accepted tr (m_poll_group s) c) (m_clients s);
}.

(** All servers, the static instance, and the poll groups they hold; one
    operation at a time, only running servers have a thread. *)
Record world_inv k w : Prop := {
  ok_servers : map_Forall (λ _, server_ok (w_trace w)) (w_objs w);
  ok_instance p : s_instance w = Some p →
    ∃ s, w_objs w !! p = Some s ∧ m_is_running s = true;
  ok_groups p q s t : w_objs w !! p = Some s → w_objs w !! q = Some t →
    active s = true → active t = true → m_poll_group s = m_poll_group t → p = q;
  ok_joined p s : k = Sequential → w_objs w !! p = Some s →
    m_network_thread s = true → m_is_running s = true;
}.

(** Between operations. *)
Definition world_ok w : Prop := world_inv Sequential w.

Lemma world_ok_lookup k w p s : world_inv k w → w_objs w !! p = Some s → server_ok (w_trace w) s.
Proof. intros Hw. apply (ok_servers _ _ Hw). Qed.

Lemma running_active s : m_is_running s = true → active s = true.
Proof. unfold active. by intros ->. Qed.

Lemma active_running w p s : world_ok w → w_objs w !! p = Some s → active s = m_is_running s.
Proof.
  intros Hw Hs. pose proof (ok_joined _ _ Hw p s eq_refl Hs) as Hj. unfold active.
  destruct (m_network_thread s); [|by rewrite orb_false_r]. by rewrite Hj.
Qed.

(** A server that does not run has no thread and no clients. *)
Lemma idle_server w p s :
  world_ok w → w_objs w !! p = Some s → m_is_running s = false →
  m_network_thread s = false ∧ m_clients s = ∅ ∧ active s = false.
Proof.
  intros Hw Hs Hr. pose proof (active_running w p s Hw Hs) as Ha. rewrite Hr in Ha.
  split_and!; [|by apply (ok_stopped _ _ (world_ok_lookup _ _ _ _ Hw Hs))|done].
  unfold active in Ha. by apply orb_false_iff in Ha as [_ ?].
Qed.

(** Every world in order is one that tolerates interleaving. *)
Lemma world_inv_weaken k w : world_ok w → world_inv k w.
Proof. intros []. split; eauto. Qed.

Lemma server_ok_calls tr cs s :
  server_ok tr s → (active s = true → DestroyPollGroup (m_poll_group s) ∉ cs) →
  server_ok (tr ++ cs) s.
Proof.
  intros [] Hcs. split; auto using poll_group_live_app.
  eapply map_Forall_impl; [eassumption|]. intros c ci. by apply accepted_app.
Qed.

(** Calls that destroy no poll group keep the invariant. *)
Lemma world_inv_calls k w cs :
  world_inv k w → (∀ g, DestroyPollGroup g ∉ cs) → world_inv k (with_calls cs w).
Proof.
  intros [Hs Hi Hg Hj] Hcs. split; [|done..].
  intros p s Hp. apply server_ok_calls; [by apply (Hs p)|done].
Qed.

Lemma world_inv_user k w f : world_inv k w → world_inv k (with_user f w).
Proof. intros []. split; eauto. Qed.

Lemma world_inv_thread k w (th : option positive) : world_inv k w → world_inv k (with_thread th w).
Proof. intros []. split; eauto. Qed.

(** Replacing a server and the instance. *)
Lemma world_inv_replace k w (i : option positive) p s s' :
  world_inv k w → w_objs w !! p = Some s → server_ok (w_trace w) s' →
  (i = None ∨ (i = Some p ∧ m_is_running s' = true) ∨
   (i = s_instance w ∧ (i = Some p → m_is_running s' = true))) →
  (active s' = true → ∀ q t, q ≠ p → w_objs w !! q = Some t → active t = true →
     m_poll_group s' ≠ m_poll_group t) →
  (k = Sequential → m_network_thread s' = true → m_is_running s' = true) →
  world_inv k (with_obj p s' (with_instance i w)).
Proof.
  intros [Hs Hi Hg Hj] Hp Hs' Hinst Hdist Hjoin. split.
  - intros q t Hq. simpl in Hq. apply lookup_insert_Some in Hq as [[<- <-]|[_ Hq]]; [done|].
    by apply (Hs q).
  - intros q Hq. simpl in *. subst i. destruct (decide (p = q)) as [<-|Hne].
    + exists s'. rewrite lookup_insert_eq. split; [done|].
      destruct Hinst as [?|[[_ ?]|[_ ?]]]; auto; done.
    + rewrite lookup_insert_ne by done. apply Hi.
      destruct Hinst as [?|[[? _]|[? _]]]; congruence.
  - intros q1 q2 t1 t2 H1 H2 Hr1 Hr2 Heq. simpl in H1, H2.
    apply lookup_insert_Some in H1 as [[<- <-]|[Hn1 H1]];
      apply lookup_insert_Some in H2 as [[<- <-]|[Hn2 H2]]; [done|..].
    + by destruct (Hdist Hr1 q2 t2 (not_eq_sym Hn2) H2 Hr2).
    + by destruct (Hdist Hr2 q1 t1 (not_eq_sym Hn1) H1 Hr1).
    + by eapply Hg.
  - intros q t Hk Hq. simpl in Hq.
    apply lookup_insert_Some in Hq as [[<- <-]|[_ Hq]]; [by apply Hjoin|by eapply Hj].
Qed.

(** Replacing a server by one as active as before, on the same group. *)
Lemma world_inv_update k w p s s' :
  world_inv k w → w_objs w !! p = Some s → server_ok (w_trace w) s' →
  m_is_running s' = m_is_running s → active s' = active s →
  m_poll_group s' = m_poll_group s ∨ active s = false →
  (k = Sequential → m_network_thread s' = true → m_is_running s' = true) →
  world_inv k (with_obj p s' w).
Proof.
  intros Hw Hp Hs' Hrun Hact Hgrp Hjoin.
  assert (with_obj p s' w = with_obj p s' (with_instance (s_instance w) w)) as -> by (clear; by destruct w).
  apply (world_inv_replace k w _ p s); [done..| | |done].
  - right; right. split; [done|]. intros Hinst.
    destruct (ok_instance _ _ Hw p Hinst) as (t & Ht & Hrt). congruence.
  - intros Ha' q t Hne Ht Hat Heq. destruct Hgrp; [|congruence].
    apply Hne. symmetry. eapply (ok_groups _ _ Hw p q s t); congruence.
Qed.
End invariant.

(** A literal list of calls destroys no poll group, and is harmless. *)
Ltac no_destroy :=
  let g := fresh in let Hin := fresh in
  intros g Hin; simpl in Hin;
  repeat (apply elem_of_cons in Hin as [Hin|Hin]; [discriminate Hin|]);
  by apply elem_of_nil in Hin.
Ltac harmless := first [by repeat constructor | by apply Forall_fmap, Forall_true].

(** ** What operations keep *)

Section keeping.
Context {A CB U : Type} `{SteamSockets A}.
Local Abbreviation W := (world A (UdpServer CB) U).
Implicit Types (k : threading) (w v : W) (s t : UdpServer CB) (p q : positive).
Implicit Types (cs : list (steam_call A)) (d e : list steam_message).

(** The session machine goes on, and if the messages [d] were owed before, [d']
    are owed now. *)
Record progress d d' w w' : Prop := Progress {
  pr_sessions : rtc session_step (sessions w) (sessions w');
  pr_ledger e : ledger (d ++ e) (w_trace w) → ledger (d' ++ e) (w_trace w');
}.

Lemma progress_trans d d' d'' w1 w2 w3 :
  progress d d' w1 w2 → progress d' d'' w2 w3 → progress d d'' w1 w3.
Proof. intros [Hs Hl] [Hs' Hl']. split; [by etrans|auto]. Qed.

Lemma progress_frame d d' e w w' : progress d d' w w' → progress (d ++ e) (d' ++ e) w w'.
Proof. intros [Hs Hl]. split; [done|]. intros e'. rewrite <- !app_assoc. apply Hl. Qed.

(** Library calls between two worlds with the same servers and instance. *)
Lemma progress_calls cs w w' :
  Forall idle cs → w_objs w' = w_objs w → s_instance w' = s_instance w →
  w_trace w' = w_trace w ++ cs → progress [] [] w w'.
Proof.
  intros Hcs Ho Hi Ht. split; [unfold sessions; rewrite Ho, Hi; apply rtc_refl|].
  intros e. rewrite Ht. by apply ledger_idle.
Qed.

(** The members an interleaved callback leaves alone. *)
Definition core s : bool * bool * bool * Z * Z * Z :=
  (m_interface s, m_network_thread s, m_is_running s, m_port s, m_listen_socket s, m_poll_group s).

Definition modest w w' : Prop :=
  s_instance w' = s_instance w ∧ core <$> w_objs w' = core <$> w_objs w.

Lemma modest_lookup w w' p s :
  modest w w' → w_objs w !! p = Some s → ∃ s', w_objs w' !! p = Some s' ∧ core s' = core s.
Proof.
  intros [_ Hcore] Hs. assert ((core <$> w_objs w') !! p = Some (core s)) as Hl
    by (by rewrite Hcore, lookup_fmap, Hs).
  rewrite lookup_fmap in Hl. destruct (w_objs w' !! p) as [s'|]; [|done].
  exists s'. split; [done|]. by apply (inj Some).
Qed.

Lemma core_active s s' : core s' = core s → active s' = active s.
Proof. intros [=]. unfold active. congruence. Qed.

Lemma modest_with_obj w v p s s' :
  w_objs w !! p = Some s → w_objs v = w_objs w → s_instance v = s_instance w → core s' = core s →
  modest w (with_obj p s' v).
Proof.
  intros Hs Hobjs Hi Hcore. split; [done|]. simpl. rewrite Hobjs, fmap_insert, Hcore.
  apply insert_id. by rewrite lookup_fmap, Hs.
Qed.

(** What an operation keeps that runs from [w] to [w'] with the messages [d]
    owed before and [d'] after it. *)
Record keeps_owing k d d' w w' : Prop := Keeps {
  kp_inv : world_inv k w';
  kp_shape : same_shape w w';
  kp_progress : progress d d' w w';
  kp_modest : k = Interleaved → modest w w';
}.

Definition keeps {R} k w : R → W → Prop := λ _, keeps_owing k [] [] w.

Lemma keeps_trans k d d' d'' w1 w2 w3 :
  keeps_owing k d d' w1 w2 → keeps_owing k d' d'' w2 w3 → keeps_owing k d d'' w1 w3.
Proof.
  intros [_ Hsh Hp Hm] [Hi Hsh' Hp' Hm']. split; [done|by etrans|by eapply progress_trans|].
  intros Hk. destruct (Hm Hk), (Hm' Hk). split; congruence.
Qed.

Lemma keeps_frame k d d' e w w' : keeps_owing k d d' w w' → keeps_owing k (d ++ e) (d' ++ e) w w'.
Proof. intros []. split; auto using progress_frame. Qed.

Lemma keeps_refl k w : world_inv k w → keeps_owing k [] [] w w.
Proof. intros Hw. split; [done..| |done]. split; [apply rtc_refl|done]. Qed.

Lemma keeps_calls k w cs : world_inv k w → Forall harmless cs → keeps_owing k [] [] w (with_calls cs w).
Proof.
  intros Hw Hcs. split; [|done| |done].
  - apply world_inv_calls; [done|]. intros g. by apply harmless_no_destroy.
  - apply (progress_calls cs); auto.
Qed.

(** Replacing a server by one with the same core in the same session. *)
Lemma keeps_update k w cs p s s' :
  world_inv k w → w_objs w !! p = Some s → Forall harmless cs → core s' = core s →
  server_ok (w_trace w ++ cs) s' →
  rtc session_step (sessions w) (Sessions (<[p := session_of s']> (ss_servers (sessions w))) (s_instance w)) →
  keeps_owing k [] [] w (with_obj p s' (with_calls cs w)).
Proof.
  intros Hw Hs Hcs Hcore Hok Hsess. pose proof (core_active _ _ Hcore) as Hact.
  split; [|by eapply same_shape_with_obj|split|by intros _; eapply modest_with_obj].
  - pose proof (kp_inv _ _ _ _ _ (keeps_calls k w cs Hw Hcs)) as Hw'.
    injection Hcore as Hi Ht Hr Hp Hl Hg.
    apply (world_inv_update k _ p s s' Hw' Hs Hok Hr Hact); [by left|].
    intros Hk Ht'. rewrite Hr. eapply (ok_joined _ _ Hw); [done..|congruence].
  - by rewrite sessions_with_obj.
  - intros e. apply ledger_idle. auto.
Qed.
End keeping.

(** ** Operations keep the invariant *)

Section operations_ok.
Context {A CB U : Type} `{SteamSockets A} `{!SteamLaws A}.
Local Abbreviation W := (world A (UdpServer CB) U).
Implicit Types (k : threading) (w : W) (s t : UdpServer CB) (p q : positive).

Lemma session_idle w p s :
  world_ok w → w_objs w !! p = Some s → m_is_running s = false → session_of s = Idle.
Proof. intros Hw Hs Hr. unfold session_of. by destruct (idle_server w p s Hw Hs Hr) as (_ & _ & ->). Qed.

(** What a start answers says whether a session began. *)
Definition began p (pt : Z) w (b : bool) w' : Prop :=
  if b then ss_servers (sessions w) !! p = Some Idle ∧
            sessions w' = Sessions (<[p := Serving pt ∅]> (ss_servers (sessions w))) (Some p)
  else sessions w' = sessions w.

(** A start that fails leaves an idle server without clients. *)
Lemma failed_start_keeps w cs p s s' :
  world_ok w → w_objs w !! p = Some s → m_is_running s = false → Forall harmless cs →
  s' = set_poll_group (m_poll_group s') (set_listen_socket (m_listen_socket s') s) →
  keeps_owing Sequential [] [] w (with_obj p s' (with_calls cs w)) ∧
  sessions (with_obj p s' (with_calls cs w)) = sessions w.
Proof.
  intros Hw Hs Hr Hcs ->. set (s1 := set_poll_group _ _).
  destruct (idle_server w p s Hw Hs Hr) as (Ht & Hcl & Ha).
  assert (server_ok (w_trace w ++ cs) s1) as Hok.
  { pose proof (world_ok_lookup _ _ _ _ Hw Hs) as [Hi Hm Hls Hg Hst Hclok Hacc].
    destruct s; simpl in *; subst. by split. }
  assert (sessions (with_obj p s1 (with_calls cs w)) = sessions w) as Hsame.
  { rewrite (sessions_same p s); [done|done|].
    unfold session_of. rewrite Ha. by destruct s; simpl in *; subst. }
  split; [|done]. split; [|by eapply same_shape_with_obj|split|done].
  - eapply world_inv_update; [by apply (kp_inv _ _ _ _ _ (keeps_calls _ w cs Hw Hcs))|done|done|..].
    + by destruct s.
    + by destruct s.
    + by right.
    + intros _. destruct s; simpl in *; congruence.
  - rewrite Hsame. apply rtc_refl.
  - intros e. apply ledger_idle. auto.
Qed.

Lemma start_manual_ok p pt w s :
  world_ok w → w_objs w !! p = Some s →
  wp (start_manual p pt) (λ b w', keeps Sequential w b w' ∧ began p pt w b w' ∧
    (b = true → ∃ s', w_objs w' !! p = Some s' ∧ m_is_running s' = true ∧ m_network_thread s' = false)) w.
Proof.
  intros Hw Hs. pose proof (world_ok_lookup _ _ _ _ Hw Hs) as [Hi Hm _ _ _ Hcl _].
  unfold wp. rewrite (start_manual_Done p pt w s Hs Hi). unfold start_manual_result.
  destruct (m_is_running s) eqn:Hr; [by split; [apply keeps_refl|]|]. cbv zeta.
  destruct (idle_server w p s Hw Hs Hr) as (Ht & Hnone & Ha).
  assert (∀ cs s', Forall harmless cs →
    s' = set_poll_group (m_poll_group s') (set_listen_socket (m_listen_socket s') s) →
    let v := with_obj p s' (with_calls cs w) in
    keeps Sequential w false v ∧ began p pt w false v ∧ (false = true → ∃ s'', w_objs v !! p = Some s'' ∧
      m_is_running s'' = true ∧ m_network_thread s'' = false)) as Hfail.
  { intros cs s' Hcs Heq. by destruct (failed_start_keeps w cs p s s' Hw Hs Hr Hcs Heq). }
  repeat case_decide; autorewrite with world.
  - apply Hfail; [harmless|by destruct s].
  - apply Hfail; [harmless|by destruct s].
  - set (s1 := started _ _ pt s).
    set (cs := [CreateListenSocketIP pt; CreatePollGroup] : list (steam_call A)).
    assert (session_of s1 = Serving pt ∅) as Hsess.
    { unfold session_of, active. destruct s; simpl in *; subst. by rewrite dom_empty_L. }
    pose proof (sessions_lookup p w s Hs) as Hl. rewrite (session_idle w p s) in Hl by done.
    split; [|split; [split; [done|by rewrite sessions_with_obj, Hsess]|intros _]].
    2: { exists s1. rewrite lookup_with_obj. by destruct s. }
    assert (Forall harmless cs) as Hcs by harmless.
    split; [|by eapply same_shape_with_obj|split|done].
    + eapply (world_inv_replace _ (with_calls cs w)); [by apply (kp_inv _ _ _ _ _ (keeps_calls _ w cs Hw Hcs))|done|..].
      * destruct s; simpl in *; subst. split; try done. intros _. simpl.
        unfold cs. rewrite (app_snoc2 (w_trace w)). by apply poll_group_live_create.
      * right; left. by destruct s.
      * intros _ q t Hne Ht' Hat Heq.
        pose proof (ok_group _ _ (world_ok_lookup _ _ _ _ Hw Ht') Hat) as Hlive.
        eapply (create_group_fresh (w_trace (with_calls [CreateListenSocketIP pt] w))).
        replace (steam_answer (w_trace (with_calls [CreateListenSocketIP pt] w)) CreatePollGroup)
          with (m_poll_group t) by by destruct s.
        apply poll_group_live_app; [done|]. generalize (m_poll_group t). no_destroy.
      * by destruct s.
    + rewrite sessions_with_obj, Hsess. by apply rtc_once, SsStart.
    + intros e. apply (ledger_idle _ _ cs). auto.
Qed.

Lemma start_async_ok p pt w s :
  world_ok w → w_objs w !! p = Some s →
  wp (start_async p pt) (λ b w', keeps Sequential w b w' ∧ began p pt w b w') w.
Proof.
  intros Hw Hs. unfold start_async. apply wp_bind.
  eapply wp_mono; [by eapply start_manual_ok|]. intros [|] w' (Hk & Hbegan & Hrun); [|by apply wp_ret].
  destruct (Hrun eq_refl) as (s' & Hs' & Hr' & Ht'). unfold spawn_network_thread. wp_steps.
  rewrite Ht'. wp_steps. pose proof (kp_inv _ _ _ _ _ Hk) as Hw'.
  assert (sessions (with_obj p (set_thread true s') w') = sessions w') as Hsame.
  { apply (sessions_same p s'); [done|]. unfold session_of, active. destruct s'; simpl in *; by subst. }
  split; [|unfold began; by rewrite Hsame]. eapply keeps_trans; [exact Hk|].
  split; [|by eapply same_shape_with_obj|split; [by rewrite Hsame; apply rtc_refl|done]|done].
  eapply world_inv_update; [done|done| |by destruct s'|by destruct s'; simpl in *; subst|left; by destruct s'|by destruct s'; simpl in *; subst].
  pose proof (world_ok_lookup _ _ _ _ Hw' Hs') as [].
  destruct s'; simpl in *; subst. by split.
Qed.

Lemma destroy_in_stop_calls g s :
  DestroyPollGroup g ∈ stop_calls (A:=A) s → m_poll_group s = g.
Proof.
  unfold stop_calls. rewrite !elem_of_app. intros [Hin|[Hin|Hin]].
  - apply list_elem_of_fmap in Hin as (c & Hc & _). by discriminate Hc.
  - case_decide; [|by apply elem_of_nil in Hin].
    apply list_elem_of_singleton in Hin. by discriminate Hin.
  - case_decide; [|by apply elem_of_nil in Hin].
    apply list_elem_of_singleton in Hin. by injection Hin.
Qed.

Lemma stop_calls_idle s : Forall idle (stop_calls (A:=A) s).
Proof.
  unfold stop_calls. rewrite !Forall_app. split_and!; [by apply Forall_fmap, Forall_true|..];
    case_decide; by repeat constructor.
Qed.

(** The last part of a stop, when no other server is left with a thread to
    join.  It destroys only its own poll group, which no other server holds. *)
Lemma stopped_keeps k p w s :
  world_inv k w → w_objs w !! p = Some s → active s = true →
  (∀ q t, q ≠ p → w_objs w !! q = Some t → m_network_thread t = true → m_is_running t = true) →
  keeps_owing Sequential [] [] w
    (with_obj p (stopped s) (with_instance None (with_calls (stop_calls s) w))).
Proof.
  intros Hw Hs Ha Hothers. split; [split|by eapply same_shape_with_obj|split|done].
  - intros q t Hq. simpl in Hq. apply lookup_insert_Some in Hq as [[<- <-]|[Hne Hq]].
    + pose proof (world_ok_lookup _ _ _ _ Hw Hs) as []. destruct s; simpl in *; subst. by split.
    + apply server_ok_calls; [by apply (world_ok_lookup k w q)|].
      intros Hat Hin. apply Hne. apply (ok_groups _ _ Hw p q s t Hs Hq Ha Hat).
      by apply destroy_in_stop_calls.
  - done.
  - assert (active (stopped s) = false) as Hst by by destruct s.
    intros q1 q2 t1 t2 H1 H2 Hr1 Hr2 Heq. simpl in H1, H2.
    apply lookup_insert_Some in H1 as [[<- <-]|[Hn1 H1]]; [congruence|].
    apply lookup_insert_Some in H2 as [[<- <-]|[Hn2 H2]]; [congruence|].
    by eapply (ok_groups _ _ Hw).
  - intros q t _ Hq. simpl in Hq. apply lookup_insert_Some in Hq as [[<- <-]|[Hne Hq]]; [by destruct s|].
    by eapply Hothers.
  - rewrite sessions_with_obj. replace (session_of (stopped s)) with Idle by by destruct s.
    eapply rtc_l; [apply SsSilence|]. apply rtc_once.
    apply (SsStop p (m_port s) (dom (m_clients s))).
    pose proof (sessions_lookup p w s Hs) as Hl. unfold session_of in Hl. by rewrite Ha in Hl.
  - intros e. apply (ledger_idle _ _ (stop_calls s)), stop_calls_idle.
Qed.

Lemma stop_ok p w s :
  world_ok w → w_objs w !! p = Some s → w_thread w ≠ Some p →
  wp (stop p) (λ r w', keeps Sequential w r w' ∧
    sessions w' = Sessions (<[p := Idle]> (ss_servers (sessions w))) None ∧
    ∃ s', w_objs w' !! p = Some s' ∧ m_is_running s' = false) w.
Proof.
  intros Hw Hs Hth. pose proof (world_ok_lookup _ _ _ _ Hw Hs) as Hok.
  unfold wp. rewrite (stop_Done p w s); [|done|apply Hok..|done].
  pose proof (active_running w p s Hw Hs) as Ha.
  unfold stop_result. destruct (m_is_running s) eqn:Hr.
  - split; [by eapply stopped_keeps; eauto using ok_joined|]. split.
    + rewrite sessions_with_obj. f_equal. by destruct s.
    + exists (stopped s). rewrite lookup_with_obj. by destruct s.
  - split; [|split; [|by exists s]].
    + split; [|done|split; [apply rtc_once, SsSilence|done]|done]. destruct Hw. by split.
    + unfold sessions. simpl. f_equal. rewrite insert_id; [done|].
      rewrite lookup_fmap, Hs. simpl. f_equal. by eapply session_idle.
Qed.

(** Removing a server that does not run, while nobody gets the events. *)
Lemma delete_ok p w s :
  world_ok w → w_objs w !! p = Some s → m_is_running s = false → s_instance w = None →
  let w' := with_objs (delete p) w in
  world_ok w' ∧ progress [] [] w w' ∧ sessions w' = Sessions (delete p (ss_servers (sessions w))) None.
Proof.
  intros Hw Hs Hr Hi w'.
  assert (sessions w' = Sessions (delete p (ss_servers (sessions w))) None) as Hend.
  { unfold sessions. simpl. by rewrite fmap_delete, Hi. }
  split_and!; [|split; [|done]|done].
  - destruct Hw as [Hsv _ Hg Hj]. split; simpl.
    + intros q t Hq. apply lookup_delete_Some in Hq as [_ Hq]. by apply (Hsv q).
    + by rewrite Hi.
    + intros q1 q2 t1 t2 [_ H1]%lookup_delete_Some [_ H2]%lookup_delete_Some. by eapply Hg.
    + intros q t Hk [_ Hq]%lookup_delete_Some. by eapply Hj.
  - rewrite Hend. replace (sessions w) with (Sessions (ss_servers (sessions w)) None)
      by (unfold sessions; by rewrite Hi).
    apply rtc_once, SsDestroy. pose proof (sessions_lookup p w s Hs) as Hl.
    by rewrite (session_idle w p s) in Hl.
Qed.

(** The destructor removes a stopped server, which has no thread left. *)
Lemma destruct_server_ok p w s :
  world_ok w → w_objs w !! p = Some s → w_thread w ≠ Some p →
  wp (destruct_server p) (λ _ w', world_ok w' ∧ dom (w_objs w') = dom (w_objs w) ∖ {[p]} ∧
    w_thread w' = w_thread w ∧ progress [] [] w w' ∧
    sessions w' = Sessions (delete p (ss_servers (sessions w))) None) w.
Proof.
  intros Hw Hs Hth. unfold destruct_server. apply wp_bind.
  eapply wp_mono; [by eapply stop_ok|].
  intros [] w' ([Hw' [Hdom Hth'] Hp _] & Hsess & s' & Hs' & Hr'). wp_steps.
  destruct (idle_server w' p s' Hw' Hs' Hr') as (Ht & _ & _). rewrite Ht. wp_steps.
  assert (s_instance w' = None) as Hi by by injection Hsess.
  destruct (delete_ok p w' s' Hw' Hs' Hr' Hi) as (Hok & Hpr & Hend).
  split_and!; [done|by simpl; rewrite dom_delete_L, Hdom|done|by eapply progress_trans|].
  rewrite Hend, Hsess. simpl. by rewrite delete_insert_eq.
Qed.

Lemma send_ok k p conn data size reliable w s :
  world_inv k w → w_objs w !! p = Some s → 0 ≤ size ≤ length data →
  wp (send p conn data size reliable) (keeps k w) w.
Proof.
  intros Hw Hs Hsz. unfold wp. erewrite send_Done; [|done|apply (world_ok_lookup _ _ _ _ Hw Hs)|done].
  apply keeps_calls; [done|harmless].
Qed.

Lemma broadcast_ok k p data size reliable w s :
  world_inv k w → w_objs w !! p = Some s → 0 ≤ size ≤ length data →
  wp (broadcast p data size reliable) (keeps k w) w.
Proof.
  intros Hw Hs Hsz. pose proof (world_ok_lookup _ _ _ _ Hw Hs) as Hok.
  unfold wp. rewrite (broadcast_Done p data size reliable w s); [|done|apply Hok..|done].
  case_decide; [by apply keeps_refl|]. apply keeps_calls; [done|harmless].
Qed.

Lemma server_ok_delete tr s conn : server_ok tr s → server_ok tr (set_clients (delete conn) s).
Proof.
  intros [Hi Hm Hls Hg Hst Hcl Hacc].
  destruct s; unfold clients_ok in *; simpl in *; subst; split; try done; simpl.
  - intros Ha. by rewrite Hst, delete_empty.
  - by apply map_Forall_delete.
  - by apply map_Forall_delete.
Qed.

Lemma disconnect_ok k p conn reason w s :
  world_inv k w → w_objs w !! p = Some s → wp (disconnect p conn reason) (keeps k w) w.
Proof.
  intros Hw Hs. pose proof (world_ok_lookup _ _ _ _ Hw Hs) as Hok.
  unfold wp. rewrite (disconnect_Done p conn reason w s); [|done|apply Hok..].
  apply (keeps_update k w _ p s); [done..|harmless|by destruct s| |].
  - apply server_ok_delete, server_ok_calls; [done|]. intros _. generalize (m_poll_group s). no_destroy.
  - pose proof (sessions_lookup p w s Hs) as Hl. unfold session_of in *.
    replace (active (set_clients (delete conn) s)) with (active s) by by destruct s.
    destruct (active s) eqn:Ha.
    + replace (m_port (set_clients (delete conn) s)) with (m_port s) by by destruct s.
      replace (m_clients (set_clients (delete conn) s)) with (delete conn (m_clients s)) by by destruct s.
      rewrite dom_delete_L. by apply rtc_once, SsDisconnect.
    + rewrite insert_id by done. apply rtc_refl.
Qed.

(** A member update that touches nothing the invariant speaks of. *)
Lemma update_ok k p (f : UdpServer CB → UdpServer CB) w :
  world_inv k w → is_Some (w_objs w !! p) →
  (∀ tr s, server_ok tr s → server_ok tr (f s)) →
  (∀ s, core (f s) = core s ∧ m_clients (f s) = m_clients s) →
  wp (update p f) (keeps k w) w.
Proof.
  intros Hw [s Hs] Hf Hsame. destruct (Hsame s) as [Hcore Hcl]. wp_step.
  pose proof (keeps_update k w [] p s (f s)) as Hk. rewrite with_calls_nil, app_nil_r in Hk.
  apply Hk; [done..|harmless|done|by apply Hf, (world_ok_lookup k w p)|].
  rewrite insert_id; [by apply rtc_refl|]. rewrite (sessions_lookup p w s Hs). f_equal.
  unfold session_of. rewrite (core_active _ _ Hcore), Hcl. by injection Hcore as _ _ _ -> _ _.
Qed.
End operations_ok.

(** ** Operations that run no callback *)

Section private_operations.
Context {A CB U : Type} `{SteamSockets A}.
Local Abbreviation W := (world A (UdpServer CB) U).

Lemma iface_private p c : private (iface (CB:=CB) (U:=U) p c).
Proof. unfold iface. private. Qed.
Lemma scoped_lock_private {R} p (m : M W R) : private m → private (scoped_lock p m).
Proof. intros Hm. unfold scoped_lock. private. Qed.
#[local] Hint Resolve iface_private scoped_lock_private : private.

Lemma construct_private p : private (construct (CB:=CB) (U:=U) p).
Proof. unfold construct. private. Qed.
Lemma start_async_private p pt : private (start_async (CB:=CB) (U:=U) p pt).
Proof. unfold start_async, start_manual, on_fatal_message, spawn_network_thread. private. Qed.
Lemma stop_private p : private (stop (CB:=CB) (U:=U) p).
Proof.
  unfold stop, join_network_thread, close_all, close_listen_socket, destroy_poll_group, close_client.
  private.
Qed.
Lemma destruct_private p : private (destruct_server (CB:=CB) (U:=U) p).
Proof. unfold destruct_server. pose proof stop_private. private. Qed.
Lemma send_private p conn data size reliable : private (send (CB:=CB) (U:=U) p conn data size reliable).
Proof. unfold send, read_bytes. private. Qed.
Lemma broadcast_private p data size reliable :
  private (broadcast (CB:=CB) (U:=U) p data size reliable).
Proof. unfold broadcast. pose proof send_private. private. Qed.
End private_operations.

(** ** Operations on one server *)

Section confined_operations.
Context {A CB U : Type} `{SteamSockets A}.
Local Abbreviation W := (world A (UdpServer CB) U).

Lemma iface_confined p q c : confined q (iface (CB:=CB) (U:=U) p c).
Proof. unfold iface. confined. Qed.
Lemma scoped_lock_confined {R} p (m : M W R) : confined p m → confined p (scoped_lock p m).
Proof. intros Hm. unfold scoped_lock. confined. Qed.
#[local] Hint Resolve iface_confined scoped_lock_confined : confined.

Lemma construct_confined p : confined p (construct (CB:=CB) (U:=U) p).
Proof. unfold construct. confined. Qed.
Lemma start_manual_confined p pt : confined p (start_manual (CB:=CB) (U:=U) p pt).
Proof. unfold start_manual, on_fatal_message. confined. Qed.
Lemma start_async_confined p pt : confined p (start_async (CB:=CB) (U:=U) p pt).
Proof. unfold start_async, spawn_network_thread. pose proof start_manual_confined. confined. Qed.
Lemma stop_confined p : confined p (stop (CB:=CB) (U:=U) p).
Proof.
  unfold stop, join_network_thread, close_all, close_listen_socket, destroy_poll_group, close_client.
  confined.
Qed.
Lemma destruct_confined p : confined p (destruct_server (CB:=CB) (U:=U) p).
Proof. unfold destruct_server. pose proof stop_confined. confined. Qed.
End confined_operations.

#[export] Hint Resolve iface_confined scoped_lock_confined construct_confined start_manual_confined
  start_async_confined stop_confined destruct_confined : confined.

#[export] Hint Resolve iface_private scoped_lock_private construct_private start_async_private
  stop_private destruct_private send_private broadcast_private : private.


(** ** Callbacks and polling *)

Section going_on.
Context {A CB U : Type} `{SteamSockets A} `{CallbackContract U}.
Local Abbreviation W := (world A (UdpServer CB) U).
Implicit Types (k : threading) (w v : W) (d e : list steam_message).

(** What an operation keeps that may run callbacks. *)
Definition goes_on_owing k d d' w w' : Prop :=
  keeps_owing k d d' w w' ∧ user_frame (w_user w) (w_user w').
Definition goes_on k w w' : Prop := goes_on_owing k [] [] w w'.

(** A state in which callbacks may run. *)
Definition good k w : Prop := world_inv k w ∧ ready w.

Lemma goes_on_steady k d d' w w' : goes_on_owing k d d' w w' → steady w w'.
Proof. intros [Hk Hu]. split; [apply Hk|done]. Qed.

Lemma goes_on_good k d d' w w' : good k w → goes_on_owing k d d' w w' → good k w'.
Proof.
  intros [_ Hr] Hg. split; [apply Hg|]. by eapply steady_ready; [eapply goes_on_steady|].
Qed.

Lemma goes_on_refl k w : world_inv k w → goes_on k w w.
Proof. intros Hw. split; [by apply keeps_refl|done]. Qed.

Lemma goes_on_trans k d d' d'' w v v' :
  goes_on_owing k d d' w v → goes_on_owing k d' d'' v v' → goes_on_owing k d d'' w v'.
Proof. intros [Hk Hu] [Hk' Hu']. split; [by eapply keeps_trans|by etrans]. Qed.

Lemma goes_on_frame k d d' e w w' :
  goes_on_owing k d d' w w' → goes_on_owing k (d ++ e) (d' ++ e) w w'.
Proof. intros [Hk Hu]. split; [by apply keeps_frame|done]. Qed.

Lemma goes_on_lookup k d d' w w' p :
  goes_on_owing k d d' w w' → is_Some (w_objs w !! p) → is_Some (w_objs w' !! p).
Proof. intros Hg. eapply steady_lookup. by eapply goes_on_steady. Qed.

(** One operation after another. *)
Lemma wp_goes_on {R} k d d' d'' (m : M W R) w v :
  goes_on_owing k d d' w v → wp m (λ _, goes_on_owing k d' d'' v) v →
  wp m (λ _, goes_on_owing k d d'' w) v.
Proof. intros Hv Hm. eapply wp_mono; [exact Hm|]. intros r' v'. by apply goes_on_trans. Qed.

Lemma keeps_goes_on {R} k w (r : R) w' : keeps k w r w' → w_user w' = w_user w → goes_on k w w'.
Proof. intros Hk Hu. split; [done|]. by rewrite Hu. Qed.

(** Operations that run no callback. *)
Lemma wp_keeps_goes_on {R} k (m : M W R) w : private m → wp m (keeps k w) w → wp m (λ _, goes_on k w) w.
Proof.
  intros Hm Hk. eapply wp_mono; [by apply wp_private|]. intros r v [Hv Hu]. by eapply keeps_goes_on.
Qed.

Lemma goes_on_calls k w cs : world_inv k w → Forall harmless cs → goes_on k w (with_calls cs w).
Proof. intros Hw Hcs. split; [by apply keeps_calls|done]. Qed.

(** On another thread. *)
Lemma good_thread k (th : option positive) w : good k w → good k (with_thread th w).
Proof. intros [Hw Hr]. split; [by apply world_inv_thread|done]. Qed.

Lemma wp_on_thread_goes_on {R} k d (d' : R → list steam_message) (P : R → Prop) p (m : M W R) w :
  wp m (λ r v, goes_on_owing k d (d' r) (with_thread (Some p) w) v ∧ P r) (with_thread (Some p) w) →
  wp (on_thread p m) (λ r v, goes_on_owing k d (d' r) w v ∧ P r) w.
Proof.
  intros Hm. apply wp_on_thread. eapply wp_mono; [exact Hm|].
  intros r v [[[Hv [Hdom _] [Hs Hl] Hmod] Hu] HP]. split; [|done]. split; [|done].
  split; [by apply world_inv_thread|done|by split|done].
Qed.

(** User code that changes nothing but its own state. *)
Lemma goes_on_user k f w : world_inv k w → user_frame (w_user w) (f (w_user w)) → goes_on k w (with_user f w).
Proof.
  intros Hw Hu. split; [|done].
  split; [by apply world_inv_user|done| |done]. by apply (progress_calls []); rewrite ?app_nil_r.
Qed.
End going_on.

(** What the server needs of the user callbacks: where they may run, they are
    themselves safe uses of the servers, neither create nor destroy one, and
    stay within their frame; interleaved, they start and stop none either. *)
Class ServerCallbacksLaws (k : threading) A CB U
    `{SteamSockets A, ServerCallbacks A CB U, CallbackContract U} := {
  run_on_data_ok cb ci data (w : world A (UdpServer CB) U) :
    length data < 2 ^ 31 → good k w → wp (run_on_data cb ci data (length data)) (λ _, goes_on k w) w;
  run_on_connected_ok cb ci (w : world A (UdpServer CB) U) :
    good k w → wp (run_on_connected cb ci) (λ _, goes_on k w) w;
  run_on_disconnected_ok cb ci (w : world A (UdpServer CB) U) :
    good k w → wp (run_on_disconnected cb ci) (λ _, goes_on k w) w;
}.

(** A client entered in the table has the address the library gave. *)
Lemma clients_ok_insert `{SteamIPAddr A, !SteamIPAddrLaws A} {CB} (s : UdpServer CB) conn (a : A) :
  clients_ok s → clients_ok (set_clients <[conn := new_client conn a]> s).
Proof.
  destruct s. unfold clients_ok. simpl. intros Hcl. apply map_Forall_insert_2; [|done].
  split; [done|]. split; [apply steam_union_size|apply steam_port_fits].
Qed.

(** A new client is entered only in the server that gets the events, once the
    library accepted it. *)
Lemma insert_client_ok `{SteamIPAddr A, !SteamIPAddrLaws A, SteamSockets A} {CB U}
    k p conn (a : A) (w : world A (UdpServer CB) U) s cs :
  world_inv k w → w_objs w !! p = Some s → s_instance w = Some p → Forall harmless cs →
  accepted (w_trace w ++ cs) (m_poll_group s) conn →
  keeps_owing k [] [] w (with_obj p (set_clients <[conn := new_client conn a]> s) (with_calls cs w)).
Proof.
  intros Hw Hs Hi Hcs Hacc. destruct (ok_instance _ _ Hw p Hi) as (s0 & Hs0 & Hr).
  assert (s0 = s) as -> by congruence. pose proof (running_active s Hr) as Ha.
  set (s' := set_clients _ s).
  assert (active s' = active s ∧ m_clients s' = <[conn := new_client conn a]> (m_clients s) ∧
    m_poll_group s' = m_poll_group s ∧ m_port s' = m_port s) as (Ha' & Hcl' & Hg' & Hp') by by destruct s.
  apply (keeps_update k w cs p s s'); [done..|by destruct s| |].
  - pose proof (server_ok_calls _ cs s (world_ok_lookup _ _ _ _ Hw Hs)
      (λ _, harmless_no_destroy cs _ Hcs)) as Hok.
    pose proof (clients_ok_insert s conn a (ok_clients _ _ Hok)) as Hcl.
    destruct Hok as [? ? Hls Hg Hst ? Haccs]. split; rewrite ?Ha', ?Hg'; try done.
    1-3: by destruct s.
    + by rewrite Ha.
    + rewrite Hcl'. by apply map_Forall_insert_2.
  - pose proof (sessions_lookup p w s Hs) as Hl. unfold session_of in *.
    rewrite Ha', Ha, Hcl', Hp', dom_insert_L. rewrite Ha in Hl.
    unfold sessions in *. rewrite Hi in *. by apply rtc_once, SsConnect.
Qed.

Section callbacks_ok.
Context {A CB U : Type} `{SteamIPAddr A} `{!SteamIPAddrLaws A}.
Context `{SteamSockets A} `{!SteamLaws A}.
Context {k : threading} `{ServerCallbacks A CB U} `{CallbackContract U} `{!ServerCallbacksLaws k A CB U}.
Local Abbreviation W := (world A (UdpServer CB) U).
Implicit Types (w : W) (s t : UdpServer CB) (p q : positive).

Lemma iface_goes_on p c w :
  world_inv k w → is_Some (w_objs w !! p) → harmless c → wp (iface p c) (λ _, goes_on k w) w.
Proof.
  intros Hw [s Hs] Hc. pose proof (ok_interface _ _ (world_ok_lookup _ _ _ _ Hw Hs)).
  eapply wp_iface; [done..|]. apply goes_on_calls; [done|by constructor].
Qed.

(** The end of a connection: the callback, then the connection is closed. *)
Lemma closed_ok p info w s :
  good k w → w_objs w !! p = Some s →
  (sc_state info = StateClosedByPeer ∨ sc_state info = StateProblemDetectedLocally) →
  wp (on_connection_status_changed p info) (λ _, goes_on k w) w.
Proof.
  intros Hgood Hs Hst. pose proof Hgood as [Hw Hrd]. unfold wp.
  rewrite (closed_Done p info w s); [|done|done|apply (world_ok_lookup _ _ _ _ Hw Hs)].
  apply wp_bind. apply (wp_mono _ (λ _, goes_on k w)).
  - unfold notify_disconnected. pose proof (goes_on_refl k w Hw).
    case_decide; [|by apply wp_skip].
    destruct (m_client_disconnected_callback s), (m_clients s !! sc_conn info); try by apply wp_skip.
    by apply run_on_disconnected_ok.
  - intros [] v Hv. eapply wp_goes_on; [exact Hv|].
    apply (iface_goes_on p (reject_call _) v); [apply Hv|by eapply goes_on_lookup; [|exists s]|done].
Qed.

Lemma connecting_ok p info w s :
  good k w → w_objs w !! p = Some s → s_instance w = Some p → sc_state info = StateConnecting →
  wp (on_connection_status_changed p info) (λ _, goes_on k w) w.
Proof.
  intros [Hw Hrd] Hs Hi Hst. pose proof (world_ok_lookup _ _ _ _ Hw Hs) as Hok.
  unfold wp. rewrite (connecting_Done p info w s); [|done|done|apply Hok..].
  unfold connecting_result. cbv zeta.
  destruct (bool_decide _) eqn:Hacc; cbn [negb]; cbv iota;
    [destruct (steam_answer _ (SetConnectionPollGroup _ _)) eqn:Hgrp; cbn [negb]; cbv iota|];
    autorewrite with world; [|apply goes_on_calls; [done|harmless]..].
  apply bool_decide_eq_true in Hacc.
  match goal with |- context [Done tt (with_obj p (set_clients (insert _ (new_client _ ?a)) _) (with_calls ?cs _))] =>
    assert (goes_on k w (with_obj p (set_clients <[sc_conn info := new_client (sc_conn info) a]> s)
      (with_calls cs w))) as Hins end.
  { split; [|done]. apply insert_client_ok; [done..|harmless|].
    exists (w_trace w). eexists. split; [done|]. by split. }
  destruct (m_client_connected_callback s) as [cb|]; [|exact Hins].
  eapply wp_goes_on; [exact Hins|]. by eapply run_on_connected_ok, goes_on_good; [|exact Hins].
Qed.

Lemma status_callback_ok info w :
  good k w → wp (connection_status_changed_callback info) (λ _, goes_on k w) w.
Proof.
  intros Hgood. unfold connection_status_changed_callback. wp_steps.
  pose proof (goes_on_refl k w (proj1 Hgood)).
  destruct (s_instance w) as [q|] eqn:Hq; [|by wp_steps].
  destruct (ok_instance _ _ (proj1 Hgood) q Hq) as (s & Hs & Hr).
  destruct (sc_state info) eqn:Hst;
    first [by eapply connecting_ok|eapply closed_ok; by eauto
          |unfold on_connection_status_changed; by rewrite Hst].
Qed.

(** Handling a message pays for it. *)
Lemma poll_message_ok p msg w s :
  good k w → w_objs w !! p = Some s →
  m_cbSize msg = length (m_pData msg) → m_cbSize msg < 2 ^ 31 →
  wp (poll_message p msg) (λ _, goes_on_owing k [msg] [] w) w.
Proof.
  intros Hgood Hs Hsz Hmax. pose proof Hgood as [Hw Hrd].
  pose proof (world_ok_lookup _ _ _ _ Hw Hs) as Hok.
  assert (∀ w', goes_on k w w' →
    wp (call (ReleaseMessage msg)) (λ _, goes_on_owing k [msg] [] w) w') as Hrel.
  { intros w' Hk. eapply wp_goes_on; [exact (goes_on_frame _ _ _ [msg] _ _ Hk)|].
    apply (wp_call (ReleaseMessage msg)). destruct Hk as [[Hw' _ _ _] _]. split; [|done].
    split; [apply world_inv_calls; [done|no_destroy]|done| |done].
    split; [apply rtc_refl|]. intros e. apply ledger_release. }
  pose proof (goes_on_refl k w Hw) as Hrefl.
  unfold poll_message. wp_steps.
  destruct (m_data_received_callback s) as [cb|]; wp_steps; [|by apply Hrel].
  eapply wp_of_Done; [by apply get_client_info_Done, Hok|].
  destruct (m_clients s !! msg_conn msg) as [ci|]; wp_steps; [|by apply Hrel].
  unfold u64. rewrite wrap_small by (unfold fits; lia). rewrite Hsz.
  eapply wp_mono; [apply run_on_data_ok; [lia|done]|]. intros []. apply Hrel.
Qed.

(** A loop of operations that keep the state good, each paying for its part. *)
Lemma loop_ok {X} (owed : X → list steam_message) (l : list X) (body : X → M W unit) p w :
  good k w → is_Some (w_objs w !! p) →
  (∀ x v, x ∈ l → good k v → is_Some (w_objs v !! p) →
     wp (body x) (λ _, goes_on_owing k (owed x) [] v) v) →
  wp (for_each l body) (λ _, goes_on_owing k (l ≫= owed) [] w) w.
Proof.
  revert w. induction l as [|x l IH]; intros w Hgood Hp Hbody; cbn [for_each].
  { by apply wp_skip, goes_on_refl, Hgood. }
  apply wp_bind. eapply wp_mono; [apply Hbody; [left|done|done]|]. intros [] v Hv.
  rewrite bind_cons.
  eapply wp_goes_on; [exact (goes_on_frame _ _ _ (l ≫= owed) _ _ Hv)|].
  apply IH; [by eapply goes_on_good|by eapply goes_on_lookup|].
  intros y u Hy. apply Hbody. by right.
Qed.

Lemma bind_singleton {X} (l : list X) : (l ≫= λ x, [x]) = l.
Proof. induction l as [|x l IH]; [done|]. by rewrite bind_cons, IH. Qed.

Lemma bind_nothing {X Y} (l : list X) : (l ≫= λ _, []) = ([] : list Y).
Proof. induction l as [|x l IH]; [done|]. by rewrite bind_cons, IH. Qed.

(** The library hands over messages, which are owed from then on. *)
Lemma receive_goes_on p g w :
  world_inv k w →
  goes_on_owing k [] (steam_answer (w_trace w) (ReceiveMessagesOnPollGroup g 32) : Z * _).2 w
    (with_calls [ReceiveMessagesOnPollGroup g 32] w).
Proof.
  intros Hw. split; [|done]. split; [apply world_inv_calls; [done|no_destroy]|done| |done].
  split; [apply rtc_refl|]. intros e. apply ledger_receive.
Qed.

Lemma status_changes_ok (infos : list status_changed) p w :
  good k w → is_Some (w_objs w !! p) →
  wp (for_each infos connection_status_changed_callback) (λ _, goes_on k w) w.
Proof.
  intros Hgood Hp.
  pose proof (loop_ok (λ _, []) infos connection_status_changed_callback p w Hgood Hp) as Hloop.
  rewrite bind_nothing in Hloop. apply Hloop. intros info u _ Hu _. by apply status_callback_ok.
Qed.

Lemma poll_messages_ok p (msgs : list steam_message) w :
  good k w → is_Some (w_objs w !! p) →
  Forall (λ m, m_cbSize m = length (m_pData m) ∧ m_cbSize m < 2 ^ 31) msgs →
  wp (for_each msgs (poll_message p)) (λ _, goes_on_owing k msgs [] w) w.
Proof.
  intros Hgood Hp Hmsgs. rewrite Forall_forall in Hmsgs.
  pose proof (loop_ok (λ m, [m]) msgs (poll_message p) p w Hgood Hp) as Hloop.
  rewrite bind_singleton in Hloop. apply Hloop.
  intros m v Hm Hv [s Hs]. destruct (Hmsgs m Hm). by eapply poll_message_ok.
Qed.

Lemma poll_ok p w s :
  good k w → w_objs w !! p = Some s → active s = true → wp (poll p) (λ _, goes_on k w) w.
Proof.
  intros Hgood Hs Ha. pose proof Hgood as [Hw Hrd].
  pose proof (world_ok_lookup _ _ _ _ Hw Hs) as Hok.
  set (c := ReceiveMessagesOnPollGroup (A:=A) (m_poll_group s) 32).
  assert (receive_ok 32 (steam_answer (w_trace w) c)) as Hrecv
    by (apply receive_live_group; [done|by apply Hok]).
  unfold wp. rewrite (poll_Done p w s Hs (ok_interface _ _ Hok) Hrecv). fold c.
  destruct Hrecv as (_ & _ & Hmsgs).
  pose proof (receive_goes_on p (m_poll_group s) w Hw) as Hk. fold c in Hk.
  apply wp_bind. eapply wp_mono.
  { eapply wp_goes_on; [exact Hk|].
    apply poll_messages_ok; [by eapply goes_on_good|by exists s|done]. }
  intros [] v Hv. assert (is_Some (w_objs v !! p)) as Hp by (by eapply goes_on_lookup; [|exists s]).
  apply wp_bind. eapply wp_mono.
  { eapply wp_goes_on; [exact Hv|]. by apply (iface_goes_on p RunCallbacks v); [apply Hv|..]. }
  intros infos v' Hv'. cbv beta in Hv'. eapply wp_goes_on; [exact Hv'|].
  apply (status_changes_ok _ p); [by eapply goes_on_good|by eapply goes_on_lookup; [|exists s]].
Qed.

Lemma network_loop_ok p n w :
  good k w → is_Some (w_objs w !! p) → wp (network_loop n p) (λ _, goes_on k w) w.
Proof.
  revert w. induction n as [|n IH]; intros w Hgood [s Hs]; cbn [network_loop].
  { apply wp_ret, goes_on_refl, Hgood. }
  unfold is_running. wp_steps.
  destruct (m_is_running s) eqn:Hr; [|by wp_steps; apply goes_on_refl, Hgood].
  apply wp_bind. eapply wp_mono; [by eapply poll_ok, running_active|]. intros [] v Hv.
  eapply wp_goes_on; [exact Hv|].
  apply IH; [by eapply goes_on_good|by eapply goes_on_lookup; [|exists s]].
Qed.
End callbacks_ok.
