(* ===== verification/Simulated.v ===== *)
(** * A simulated library

    A concrete [SteamSockets] that satisfies the documented laws: handles are
    numbered by the length of the history, and every poll hands over a scripted
    inbox and scripted status changes.  It shows that the hypotheses of the
    development can hold, and is what concrete runs are evaluated on.  Also
    concrete instances of the other outside interfaces. *)

From S2P Require Import Prelude Bytes NetworkTypes Packet Serde Runtime.
Import Strings.Byte.
Local Open Scope Z_scope.

(** ** Addresses, allocation, buffers, objects *)

(** An address is its port; the only string that does not parse is ["bad:1"]. *)
Definition sim_addr : Type := Z.

#[export] Instance sim_ip : SteamIPAddr sim_addr := {|
  steam_union a := replicate 15 x00 ++ [byte_of_Z a];
  steam_port a := u16 a;
  IsIPv4 _ := true;
  ParseString s := if String.eqb s "bad:1"%string then None else Some 7;
|}.

#[export] Instance sim_ip_laws : SteamIPAddrLaws sim_addr.
Proof. split; [done|]. intros a. by apply wrap_fits. Qed.

#[export] Instance sim_alloc : Allocator := λ n, replicate (Z.to_nat n) xcd.
#[export] Instance sim_alloc_laws : AllocatorLaws.
Proof. intros n Hn. unfold new_u8, sim_alloc. rewrite length_replicate. lia. Qed.

#[export] Instance sim_buffer : OwningBuffer (list byte) := {|
  ob_consume mem size := take (Z.to_nat size) mem;
  ob_data b := b;
  ob_size b := length b;
|}.
#[export] Instance sim_buffer_laws : OwningBufferLaws (list byte).
Proof. split; intros mem; simpl; by rewrite Nat2Z.id, firstn_all. Qed.

(** A 16-bit object, [struct { u8 lo, hi; }]. *)
#[export] Instance sim_pod : TriviallyCopyable (byte * byte) := {|
  sizeof_T := 2;
  obj_bytes x := [x.1; x.2];
  of_obj_bytes bs := match bs with [a; b] => (a, b) | _ => (x00, x00) end;
|}.
#[export] Instance sim_pod_laws : TriviallyCopyableLaws (byte * byte).
Proof. split; [done| |done]. by intros []. Qed.

(** A one-byte value packed as a one-element msgpack array of a positive fixint. *)
#[export] Instance sim_unpack : MsgpackUnpack (list byte) :=
  λ bs, match bs with x91 :: rest => Some rest | _ => None end.
#[export] Instance sim_adaptor : MsgpackAdaptor byte (list byte) := {|
  msgpack_pack b := [x91; b];
  msgpack_convert o := match o with [b] => Some b | _ => None end;
|}.
#[export] Instance sim_msgpack_laws : MsgpackLaws byte (list byte).
Proof. split; [by intros b; exists [b]|done]. Qed.

(** ** The sockets library *)

Section library.
Context (inbox : list (kb_connection_t * list byte)) (statuses : list status_changed).

Definition sim_message (m : kb_connection_t * list byte) : steam_message :=
  SteamMessage m.1 m.2 (length m.2).

(** The handle [h] was created by the call at position [h - 1] of the history
    and no later call closes it. *)
Definition handle_open (creates closes : steam_call sim_addr → bool)
    (tr : list (steam_call sim_addr)) (h : Z) : bool :=
  bool_decide (0 < h) &&
  match tr !! Z.to_nat (h - 1) with Some c => creates c | None => false end &&
  forallb (λ c, negb (closes c)) (drop (Z.to_nat h) tr).

Definition creates_group (c : steam_call sim_addr) : bool :=
  match c with CreatePollGroup => true | _ => false end.
Definition destroys_group (g : Z) (c : steam_call sim_addr) : bool :=
  match c with DestroyPollGroup g' => bool_decide (g = g') | _ => false end.
Definition opens_conn (c : steam_call sim_addr) : bool :=
  match c with ConnectByIPAddress _ => true | _ => false end.
Definition closes_conn (h : Z) (c : steam_call sim_addr) : bool :=
  match c with CloseConnection h' _ _ _ => bool_decide (h = h') | _ => false end.

Definition deliver (open : bool) (max : Z) : Z * list steam_message :=
  if open then
    let msgs := sim_message <$> take (Z.to_nat max) inbox in (Z.of_nat (length msgs), msgs)
  else (-1, []).

Definition sim_steam : SteamSockets sim_addr := λ tr c,
  match c as c return answer c with
  | SteamNetworkingSockets => true
  | CreateListenSocketIP port => if decide (port = 0) then 0 else 1 + length tr
  | CreatePollGroup => 1 + length tr
  | AcceptConnection _ => k_EResultOK
  | SetConnectionPollGroup _ _ => true
  | GetConnectionInfo conn => conn
  | ConnectByIPAddress _ => 1 + length tr
  | SendMessageToConnection conn _ _ => if decide (conn = 13) then k_EResultFail 3 else k_EResultOK
  | ReceiveMessagesOnPollGroup g max => deliver (handle_open creates_group (destroys_group g) tr g) max
  | ReceiveMessagesOnConnection h max => deliver (handle_open opens_conn (closes_conn h) tr h) max
  | RunCallbacks => statuses
  | _ => tt
  end.

Lemma handle_open_spec creates closes tr h :
  handle_open creates closes tr h = true ↔
  h ≠ 0 ∧ ∃ tr1 c tr2, tr = tr1 ++ c :: tr2 ∧ creates c = true ∧ 1 + length tr1 = h ∧
    (∀ c', c' ∈ tr2 → closes c' = false).
Proof.
  unfold handle_open. rewrite !andb_true_iff, bool_decide_eq_true, forallb_forall. split.
  - intros [[Hh Hc] Hcl]. destruct (tr !! Z.to_nat (h - 1)) as [c|] eqn:Hl; [|done].
    split; [lia|]. exists (take (Z.to_nat (h - 1)) tr), c, (drop (Z.to_nat h) tr).
    split_and!; [|done| |].
    + replace (Z.to_nat h) with (S (Z.to_nat (h - 1))) by lia. by rewrite take_drop_middle.
    + apply lookup_lt_Some in Hl. rewrite length_take. lia.
    + intros c' Hc'. apply negb_true_iff, Hcl, list_elem_of_In, Hc'.
  - intros (Hh & tr1 & c & tr2 & -> & Hc & Hlen & Hcl). subst h.
    replace (Z.to_nat (1 + length tr1 - 1)) with (length tr1) by lia.
    replace (Z.to_nat (1 + length tr1)) with (length (tr1 ++ [c])) by (rewrite length_app; simpl; lia).
    rewrite list_lookup_middle by done. split_and!; [lia|done|].
    rewrite (cons_middle c tr1 tr2), (app_assoc tr1 [c] tr2), drop_app_length.
    intros c' Hc'%list_elem_of_In. by rewrite Hcl.
Qed.

Lemma deliver_ok max :
  Forall (λ m, length m.2 < 2 ^ 31) inbox → 0 ≤ max → receive_ok max (deliver true max).
Proof.
  intros Hin Hmax. unfold deliver, receive_ok. cbn [fst snd]. split; [done|].
  rewrite length_fmap, length_take. split; [lia|].
  apply Forall_fmap, Forall_take. eapply Forall_impl; [done|]. by intros [c d] Hd.
Qed.

Lemma sim_group_live tr g :
  poll_group_live (H:=sim_steam) tr g ↔ handle_open creates_group (destroys_group g) tr g = true.
Proof.
  rewrite handle_open_spec. unfold poll_group_live. split.
  - intros (Hg & tr1 & tr2 & -> & Ha & Hd). split; [done|]. exists tr1, CreatePollGroup, tr2.
    split_and!; [done|done|done|]. intros c' Hc'. destruct c'; try done. simpl.
    apply bool_decide_eq_false. by intros <-.
  - intros (Hg & tr1 & c & tr2 & -> & Hc & Ha & Hd). split; [done|]. exists tr1, tr2.
    destruct c; try done. split_and!; [done|done|]. intros Hin. specialize (Hd _ Hin).
    simpl in Hd. by apply bool_decide_eq_false in Hd.
Qed.

Lemma sim_conn_live tr h :
  conn_live (H:=sim_steam) tr h ↔ handle_open opens_conn (closes_conn h) tr h = true.
Proof.
  rewrite handle_open_spec. unfold conn_live. split.
  - intros (Hg & tr1 & tr2 & a & -> & Ha & Hd). split; [done|].
    exists tr1, (ConnectByIPAddress a), tr2.
    split_and!; [done|done|done|]. intros c' Hc'. destruct c'; try done. simpl.
    apply bool_decide_eq_false. intros <-. by eapply Hd.
  - intros (Hg & tr1 & c & tr2 & -> & Hc & Ha & Hd). split; [done|].
    destruct c; try done. exists tr1, tr2, addr. split_and!; [done|done|].
    intros r d l Hin. specialize (Hd _ Hin). simpl in Hd. by apply bool_decide_eq_false in Hd.
Qed.

Lemma sim_laws : Forall (λ m, length m.2 < 2 ^ 31) inbox → SteamLaws sim_addr (H:=sim_steam).
Proof.
  intros Hin. split.
  - done.
  - intros tr g max Hmax Hlive%sim_group_live.
    change (receive_ok max (deliver (handle_open creates_group (destroys_group g) tr g) max)).
    rewrite Hlive. by apply deliver_ok.
  - intros tr (_ & tr1 & tr2 & Htr & Ha & _). change (1 + length tr1 = 1 + length tr) in Ha.
    apply (f_equal length) in Htr. rewrite length_app in Htr. simpl in Htr. lia.
  - intros tr h max Hmax Hlive%sim_conn_live.
    change (receive_ok max (deliver (handle_open opens_conn (closes_conn h) tr h) max)).
    rewrite Hlive. by apply deliver_ok.
  - intros tr h max Hdead. rewrite sim_conn_live in Hdead.
    change (deliver (handle_open opens_conn (closes_conn h) tr h) max = (-1, [])).
    by destruct (handle_open _ _ tr h).
Qed.
End library.
