(* ===== verification/UdpServerSystem.v ===== *)
(** * The UDP server as a system, and its properties

    The operations as the steps of a transition system, and the main theorems on
    [UdpServer]: safety of every reachable state, start and stop, the poll loop,
    and a listen socket that leaks. *)

From S2P Require Import Prelude Bytes NetworkTypes Packet Serde Runtime.
From S2P Require Import Ledger UdpServer Sessions UdpServerSpec UdpServerSafety Simulated.
Local Open Scope Z_scope.

(** ** The transition system *)

(** The calls an application, the network thread or the library makes. *)
Inductive server_op (CB : Type) :=
| OpConstruct
| OpDestruct
| OpStartManual (port : Z)
| OpStartAsync (port : Z)
| OpStop
| OpPoll
| OpNetworkIteration                          (** the network thread goes once round its loop *)
| OpStatusChanged (info : status_changed)     (** dispatched by another component's poll *)
| OpSend (conn : kb_connection_t) (data : list Byte.byte) (reliable : bool)
| OpBroadcast (data : list Byte.byte) (reliable : bool)
| OpDisconnect (conn : kb_connection_t) (reason : Z)
| OpSetOnData (cb : option CB)
| OpSetOnConnected (cb : option CB)
| OpSetOnDisconnected (cb : option CB).
Arguments OpConstruct {CB}.
Arguments OpDestruct {CB}.
Arguments OpStartManual {CB}.
Arguments OpStartAsync {CB}.
Arguments OpStop {CB}.
Arguments OpPoll {CB}.
Arguments OpNetworkIteration {CB}.
Arguments OpStatusChanged {CB}.
Arguments OpSend {CB}.
Arguments OpBroadcast {CB}.
Arguments OpDisconnect {CB}.
Arguments OpSetOnData {CB}.
Arguments OpSetOnConnected {CB}.
Arguments OpSetOnDisconnected {CB}.

Section system.
Context {A CB U : Type} `{SteamIPAddr A} `{SteamSockets A} `{ServerCallbacks A CB U} `{CallbackContract U}.
Local Abbreviation W := (world A (UdpServer CB) U).
Implicit Types (w : W) (p : positive).

(** One round of [network_loop] on the network thread. *)
Definition network_iteration p : M W unit :=
  on_thread p (running ← is_running p; if (running : bool) then poll p else skip).

Definition exec_op p (op : server_op CB) : M W unit :=
  match op with
  | OpConstruct => construct p
  | OpDestruct => destruct_server p
  | OpStartManual pt => start_manual p pt ;; skip
  | OpStartAsync pt => start_async p pt ;; skip
  | OpStop => stop p
  | OpPoll => poll p
  | OpNetworkIteration => network_iteration p
  | OpStatusChanged info => connection_status_changed_callback info
  | OpSend conn data reliable => send p conn data (length data) reliable ;; skip
  | OpBroadcast data reliable => broadcast p data (length data) reliable ;; skip
  | OpDisconnect conn reason => disconnect p conn reason
  | OpSetOnData cb => set_on_data_callback p cb
  | OpSetOnConnected cb => set_on_client_connected_callback p cb
  | OpSetOnDisconnected cb => set_on_client_disconnected_callback p cb
  end.

(** The correct uses: on an existing object, built at a fresh address once the
    library is initialised, polled only while it runs, and callbacks run only
    where they may. *)
Definition op_allowed p (op : server_op CB) w : Prop :=
  match op with
  | OpConstruct => w_objs w !! p = None ∧ steam_answer (w_trace w) SteamNetworkingSockets = true
  | OpPoll => (∃ s, w_objs w !! p = Some s ∧ m_is_running s = true) ∧ ready w
  | OpNetworkIteration => is_Some (w_objs w !! p) ∧ ready w
  | OpStatusChanged _ => ready w
  | _ => is_Some (w_objs w !! p)
  end.

Definition server_step w w' : Prop :=
  ∃ p op, op_allowed p op w ∧ exec_op p op w = Done tt w'.

(** No server, no instance, no call yet. *)
Definition initial_world (u : U) : W := World ∅ None None [] u.

(** Invariant of the application's states: the servers are as they should be
    and the application thread executes. *)
Definition app_ok w : Prop := world_ok w ∧ w_thread w = None.
End system.

Section system_ok.
Context {A CB U : Type} `{SteamIPAddr A} `{!SteamIPAddrLaws A}.
Context `{SteamSockets A} `{!SteamLaws A}.
Context `{ServerCallbacks A CB U} `{CallbackContract U} `{!ServerCallbacksLaws Sequential A CB U}.
Local Abbreviation W := (world A (UdpServer CB) U).
Implicit Types (w : W) (p : positive).

Lemma app_ok_keeps d d' w w' : app_ok w → keeps_owing Sequential d d' w w' → app_ok w'.
Proof. intros [_ Hth] [Hw' [_ Hth'] _ _]. split; [done|]. congruence. Qed.

Lemma construct_ok p w :
  world_ok w → w_objs w !! p = None → steam_answer (w_trace w) SteamNetworkingSockets = true →
  wp (construct p) (λ _ w', world_ok w' ∧ w_thread w' = w_thread w ∧
    dom (w_objs w') = {[p]} ∪ dom (w_objs w) ∧ progress [] [] w w' ∧
    sessions w' = Sessions (<[p := Idle]> (ss_servers (sessions w))) (s_instance w)) w.
Proof.
  intros Hw Hp Hlib. unfold construct. wp_steps. rewrite Hlib.
  assert (∀ v : W, sessions (with_obj p (server_init true) v)
    = Sessions (<[p := Idle]> (ss_servers (sessions v))) (s_instance v)) as Hsess
    by (intros v; by rewrite sessions_with_obj).
  split; [|split; [done|split; [apply dom_insert_L|split; [|exact (Hsess (with_calls [_] w))]]]].
  - pose proof (world_inv_calls _ w [SteamNetworkingSockets] Hw ltac:(no_destroy)) as [Hs Hi Hg Hj].
    split.
    + intros q s Hq. simpl in Hq. apply lookup_insert_Some in Hq as [[<- <-]|[_ Hq]]; [|by apply (Hs q)].
      by split.
    + intros q Hq. destruct (Hi q Hq) as (s & Hqs & Hr). exists s. split; [|done]. simpl.
      rewrite lookup_insert_ne; [done|]. intros ->. simpl in Hqs. congruence.
    + intros q1 q2 s1 s2 Hq1 Hq2 Hr1 Hr2. simpl in Hq1, Hq2.
      apply lookup_insert_Some in Hq1 as [[<- <-]|[_ Hq1]]; [done|].
      apply lookup_insert_Some in Hq2 as [[<- <-]|[_ Hq2]]; [done|]. by eapply Hg.
    + intros q t _ Hq. simpl in Hq. apply lookup_insert_Some in Hq as [[<- <-]|[_ Hq]]; [done|by eapply Hj].
  - split.
    + rewrite Hsess. apply rtc_once, SsCreate. simpl. by rewrite lookup_fmap, Hp.
    + intros e. apply (ledger_idle _ _ [SteamNetworkingSockets]). by repeat constructor.
Qed.

Lemma network_iteration_ok p w :
  good Sequential w → is_Some (w_objs w !! p) →
  wp (network_iteration p) (λ _, goes_on Sequential w) w.
Proof.
  intros Hgood [s Hs].
  eapply wp_mono; [eapply (wp_on_thread_goes_on Sequential [] (λ _, []) (λ _, True))|by intros r v []].
  apply (good_thread _ (Some p)) in Hgood.
  apply (wp_mono _ (λ _, goes_on Sequential (with_thread (Some p) w))); [|done].
  unfold is_running. wp_steps. destruct (m_is_running s) eqn:Hr; [|by wp_steps; apply goes_on_refl, Hgood].
  by eapply poll_ok, running_active.
Qed.

(** Every allowed operation keeps the invariant and does not fault; sessions go
    on and messages are accounted for. *)
Lemma exec_op_ok p op w :
  app_ok w → op_allowed p op w → wp (exec_op p op) (λ _ w', app_ok w' ∧ progress [] [] w w') w.
Proof.
  intros Happ Hop. pose proof Happ as [Hw Hth].
  assert (w_thread w ≠ Some p) as Hnth by by rewrite Hth.
  assert (∀ {R} (m : M W R), wp m (keeps Sequential w) w →
    wp m (λ _ w', app_ok w' ∧ progress [] [] w w') w) as Hkeep.
  { intros R m Hm. eapply wp_mono; [exact Hm|]. intros r w' Hk.
    split; [by eapply app_ok_keeps|apply Hk]. }
  assert (∀ m : M W unit, wp m (λ _, goes_on Sequential w) w →
    wp m (λ _ w', app_ok w' ∧ progress [] [] w w') w) as Hgo.
  { intros m Hm. apply Hkeep. eapply wp_mono; [exact Hm|]. by intros r w' []. }
  destruct op; simpl in Hop |- *.
  - destruct Hop as [Hp Hlib]. eapply wp_mono; [by apply construct_ok|].
    intros [] w' (Hw' & Hth' & _ & Hpr & _). split; [|done]. split; [done|]. congruence.
  - destruct Hop as [s Hs]. eapply wp_mono; [by eapply destruct_server_ok|].
    intros [] w' (Hw' & _ & Hth' & Hpr & _). split; [|done]. split; [done|]. congruence.
  - destruct Hop as [s Hs]. apply wp_discard, Hkeep. eapply wp_mono; [by eapply start_manual_ok|].
    by intros r w' [Hk _].
  - destruct Hop as [s Hs]. apply wp_discard, Hkeep. eapply wp_mono; [by eapply start_async_ok|].
    by intros r w' [Hk _].
  - destruct Hop as [s Hs]. apply Hkeep. eapply wp_mono; [by eapply stop_ok|].
    by intros r w' [Hk _].
  - destruct Hop as [(s & Hs & Hr) Hrd]. by apply Hgo; eapply poll_ok, running_active.
  - destruct Hop as [Hp Hrd]. by apply Hgo, network_iteration_ok.
  - by apply Hgo, status_callback_ok.
  - destruct Hop as [s Hs]. apply wp_discard, Hkeep. eapply send_ok; [done..|lia].
  - destruct Hop as [s Hs]. apply wp_discard, Hkeep. eapply broadcast_ok; [done..|lia].
  - destruct Hop as [s Hs]. by apply Hkeep; eapply disconnect_ok.
  - apply Hkeep, update_ok; [done..| |by intros []]. intros tr [] []. by split.
  - apply Hkeep, update_ok; [done..| |by intros []]. intros tr [] []. by split.
  - apply Hkeep, update_ok; [done..| |by intros []]. intros tr [] []. by split.
Qed.

Lemma initial_world_ok (u : U) : app_ok (initial_world (CB:=CB) u).
Proof. split; [|done]. by split. Qed.

Lemma steps_ok w w' : app_ok w → rtc server_step w w' → app_ok w' ∧ progress [] [] w w'.
Proof.
  intros Hw Hr. revert Hw.
  induction Hr as [w|w1 w2 w3 (p & op & Hop & Hex) _ IH]; intros Hw; [split; [done|split; [apply rtc_refl|done]]|].
  pose proof (exec_op_ok p op w1 Hw Hop) as Hwp. unfold wp in Hwp. rewrite Hex in Hwp.
  destruct Hwp as [Hw2 Hp]. destruct (IH Hw2) as [Hw3 Hp']. split; [done|]. by eapply progress_trans.
Qed.

Lemma reachable_ok (u : U) w : rtc server_step (initial_world u) w → app_ok w.
Proof. intros Hr. by apply (steps_ok _ _ (initial_world_ok u) Hr). Qed.
End system_ok.

(** ** Observing callbacks *)

(** What user callbacks can see. *)
Inductive server_event :=
| EvData (client : client_info_t) (data : list Byte.byte) (size : Z)
| EvConnected (client : client_info_t)
| EvDisconnected (client : client_info_t).

(** The record of the events only grows. *)
#[export] Instance log_contract : CallbackContract (list server_event).
Proof.
  by refine {| user_frame := prefix; callback_pre _ _ := True |}.
Defined.

(** Callbacks that record what they are given. *)
Section logging.
Context {A : Type}.
Local Abbreviation W := (world A (UdpServer unit) (list server_event)).

Definition log_event (e : server_event) : M W unit := modify (with_user (λ l, l ++ [e])).

Definition log_callbacks : ServerCallbacks A unit (list server_event) := {|
  run_on_data _ ci data size := log_event (EvData ci data size);
  run_on_connected _ ci := log_event (EvConnected ci);
  run_on_disconnected _ ci := log_event (EvDisconnected ci);
|}.

Lemma log_event_ok `{SteamSockets A} k e (w : W) :
  good k w → wp (log_event e) (λ _, goes_on k w) w.
Proof. intros [Hw _]. apply (goes_on_user k); [done|]. by apply prefix_app_r. Qed.

Lemma log_callbacks_laws `{SteamSockets A} k :
  ServerCallbacksLaws k A unit (list server_event) (H0:=log_callbacks).
Proof. split; intros; by apply log_event_ok. Qed.
End logging.

(** A simulated run: one server at address 1, started on port 80. *)
Definition sim_inbox : list (kb_connection_t * list Byte.byte) := [(5, [Byte.x01]); (6, [Byte.x02; Byte.x03])].
Definition sim_world (ss : SteamSockets sim_addr) (ops : list (positive * server_op unit))
    : world sim_addr (UdpServer unit) (list server_event) :=
  foldl (λ w '(p, op), match exec_op (H1:=log_callbacks) p op w with Done _ w' => w' | Fault _ w' => w' end)
    (initial_world []) ops.

Definition sim_server (w : world sim_addr (UdpServer unit) (list server_event)) (p : positive)
    : UdpServer unit := default (server_init false) (w_objs w !! p).

(** The boolean form of [op_allowed], and the check that a run is a sequence
    of allowed operations that end without a fault. *)
Definition op_allowed_b (ss : SteamSockets sim_addr) (p : positive) (op : server_op unit)
    (w : world sim_addr (UdpServer unit) (list server_event)) : bool :=
  match op, w_objs w !! p with
  | OpConstruct, None => steam_answer (w_trace w) SteamNetworkingSockets
  | OpConstruct, Some _ => false
  | OpPoll, Some s => m_is_running s
  | OpStatusChanged _, _ => true
  | _, Some _ => true
  | _, None => false
  end.

Fixpoint run_ok (ss : SteamSockets sim_addr) w (ops : list (positive * server_op unit)) : bool :=
  match ops with
  | [] => true
  | (p, op) :: ops =>
      op_allowed_b ss p op w &&
      match exec_op (H1:=log_callbacks) p op w with
      | Done _ w' => run_ok ss w' ops
      | Fault _ _ => false
      end
  end.

Lemma op_allowed_b_sound ss p op w : op_allowed_b ss p op w = true → op_allowed p op w.
Proof. destruct op; simpl; destruct (w_objs w !! p) eqn:E; naive_solver. Qed.

Lemma sim_world_reachable (ss : SteamSockets sim_addr) ops :
  run_ok ss (initial_world []) ops = true →
  rtc (server_step (H1:=log_callbacks)) (initial_world []) (sim_world ss ops).
Proof.
  unfold sim_world. generalize (initial_world (A:=sim_addr) (CB:=unit) ([] : list server_event)).
  induction ops as [|[p op] ops IH]; intros w Hok; [apply rtc_refl|]. simpl in Hok |- *.
  apply andb_true_iff in Hok as [Hop Hok]. apply op_allowed_b_sound in Hop.
  destruct (exec_op p op w) as [[] w'|] eqn:Hex; [|done].
  eapply rtc_l; [by exists p, op|]. by apply IH.
Qed.

Lemma sim_world_ok inbox statuses ops :
  let ss := sim_steam inbox statuses in
  Forall (λ m, length m.2 < 2 ^ 31) inbox → run_ok ss (initial_world []) ops = true →
  world_ok (sim_world ss ops) ∧ w_thread (sim_world ss ops) = None.
Proof.
  intros ss Hin Hok. pose proof (sim_laws inbox statuses Hin) as Hlaws.
  apply (reachable_ok (H1:=log_callbacks) (ServerCallbacksLaws0:=log_callbacks_laws _) []).
  by apply sim_world_reachable.
Qed.

(** ** Safety of every reachable state *)

Section safety.
Context {A CB U : Type} `{SteamIPAddr A} `{!SteamIPAddrLaws A}.
Context `{SteamSockets A} `{!SteamLaws A}.
Context `{ServerCallbacks A CB U} `{CallbackContract U} `{!ServerCallbacksLaws Sequential A CB U}.

(** From every state that constructions, starts, stops, polls, network
    thread rounds, status changes, sends and destructions of any number of
    servers can reach, every allowed operation ends without a fault (no null
    or dangling pointer, no deadlock, no slot read past the messages received,
    no joinable thread lost), and leaves all servers well-formed, whatever the
    user's callbacks do within their contract.  Every message received has then
    been released exactly once. *)
Theorem reachable_safe (u : U) (w : world A (UdpServer CB) U) p op :
  rtc server_step (initial_world u) w → op_allowed p op w →
  ∃ w', exec_op p op w = Done tt w' ∧ (world_ok w' ∧ w_thread w' = None) ∧
    received (w_trace w') ≡ₚ released (w_trace w').
Proof.
  intros Hr Hop. destruct (steps_ok _ _ (initial_world_ok u) Hr) as [Hok [_ Hl]].
  pose proof (exec_op_ok p op w Hok Hop) as Hwp.
  apply wp_Done in Hwp as ([] & w' & Hex & Hok' & [_ Hl']). exists w'.
  split_and!; [done|apply Hok'|apply Hok'|].
  specialize (Hl' [] (Hl [] ledger_nil)). unfold ledger in Hl'. by rewrite app_nil_r in Hl'.
Qed.
End safety.

(** An echo server: the callbacks of the server at address 1 answer every
    message with itself, and tell everybody when a client connects. *)
Section echo.
Context {A : Type} `{SteamSockets A} `{!SteamLaws A}.
Local Abbreviation W := (world A (UdpServer unit) unit).

#[local] Instance echo_callbacks : ServerCallbacks A unit unit := {|
  run_on_data _ ci data size := send 1 (m_conn ci) data size true ;; skip;
  run_on_connected _ ci := broadcast 1 [Byte.x68; Byte.x69] 2 false ;; skip;
  run_on_disconnected _ ci := skip;
|}.

(** They rely on that server being there. *)
#[local] Instance echo_contract : CallbackContract unit.
Proof. by refine {| user_frame := eq; callback_pre D _ := 1%positive ∈ D |}; intros D [] []. Defined.

Lemma ready_echo (w : W) : ready w ↔ is_Some (w_objs w !! 1%positive).
Proof. change (ready w) with (1%positive ∈ dom (w_objs w)). apply elem_of_dom. Qed.

Lemma echo_callbacks_laws k : ServerCallbacksLaws k A unit unit.
Proof.
  split; [intros cb ci data w Hlen Hgood|intros cb ci w Hgood..].
  - destruct (proj1 (ready_echo w) (proj2 Hgood)) as [s Hs].
    apply wp_discard, wp_keeps_goes_on; [apply send_private|]. eapply send_ok; [apply Hgood|done|lia].
  - destruct (proj1 (ready_echo w) (proj2 Hgood)) as [s Hs].
    apply wp_discard, wp_keeps_goes_on; [apply broadcast_private|].
    eapply broadcast_ok; [apply Hgood|done|simpl; lia].
  - apply wp_skip, goes_on_refl, Hgood.
Qed.
End echo.

Definition sim_echo (ss : SteamSockets sim_addr) (ops : list (server_op unit)) : world sim_addr (UdpServer unit) unit :=
  foldl (λ w op, match exec_op (H1:=echo_callbacks) 1 op w with Done _ w' => w' | Fault _ w' => w' end)
    (initial_world tt) ops.

(** A client connects; the next round echoes its message. *)
Lemma reachable_safe_witness :
  let ss := sim_steam sim_inbox [StatusChanged 5 StateConnecting StateNone] in
  let w := sim_echo ss [OpConstruct; OpStartAsync 80; OpSetOnData (Some tt); OpNetworkIteration] in
  ∃ w', exec_op (H1:=echo_callbacks) 1 OpNetworkIteration w = Done tt w' ∧
    (world_ok w' ∧ w_thread w' = None) ∧
    SendMessageToConnection 5 [Byte.x01] SendReliable ∈ w_trace w'.
Proof.
  intros ss w.
  assert (SteamLaws sim_addr) as Hlaws by (apply sim_laws; by repeat constructor).
  destruct (reachable_safe (H1:=echo_callbacks) (H2:=echo_contract)
    (ServerCallbacksLaws0:=echo_callbacks_laws _) tt w 1 OpNetworkIteration)
    as (w' & Hex & Hok & _).
  - eapply rtc_l; [exists 1%positive, OpConstruct; split; [by vm_compute|]|].
    { instantiate (1 := sim_echo ss [OpConstruct]). by vm_compute. }
    eapply rtc_l; [exists 1%positive, (OpStartAsync 80); split; [by vm_compute; eexists|]|].
    { instantiate (1 := sim_echo ss [OpConstruct; OpStartAsync 80]). by vm_compute. }
    eapply rtc_l; [exists 1%positive, (OpSetOnData (Some tt)); split; [by vm_compute; eexists|]|].
    { instantiate (1 := sim_echo ss [OpConstruct; OpStartAsync 80; OpSetOnData (Some tt)]). by vm_compute. }
    apply rtc_once. exists 1%positive, OpNetworkIteration. split; [|by vm_compute].
    split; [by vm_compute; eexists|]. apply ready_echo. by vm_compute; eexists.
  - split; [by vm_compute; eexists|]. apply ready_echo. by vm_compute; eexists.
  - exists w'. split; [exact Hex|]. split; [exact Hok|].
    assert (match exec_op (H1:=echo_callbacks) 1 OpNetworkIteration w with
            | Done _ v => In (SendMessageToConnection 5 [Byte.x01] SendReliable) (w_trace v)
            | Fault _ _ => False end) as Hsent by (vm_compute; tauto).
    rewrite Hex in Hsent. by apply list_elem_of_In.
Defined.

(** ** Starting and stopping *)

Section start_stop.
Context {A CB U : Type} `{SteamSockets A}.
Local Abbreviation W := (world A (UdpServer CB) U).
Implicit Types (w : W) (s : UdpServer CB) (p : positive).

(** C15: stopping a running server closes the connection of every client once,
    in increasing order of connection, then its listen socket and its poll
    group; the client table is emptied, the thread joined, no other server is
    touched, and a second [stop] does nothing. *)
Theorem stop_closes_everything p w s :
  world_ok w → w_objs w !! p = Some s → m_is_running s = true → w_thread w ≠ Some p →
  ∃ w', stop p w = Done tt w' ∧
    w_objs w' = <[p := stopped s]> (w_objs w) ∧ s_instance w' = None ∧
    m_clients (stopped s) = ∅ ∧ m_network_thread (stopped s) = false ∧
    w_trace w' = w_trace w ++ (shutdown_call <$> client_keys s) ++
                 [CloseListenSocket (m_listen_socket s); DestroyPollGroup (m_poll_group s)] ∧
    StronglySorted Z.lt (client_keys s) ∧
    (∀ c, c ∈ client_keys s ↔ is_Some (m_clients s !! c)) ∧
    stop p w' = Done tt w'.
Proof.
  intros Hw Hs Hr Hth. pose proof (world_ok_lookup _ _ _ _ Hw Hs) as Hok.
  rewrite (stop_Done p w s); [|done|apply Hok..|done]. unfold stop_result. rewrite Hr.
  eexists. split; [done|]. simpl. split_and!; try done; try (by destruct s).
  - unfold stop_calls. destruct Hok as [_ _ Hls Hpg _ _ _]. apply running_active in Hr. destruct (Hpg Hr) as [Hpg0 _].
    by rewrite !decide_True by auto.
  - apply client_keys_sorted.
  - intros c. apply elem_of_client_keys.
  - rewrite (stop_Done p _ (stopped s)); [|by rewrite lookup_with_obj|..].
    + unfold stop_result. by destruct s.
    + destruct Hok, s; done.
    + destruct Hok, s; done.
    + done.
Qed.

(** A start that succeeds opens one listen socket and one poll group, and
    the next [stop] closes exactly these two: the server is as before but for
    its port. *)
Theorem start_stop_balanced p pt w w1 s :
  world_ok w → w_objs w !! p = Some s → w_thread w ≠ Some p →
  start_manual p pt w = Done true w1 →
  ∃ w2 socket group,
    stop p w1 = Done tt w2 ∧ socket ≠ 0 ∧ group ≠ 0 ∧
    w_trace w1 = w_trace w ++ [CreateListenSocketIP pt; CreatePollGroup] ∧
    w_trace w2 = w_trace w1 ++ [CloseListenSocket socket; DestroyPollGroup group] ∧
    socket = steam_answer (w_trace w) (CreateListenSocketIP pt) ∧
    group = steam_answer (w_trace w ++ [CreateListenSocketIP pt]) CreatePollGroup ∧
    w_objs w2 !! p = Some (set_port pt (set_listen_socket 0 (set_poll_group 0 s))).
Proof.
  intros Hw Hs Hth Hstart. pose proof (world_ok_lookup _ _ _ _ Hw Hs) as [Hi Hm _ _ _ _ _].
  rewrite (start_manual_Done p pt w s Hs Hi) in Hstart. unfold start_manual_result in Hstart.
  destruct (m_is_running s) eqn:Hr; [done|]. cbv zeta in Hstart.
  destruct (idle_server w p s Hw Hs Hr) as (Ht & Hst & _). repeat case_decide; try done. injection Hstart as <-.
  autorewrite with world.
  match goal with |- context [with_obj p ?x _] => set (s1 := x) end.
  assert (m_is_running s1 = true) as Hr1 by by destruct s.
  rewrite (stop_Done p _ s1).
  2: apply lookup_with_obj. 2, 3, 4: destruct s; simpl in *; congruence.
  unfold stop_result. rewrite Hr1.
  eexists _, (steam_answer (w_trace w) (CreateListenSocketIP pt)),
    (steam_answer (w_trace w ++ [CreateListenSocketIP pt]) CreatePollGroup).
  split; [done|]. split_and!; try done.
  - simpl. unfold stop_calls. rewrite client_keys_empty by (by destruct s).
    by destruct s; simpl in *; rewrite !decide_True by done.
  - simpl. rewrite lookup_insert_eq. destruct s; simpl in *; by subst.
Qed.

(** When the poll group cannot be created, the listen socket the start
    opened is lost: neither [stop] nor the destructor closes it, although the
    server is left without it. *)
Theorem failed_start_leaks_listen_socket p pt w s :
  world_ok w → w_objs w !! p = Some s → m_is_running s = false → w_thread w ≠ Some p →
  steam_answer (w_trace w) (CreateListenSocketIP pt) ≠ 0 →
  steam_answer (w_trace w ++ [CreateListenSocketIP pt]) CreatePollGroup = 0 →
  ∃ w1 w2 w3,
    start_manual p pt w = Done false w1 ∧ stop p w1 = Done tt w2 ∧
    destruct_server p w2 = Done tt w3 ∧ w_objs w3 = delete p (w_objs w) ∧
    w_trace w3 = w_trace w ++ [CreateListenSocketIP pt; CreatePollGroup].
Proof.
  intros Hw Hs Hr Hth Hsock Hgrp. pose proof (world_ok_lookup _ _ _ _ Hw Hs) as [Hi Hm _ _ _ _ _].
  destruct (idle_server w p s Hw Hs Hr) as (Ht & _ & _).
  rewrite (start_manual_Done p pt w s Hs Hi). unfold start_manual_result. rewrite Hr. cbv zeta.
  rewrite decide_False by done. rewrite decide_True by done. autorewrite with world.
  set (s1 := set_poll_group 0 _). set (w1 := with_obj p s1 _).
  assert (m_is_running s1 = false ∧ m_interface s1 = true ∧ m_client_mutex s1 = false ∧
          m_network_thread s1 = false) as (Hr1 & Hi1 & Hm1 & Ht1) by by destruct s.
  assert (stop p w1 = Done tt (with_instance None w1)) as Hstop1.
  { rewrite (stop_Done p w1 s1); [|apply lookup_with_obj|congruence..].
    unfold stop_result. by rewrite Hr1. }
  exists w1, (with_instance None w1). eexists. split; [done|]. split; [done|].
  split.
  - unfold destruct_server. erewrite bind_Done.
    2: { rewrite (stop_Done p _ s1); [|apply lookup_with_obj|congruence..].
         unfold stop_result. by rewrite Hr1. }
    erewrite bind_Done; [|apply deref_Done, lookup_with_obj]. by rewrite Ht1.
  - split; [|done]. simpl. apply delete_insert_eq.
Qed.

(** Called on the server's own network thread, which a packet handler
    runs on, [stop] joins the thread it runs on and terminates the process. *)
Theorem stop_on_network_thread_terminates p w s :
  w_objs w !! p = Some s → m_is_running s = true → m_network_thread s = true →
  w_thread w = Some p →
  ∃ w', stop p w = Fault StdTerminate w'.
Proof.
  intros Hs Hr Ht Hth. eexists. unfold stop.
  erewrite bind_Done; [|done]. erewrite bind_Done; [|by apply deref_Done].
  erewrite bind_Done; [|by apply update_Done]. rewrite Hr, Ht. cbv beta iota delta [negb].
  erewrite bind_Fault; [done|]. unfold join_network_thread. erewrite bind_Done; [|done].
  by rewrite decide_True.
Qed.
End start_stop.

(** One server at address 1, started, with clients 9 and 5. *)
Definition sim_two_clients : list (positive * server_op unit) :=
  [(1%positive, OpConstruct); (1%positive, OpStartAsync 80);
   (1%positive, OpStatusChanged (StatusChanged 9 StateConnecting StateNone));
   (1%positive, OpStatusChanged (StatusChanged 5 StateConnecting StateNone))].

Lemma stop_closes_everything_witness :
  let ss := sim_steam sim_inbox [] in
  let w := sim_world ss sim_two_clients in
  ∃ w', stop 1 w = Done tt w' ∧
    w_trace w' = w_trace w ++ [shutdown_call 5; shutdown_call 9;
                               CloseListenSocket 2; DestroyPollGroup 3].
Proof.
  intros ss w. destruct (sim_world_ok sim_inbox [] sim_two_clients)
    as [Hw _]; [by repeat constructor|by vm_compute|].
  pose (s := sim_server w 1).
  destruct (stop_closes_everything 1 w s Hw) as (w' & Hstop & _ & _ & _ & _ & Htr & _);
    [by vm_compute..|].
  exists w'. split; [done|]. rewrite Htr. by vm_compute.
Defined.

Lemma start_stop_balanced_witness :
  let ss := sim_steam [] [] in
  let w := sim_world ss [(1%positive, OpConstruct)] in
  ∃ w1 w2, start_manual 1 80 w = Done true w1 ∧ stop 1 w1 = Done tt w2 ∧
    w_trace w2 = [SteamNetworkingSockets; CreateListenSocketIP 80; CreatePollGroup;
                  CloseListenSocket 2; DestroyPollGroup 3].
Proof.
  intros ss w. destruct (sim_world_ok [] [] [(1%positive, OpConstruct)])
    as [Hw _]; [by repeat constructor|by vm_compute|].
  pose (w1 := match start_manual 1 80 w with Done _ w1 => w1 | Fault _ w1 => w1 end).
  assert (start_manual 1 80 w = Done true w1) as Hstart by by vm_compute.
  destruct (start_stop_balanced 1 80 w w1 (sim_server w 1) Hw)
    as (w2 & socket & group & Hstop & _ & _ & Htr1 & Htr2 & -> & -> & _); [by vm_compute..|].
  exists w1, w2. split; [done|]. split; [done|]. rewrite Htr2, Htr1. by vm_compute.
Defined.

(** A library that cannot create poll groups. *)
Definition sim_no_group : SteamSockets sim_addr := λ tr c,
  match c as c return answer c with
  | CreatePollGroup => 0
  | c => sim_steam [] [] tr c
  end.

Lemma failed_start_leaks_listen_socket_witness :
  let ss := sim_no_group in
  let w : world sim_addr (UdpServer unit) (list server_event) :=
    with_obj 1 (server_init true) (initial_world []) in
  ∃ w1 w2 w3, start_manual 1 80 w = Done false w1 ∧ stop 1 w1 = Done tt w2 ∧
    destruct_server 1 w2 = Done tt w3 ∧
    w_trace w3 = [CreateListenSocketIP 80; CreatePollGroup].
Proof.
  intros ss w.
  assert (world_ok w) as Hw.
  { split; [|done|..].
    - apply map_Forall_insert_2; [by split|]. by intros p s Hp.
    - intros p q s t Hp. simpl in Hp. by apply lookup_insert_Some in Hp as [[<- <-]|[_ Hp]].
    - intros p s _ Hp. simpl in Hp. by apply lookup_insert_Some in Hp as [[<- <-]|[_ Hp]]. }
  destruct (failed_start_leaks_listen_socket 1 80 w (server_init true) Hw)
    as (w1 & w2 & w3 & Hst & Hsp & Hd & _ & Htr); [by vm_compute..|].
  by exists w1, w2, w3.
Defined.

Lemma stop_on_network_thread_terminates_witness :
  let ss := sim_steam [] [] in
  let w := with_thread (Some 1%positive) (sim_world ss sim_two_clients) in
  ∃ w', stop 1 w = Fault StdTerminate w'.
Proof.
  intros ss w. by apply (stop_on_network_thread_terminates 1 w (sim_server w 1)); vm_compute.
Defined.

(** ** Polling *)

Section polling_log.
Context {A : Type} `{SteamIPAddr A} `{!SteamIPAddrLaws A} `{SteamSockets A} `{!SteamLaws A}.
#[local] Existing Instance log_callbacks.
Local Abbreviation W := (world A (UdpServer unit) (list server_event)).
Implicit Types (w : W) (s : UdpServer unit) (p : positive).

(** What the data callback is given for one message. *)
Definition delivery s (m : steam_message) : list server_event :=
  match m_data_received_callback s, m_clients s !! msg_conn m with
  | Some _, Some ci => [EvData ci (m_pData m) (length (m_pData m))]
  | _, _ => []
  end.

Lemma log_nothing w : with_user (λ l, l ++ []) w = w.
Proof. destruct w. unfold with_user. simpl. by rewrite app_nil_r. Qed.

Lemma poll_message_log p m w s :
  w_objs w !! p = Some s → m_client_mutex s = false →
  m_cbSize m = length (m_pData m) → m_cbSize m < 2 ^ 31 →
  poll_message p m w
  = Done tt (with_user (λ l, l ++ delivery s m) (with_calls [ReleaseMessage m] w)).
Proof.
  intros Hs Hm Hsz Hmax. unfold poll_message, delivery.
  assert (∀ v : W, call (ReleaseMessage m) v = Done tt (with_calls [ReleaseMessage m] v)) as Hcall
    by (intros v; unfold call; by destruct (steam_answer (w_trace v) (ReleaseMessage m))).
  erewrite bind_Done; [|by apply deref_Done].
  destruct (m_data_received_callback s) as [cb|].
  2: { rewrite log_nothing. erewrite bind_Done; [apply Hcall|done]. }
  erewrite bind_Done.
  2: { erewrite bind_Done; [|by apply get_client_info_Done].
       instantiate (1 := with_user (λ l, l ++ match m_clients s !! msg_conn m with
         | Some ci => [EvData ci (m_pData m) (length (m_pData m))] | None => [] end) w).
       instantiate (1 := tt).
       destruct (m_clients s !! msg_conn m) as [ci|]; [|by rewrite log_nothing].
       cbn. unfold u64. rewrite wrap_small by (unfold fits; lia). by rewrite Hsz. }
  apply Hcall.
Qed.

Lemma poll_messages_log p (msgs : list steam_message) w s :
  w_objs w !! p = Some s → m_client_mutex s = false →
  Forall (λ m, m_cbSize m = length (m_pData m) ∧ m_cbSize m < 2 ^ 31) msgs →
  for_each msgs (poll_message p) w
  = Done tt (with_user (λ l, l ++ (msgs ≫= delivery s)) (with_calls (ReleaseMessage <$> msgs) w)).
Proof.
  intros Hs Hm Hall. revert w Hs.
  induction Hall as [|m msgs [Hsz Hmax] _ IH]; intros w Hs.
  { destruct w. unfold with_user, with_calls. simpl. by rewrite !app_nil_r. }
  cbn [for_each]. erewrite bind_Done; [|by apply poll_message_log].
  rewrite IH by done. f_equal. unfold with_user, with_calls. simpl.
  by rewrite <- !app_assoc.
Qed.

(** C22: one poll of a running server, when the library reports no status
    change, hands the data callback exactly the messages received from
    connected clients, in the order received, each with its whole data;
    messages of unknown connections are dropped; every message is released
    once; the server itself is unchanged. *)
Theorem poll_delivers_in_order p w s :
  world_ok w → w_objs w !! p = Some s → m_is_running s = true →
  let receive := ReceiveMessagesOnPollGroup (m_poll_group s) 32 in
  let msgs : list steam_message := (steam_answer (w_trace w) receive).2 in
  let calls := receive :: (ReleaseMessage <$> msgs) in
  steam_answer (w_trace w ++ calls) RunCallbacks = [] →
  poll p w = Done tt (with_user (λ l, l ++ (msgs ≫= delivery s))
                        (with_calls (calls ++ [RunCallbacks]) w)) ∧
  length msgs ≤ 32.
Proof.
  intros Hw Hs Hr receive msgs calls Hcb.
  pose proof (world_ok_lookup _ _ _ _ Hw Hs) as Hok.
  assert (receive_ok 32 (steam_answer (w_trace w) receive)) as Hrecv
    by (apply receive_live_group; [done|by apply Hok, running_active]).
  split; [|apply Hrecv].
  rewrite (poll_Done p w s Hs (ok_interface _ _ Hok) Hrecv). fold receive msgs.
  unfold poll_body. erewrite bind_Done.
  2: { apply (poll_messages_log p msgs _ s); [done|apply Hok|apply Hrecv]. }
  match goal with |- (iface _ _ ≫= _) ?v = _ =>
    rewrite (bind_Done _ _ _ _ _ (iface_Done p RunCallbacks v s Hs (ok_interface _ _ Hok))) end.
  simpl. rewrite <- (app_assoc _ [receive]). simpl. fold calls. rewrite Hcb. simpl.
  unfold skip, mret, M_ret. f_equal. unfold with_user, with_calls. simpl.
  by rewrite <- !app_assoc.
Qed.
End polling_log.

Lemma poll_delivers_in_order_witness :
  let ss := sim_steam [(5, [Byte.x01]); (7, [Byte.x02]); (9, [Byte.x03; Byte.x04])] [] in
  let w := sim_world ss (sim_two_clients ++ [(1%positive, OpSetOnData (Some tt))]) in
  ∃ w', poll 1 (H1:=log_callbacks) w = Done tt w' ∧
    drop (length (w_user w)) (w_user w') =
      [EvData (new_client 5 (5 : sim_addr)) [Byte.x01] 1;
       EvData (new_client 9 (9 : sim_addr)) [Byte.x03; Byte.x04] 2].
Proof.
  intros ss w.
  assert (Forall (λ m : kb_connection_t * list Byte.byte, length m.2 < 2 ^ 31)
    [(5, [Byte.x01]); (7, [Byte.x02]); (9, [Byte.x03; Byte.x04])]) as Hin by by repeat constructor.
  pose proof (sim_laws _ [] Hin) as Hlaws.
  destruct (sim_world_ok _ [] (sim_two_clients ++ [(1%positive, OpSetOnData (Some tt))]) Hin)
    as [Hw _]; [by vm_compute|].
  destruct (poll_delivers_in_order 1 w (sim_server w 1) Hw) as [Hpoll _]; [by vm_compute..|].
  eexists. split; [exact Hpoll|]. by vm_compute.
Defined.
