(* ===== verification/UdpServerRefines.v ===== *)
(** * The server implements its sessions

    What the detailed operations of [UdpServer] do to the abstract machine of
    [Sessions.v], and what every reachable state's client tables hold. *)

From S2P Require Import Prelude Bytes NetworkTypes Packet Serde Runtime.
From S2P Require Import Ledger UdpServer Sessions UdpServerSpec UdpServerSafety Simulated UdpServerSystem.
Local Open Scope Z_scope.

(** ** Sessions *)

(** A client leaves a session. *)
Definition leave (c : kb_connection_t) (ss : session) : session :=
  match ss with Idle => Idle | Serving port cl => Serving port (cl ∖ {[c]}) end.

(** What an operation on the server [p] does to the sessions. *)
Definition op_session {CB} (p : positive) (op : server_op CB) (ss ss' : sessions_state) : Prop :=
  let '(Sessions m i) := ss in
  match op with
  | OpConstruct => ss' = Sessions (<[p := Idle]> m) i
  | OpDestruct => ss' = Sessions (delete p m) None
  | OpStartManual pt | OpStartAsync pt =>
      ss' = ss ∨ (m !! p = Some Idle ∧ ss' = Sessions (<[p := Serving pt ∅]> m) (Some p))
  | OpStop => ss' = Sessions (<[p := Idle]> m) None
  | OpDisconnect conn _ => ss' = Sessions (alter (leave conn) p m) i
  | OpPoll | OpNetworkIteration | OpStatusChanged _ => rtc session_step ss ss'
  | OpSend _ _ _ | OpBroadcast _ _ | OpSetOnData _ | OpSetOnConnected _ | OpSetOnDisconnected _ =>
      ss' = ss
  end.

Section refinement.
Context {A CB U : Type} `{SteamIPAddr A} `{!SteamIPAddrLaws A}.
Context `{SteamSockets A} `{!SteamLaws A}.
Context `{ServerCallbacks A CB U} `{CallbackContract U} `{!ServerCallbacksLaws Sequential A CB U}.
Local Abbreviation W := (world A (UdpServer CB) U).
Implicit Types (w : W) (s : UdpServer CB) (p : positive).

(** An update of members that are not part of the session. *)
Lemma update_session p (f : UdpServer CB → UdpServer CB) w :
  is_Some (w_objs w !! p) → (∀ s, session_of (f s) = session_of s) →
  wp (update p f) (λ _ w', sessions w' = sessions w) w.
Proof. intros [s Hs] Hf. wp_step. by eapply sessions_same. Qed.

Lemma disconnect_session p conn reason w s :
  world_ok w → w_objs w !! p = Some s →
  wp (disconnect p conn reason) (λ _ w',
    sessions w' = Sessions (alter (leave conn) p (ss_servers (sessions w))) (s_instance w)) w.
Proof.
  intros Hw Hs. pose proof (world_ok_lookup _ _ _ _ Hw Hs) as [Hi Hm _ _ _ _ _].
  unfold wp. rewrite (disconnect_Done p conn reason w s) by done.
  rewrite sessions_with_obj. f_equal.
  replace (session_of (set_clients (delete conn) s)) with (leave conn (session_of s)).
  - apply map_eq. intros q. simpl. destruct (decide (p = q)) as [<-|Hne].
    + by rewrite lookup_insert_eq, lookup_alter_eq, lookup_fmap, Hs.
    + by rewrite lookup_insert_ne, lookup_alter_ne.
  - unfold session_of. replace (active (set_clients (delete conn) s)) with (active s) by by destruct s.
    destruct (active s), s; simpl; [|done]. by rewrite dom_delete_L.
Qed.

Lemma exec_op_session p op w :
  app_ok w → op_allowed p op w →
  wp (exec_op p op) (λ _ w', op_session p op (sessions w) (sessions w')) w.
Proof.
  intros Happ Hop. pose proof Happ as [Hw Hth].
  pose proof (exec_op_ok p op w Happ Hop) as Hok.
  assert (w_thread w ≠ Some p) as Hnth by by rewrite Hth.
  destruct op; simpl in Hop, Hok |- *;
    try (eapply wp_mono; [exact Hok|]; intros [] w' [_ [Hsteps _]]; exact Hsteps).
  - eapply wp_mono; [by apply construct_ok; [|apply Hop..]|].
    by intros [] w' (_ & _ & _ & _ & ->).
  - destruct Hop as [s Hs]. eapply wp_mono; [by eapply destruct_server_ok|].
    by intros [] w' (_ & _ & _ & _ & ->).
  - destruct Hop as [s Hs]. apply wp_discard. eapply wp_mono; [by eapply start_manual_ok|].
    intros [] w' (_ & Hb & _); [by right|by left].
  - destruct Hop as [s Hs]. apply wp_discard. eapply wp_mono; [by eapply start_async_ok|].
    intros [] w' (_ & Hb); [by right|by left].
  - destruct Hop as [s Hs]. eapply wp_mono; [by eapply stop_ok|]. by intros [] w' (_ & -> & _).
  - destruct Hop as [s Hs]. pose proof (world_ok_lookup _ _ _ _ Hw Hs) as [Hi _ _ _ _ _ _].
    apply wp_discard. unfold wp. by rewrite (send_Done p conn data (length data) reliable w s) by (done || lia).
  - destruct Hop as [s Hs]. pose proof (world_ok_lookup _ _ _ _ Hw Hs) as [Hi Hm _ _ _ _ _].
    apply wp_discard. unfold wp. rewrite (broadcast_Done p data (length data) reliable w s) by (done || lia).
    by case_decide.
  - destruct Hop as [s Hs]. by eapply disconnect_session.
  - by apply update_session; [|intros []].
  - by apply update_session; [|intros []].
  - by apply update_session; [|intros []].
Qed.

Lemma events_served_ok k w : world_inv k w → events_served (sessions w).
Proof.
  intros Hw p Hp. destruct (ok_instance _ _ Hw p Hp) as (s & Hs & Hr).
  exists (m_port s), (dom (m_clients s)). rewrite (sessions_lookup p w s Hs).
  unfold session_of. by rewrite (running_active s Hr).
Qed.

(** The answer of a start and what it did. *)
Lemma start_op_answers p (start : M W bool) pt w w' :
  wp start (λ b v, began p pt w b v) w → (start ;; skip) w = Done tt w' →
  ∃ b, start w = Done b w' ∧ began p pt w b w'.
Proof.
  intros Hwp Hex. apply wp_Done in Hwp as (b & v & Hstart & Hb). rewrite (bind_Done _ _ _ _ _ Hstart) in Hex.
  injection Hex as <-. by exists b.
Qed.

(** C4: the operations implement the sessions: in every reachable state each
    operation on an existing server (created once the library is initialised, polled
    by hand only while it runs, and callbacks run only where they may) does to the abstract machine what its contract says (a start that
    answers true opens an empty session on its port and gets the events, one
    that answers false changes nothing; a stop ends the session whatever its
    clients and silences the events; a disconnect takes one client out; sending
    changes nothing; polling goes some steps of the machine), all of it steps of
    the machine; and the server that gets the events is serving. *)
Theorem operations_refine_sessions (u : U) w p op :
  rtc server_step (initial_world u) w → op_allowed p op w →
  ∃ w', exec_op p op w = Done tt w' ∧
    op_session p op (sessions w) (sessions w') ∧
    rtc session_step (sessions w) (sessions w') ∧
    events_served (sessions w') ∧
    (∀ pt, op = OpStartManual pt → ∃ b, start_manual p pt w = Done b w' ∧ began p pt w b w') ∧
    (∀ pt, op = OpStartAsync pt → ∃ b, start_async p pt w = Done b w' ∧ began p pt w b w').
Proof.
  intros Hr Hop. pose proof (reachable_ok u w Hr) as Happ.
  pose proof (exec_op_session p op w Happ Hop) as Hs.
  pose proof (exec_op_ok p op w Happ Hop) as Hok. unfold wp in Hs, Hok.
  destruct (exec_op p op w) as [[] w'|] eqn:Hex; [|done]. exists w'.
  destruct Hok as [[Hw' _] [Hsteps _]]. split_and!; [done..|by eapply events_served_ok| |];
    intros pt ->; destruct Hop as [s Hstart], Happ as [Hw _]; (eapply start_op_answers; [|exact Hex]).
  - eapply wp_mono; [by eapply start_manual_ok|]. by intros b v (_ & Hb & _).
  - eapply wp_mono; [by eapply start_async_ok|]. by intros b v (_ & Hb).
Qed.

(** C25: in every reachable state the tables are well-typed: an entry is filed
    under its own connection, its address has sixteen bytes and a 16-bit port;
    the connection was accepted by the library and then put in the poll group the
    server holds now, which is alive; a server that does not run has no entry;
    and no two running servers share a poll group. *)
Theorem tables_well_typed (u : U) w p s :
  rtc server_step (initial_world u) w → w_objs w !! p = Some s →
  map_Forall (λ c ci, m_conn ci = c ∧ address_ok (m_addr ci)) (m_clients s) ∧
  (∀ c, is_Some (m_clients s !! c) →
     m_is_running s = true ∧ accepted (w_trace w) (m_poll_group s) c ∧
     poll_group_live (w_trace w) (m_poll_group s)) ∧
  (∀ q t, w_objs w !! q = Some t → m_is_running s = true → m_is_running t = true →
     m_poll_group s = m_poll_group t → p = q).
Proof.
  intros Hr Hs. destruct (reachable_ok u w Hr) as [Hw _].
  pose proof (world_ok_lookup _ _ _ _ Hw Hs) as Hok. split_and!.
  - exact (ok_clients _ _ Hok).
  - intros c [ci Hc]. destruct (m_is_running s) eqn:Hrun.
    + split; [done|]. split; [exact (ok_accepted _ _ Hok c ci Hc)|]. by apply Hok, running_active.
    + destruct (idle_server w p s Hw Hs Hrun) as (_ & Hnone & _). by rewrite Hnone in Hc.
  - intros q t Ht Hrs Hrt. by apply (ok_groups _ _ Hw p q s t); [..|apply running_active|apply running_active].
Qed.
End refinement.

(** ** Witnesses *)

(** Two clients connect, two messages come, the server stops. *)
Definition sim_session : list (positive * server_op unit) :=
  sim_two_clients ++ [(1%positive, OpSetOnData (Some tt)); (1%positive, OpNetworkIteration)].

Lemma sim_session_reachable :
  let ss := sim_steam sim_inbox [] in
  SteamLaws sim_addr ∧
  rtc (server_step (H1:=log_callbacks)) (initial_world []) (sim_world ss sim_session).
Proof.
  intros ss. split; [apply sim_laws; by repeat constructor|].
  apply sim_world_reachable. by vm_compute.
Qed.

Lemma operations_refine_sessions_witness :
  let ss := sim_steam sim_inbox [] in
  let w := sim_world ss sim_session in
  sessions w = Sessions {[1%positive := Serving 80 {[5; 9]}]} (Some 1%positive) ∧
  ∃ w', exec_op (H1:=log_callbacks) 1 OpStop w = Done tt w' ∧
    sessions w' = Sessions {[1%positive := Idle]} None.
Proof.
  intros ss w. destruct sim_session_reachable as [Hlaws Hr].
  split; [by vm_compute|].
  destruct (operations_refine_sessions (H1:=log_callbacks)
    (ServerCallbacksLaws0:=log_callbacks_laws _) [] w 1 OpStop Hr) as (w' & Hex & Hs & _);
    [by vm_compute; eexists|].
  exists w'. split; [exact Hex|]. exact Hs.
Defined.

Lemma tables_well_typed_witness :
  let ss := sim_steam sim_inbox [] in
  let w := sim_world ss sim_session in
  map_Forall (λ c ci, m_conn ci = c ∧ address_ok (m_addr ci)) (m_clients (sim_server w 1)) ∧
  accepted (w_trace w) (m_poll_group (sim_server w 1)) 9 ∧ client_keys (sim_server w 1) = [5; 9].
Proof.
  intros ss w. destruct sim_session_reachable as [Hlaws Hr].
  destruct (tables_well_typed (H1:=log_callbacks)
    (ServerCallbacksLaws0:=log_callbacks_laws _) [] w 1 (sim_server w 1) Hr) as (Htyped & Hacc & _);
    [by vm_compute|].
  split; [exact Htyped|]. split; [|by vm_compute]. apply Hacc. by vm_compute; eexists.
Defined.
