(* ===== verification/UdpServerEvents.v ===== *)
(** * What the server does with its clients

    Broadcast, the connection events on every branch, and the behaviours that
    modelling showed: stale clients, one static instance for all servers, a poll
    without a poll group; and the network thread's loop. *)

From S2P Require Import Prelude Bytes NetworkTypes Packet Serde Runtime.
From S2P Require Import UdpServer Sessions UdpServerSpec UdpServerSafety Simulated UdpServerSystem.
Local Open Scope Z_scope.

(** ** Broadcast *)

Section broadcasting.
Context {A CB U : Type} `{SteamSockets A}.
Local Abbreviation W := (world A (UdpServer CB) U).
Implicit Types (w : W) (s : UdpServer CB) (p : positive).

Lemma all_accepted_spec (tr : list (steam_call A)) cs data reliable :
  all_accepted tr cs data reliable = true ↔
  ∀ i c, cs !! i = Some c →
    steam_answer (tr ++ (send_call data reliable <$> take i cs)) (send_call data reliable c)
    = k_EResultOK.
Proof.
  revert tr. induction cs as [|c cs IH]; intros tr; simpl; [by split|].
  rewrite andb_true_iff, bool_decide_eq_true, IH. split.
  - intros [Hc Hcs] [|i] d Hi; simpl in *.
    + injection Hi as <-. by rewrite app_nil_r.
    + specialize (Hcs i d Hi). by rewrite <- app_assoc in Hcs.
  - intros Hall. split.
    + specialize (Hall 0%nat c eq_refl). simpl in Hall. by rewrite app_nil_r in Hall.
    + intros i d Hi. specialize (Hall (S i) d Hi). simpl in Hall. by rewrite <- app_assoc.
Qed.

(** C23: a broadcast hands the library the first [size] bytes once for every
    client, in increasing order of connection, and goes on after a refusal; it
    answers true exactly when there is a client and the library accepted every
    message; the servers are unchanged. *)
Theorem broadcast_reaches_all p data size reliable w s :
  world_ok w → w_objs w !! p = Some s → 0 ≤ size ≤ length data →
  let msg := send_call (take (Z.to_nat size) data) reliable in
  let keys := client_keys s in
  ∃ b, broadcast p data size reliable w = Done b (with_calls (msg <$> keys) w) ∧
    (b = true ↔ keys ≠ [] ∧ ∀ i c, keys !! i = Some c →
       steam_answer (w_trace w ++ (msg <$> take i keys)) (msg c) = k_EResultOK) ∧
    StronglySorted Z.lt keys ∧ (∀ c, c ∈ keys ↔ is_Some (m_clients s !! c)).
Proof.
  intros Hw Hs Hsz msg keys. pose proof (world_ok_lookup _ _ _ _ Hw Hs) as Hok.
  rewrite (broadcast_Done p data size reliable w s); [|done|apply Hok..|done]. fold msg keys.
  assert (keys = [] ↔ m_clients s = ∅) as Hkeys.
  { split; [|by apply client_keys_empty]. intros Hnil. apply map_empty. intros c.
    destruct (m_clients s !! c) eqn:Hc; [|done].
    assert (c ∈ keys) as Hin by by apply elem_of_client_keys. rewrite Hnil in Hin. by apply elem_of_nil in Hin. }
  pose proof (client_keys_sorted s) as Hsorted. pose proof (elem_of_client_keys s) as Helem.
  case_decide as Hemp.
  - exists false. apply Hkeys in Hemp. split_and!; [|by split; [|intros [? _]]|done|done].
    rewrite Hemp. by autorewrite with world.
  - exists (all_accepted (w_trace w) keys (take (Z.to_nat size) data) reliable).
    split; [done|]. split; [|done]. rewrite all_accepted_spec, Hkeys. by split; [|intros [_ ?]].
Qed.
End broadcasting.

Lemma broadcast_reaches_all_witness :
  let ss := sim_steam [] [] in
  let w := sim_world ss (sim_two_clients ++
    [(1%positive, OpStatusChanged (StatusChanged 13 StateConnecting StateNone))]) in
  ∃ w', broadcast 1 [Byte.x2a; Byte.x2b] 1 true w = Done false w' ∧
    w_trace w' = w_trace w ++ (send_call [Byte.x2a] true <$> [5; 9; 13]).
Proof.
  intros ss w.
  destruct (sim_world_ok [] [] (sim_two_clients ++
    [(1%positive, OpStatusChanged (StatusChanged 13 StateConnecting StateNone))]))
    as [Hw _]; [by repeat constructor|by vm_compute|].
  destruct (broadcast_reaches_all 1 [Byte.x2a; Byte.x2b] 1 true w (sim_server w 1) Hw)
    as (b & Hb & _); [by vm_compute|done|].
  destruct b; [by vm_compute in Hb|]. eexists. split; [exact Hb|]. by vm_compute.
Defined.

(** ** Connection events *)

Section events.
Context {A CB U : Type} `{SteamIPAddr A} `{!SteamIPAddrLaws A}.
Context `{SteamSockets A} `{ServerCallbacks A CB U}.
Local Abbreviation W := (world A (UdpServer CB) U).
Implicit Types (w : W) (s : UdpServer CB) (p : positive).

(** C24: a connecting peer is accepted, put in the server's poll group and
    entered in the client table with its remote address, before the connected
    callback sees exactly that entry; refused by the library at either of the
    first two calls, it is closed, and the table and the callback are left
    alone. *)
Theorem connecting_client p conn old w s :
  world_ok w → w_objs w !! p = Some s →
  let handle := on_connection_status_changed p (StatusChanged conn StateConnecting old) in
  let accept : steam_call A := AcceptConnection conn in
  let join : steam_call A := SetConnectionPollGroup conn (m_poll_group s) in
  let info : steam_call A := GetConnectionInfo conn in
  let close : steam_call A := CloseConnection conn 0 None false in
  let accepted : EResult := steam_answer (w_trace w) (AcceptConnection conn) in
  let joined : bool := steam_answer (w_trace w ++ [accept]) (SetConnectionPollGroup conn (m_poll_group s)) in
  let remote : A := steam_answer (w_trace w ++ [accept; join]) (GetConnectionInfo conn) in
  (accepted ≠ k_EResultOK → handle w = Done tt (with_calls [accept; close] w)) ∧
  (accepted = k_EResultOK → joined = false →
     handle w = Done tt (with_calls [accept; join; close] w)) ∧
  (accepted = k_EResultOK → joined = true →
     let client := {| m_conn := conn;
                      m_addr := {| m_ip := steam_union remote; m_ip_port := steam_port remote |} |} in
     let w' := with_obj p (set_clients <[conn := client]> s) (with_calls [accept; join; info] w) in
     handle w = match m_client_connected_callback s with
                | Some cb => run_on_connected cb client w'
                | None => Done tt w'
                end).
Proof.
  intros Hw Hs handle accept join info close accepted joined remote.
  pose proof (world_ok_lookup _ _ _ _ Hw Hs) as Hok.
  subst handle. rewrite (connecting_Done p _ w s); [|done|done|apply Hok..].
  unfold connecting_result. cbn [sc_conn sc_state w_trace with_calls]. cbv zeta.
  change (steam_answer (w_trace w) (AcceptConnection conn) : EResult) with accepted.
  change (steam_answer (w_trace w ++ [AcceptConnection conn])
    (SetConnectionPollGroup conn (m_poll_group s))) with joined.
  replace ((w_trace w ++ [AcceptConnection conn]) ++ [SetConnectionPollGroup conn (m_poll_group s)])
    with (w_trace w ++ [accept; join]) by by rewrite <- app_assoc.
  clearbody accepted joined. split_and!; [intros Hacc|intros -> ->..].
  - rewrite bool_decide_eq_false_2 by done. simpl. by autorewrite with world.
  - simpl. by autorewrite with world.
  - simpl. by autorewrite with world.
Qed.
End events.

Lemma connecting_client_witness :
  let ss := sim_steam [] [] in
  let w := sim_world ss (sim_two_clients ++ [(1%positive, OpSetOnConnected (Some tt))]) in
  ∃ w', on_connection_status_changed 1 (H1:=log_callbacks)
          (StatusChanged 6 StateConnecting StateNone) w = Done tt w' ∧
    w_user w' = [EvConnected (new_client 6 (6 : sim_addr))] ∧
    client_keys (sim_server w' 1) = [5; 6; 9].
Proof.
  intros ss w.
  destruct (sim_world_ok [] [] (sim_two_clients ++ [(1%positive, OpSetOnConnected (Some tt))]))
    as [Hw _]; [by repeat constructor|by vm_compute|].
  destruct (connecting_client (H1:=log_callbacks) 1 6 StateNone w (sim_server w 1) Hw)
    as (_ & _ & Hnew); [by vm_compute|].
  assert (match on_connection_status_changed 1 (H1:=log_callbacks) (StatusChanged 6 StateConnecting StateNone) w with
          | Done _ v => w_user v = [EvConnected (new_client 6 (6 : sim_addr))] ∧
              client_keys (sim_server v 1) = [5; 6; 9]
          | Fault _ _ => False end) as Hafter by (vm_compute; split; reflexivity).
  assert (∃ w', on_connection_status_changed 1 (H1:=log_callbacks) (StatusChanged 6 StateConnecting StateNone) w
    = Done tt w') as [w' Hex] by (eexists; by apply Hnew; vm_compute).
  exists w'. rewrite Hex in Hafter. by split.
Defined.

Section closing.
Context {A : Type} `{SteamIPAddr A} `{!SteamIPAddrLaws A} `{SteamSockets A}.
#[local] Existing Instance log_callbacks.
Local Abbreviation W := (world A (UdpServer unit) (list server_event)).
Implicit Types (w : W) (s : UdpServer unit) (p : positive).

(** The notification of a client whose connection closed. *)
Definition farewell s (info : status_changed) : list server_event :=
  match m_client_disconnected_callback s, m_clients s !! sc_conn info with
  | Some _, Some ci => if decide (sc_old_state info = StateConnected) then [EvDisconnected ci] else []
  | _, _ => []
  end.

(** When a connection is closed by the peer or breaks, the disconnected
    callback sees the client only if the connection had been up, and the
    connection is closed; but the client stays in the table, so a later
    broadcast still sends to the closed connection. *)
Theorem closed_client_stays p info w s :
  world_ok w → w_objs w !! p = Some s →
  sc_state info = StateClosedByPeer ∨ sc_state info = StateProblemDetectedLocally →
  ∃ w', on_connection_status_changed p info w = Done tt w' ∧
    w_objs w' = w_objs w ∧
    w_user w' = w_user w ++ farewell s info ∧
    w_trace w' = w_trace w ++ [CloseConnection (sc_conn info) 0 None false] ∧
    (is_Some (m_clients s !! sc_conn info) → ∀ data reliable,
       ∃ b w'', broadcast p data (length data) reliable w' = Done b w'' ∧
         send_call data reliable (sc_conn info) ∈ drop (length (w_trace w')) (w_trace w'')).
Proof.
  intros Hw Hs Hst. pose proof (world_ok_lookup _ _ _ _ Hw Hs) as Hok.
  exists (with_calls [CloseConnection (sc_conn info) 0 None false]
            (with_user (λ l, l ++ farewell s info) w)).
  split_and!; [|done..|].
  - rewrite (closed_Done p info w s); [|done..|apply Hok].
    erewrite bind_Done; [by eapply reject_Done; [|apply Hok]|].
    unfold notify_disconnected, farewell.
    destruct (decide _), (m_client_disconnected_callback s), (m_clients s !! sc_conn info);
      by rewrite ?log_nothing.
  - intros [ci Hci] data reliable.
    assert (m_clients s ≠ ∅) by (intros Hemp; by rewrite Hemp in Hci).
    match goal with |- ∃ b w'', broadcast _ _ _ _ ?v = _ ∧ _ =>
      rewrite (broadcast_Done p data (length data) reliable v s); [|done|apply Hok..|lia] end.
    rewrite decide_False by done. eexists _, _. split; [done|].
    cbn [w_trace with_calls with_user]. rewrite drop_app_length, Nat2Z.id, firstn_all.
    apply list_elem_of_fmap. eexists. split; [done|]. apply elem_of_client_keys. by exists ci.
Qed.
End closing.

Lemma closed_client_stays_witness :
  let ss := sim_steam [] [] in
  let w := sim_world ss (sim_two_clients ++ [(1%positive, OpSetOnDisconnected (Some tt))]) in
  ∃ w', on_connection_status_changed 1 (H1:=log_callbacks)
          (StatusChanged 5 StateClosedByPeer StateConnected) w = Done tt w' ∧
    w_user w' = [EvDisconnected (new_client 5 (5 : sim_addr))] ∧
    client_keys (sim_server w' 1) = [5; 9].
Proof.
  intros ss w.
  destruct (sim_world_ok [] [] (sim_two_clients ++ [(1%positive, OpSetOnDisconnected (Some tt))]))
    as [Hw _]; [by repeat constructor|by vm_compute|].
  destruct (closed_client_stays 1 (StatusChanged 5 StateClosedByPeer StateConnected) w
    (sim_server w 1) Hw) as (w' & Hstep & Hobjs & Huser & _); [by vm_compute|by left|].
  exists w'. split; [exact Hstep|]. split; [rewrite Huser; by vm_compute|].
  unfold sim_server. rewrite Hobjs. by vm_compute.
Defined.

(** ** Several servers, one instance *)

Section instance.
Context {A CB U : Type} `{SteamIPAddr A} `{!SteamIPAddrLaws A}.
Context `{SteamSockets A} `{!SteamLaws A} `{ServerCallbacks A CB U}.
Local Abbreviation W := (world A (UdpServer CB) U).
Implicit Types (w : W) (s t : UdpServer CB) (p q : positive) (info : status_changed).

(** Stopping any server, even one that never ran, drops every connection
    event from then on: another server that is still running no longer accepts
    clients nor closes connections, until some server starts again. *)
Theorem foreign_stop_silences p q w s t :
  world_ok w → w_objs w !! p = Some s → w_objs w !! q = Some t → p ≠ q →
  m_is_running s = true → w_thread w ≠ Some q →
  ∃ w', stop q w = Done tt w' ∧ w_objs w' !! p = Some s ∧
    ∀ info, connection_status_changed_callback info w' = Done tt w'.
Proof.
  intros Hw Hs Ht Hpq _ Hth. pose proof (world_ok_lookup _ _ _ _ Hw Ht) as Hok.
  rewrite (stop_Done q w t); [|done|apply Hok..|done]. unfold stop_result.
  destruct (m_is_running t); eexists; (split; [done|]); split; try done.
  by rewrite lookup_with_obj_ne.
Qed.

(** Once a second server has started, the events of the first server's
    connections go to the second: a client that connects to the first is put
    in the second's poll group and client table, and the first never learns of
    it. *)
Theorem second_start_captures_clients p q pt conn old w w1 s t :
  world_ok w → w_objs w !! p = Some s → w_objs w !! q = Some t → p ≠ q →
  m_is_running s = true → m_client_connected_callback t = None →
  start_manual q pt w = Done true w1 →
  let group := steam_answer (w_trace w ++ [CreateListenSocketIP pt]) CreatePollGroup in
  steam_answer (w_trace w1) (AcceptConnection conn) = k_EResultOK →
  steam_answer (w_trace w1 ++ [AcceptConnection conn]) (SetConnectionPollGroup conn group) = true →
  ∃ w2 t2,
    connection_status_changed_callback (StatusChanged conn StateConnecting old) w1 = Done tt w2 ∧
    w_objs w2 !! p = Some s ∧ w_objs w2 !! q = Some t2 ∧ is_Some (m_clients t2 !! conn) ∧
    SetConnectionPollGroup conn group ∈ drop (length (w_trace w1)) (w_trace w2) ∧
    group ≠ m_poll_group s.
Proof.
  intros Hw Hs Ht Hpq Hr Hcb Hstart group Hacc Hjoin.
  pose proof (world_ok_lookup _ _ _ _ Hw Ht) as Hok.
  pose proof (start_manual_ok q pt w t Hw Ht) as Hw1. unfold wp in Hw1. rewrite Hstart in Hw1.
  destruct Hw1 as [[Hw1 _ _ _] _].
  rewrite (start_manual_Done q pt w t Ht (ok_interface _ _ Hok)) in Hstart.
  unfold start_manual_result in Hstart. destruct (m_is_running t) eqn:Hrt; [done|].
  cbv zeta in Hstart. repeat case_decide; try done. injection Hstart as <-.
  set (t1 := started _ _ pt t) in *. set (w1 := with_obj q t1 _) in *.
  assert (m_poll_group t1 = group) as Hg by by destruct t.
  assert (m_client_connected_callback t1 = None) as Hcb1 by by destruct t.
  assert (m_is_running t1 = true) as Hr1 by by destruct t.
  assert (w_objs w1 !! q = Some t1) as Hq1 by apply lookup_with_obj.
  assert (w_objs w1 !! p = Some s) as Hp1 by (unfold w1; by rewrite lookup_with_obj_ne).
  pose proof (world_ok_lookup _ _ _ _ Hw1 Hq1) as Hok1.
  assert (s_instance w1 = Some q) as Hinst by done. clearbody w1 t1 group.
  unfold connection_status_changed_callback, gets.
  erewrite bind_Done; [|done]. rewrite Hinst.
  rewrite (connecting_Done q _ w1 t1); [|done..|apply Hok1|apply Hok1].
  unfold connecting_result. cbn [sc_conn w_trace with_calls]. cbv zeta.
  rewrite Hg, Hjoin, Hcb1. rewrite bool_decide_eq_true_2 by done. cbn [negb].
  eexists _, _. split; [done|]. rewrite lookup_with_obj, lookup_with_obj_ne by done.
  split_and!; [done|done| | |].
  - destruct t1. simpl. by rewrite lookup_insert_eq.
  - cbn [w_trace with_calls with_obj with_objs]. rewrite <- !app_assoc, drop_app_length. set_solver.
  - intros Heq. apply Hpq. eapply (ok_groups _ _ Hw1 p q s t1); try congruence; by apply running_active.
Qed.
End instance.

(** The run above, and a second server at address 2 that never started. *)
Definition sim_idle_second : list (positive * server_op unit) :=
  sim_two_clients ++ [(2%positive, OpConstruct)].

Lemma foreign_stop_silences_witness :
  let ss := sim_steam [] [] in
  let w := sim_world ss sim_idle_second in
  m_is_running (sim_server w 1) = true ∧
  ∃ w', stop 2 w = Done tt w' ∧
    connection_status_changed_callback (H1:=log_callbacks)
      (StatusChanged 6 StateConnecting StateNone) w' = Done tt w'.
Proof.
  intros ss w. split; [by vm_compute|].
  destruct (sim_world_ok [] [] sim_idle_second) as [Hw _]; [by repeat constructor|by vm_compute|].
  destruct (foreign_stop_silences (H1:=log_callbacks) 1 2 w (sim_server w 1) (sim_server w 2) Hw)
    as (w' & Hstop & _ & Hdrop); [by vm_compute..|].
  exists w'. split; [exact Hstop|]. apply Hdrop.
Defined.

Lemma second_start_captures_clients_witness :
  let ss := sim_steam [] [] in
  let w := sim_world ss sim_idle_second in
  ∃ w1 w2 t2, start_manual 2 81 w = Done true w1 ∧
    connection_status_changed_callback (H1:=log_callbacks)
      (StatusChanged 6 StateConnecting StateNone) w1 = Done tt w2 ∧
    w_objs w2 !! 2%positive = Some t2 ∧ is_Some (m_clients t2 !! 6) ∧
    w_objs w2 !! 1%positive = Some (sim_server w 1).
Proof.
  intros ss w.
  destruct (sim_world_ok [] [] sim_idle_second) as [Hw _]; [by repeat constructor|by vm_compute|].
  assert (SteamLaws sim_addr) as Hlaws by (apply (sim_laws [] []); by repeat constructor).
  pose (w1 := match start_manual 2 81 w with Done _ w1 => w1 | Fault _ w1 => w1 end).
  assert (start_manual 2 81 w = Done true w1) as Hstart by by vm_compute.
  destruct (second_start_captures_clients (H1:=log_callbacks) 1 2 81 6 StateNone w w1
    (sim_server w 1) (sim_server w 2) Hw) as (w2 & t2 & Hstep & Hp & Hq & Hin & _); [by vm_compute..|].
  exists w1, w2, t2. split; [exact Hstart|]. split; [exact Hstep|]. split; [exact Hq|].
  split; [exact Hin|exact Hp].
Defined.

(** ** Polling without a poll group; the network thread *)

Section polling_stopped.
Context {A CB U : Type} `{SteamIPAddr A} `{!SteamIPAddrLaws A}.
Context `{SteamSockets A} `{!SteamLaws A} `{ServerCallbacks A CB U}.
Local Abbreviation W := (world A (UdpServer CB) U).
Implicit Types (w : W) (s : UdpServer CB) (p : positive).

(** A server that has been stopped, and one that has never been started,
    must not be polled: the library answers -1, which becomes 4294967295
    messages, and the loop reads past the 32 slots. *)
Theorem poll_after_stop_out_of_bounds p w s :
  world_ok w → w_objs w !! p = Some s → w_thread w ≠ Some p →
  m_is_running s = true ∨ m_poll_group s = 0 →
  ∃ w1 w2, stop p w = Done tt w1 ∧ poll p w1 = Fault OutOfBounds w2 ∧
    w_trace w2 = w_trace w1 ++ [ReceiveMessagesOnPollGroup 0 32].
Proof.
  intros Hw Hs Hth Hcase. pose proof (world_ok_lookup _ _ _ _ Hw Hs) as Hok.
  pose proof (ok_interface _ _ Hok) as Hi.
  rewrite (stop_Done p w s); [|done|apply Hok..|done]. unfold stop_result.
  assert (∃ s' w1, (if m_is_running s
     then Done tt (with_obj p (stopped s) (with_instance None (with_calls (stop_calls s) w)))
     else Done tt (with_instance None w)) = Done tt w1 ∧ w_objs w1 !! p = Some s' ∧
     m_poll_group s' = 0 ∧ m_interface s' = true) as (s' & w1 & -> & Hs' & Hg & Hi').
  { destruct (m_is_running s) eqn:Hr.
    - eexists (stopped s), _. split; [done|]. rewrite lookup_with_obj. by destruct s.
    - exists s. eexists. split; [done|]. by destruct Hcase. }
  exists w1. eexists. split; [done|]. split.
  - rewrite (poll_invalid_group p w1 s'); [|done..|]; rewrite Hg; [done|]. apply receive_invalid_group.
  - done.
Qed.
End polling_stopped.

Lemma poll_after_stop_out_of_bounds_witness :
  let ss := sim_steam sim_inbox [] in
  let w := sim_world ss sim_idle_second in
  ∃ w1 w2, stop 2 w = Done tt w1 ∧ poll 2 (H1:=log_callbacks) w1 = Fault OutOfBounds w2.
Proof.
  intros ss w.
  destruct (sim_world_ok sim_inbox [] sim_idle_second) as [Hw _]; [by repeat constructor|by vm_compute|].
  assert (SteamLaws sim_addr) as Hlaws by (apply (sim_laws sim_inbox []); by repeat constructor).
  destruct (poll_after_stop_out_of_bounds (H1:=log_callbacks) 2 w (sim_server w 2) Hw)
    as (w1 & w2 & Hstop & Hpoll & _); [by vm_compute..|by right|].
  exists w1, w2. split; [exact Hstop|exact Hpoll].
Defined.

Section looping.
Context {A CB U : Type} `{SteamIPAddr A} `{!SteamIPAddrLaws A}.
Context `{SteamSockets A} `{!SteamLaws A}.
Context `{ServerCallbacks A CB U} `{CallbackContract U} `{!ServerCallbacksLaws Sequential A CB U}.
Local Abbreviation W := (world A (UdpServer CB) U).
Implicit Types (w : W) (s : UdpServer CB) (p : positive).

(** C32: the network thread's loop never faults, however long it runs; it goes
    on while the server is running and returns as soon as it is not. *)
Theorem network_loop_runs_until_stopped p n w :
  world_ok w → ready w → is_Some (w_objs w !! p) →
  ∃ b w', network_loop n p w = Done b w' ∧ world_ok w' ∧
    (b = true → ∃ s', w_objs w' !! p = Some s' ∧ m_is_running s' = false) ∧
    ∃ s', w_objs w' !! p = Some s' ∧
      (m_is_running s' = false → network_loop 1 p w' = Done true w').
Proof.
  intros Hw Hrd. assert (good Sequential w) as Hgood by done. clear Hw Hrd. revert w Hgood.
  induction n as [|n IH]; intros w Hgood [s Hs].
  - exists false, w. split_and!; [done|apply Hgood|done|]. exists s. split; [done|]. intros Hr.
    cbn [network_loop]. unfold is_running, mbind, M_bind. rewrite (deref_Done p s w Hs).
    by rewrite Hr.
  - cbn [network_loop]. unfold is_running at 1.
    assert ((s ← deref p; mret (m_is_running s)) w = Done (m_is_running s) w) as Hrun
      by (unfold mbind, M_bind; by rewrite (deref_Done p s w Hs)).
    rewrite (bind_Done _ _ _ _ _ Hrun). destruct (m_is_running s) eqn:Hr.
    + pose proof (poll_ok p w s Hgood Hs (running_active s Hr)) as Hpoll.
      apply wp_Done in Hpoll as ([] & v & Hpoll & Hv).
      rewrite (bind_Done _ _ _ _ _ Hpoll). apply IH; [by eapply goes_on_good|].
      by eapply goes_on_lookup; [|exists s].
    + exists true, w. split_and!; [done|apply Hgood|by exists s|]. exists s. split; [done|]. intros _.
      cbn [network_loop]. unfold is_running. by rewrite (bind_Done _ _ _ _ _ Hrun).
Qed.
End looping.

Lemma network_loop_runs_until_stopped_witness :
  let ss := sim_steam sim_inbox [] in
  ∃ b w', network_loop 3 1 (H1:=log_callbacks) (sim_world ss sim_two_clients) = Done b w' ∧
    world_ok w'.
Proof.
  intros ss.
  destruct (sim_world_ok sim_inbox [] sim_two_clients) as [Hw _]; [by repeat constructor|by vm_compute|].
  assert (SteamLaws sim_addr) as Hlaws by (apply (sim_laws sim_inbox []); by repeat constructor).
  destruct (network_loop_runs_until_stopped (H1:=log_callbacks)
    (ServerCallbacksLaws0:=log_callbacks_laws _) 1 3 (sim_world ss sim_two_clients) Hw)
    as (b & w' & Hloop & Hok & _); [done|by vm_compute; eexists|].
  exists b, w'. split; [exact Hloop|exact Hok].
Defined.
