(* ===== verification/Threads.v ===== *)
(** * Network threads and the application, interleaved

    [UdpServerSystem.v] runs operations one at a time.  Here a network thread has
    a position in its loop and takes one step per message or status change;
    [stop] is cut where it waits in [join]; and other threads run in between.
    The steps are the pieces the operations of [UdpServer.v] are made of. *)

From S2P Require Import Prelude Bytes NetworkTypes Packet Serde Runtime.
From S2P Require Import Ledger UdpServer Sessions UdpServerSpec UdpServerSafety UdpServerSystem.
Local Open Scope Z_scope.

(** ** Positions *)

(** Where a network thread is in [network_loop]: about to test [m_is_running];
    in the message loop of [poll], at index [i] of [count] with the slots that
    are left; handling the status changes [RunCallbacks] reports; returned. *)
Inductive net_pc :=
| AtTop
| Dispatching (i count : Z) (slots : list steam_message)
| Handling (infos : list status_changed)
| Returned.

(** The application's thread: free, or waiting in [stop] (of the destructor, if
    so marked) for a network thread to return. *)
Inductive app_pc :=
| Free
| Joining (p : positive) (destroying : bool).

Record tworld (A CB U : Type) := TWorld {
  tw_world : world A (UdpServer CB) U;
  tw_net : gmap positive net_pc;
  tw_app : app_pc;
}.
Arguments TWorld {A CB U}.
Arguments tw_world {A CB U}.
Arguments tw_net {A CB U}.
Arguments tw_app {A CB U}.

(** What the threads do. *)
Inductive thread_op (CB : Type) :=
| TNetwork (p : positive)                          (** one step of a network thread *)
| TApp (p : positive) (op : server_op CB)          (** an operation of the application *)
| TStop (p : positive) (destroying : bool)         (** [stop] up to its [join] *)
| TJoined.                                         (** the [join] returns, and the rest *)
Arguments TNetwork {CB}.
Arguments TApp {CB}.
Arguments TStop {CB}.
Arguments TJoined {CB}.

Section steps.
Context {A CB U : Type} `{SteamIPAddr A} `{SteamSockets A} `{ServerCallbacks A CB U}.
Local Abbreviation W := (world A (UdpServer CB) U).
Local Abbreviation TW := (tworld A CB U).
Implicit Types (w : W) (t : TW) (p : positive) (pc : net_pc).

(** ** One step of a network thread *)

Definition net_step p pc : M W net_pc :=
  match pc with
  | AtTop =>
      running ← is_running p;
      if (running : bool) then
        s ← deref p;
        iface p (ReceiveMessagesOnPollGroup (m_poll_group s) k_message_count)
          ≫= λ received : Z * list steam_message,
        mret (Dispatching 0 (u32 received.1) received.2)
      else mret Returned
  | Dispatching i count slots =>
      if decide (i < count) then
        match slots with
        | [] => fail OutOfBounds
        | message :: slots => poll_message p message ;; mret (Dispatching (i + 1) count slots)
        end
      else
        iface p RunCallbacks ≫= λ infos : list status_changed,
        mret (Handling infos)
  | Handling [] => mret AtTop
  | Handling (info :: infos) =>
      connection_status_changed_callback info ;; mret (Handling infos)
  | Returned => mret Returned
  end.

(** What is left of the round at a position, in one go. *)
Definition net_rest p pc : M W unit :=
  match pc with
  | AtTop | Returned => skip
  | Dispatching i count slots =>
      poll_loop p i count slots ;;
      iface p RunCallbacks ≫= λ infos : list status_changed,
      for_each infos connection_status_changed_callback
  | Handling infos => for_each infos connection_status_changed_callback
  end.

(** ** Stopping, cut at the [join] *)

Definition stop_begin p : M W unit :=
  modify (with_instance None) ;;
  update p (set_running false).

Definition stop_end p : M W unit :=
  join_network_thread p ;;
  close_all p.

Definition destroy_members p : M W unit :=
  s ← deref p;
  if m_network_thread s then fail StdTerminate else modify (with_objs (delete p)).

(** ** The steps of all threads *)

Definition on_world {R} (m : M W R) : M TW R := λ t,
  match m (tw_world t) with
  | Done r w => Done r (TWorld w (tw_net t) (tw_app t))
  | Fault e w => Fault e (TWorld w (tw_net t) (tw_app t))
  end.

Definition set_net (f : gmap positive net_pc → gmap positive net_pc) t : TW :=
  TWorld (tw_world t) (f (tw_net t)) (tw_app t).
Definition set_app (a : app_pc) t : TW := TWorld (tw_world t) (tw_net t) a.

(** The server at [p] has a thread. *)
Definition threaded w p : Prop := ∃ s, w_objs w !! p = Some s ∧ m_network_thread s = true.

#[global] Instance threaded_dec w p : Decision (threaded w p).
Proof.
  refine (match w_objs w !! p as o return (w_objs w !! p = o → _) with
    | Some s => λ Hs, cast_if (decide (m_network_thread s = true))
    | None => λ Hs, right _
    end eq_refl).
  - by exists s.
  - intros (s' & Hs' & Ht). congruence.
  - intros (s' & Hs' & _). congruence.
Defined.

(** A thread that has just been spawned is at the top of its loop. *)
Definition spawned p t : TW :=
  match tw_net t !! p with
  | None => if decide (threaded (tw_world t) p) then set_net <[p := AtTop]> t else t
  | Some _ => t
  end.

Definition exec_thread (op : thread_op CB) : M TW unit :=
  match op with
  | TNetwork p =>
      t ← gets id;
      match tw_net t !! p with
      | Some pc =>
          pc' ← on_world (on_thread p (net_step p pc));
          modify (set_net <[p := pc']>)
      | None => skip
      end
  | TApp p op => on_world (exec_op p op) ;; modify (spawned p)
  | TStop p destroying => on_world (stop_begin p) ;; modify (set_app (Joining p destroying))
  | TJoined =>
      t ← gets id;
      match tw_app t with
      | Joining p destroying =>
          on_world (stop_end p ;; (if destroying then destroy_members p else skip)) ;;
          modify (set_net (delete p)) ;;
          modify (set_app Free)
      | Free => skip
      end
  end.

(** Operations that do not wait for a thread of their own server. *)
Definition waits (op : server_op CB) : bool :=
  match op with OpStop | OpDestruct => true | _ => false end.

Definition is_round (op : server_op CB) : bool :=
  match op with OpNetworkIteration => true | _ => false end.

Context `{CallbackContract U}.

(** The correct uses: a thread steps until it has returned; the application,
    while it is not waiting, uses servers as [op_allowed] says and stops those
    with a thread in two parts; a [join] returns when the thread has. *)
Definition thread_allowed (op : thread_op CB) t : Prop :=
  let w := tw_world t in
  match op with
  | TNetwork p => ready w ∧ ∃ pc, tw_net t !! p = Some pc ∧ pc ≠ Returned
  | TApp p op =>
      tw_app t = Free ∧ op_allowed p op w ∧ is_round op = false ∧
      (waits op = true → ¬ threaded w p)
  | TStop p _ => tw_app t = Free ∧ threaded w p
  | TJoined => ∃ p d, tw_app t = Joining p d ∧ tw_net t !! p = Some Returned
  end.

Definition thread_step t t' : Prop :=
  ∃ op, thread_allowed op t ∧ exec_thread op t = Done tt t'.

(** The steps of one network thread. *)
Definition network_step p t t' : Prop :=
  thread_allowed (TNetwork p) t ∧ exec_thread (TNetwork p) t = Done tt t'.

Definition thread_initial (u : U) : TW := TWorld (initial_world u) ∅ Free.
End steps.
