(* ===== verification/ThreadsProps.v ===== *)
(** * Safety of the interleaved threads

    No interleaving of network threads and the application faults, leaks a
    message or delivers one after a [stop] has returned; a [stop] returns; and a
    network thread left alone for one round does what the atomic round of
    [UdpServerSystem.v] does. *)

From S2P Require Import Prelude Bytes NetworkTypes Packet Serde Runtime.
From S2P Require Import Ledger UdpServer Sessions UdpServerSpec UdpServerSafety Simulated UdpServerSystem.
From S2P Require Import Threads.
Local Open Scope Z_scope.

(** ** The pieces and the operations they are cut from *)

Section pieces.
Context {A CB U : Type} `{SteamIPAddr A} `{SteamSockets A} `{ServerCallbacks A CB U}.
Local Abbreviation W := (world A (UdpServer CB) U).
Implicit Types (w : W) (s : UdpServer CB) (p : positive) (pc : net_pc).

Lemma stop_cut p w s :
  w_objs w !! p = Some s → m_is_running s = true → m_network_thread s = true →
  stop p w = (stop_begin p ;; stop_end p) w.
Proof.
  intros Hs Hr Ht. unfold stop, stop_begin, stop_end, modify, mbind, M_bind.
  rewrite (deref_Done p s (with_instance None w) Hs), (update_Done p _ s (with_instance None w) Hs).
  by rewrite Hr, Ht.
Qed.

Lemma destruct_cut p w : destruct_server p w = (stop p ;; destroy_members p) w.
Proof. done. Qed.

(** A position, one step, and what is left. *)
Lemma rest_step p pc w : pc ≠ AtTop → net_rest p pc w = (net_step p pc ≫= net_rest p) w.
Proof.
  intros Hpc. unfold net_rest, net_step.
  destruct pc as [|i count [|m slots]|[|info infos]|]; try done; cbn [poll_loop for_each];
    unfold skip, mret, M_ret, mbind, M_bind.
  - case_decide; [done|]. by destruct (iface p RunCallbacks w).
  - case_decide; [by destruct (poll_message p m w)|]. by destruct (iface p RunCallbacks w).
  - by destruct (connection_status_changed_callback info w).
Qed.

Lemma round_step p w :
  (running ← is_running p; if (running : bool) then poll p else skip) w
  = (net_step p AtTop ≫= net_rest p) w.
Proof.
  unfold poll, net_step, mret, M_ret, skip, mbind, M_bind.
  destruct (is_running p w) as [[|] v|]; [|done|done].
  destruct (deref p v) as [s v'|]; [|done].
  by destruct (iface p _ v').
Qed.
End pieces.

(** ** One step of a network thread *)

(** The messages a thread has been handed and not yet released. *)
Definition pc_owed (pc : net_pc) : list steam_message :=
  match pc with Dispatching _ _ slots => slots | _ => [] end.

(** The slots left are those the count says, each with its size. *)
Definition pc_ok (pc : net_pc) : Prop :=
  match pc with
  | Dispatching i count slots =>
      count = i + length slots ∧
      Forall (λ m, m_cbSize m = length (m_pData m) ∧ m_cbSize m < 2 ^ 31) slots
  | _ => True
  end.

(** The order of the positions in a round. *)
Definition pc_next (running : bool) (pc pc' : net_pc) : Prop :=
  match pc with
  | AtTop => if running then ∃ count slots, pc' = Dispatching 0 count slots else pc' = Returned
  | Dispatching i count (_ :: slots) => pc' = Dispatching (i + 1) count slots
  | Dispatching _ _ [] => ∃ infos, pc' = Handling infos
  | Handling (_ :: infos) => pc' = Handling infos
  | Handling [] => pc' = AtTop
  | Returned => pc' = Returned
  end.

Section network.
Context {A CB U : Type} `{SteamIPAddr A} `{!SteamIPAddrLaws A}.
Context `{SteamSockets A} `{!SteamLaws A}.
Context `{ServerCallbacks A CB U} `{CallbackContract U} `{!ServerCallbacksLaws Interleaved A CB U}.
Local Abbreviation W := (world A (UdpServer CB) U).
Implicit Types (w : W) (s : UdpServer CB) (p : positive) (pc : net_pc).

(** What a step of the thread of a server leaves. *)
Definition stepped pc (running : bool) w pc' w' : Prop :=
  goes_on_owing Interleaved (pc_owed pc) (pc_owed pc') w w' ∧
  (pc_ok pc' ∧ pc_next running pc pc').

Lemma net_step_ok p pc w s :
  good Interleaved w → w_objs w !! p = Some s → m_network_thread s = true →
  pc_ok pc → pc ≠ Returned →
  wp (net_step p pc) (λ pc' w', stepped pc (m_is_running s) w pc' w') w.
Proof.
  intros Hgood Hs Ht Hpc Hret. pose proof (proj1 Hgood) as Hw.
  pose proof (world_ok_lookup _ _ _ _ Hw Hs) as Hok. pose proof (goes_on_refl _ w Hw) as Hrefl.
  destruct pc as [|i count slots|[|info infos]|]; [..|done]; cbn [net_step].
  - unfold is_running. wp_steps. destruct (m_is_running s) eqn:Hr; [|by wp_steps].
    set (c := ReceiveMessagesOnPollGroup (A:=A) (m_poll_group s) 32).
    assert (receive_ok 32 (steam_answer (w_trace w) c)) as Hrecv
      by (apply receive_live_group; [done|by apply Hok, running_active]).
    wp_steps. apply (wp_iface p c _ w s); [done|apply Hok|]. wp_steps.
    destruct Hrecv as (Hlen & Hmax & Hall). split; [by apply receive_goes_on|].
    split; [|by eexists _, _]. split; [|done]. rewrite Z.add_0_l, <- Hlen. unfold u32.
    apply wrap_small. unfold fits. lia.
  - destruct Hpc as [-> Hall]. destruct slots as [|m slots].
    + rewrite decide_False by (simpl; lia).
      apply wp_bind. eapply wp_mono; [by apply (iface_goes_on (k:=Interleaved) p RunCallbacks); [|exists s|]|].
      intros infos v Hv. wp_steps. split; [exact Hv|]. split; [done|by exists infos].
    + rewrite decide_True by (simpl; lia). apply Forall_cons in Hall as [[Hsz Hmax] Hall].
      apply wp_bind. eapply wp_mono; [by eapply poll_message_ok|]. intros [] v Hv. wp_steps.
      split; [exact (goes_on_frame _ _ _ slots _ _ Hv)|]. split; [|done]. split; [|done]. simpl. lia.
  - by wp_steps.
  - apply wp_bind. eapply wp_mono; [by apply status_callback_ok|]. intros [] v Hv. by wp_steps.
Qed.

Lemma thread_net_step_ok p pc w s :
  good Interleaved w → w_objs w !! p = Some s → m_network_thread s = true →
  pc_ok pc → pc ≠ Returned →
  wp (on_thread p (net_step p pc)) (λ pc' w', stepped pc (m_is_running s) w pc' w') w.
Proof.
  intros Hgood Hs Ht Hpc Hret. apply wp_on_thread_goes_on.
  apply net_step_ok; try done. by apply good_thread.
Qed.

(** ** A thread left alone *)

(** Its steps, apart from what other threads do. *)
Definition net_run p : relation (net_pc * W) := λ '(pc, w) '(pc', w'),
  pc ≠ Returned ∧ ready w ∧ on_thread p (net_step p pc) w = Done pc' w'.

Lemma on_thread_step p pc w s :
  good Interleaved w → w_objs w !! p = Some s → m_network_thread s = true → pc_ok pc → pc ≠ Returned →
  on_thread p (net_step p pc ≫= net_rest p) w
  = (on_thread p (net_step p pc) ≫= λ pc', on_thread p (net_rest p pc')) w.
Proof.
  intros Hgood Hs Ht Hpc Hret. apply on_thread_bind. intros pc' v Hstep.
  pose proof (net_step_ok p pc (with_thread (Some p) w) s) as Hwp. unfold wp in Hwp.
  rewrite Hstep in Hwp. destruct Hwp as [[[_ [_ Hth] _ _] _] _]; try done. by apply good_thread.
Qed.

Lemma threaded_modest w w' p s :
  modest w w' → w_objs w !! p = Some s → m_network_thread s = true →
  ∃ s', w_objs w' !! p = Some s' ∧ m_network_thread s' = true ∧ m_is_running s' = m_is_running s.
Proof.
  intros Hm Hs Ht. destruct (modest_lookup _ _ p s Hm Hs) as (s' & Hs' & Hcore). exists s'.
  injection Hcore as _ Ht' Hr' _ _ _. split_and!; congruence.
Qed.

(** The thread of a server, where callbacks may run. *)
Definition net_good p pc w : Prop :=
  good Interleaved w ∧ threaded w p ∧ pc_ok pc.

(** One step, and what is left after it. *)
Lemma rest_runs_step p pc w w' :
  net_good p pc w → pc ≠ AtTop → pc ≠ Returned → on_thread p (net_rest p pc) w = Done tt w' →
  ∃ pc1 w1, net_run p (pc, w) (pc1, w1) ∧ net_good p pc1 w1 ∧ (∃ b, pc_next b pc pc1) ∧
    on_thread p (net_rest p pc1) w1 = Done tt w'.
Proof.
  intros (Hgood & (s & Hs & Ht) & Hpc) Htop Hret Hrest.
  rewrite (on_thread_ext p _ (net_step p pc ≫= net_rest p) w (λ v, rest_step p pc v Htop)) in Hrest.
  rewrite (on_thread_step p pc w s) in Hrest by done.
  pose proof (thread_net_step_ok p pc w s Hgood Hs Ht Hpc Hret) as Hwp.
  apply wp_Done in Hwp as (pc1 & w1 & Hstep & Hgo & Hpc1 & Hnext).
  rewrite (bind_Done _ _ _ _ _ Hstep) in Hrest.
  destruct (threaded_modest w w1 p s (kp_modest _ _ _ _ _ (proj1 Hgo) eq_refl) Hs Ht)
    as (s1 & Hs1 & Ht1 & _).
  exists pc1, w1. split; [split; [done|split; [apply Hgood|done]]|].
  split; [|split; [by eexists|done]]. split; [by eapply goes_on_good|]. split; [by exists s1|done].
Qed.

Lemma handling_runs p infos w w' :
  net_good p (Handling infos) w → on_thread p (net_rest p (Handling infos)) w = Done tt w' →
  rtc (net_run p) (Handling infos, w) (AtTop, w').
Proof.
  revert w. induction infos as [|info infos IH]; intros w Hgood Hrest;
    destruct (rest_runs_step _ _ _ _ Hgood ltac:(done) ltac:(done) Hrest)
      as (pc1 & w1 & Hstep & Hgood1 & [b Hnext] & Hrest1); simpl in Hnext; subst pc1.
  - apply rtc_once. injection Hrest1 as <-. by rewrite with_thread_twice, with_thread_id.
  - eapply rtc_l; [exact Hstep|]. by apply IH.
Qed.

(** The rest of a round, step by step. *)
Lemma rest_runs p pc w w' :
  net_good p pc w → pc ≠ AtTop → pc ≠ Returned → on_thread p (net_rest p pc) w = Done tt w' →
  rtc (net_run p) (pc, w) (AtTop, w').
Proof.
  destruct pc as [|i count slots|infos|]; intros Hgood Htop Hret; [done| |by apply handling_runs|done].
  revert i w Hgood Htop Hret. induction slots as [|m slots IH]; intros i w Hgood Htop Hret Hrest;
    destruct (rest_runs_step _ _ _ _ Hgood Htop Hret Hrest)
      as (pc1 & w1 & Hstep & Hgood1 & [b Hnext] & Hrest1); simpl in Hnext.
  - destruct Hnext as [infos ->]. eapply rtc_l; [exact Hstep|]. by apply handling_runs.
  - subst pc1. eapply rtc_l; [exact Hstep|]. by apply IH.
Qed.

(** What is left of a round ends without a fault. *)
Lemma rest_ends p pc w :
  net_good p pc w → ∃ w', on_thread p (net_rest p pc) w = Done tt w'.
Proof.
  intros (Hgood & (s & Hs & Ht) & Hpc).
  assert (wp (net_rest p pc) (λ _ _, True) (with_thread (Some p) w)) as Hwp.
  { apply (good_thread _ (Some p)) in Hgood. set (v := with_thread (Some p) w) in *.
    assert (is_Some (w_objs v !! p)) as Hp by by exists s. clearbody v. clear Hs Ht w s.
    destruct pc as [|i count slots|infos|]; cbn [net_rest]; [done| | |done].
    - destruct Hpc as [Hcount Hall]. unfold wp, mbind at 1, M_bind at 1.
      rewrite poll_loop_for_each by done.
      pose proof (poll_messages_ok (k:=Interleaved) p slots v Hgood Hp Hall) as Hloop. unfold wp in Hloop.
      destruct (for_each slots _ v) as [[] u|]; [|done].
      pose proof (goes_on_good _ _ _ _ _ Hgood Hloop) as Hgu. pose proof (goes_on_lookup _ _ _ _ _ p Hloop Hp) as Hpu.
      apply wp_bind. eapply wp_mono; [by apply (iface_goes_on (k:=Interleaved) p RunCallbacks u); [apply Hgu|..]|].
      intros infos u' Hu'. cbv beta in Hu'. eapply wp_mono; [apply (status_changes_ok (k:=Interleaved) _ p)|done].
      + by eapply goes_on_good.
      + by eapply goes_on_lookup.
    - by eapply wp_mono; [apply (status_changes_ok (k:=Interleaved) _ p)|]. }
  apply wp_Done in Hwp as ([] & v & Hrest & _). unfold on_thread. unfold mbind, M_bind, gets, modify.
  rewrite Hrest. by eexists.
Qed.
End network.
