(* ===== verification/ThreadsSystem.v ===== *)
(** * Every interleaving

    The invariant of the threads, kept by each of their steps, and the theorems
    on every interleaving of network threads with the application. *)

From S2P Require Import Prelude Bytes NetworkTypes Packet Serde Runtime.
From S2P Require Import Ledger UdpServer Sessions UdpServerSpec UdpServerSafety Simulated UdpServerSystem.
From S2P Require Import Threads ThreadsProps.
Local Open Scope Z_scope.

(** ** Messages the threads hold *)

Definition owed (net : gmap positive net_pc) : list steam_message :=
  map_to_list net ≫= λ x, pc_owed x.2.

Lemma owed_delete net p pc :
  net !! p = Some pc → owed net ≡ₚ pc_owed pc ++ owed (delete p net).
Proof. intros Hp. unfold owed. by rewrite <- (map_to_list_delete net p pc Hp). Qed.

Lemma owed_insert net p pc : owed (<[p := pc]> net) ≡ₚ pc_owed pc ++ owed (delete p net).
Proof.
  rewrite (owed_delete _ p pc) by apply lookup_insert_eq. by rewrite delete_insert_eq.
Qed.

Lemma owed_nothing net : map_Forall (λ _ pc, pc_owed pc = []) net → owed net = [].
Proof.
  intros Hnet. unfold owed. assert (Forall (λ x, pc_owed x.2 = []) (map_to_list net)) as Hall.
  { apply Forall_forall. intros [p pc] Hin. apply elem_of_map_to_list in Hin. by apply (Hnet p). }
  induction Hall as [|x l Hx _ IH]; [done|]. by rewrite bind_cons, Hx, IH.
Qed.

Section system.
Context {A CB U : Type} `{SteamIPAddr A} `{!SteamIPAddrLaws A}.
Context `{SteamSockets A} `{!SteamLaws A}.
Context `{ServerCallbacks A CB U} `{CallbackContract U} `{!ServerCallbacksLaws Interleaved A CB U}.
Local Abbreviation W := (world A (UdpServer CB) U).
Local Abbreviation TW := (tworld A CB U).
Implicit Types (w : W) (t : TW) (s : UdpServer CB) (p q : positive) (pc : net_pc).

(** ** The invariant *)

(** Well-formed servers; a position for every network thread, in its loop as
    [pc_ok] says; only the server the application waits for has been told to
    stop while its thread is there; and the messages owed are those the threads
    hold. *)
Record thread_ok t : Prop := {
  to_inv : world_inv Interleaved (tw_world t);
  to_thread : w_thread (tw_world t) = None;
  to_net p : is_Some (tw_net t !! p) ↔ threaded (tw_world t) p;
  to_pcs : map_Forall (λ _, pc_ok) (tw_net t);
  to_running p s : w_objs (tw_world t) !! p = Some s → m_network_thread s = true →
    m_is_running s = true ∨ ∃ d, tw_app t = Joining p d;
  to_returned p s : w_objs (tw_world t) !! p = Some s → tw_net t !! p = Some Returned →
    m_is_running s = false;
  to_joining p d : tw_app t = Joining p d → s_instance (tw_world t) = None ∧
    ∃ s, w_objs (tw_world t) !! p = Some s ∧ m_network_thread s = true ∧ m_is_running s = false;
  to_ledger : ledger (owed (tw_net t)) (w_trace (tw_world t));
}.

(** While the application is free, no operation is half done. *)
Lemma free_ok t : thread_ok t → tw_app t = Free → app_ok (tw_world t).
Proof.
  intros [[Hs Hi Hg Hj] Hth _ _ Hrun _ _ _] Hfree. split; [|done]. split; [done..|].
  intros p s _ Hp Ht. destruct (Hrun p s Hp Ht) as [?|[d Hd]]; [done|congruence].
Qed.

Lemma free_position t p pc :
  thread_ok t → tw_app t = Free → tw_net t !! p = Some pc → pc ≠ Returned.
Proof.
  intros Hok Hfree Hp ->. destruct (proj1 (to_net _ Hok p) ltac:(by eexists)) as (s & Hs & Ht).
  pose proof (to_returned _ Hok p s Hs Hp) as Hr.
  destruct (to_running _ Hok p s Hs Ht) as [?|[d Hd]]; congruence.
Qed.

(** ** A step of a network thread *)

Lemma threaded_modest_iff w w' p : modest w w' → threaded w' p ↔ threaded w p.
Proof.
  intros Hm. assert (modest w' w) as Hm' by (destruct Hm; by split).
  split; intros (s & Hs & Ht);
    [destruct (threaded_modest w' w p s Hm' Hs Ht) as (s' & Hs' & Ht' & _)
    |destruct (threaded_modest w w' p s Hm Hs Ht) as (s' & Hs' & Ht' & _)]; by exists s'.
Qed.

Lemma network_step_ok p t :
  thread_ok t → thread_allowed (TNetwork p) t →
  wp (exec_thread (TNetwork p)) (λ _ t', thread_ok t' ∧ tw_app t' = tw_app t ∧
    modest (tw_world t) (tw_world t') ∧ progress (owed (tw_net t)) (owed (tw_net t')) (tw_world t) (tw_world t') ∧
    user_frame (w_user (tw_world t)) (w_user (tw_world t'))) t.
Proof.
  intros Hok (Hrd & pc & Hpc & Hret).
  destruct (proj1 (to_net _ Hok p) ltac:(by eexists)) as (s & Hs & Ht).
  destruct t as [w net app]. destruct Hok as [Hinv Hth Hnet Hpcs Hrun Hreturned Hjoin Hl]. simpl in *.
  pose proof (thread_net_step_ok p pc w s (conj Hinv Hrd) Hs Ht (Hpcs p pc Hpc) Hret) as Hwp.
  apply wp_Done in Hwp as (pc' & w' & Hstep & [Hk Hu] & Hpc' & Hnext).
  cbn [exec_thread]. apply wp_bind, wp_gets. cbn [id tw_net]. rewrite Hpc.
  apply wp_bind. unfold on_world, wp. cbn [tw_world]. rewrite Hstep. cbn.
  destruct Hk as [Hinv' [Hdom Hth'] [Hsess Hled] Hm]. specialize (Hm eq_refl).
  assert (owed (<[p:=pc']> net) ≡ₚ pc_owed pc' ++ owed (delete p net)) as Ho' by apply owed_insert.
  assert (∀ e, ledger (owed net ++ e) (w_trace w) → ledger (owed (<[p:=pc']> net) ++ e) (w_trace w')) as Hled'.
  { intros e. rewrite Ho', (owed_delete net p pc Hpc), <- !app_assoc. apply Hled. }
  split_and!; [|done|done|by split|exact Hu]. unfold set_net. split; simpl; [done|congruence|..].
  - intros q. rewrite lookup_insert_is_Some', threaded_modest_iff, <- Hnet by done.
    split; [|by right]. intros [<-|?]; [by eexists|done].
  - by apply map_Forall_insert_2.
  - intros q t Hq Htq. destruct Hm as [Hi Hcore].
    destruct (threaded_modest w' w q t (conj (eq_sym Hi) (eq_sym Hcore)) Hq Htq) as (t0 & Hq0 & Ht0 & Hr0).
    rewrite <- Hr0. by apply (Hrun q t0).
  - intros q t Hq Hqret. destruct Hm as [Hi Hcore].
    assert (threaded w' q) as (t' & Hq' & Htq).
    { apply (threaded_modest_iff w w'); [done|]. apply Hnet.
      apply lookup_insert_Some in Hqret as [[<- _]|[_ ?]]; by eexists. }
    assert (t' = t) as -> by congruence.
    destruct (threaded_modest w' w q t (conj (eq_sym Hi) (eq_sym Hcore)) Hq Htq) as (t0 & Hq0 & Ht0 & <-).
    apply lookup_insert_Some in Hqret as [[<- ->]|[_ ?]]; [|by apply (Hreturned q t0)].
    assert (t0 = s) as -> by congruence. revert Hnext.
    destruct pc as [|i c [|]|[|]|]; simpl; try done; [|by intros [? [=]]].
    destruct (m_is_running s); [by intros (? & ? & [=])|done].
  - intros q d Happ. destruct (Hjoin q d Happ) as (Hi & t & Hq & Htq & Hrq).
    split; [destruct Hm; congruence|].
    destruct (threaded_modest w w' q t Hm Hq Htq) as (t' & Hq' & Ht' & Hr'). exists t'. split_and!; congruence.
  - specialize (Hled' []). rewrite !app_nil_r in Hled'. by apply Hled'.
Qed.
(** ** An operation of the application *)

(** Callbacks fit for interleaving are fit for one operation at a time. *)
Lemma goes_on_sequential w w' : world_ok w → goes_on Interleaved w w' → goes_on Sequential w w'.
Proof.
  intros Hw [[[Hs Hi Hg _] Hsh Hp Hm] Hu]. split; [|done]. split; [split; [done..|]|done|done|done].
  intros p s' _ Hs' Ht'.
  assert (modest w' w) as Hm' by (destruct (Hm eq_refl); by split).
  destruct (threaded_modest w' w p s' Hm' Hs' Ht') as (s & Hp0 & Ht & <-). by apply (ok_joined _ _ Hw p s).
Qed.

Lemma sequential_laws : ServerCallbacksLaws Sequential A CB U.
Proof.
  assert (∀ {R} (m : M W R) w, good Sequential w →
    wp m (λ _, goes_on Interleaved w) w → wp m (λ _, goes_on Sequential w) w) as Hseq.
  { intros R m w [Hw _] Hm. eapply wp_mono; [exact Hm|]. intros r w'. by apply goes_on_sequential. }
  assert (∀ w, good Sequential w → good Interleaved w) as Hgood
    by (intros w [Hw Hr]; split; [by apply world_inv_weaken|done]).
  split; intros; apply Hseq; auto using run_on_data_ok, run_on_connected_ok, run_on_disconnected_ok.
Qed.
#[local] Existing Instance sequential_laws.

(** Threads that come and go: none ends, and only the server at [p] gets one. *)
Definition same_threads p w w' : Prop :=
  (∀ q, threaded w q → threaded w' q) ∧ (∀ q, q ≠ p → threaded w' q → threaded w q).

Lemma modest_threads p w w' : modest w w' → same_threads p w w'.
Proof. intros Hm. by split; intros; apply (threaded_modest_iff w w'). Qed.

Lemma confined_threads {R} p (m : M W R) w :
  confined p m → wp m (λ _ w', threaded w p → threaded w' p) w → wp m (λ _, same_threads p w) w.
Proof.
  intros Hm Hp. unfold wp in *. destruct (m w) as [r w'|] eqn:Hex; [|done].
  assert (∀ q, q ≠ p → threaded w' q ↔ threaded w q) as Hq
    by (intros q Hq; unfold threaded; by rewrite (Hm w r w' Hex q Hq)).
  split; intros q; [|by intros Hne; apply Hq].
  destruct (decide (q = p)) as [->|Hne]; [done|by apply Hq].
Qed.

(** A server with a thread is running, so it is not started again. *)
Lemma start_threaded p pt w s :
  world_ok w → w_objs w !! p = Some s → threaded w p → start_manual p pt w = Done false w.
Proof.
  intros Hw Hs (s' & Hs' & Ht). assert (s' = s) as -> by congruence.
  pose proof (ok_joined _ _ Hw p s eq_refl Hs Ht) as Hr.
  rewrite (start_manual_Done p pt w s Hs (ok_interface _ _ (world_ok_lookup _ _ _ _ Hw Hs))).
  unfold start_manual_result. by rewrite Hr.
Qed.

Lemma exec_op_threads p op w :
  app_ok w → op_allowed p op w → is_round op = false → (waits op = true → ¬ threaded w p) →
  wp (exec_op p op) (λ _, same_threads p w) w.
Proof.
  intros Happ Hop Hround Hwait. pose proof Happ as [Hw Hth].
  pose proof (world_inv_weaken Interleaved w Hw) as Hwi.
  assert (∀ {R} (m : M W R), wp m (keeps Interleaved w) w → wp m (λ _, same_threads p w) w) as Hkeep.
  { intros R m Hm. eapply wp_mono; [exact Hm|]. intros r w' Hk. by apply modest_threads, Hk. }
  assert (∀ m : M W unit, wp m (λ _, goes_on Interleaved w) w → wp m (λ _, same_threads p w) w) as Hgo.
  { intros m Hm. apply Hkeep. eapply wp_mono; [exact Hm|]. by intros r w' []. }
  assert (∀ {R} (m : M W R), wp m (λ _ _, True) w → confined p m → ¬ threaded w p →
    wp m (λ _, same_threads p w) w) as Hnone.
  { intros R m Hm Hc Hn. apply confined_threads; [done|]. eapply wp_mono; [exact Hm|]. done. }
  assert (wp (exec_op p op) (λ _ _, True) w) as Hsafe
    by (eapply wp_mono; [by apply exec_op_ok|done]).
  destruct op; simpl in Hop, Hsafe |- *; try done.
  - apply Hnone; [done|apply construct_confined|]. intros (s & Hs & _). destruct Hop. congruence.
  - apply Hnone; [done|apply destruct_confined|by apply Hwait].
  - destruct Hop as [s Hs]. apply confined_threads; [confined|].
    destruct (decide (threaded w p)) as [Hthr|]; [|by eapply wp_mono; [exact Hsafe|]].
    apply wp_discard. eapply wp_of_Done; [by eapply start_threaded|done].
  - destruct Hop as [s Hs]. apply confined_threads; [confined|].
    destruct (decide (threaded w p)) as [Hthr|]; [|by eapply wp_mono; [exact Hsafe|]].
    apply wp_discard, wp_bind. eapply wp_of_Done; [by eapply start_threaded|by apply wp_ret].
  - apply Hnone; [done|apply stop_confined|by apply Hwait].
  - destruct Hop as [(s & Hs & Hr) Hrd]. by apply Hgo; eapply poll_ok, running_active.
  - by apply Hgo, status_callback_ok.
  - destruct Hop as [s Hs]. apply wp_discard, Hkeep. eapply send_ok; [done..|lia].
  - destruct Hop as [s Hs]. apply wp_discard, Hkeep. eapply broadcast_ok; [done..|lia].
  - destruct Hop as [s Hs]. by apply Hkeep; eapply disconnect_ok.
  - apply Hkeep, update_ok; [done..| |by intros []]. intros tr [] []. by split.
  - apply Hkeep, update_ok; [done..| |by intros []]. intros tr [] []. by split.
  - apply Hkeep, update_ok; [done..| |by intros []]. intros tr [] []. by split.
Qed.

Lemma lookup_spawned p t q :
  tw_net (spawned p t) !! q = Some AtTop ∧ tw_net t !! q = None ∧ q = p ∧ threaded (tw_world t) p ∨
  tw_net (spawned p t) !! q = tw_net t !! q ∧ (q = p → is_Some (tw_net t !! p) ∨ ¬ threaded (tw_world t) p).
Proof.
  unfold spawned. destruct (tw_net t !! p) as [pc|] eqn:Hp; [right; split; [done|]; intros _; left; by eexists|].
  case_decide as Ht; [|right; by split; [|intros _; right]]. unfold set_net. simpl.
  destruct (decide (q = p)) as [->|Hne].
  - left. by rewrite lookup_insert_eq.
  - right. by rewrite lookup_insert_ne.
Qed.

Lemma owed_spawned p t : owed (tw_net (spawned p t)) ≡ₚ owed (tw_net t).
Proof.
  unfold spawned. destruct (tw_net t !! p) as [pc|] eqn:Hp; [done|].
  case_decide; [|done]. unfold set_net. simpl. rewrite owed_insert. simpl.
  by rewrite (delete_id (tw_net t) p Hp).
Qed.

(** Whatever the application does in one piece, to the server at [p]. *)
Lemma atomic_step_ok p (m : M W unit) t :
  thread_ok t → tw_app t = Free →
  wp m (λ _ w', app_ok w' ∧ progress [] [] (tw_world t) w' ∧ same_threads p (tw_world t) w') (tw_world t) →
  wp (on_world m ;; modify (spawned p)) (λ _ t', thread_ok t' ∧ tw_app t' = Free ∧
    m (tw_world t) = Done tt (tw_world t') ∧
    rtc session_step (sessions (tw_world t)) (sessions (tw_world t'))) t.
Proof.
  intros Hok Hfree Hwp.
  apply wp_Done in Hwp as ([] & w' & Hex & [Hw' Hth'] & [Hsess Hled] & Hmore & Hless).
  apply wp_bind. unfold on_world, wp. rewrite Hex. unfold modify.
  set (t1 := TWorld w' (tw_net t) (tw_app t)).
  assert (tw_world (spawned p t1) = w' ∧ tw_app (spawned p t1) = tw_app t) as [Hworld Happ'].
  { unfold spawned. destruct (tw_net t1 !! p); [done|]. by case_decide. }
  split; [|by rewrite Hworld, Happ'].
  assert (∀ q pc, tw_net (spawned p t1) !! q = Some pc → tw_net t !! q = Some pc ∨ pc = AtTop) as Hold.
  { intros q pc Hq. destruct (lookup_spawned p t1 q) as [(Hq' & _)|[Hq' _]]; rewrite Hq' in Hq;
      [right; congruence|by left]. }
  split; rewrite ?Hworld, ?Happ'; try done.
  - by apply world_inv_weaken.
  - intros q. destruct (lookup_spawned p t1 q) as [(-> & _ & -> & Ht)|[-> Hnew]]; [by split|].
    cbn [tw_net t1 tw_world] in Hnew |- *. rewrite (to_net _ Hok q).
    split; [apply Hmore|]. intros Ht'. destruct (decide (q = p)) as [->|Hne]; [|by apply Hless].
    destruct (Hnew eq_refl) as [Hp|Hp]; [by apply (to_net _ Hok p)|by destruct Hp].
  - intros q pc Hq. destruct (Hold q pc Hq) as [?| ->]; [by apply (to_pcs _ Hok q)|done].
  - intros q s Hs Ht. left. by apply (ok_joined _ _ Hw' q s).
  - intros q s Hs Hq. destruct (Hold q _ Hq) as [Hq'|]; [|done]. by destruct (free_position t q _ Hok Hfree Hq').
  - intros q d Hd. congruence.
  - rewrite owed_spawned. specialize (Hled (owed (tw_net t))). by apply Hled, (to_ledger _ Hok).
Qed.

Lemma app_op_ok p op t :
  thread_ok t → thread_allowed (TApp p op) t →
  wp (exec_thread (TApp p op)) (λ _ t', thread_ok t' ∧ tw_app t' = Free ∧
    rtc session_step (sessions (tw_world t)) (sessions (tw_world t'))) t.
Proof.
  intros Hok (Hfree & Hop & Hround & Hwait). pose proof (free_ok t Hok Hfree) as Happ.
  eapply wp_mono; [apply (atomic_step_ok p (exec_op p op)); [done..|]|by intros [] t' (? & ? & _ & ?)].
  eapply wp_mono; [apply (wp_and _ _ _ _ (exec_op_ok p op (tw_world t) Happ Hop)
    (exec_op_threads p op (tw_world t) Happ Hop Hround Hwait))|].
  by intros [] w' [[Hw' Hp] Hthr].
Qed.

(** ** Stopping *)

(** A server told to stop keeps its listen socket, its group and its clients. *)
Lemma stopping_server_ok tr s : m_network_thread s = true → server_ok tr s → server_ok tr (set_running false s).
Proof.
  intros Ht []. unfold clients_ok in *. destruct s; unfold active in *; simpl in *; subst.
  rewrite orb_true_r in *. by split.
Qed.

Lemma stop_begin_ok p d t :
  thread_ok t → thread_allowed (TStop p d) t →
  wp (exec_thread (TStop p d)) (λ _ t', thread_ok t' ∧ tw_app t' = Joining p d ∧
    w_user (tw_world t') = w_user (tw_world t) ∧ dom (w_objs (tw_world t')) = dom (w_objs (tw_world t)) ∧
    rtc session_step (sessions (tw_world t)) (sessions (tw_world t'))) t.
Proof.
  intros Hok (Hfree & s & Hs & Ht). pose proof (free_ok t Hok Hfree) as [Hw _].
  destruct t as [w net app]. simpl in *. subst app.
  assert (active s = true) as Ha by (unfold active; rewrite Ht; apply orb_true_r).
  set (s' := set_running false s). set (w' := with_obj p s' (with_instance None w)).
  assert (stop_begin p w = Done tt w') as Hex.
  { unfold stop_begin. erewrite bind_Done; [|done]. by apply update_Done. }
  cbn [exec_thread]. apply wp_bind. unfold on_world, wp. cbn [tw_world]. rewrite Hex. cbn.
  assert (active s' = active s ∧ m_network_thread s' = true ∧ session_of s' = session_of s ∧
    m_poll_group s' = m_poll_group s ∧ m_is_running s' = false) as (Ha' & Ht' & Hsess & Hgrp & Hr').
  { unfold session_of, active. destruct s; simpl in *; subst. by rewrite orb_true_r. }
  assert (∀ q, threaded w' q ↔ threaded w q) as Hthr.
  { intros q. unfold threaded. simpl. destruct (decide (p = q)) as [<-|Hne].
    - rewrite lookup_insert_eq. split; intros _; [by exists s|by exists s'].
    - by rewrite lookup_insert_ne. }
  unfold set_app. split; [|split; [done|]].
  - pose proof (to_inv _ Hok) as Hinv. simpl in Hinv. split; simpl.
    + apply (world_inv_replace _ w _ p s); [done|done| |by left| |done].
      * apply stopping_server_ok; [done|]. by apply (world_ok_lookup _ _ _ _ Hinv Hs).
      * intros _ q t0 Hne Hq Haq Heq. apply Hne. symmetry.
        eapply (ok_groups _ _ Hinv p q s t0); congruence.
    + by apply Hok.
    + intros q. rewrite Hthr. by apply (to_net _ Hok q).
    + by apply Hok.
    + intros q t0 [[<- <-]|[Hne Hq]]%lookup_insert_Some Htq; [right; by eexists|left].
      by destruct (to_running _ Hok q t0 Hq Htq) as [?|[d' [=]]].
    + intros q t0 _ Hq. by destruct (free_position _ q _ Hok eq_refl Hq).
    + intros q d' [= <- <-]. split; [done|]. exists s'. by rewrite lookup_insert_eq.
    + by apply Hok.
  - assert (sessions w' = sessions (with_instance None w)) as Hw' by by apply (sessions_same p s).
    simpl. split_and!; [done| |rewrite Hw'; apply rtc_once, SsSilence].
    rewrite dom_insert_L. apply subseteq_union_1_L, singleton_subseteq_l. by apply elem_of_dom.
Qed.

Lemma stop_end_Done p w s :
  w_objs w !! p = Some s → m_interface s = true → m_client_mutex s = false →
  m_is_running s = false → s_instance w = None → w_thread w = None →
  stop_end p w = Done tt (with_obj p (stopped s) (with_instance None (with_calls (stop_calls s) w))).
Proof.
  intros Hs Hi Hm Hr Hinst Hth. apply wp_eq. unfold stop_end, join_network_thread. wp_steps.
  rewrite decide_False by congruence. wp_steps.
  eapply wp_of_Done; [apply close_all_Done; [lookup_obj|by destruct s..]|].
  autorewrite with world. split; [done|].
  assert (with_instance None (with_calls (stop_calls s) w) = with_calls (stop_calls s) w) as ->
    by (destruct w; simpl in *; by subst).
  replace (stop_calls (set_thread false s)) with (stop_calls (A:=A) s) by by destruct s.
  f_equal. destruct s; simpl in *; by subst.
Qed.

(** The end of a [stop], and of the destructor if it is one, once the thread
    has returned. *)
Lemma finish_ok p (destroying : bool) w s :
  world_inv Interleaved w → w_thread w = None → s_instance w = None →
  w_objs w !! p = Some s → m_network_thread s = true → m_is_running s = false →
  (∀ q s', q ≠ p → w_objs w !! q = Some s' → m_network_thread s' = true → m_is_running s' = true) →
  wp (stop_end p ;; (if destroying then destroy_members p else skip)) (λ _ v,
    world_ok v ∧ w_thread v = None ∧ s_instance v = None ∧
    (∀ q, q ≠ p → w_objs v !! q = w_objs w !! q) ∧
    w_objs v !! p = (if destroying then None else Some (stopped s)) ∧ progress [] [] w v ∧
    w_user v = w_user w) w.
Proof.
  intros Hw Hth Hi Hs Ht Hr Hothers. pose proof (world_ok_lookup _ _ _ _ Hw Hs) as Hsok.
  assert (active s = true) as Ha by (unfold active; rewrite Ht; apply orb_true_r).
  set (w' := with_obj p (stopped s) (with_instance None (with_calls (stop_calls s) w))).
  assert (keeps_owing Sequential [] [] w w') as [Hw' _ Hpr _] by by apply (stopped_keeps Interleaved).
  apply wp_bind. eapply wp_of_Done; [by apply stop_end_Done; [|apply Hsok..| | |]|]. fold w'.
  assert (w_objs w' !! p = Some (stopped s)) as Hs' by apply lookup_with_obj.
  assert (∀ q, q ≠ p → w_objs w' !! q = w_objs w !! q) as Hq
    by (intros q Hne; unfold w'; by rewrite lookup_with_obj_ne).
  destruct destroying; [|by apply wp_skip].
  destruct (delete_ok p w' (stopped s)) as (Hv & Hpr' & _); [done|done|by destruct s|done|].
  unfold destroy_members. apply wp_bind. eapply wp_deref; [exact Hs'|].
  replace (m_network_thread (stopped s)) with false by by destruct s. apply wp_modify.
  split_and!; [done|done|done| |by apply lookup_delete_eq|by eapply progress_trans|done].
  intros q Hne. simpl. rewrite lookup_delete_ne by done. by apply Hq.
Qed.

(** What the application finds when the [join] returns. *)
Lemma joined_ok t p d :
  thread_ok t → tw_app t = Joining p d → tw_net t !! p = Some Returned →
  wp (exec_thread TJoined) (λ _ t', thread_ok t' ∧ tw_app t' = Free ∧ tw_net t' = delete p (tw_net t) ∧
    (∀ q, q ≠ p → w_objs (tw_world t') !! q = w_objs (tw_world t) !! q) ∧
    (∃ s, w_objs (tw_world t) !! p = Some s ∧
       w_objs (tw_world t') !! p = (if d then None else Some (stopped s))) ∧
    w_user (tw_world t') = w_user (tw_world t) ∧
    rtc session_step (sessions (tw_world t)) (sessions (tw_world t'))) t.
Proof.
  intros Hok Happ Hret. destruct (to_joining _ Hok p d Happ) as (Hi & s & Hs & Ht & Hr).
  pose proof (finish_ok p d (tw_world t) s (to_inv _ Hok) (to_thread _ Hok) Hi Hs Ht Hr) as Hwp.
  apply wp_Done in Hwp as ([] & v & Hex & Hv & Hthv & Hiv & Hothers & Hp & [Hsessv Hledv] & Huser).
  2: { intros q t0 Hne Hq Htq. destruct (to_running _ Hok q t0 Hq Htq) as [?|[d' Hd]]; [done|congruence]. }
  destruct t as [w net app]. simpl in *. subst app.
  apply wp_bind, wp_gets. cbn [id tw_app]. apply wp_bind.
  unfold on_world, wp. cbn [tw_world]. rewrite Hex. cbn.
  split; [|split_and!; [done|done|done|by exists s|done|done]].
  assert (∀ q, q ≠ p → threaded v q ↔ threaded w q) as Hthr
    by (intros q Hne; unfold threaded; by rewrite Hothers).
  unfold set_app, set_net. split; simpl; [by apply world_inv_weaken|done|..].
  - intros q. destruct (decide (q = p)) as [->|Hne].
    + rewrite lookup_delete_eq. split; [by intros [? ?]|]. intros (s0 & Hs0 & Ht0).
      rewrite Hp in Hs0. destruct d; [done|]. injection Hs0 as <-. by destruct s.
    + rewrite lookup_delete_ne, Hthr by done. by apply (to_net _ Hok q).
  - apply map_Forall_delete, Hok.
  - intros q t0 Hq Htq. left. by apply (ok_joined _ _ Hv q t0).
  - intros q t0 Hq [Hne Hqr]%lookup_delete_Some. rewrite Hothers in Hq by done.
    by apply (to_returned _ Hok q t0).
  - done.
  - specialize (Hledv (owed (delete p net))). apply Hledv.
    pose proof (to_ledger _ Hok) as Hl. simpl in Hl. by rewrite (owed_delete net p _ Hret) in Hl.
Qed.

(** ** Every step *)

Lemma thread_op_ok op t :
  thread_ok t → thread_allowed op t →
  wp (exec_thread op) (λ _ t', thread_ok t' ∧
    rtc session_step (sessions (tw_world t)) (sessions (tw_world t'))) t.
Proof.
  intros Hok Hop. destruct op as [p|p op|p d|].
  - eapply wp_mono; [by apply network_step_ok|]. by intros [] t' (Hok' & _ & _ & [Hs _] & _).
  - eapply wp_mono; [by apply app_op_ok|]. by intros [] t' (Hok' & _ & Hs).
  - eapply wp_mono; [by apply stop_begin_ok|]. by intros [] t' (Hok' & _ & _ & _ & Hs).
  - destruct Hop as (p & d & Happ & Hret). eapply wp_mono; [by eapply joined_ok|].
    by intros [] t' (Hok' & _ & _ & _ & _ & _ & Hs).
Qed.

Lemma thread_initial_ok (u : U) : thread_ok (thread_initial u).
Proof.
  split; simpl; try done.
  - intros p. split; [by intros [? ?]|]. by intros (s & Hs & _).
  - rewrite owed_nothing by done. apply ledger_nil.
Qed.

Lemma thread_reachable_ok (u : U) t : rtc thread_step (thread_initial u) t → thread_ok t.
Proof.
  intros Hr. pose proof (thread_initial_ok u) as Hok. revert Hok.
  induction Hr as [|t1 t2 t3 (op & Hop & Hex) _ IH]; [done|]. intros Hok. apply IH.
  pose proof (thread_op_ok op t1 Hok Hop) as Hwp. unfold wp in Hwp. rewrite Hex in Hwp. by destruct Hwp.
Qed.

(** C1: however the network threads of any number of servers interleave with
    each other and with the application, message by message, also while the
    application waits in a [stop], as long as servers are created once the library
    is initialised, used while they exist and polled by hand only while they run,
    and callbacks keep their contract, no step faults: no null or dangling pointer,
    no deadlock, no unwritten slot, no joinable thread lost; while no [stop] is
    waiting all servers are as they should be, and the sessions only go steps
    of their machine. *)
Theorem threads_safe (u : U) t op :
  rtc thread_step (thread_initial u) t → thread_allowed op t →
  ∃ t', exec_thread op t = Done tt t' ∧ world_inv Interleaved (tw_world t') ∧
    (tw_app t' = Free → world_ok (tw_world t')) ∧
    (∀ p, is_Some (tw_net t' !! p) ↔ threaded (tw_world t') p) ∧
    rtc session_step (sessions (tw_world t)) (sessions (tw_world t')).
Proof.
  intros Hr Hop. pose proof (thread_op_ok op t (thread_reachable_ok u t Hr) Hop) as Hwp.
  apply wp_Done in Hwp as ([] & t' & Hex & Hok & Hs). exists t'.
  split_and!; [done|apply Hok|by intros Hfree; apply free_ok|apply Hok|done].
Qed.

(** C16: at every moment of every interleaving, the messages handed over are
    those released and those the network threads hold in their loops; when no
    thread is in its message loop, every message has been released exactly
    once. *)
Theorem threads_leak_nothing (u : U) t :
  rtc thread_step (thread_initial u) t →
  received (w_trace (tw_world t)) ≡ₚ released (w_trace (tw_world t)) ++ owed (tw_net t) ∧
  (map_Forall (λ _ pc, pc_owed pc = []) (tw_net t) →
   received (w_trace (tw_world t)) ≡ₚ released (w_trace (tw_world t))).
Proof.
  intros Hr. pose proof (to_ledger _ (thread_reachable_ok u t Hr)) as Hl. unfold ledger in Hl.
  split; [done|]. intros Hnone. by rewrite (owed_nothing _ Hnone), app_nil_r in Hl.
Qed.

(** ** One thread left alone *)

Lemma net_run_step p pc w pc' w' net app :
  net_run p (pc, w) (pc', w') → net !! p = Some pc →
  network_step p (TWorld w net app) (TWorld w' (<[p := pc']> net) app).
Proof.
  intros (Hret & Hrd & Hstep) Hp. split; [split; [done|by exists pc]|].
  cbn [exec_thread]. erewrite bind_Done; [|done]. cbn [id tw_net]. rewrite Hp.
  unfold mbind, M_bind, on_world. cbn [tw_world]. by rewrite Hstep.
Qed.

Lemma net_runs p n x y net app :
  nsteps (net_run p) n x y → net !! p = Some x.1 →
  nsteps (network_step p) n (TWorld x.2 net app) (TWorld y.2 (<[p := y.1]> net) app).
Proof.
  intros Hn. revert net. induction Hn as [[pc w]|n [pc w] [pc1 w1] [pc2 w2] Hstep _ IH]; intros net Hp.
  - simpl in *. rewrite insert_id by done. constructor.
  - eapply nsteps_l; [by eapply net_run_step|].
    specialize (IH (<[p := pc1]> net) (lookup_insert_eq _ _ _)). by rewrite insert_insert_eq in IH.
Qed.

Lemma network_step_det p t t1 t2 : network_step p t t1 → network_step p t t2 → t1 = t2.
Proof. intros [_ H1'] [_ H2']. congruence. Qed.

Lemma nsteps_det p n t t1 t2 : nsteps (network_step p) n t t1 → nsteps (network_step p) n t t2 → t1 = t2.
Proof.
  intros Hn. revert t2. induction Hn as [|n x y z Hxy _ IH]; intros t2 Hn2; inversion Hn2; subst; [done|].
  apply IH. match goal with Hs : network_step p x ?y' |- _ => by rewrite (network_step_det p x y y' Hxy Hs) end.
Qed.

(** The round of a thread at the top of its loop. *)
Lemma round_runs p w s w' :
  good Interleaved w → w_objs w !! p = Some s → m_network_thread s = true →
  network_iteration p w = Done tt w' →
  rtc (net_run p) (AtTop, w) (if m_is_running s then AtTop else Returned, w').
Proof.
  intros Hgood Hs Ht Hround. unfold network_iteration in Hround.
  rewrite (on_thread_ext p _ (net_step p AtTop ≫= net_rest p) w (round_step p)), (on_thread_step p AtTop w s) in Hround by done.
  pose proof (thread_net_step_ok p AtTop w s Hgood Hs Ht I ltac:(done)) as Hwp.
  apply wp_Done in Hwp as (pc1 & w1 & Hstep & [Hk Hu] & Hpc1 & Hnext).
  rewrite (bind_Done _ _ _ _ _ Hstep) in Hround.
  assert (net_run p (AtTop, w) (pc1, w1)) as Hrun by (split; [done|split; [apply Hgood|done]]).
  eapply rtc_l; [exact Hrun|]. destruct (m_is_running s); simpl in Hnext.
  - destruct Hnext as (count & slots & ->). apply rest_runs; [|done..]. split.
    + by eapply goes_on_good; [|split].
    + split; [|done]. destruct (threaded_modest w w1 p s (kp_modest _ _ _ _ _ Hk eq_refl) Hs Ht)
        as (s1 & Hs1 & Ht1 & _). by exists s1.
  - subst pc1. injection Hround as <-. rewrite with_thread_twice, with_thread_id. apply rtc_refl.
Qed.

(** C17: a network thread that nobody interrupts does, step by step, exactly
    what the atomic round of [network_loop] does: from the top of its loop, after
    some number of steps of its own the state is that of the round and no other,
    and the thread is at the top again, or has returned if the server was told
    to stop. *)
Theorem uninterrupted_round (u : U) t p s :
  rtc thread_step (thread_initial u) t → ready (tw_world t) →
  w_objs (tw_world t) !! p = Some s → tw_net t !! p = Some AtTop →
  ∃ n w', network_iteration p (tw_world t) = Done tt w' ∧
    ∀ t', nsteps (network_step p) n t t' ↔
      t' = TWorld w' (<[p := if m_is_running s then AtTop else Returned]> (tw_net t)) (tw_app t).
Proof.
  intros Hr Hrd Hs Htop. pose proof (thread_reachable_ok u t Hr) as Hok.
  destruct (proj1 (to_net _ Hok p) ltac:(by eexists)) as (s' & Hs' & Ht).
  assert (s' = s) as -> by congruence. pose proof (conj (to_inv _ Hok) Hrd) as Hgood.
  assert (∃ w', network_iteration p (tw_world t) = Done tt w') as [w' Hround].
  { unfold network_iteration.
    rewrite (on_thread_ext p _ (net_step p AtTop ≫= net_rest p) _ (round_step p)), (on_thread_step p AtTop _ s) by done.
    pose proof (thread_net_step_ok p AtTop _ s Hgood Hs Ht I ltac:(done)) as Hwp.
    apply wp_Done in Hwp as (pc1 & w1 & Hstep & [Hk Hu] & Hpc1 & _).
    rewrite (bind_Done _ _ _ _ _ Hstep). apply rest_ends. split; [by eapply goes_on_good; [|split]|].
    split; [|done]. destruct (threaded_modest _ w1 p s (kp_modest _ _ _ _ _ Hk eq_refl) Hs Ht)
      as (s1 & Hs1 & Ht1 & _). by exists s1. }
  pose proof (round_runs p _ s w' Hgood Hs Ht Hround) as Hruns.
  apply rtc_nsteps in Hruns as [n Hn]. exists n, w'. split; [done|].
  pose proof (net_runs p n _ _ (tw_net t) (tw_app t) Hn Htop) as Hsteps. simpl in Hsteps.
  replace (TWorld (tw_world t) (tw_net t) (tw_app t)) with t in Hsteps by by destruct t.
  intros t'. split; [|by intros ->]. intros Ht'. by eapply nsteps_det.
Qed.
(** ** A [stop] returns *)

Lemma net_run_good p x y : net_good p x.1 x.2 → net_run p x y → net_good p y.1 y.2 ∧ modest x.2 y.2.
Proof.
  destruct x as [pc w], y as [pc' w']. simpl. intros (Hgood & (s & Hs & Ht) & Hpc) (Hret & _ & Hstep).
  pose proof (thread_net_step_ok p pc w s Hgood Hs Ht Hpc Hret) as Hwp. unfold wp in Hwp.
  rewrite Hstep in Hwp. destruct Hwp as [Hgo [Hpc' _]].
  pose proof (kp_modest _ _ _ _ _ (proj1 Hgo) eq_refl) as Hm. split; [|done].
  split; [by eapply goes_on_good|]. split; [|done]. apply (threaded_modest_iff w w'); [done|by exists s].
Qed.

Lemma net_runs_good p x y : net_good p x.1 x.2 → rtc (net_run p) x y → net_good p y.1 y.2 ∧ modest x.2 y.2.
Proof.
  intros Hgood Hr. revert Hgood. induction Hr as [x|x y z Hxy _ IH]; intros Hgood; [by split|].
  destruct (net_run_good p x y Hgood Hxy) as [Hgood' [Hi Hc]].
  destruct (IH Hgood') as [Hgood'' [Hi' Hc']]. split; [done|]. split; congruence.
Qed.

(** Told to stop, a thread returns. *)
Lemma stopping_runs p pc w s :
  net_good p pc w → w_objs w !! p = Some s → m_is_running s = false →
  ∃ w', rtc (net_run p) (pc, w) (Returned, w').
Proof.
  intros Hgood Hs Hr.
  assert (∀ v, net_good p AtTop v → modest w v → rtc (net_run p) (AtTop, v) (Returned, v)) as Htop.
  { intros v (Hgv & (s' & Hs' & Ht') & _) Hm. destruct (modest_lookup w v p s Hm Hs) as (s2 & Hs2 & Hcore).
    assert (s2 = s') as -> by congruence. assert (m_is_running s' = false) as Hr'
      by (injection Hcore; congruence).
    pose proof (round_runs p v s' v Hgv Hs' Ht') as Hround. rewrite Hr' in Hround. apply Hround.
    unfold network_iteration, on_thread, is_running, gets, modify, mbind, M_bind.
    rewrite (deref_Done p s' (with_thread (Some p) v) Hs'). cbn. rewrite Hr'. cbn.
    by rewrite with_thread_twice, with_thread_id. }
  assert (pc = Returned ∨ pc = AtTop ∨ (pc ≠ AtTop ∧ pc ≠ Returned)) as [->|[->|[Hat Hret]]]
    by (destruct pc; auto).
  { exists w. apply rtc_refl. }
  { exists w. by apply Htop. }
  destruct (rest_ends p pc w Hgood) as [w' Hrest].
  pose proof (rest_runs p pc w w' Hgood Hat Hret Hrest) as Hruns.
  destruct (net_runs_good p (pc, w) (AtTop, w') Hgood Hruns) as [Hgood' Hm].
  exists w'. etrans; [exact Hruns|]. by apply Htop.
Qed.

(** C10: a [stop] returns: from every moment at which the application waits in
    it, the network thread it waits for, left to run, returns after some number
    of steps, always the same; the [join] then returns, and leaves the server
    stopped, or gone if it was its destructor, without a thread, the other
    servers untouched, and everything as it should be. *)
Theorem stop_returns (u : U) t p d :
  rtc thread_step (thread_initial u) t → tw_app t = Joining p d → ready (tw_world t) →
  ∃ n t1 t2,
    (∀ t', nsteps (network_step p) n t t' ↔ t' = t1) ∧
    exec_thread TJoined t1 = Done tt t2 ∧ tw_app t2 = Free ∧ tw_net t2 !! p = None ∧
    world_ok (tw_world t2) ∧
    (∃ s, w_objs (tw_world t1) !! p = Some s ∧
       w_objs (tw_world t2) !! p = if d then None else Some (stopped s)) ∧
    (∀ q, q ≠ p → w_objs (tw_world t2) !! q = w_objs (tw_world t1) !! q).
Proof.
  intros Hr Happ Hrd. pose proof (thread_reachable_ok u t Hr) as Hok.
  destruct (to_joining _ Hok p d Happ) as (Hi & s & Hs & Ht & Hrun).
  destruct (proj2 (to_net _ Hok p) ltac:(by exists s)) as [pc Hpc].
  assert (net_good p pc (tw_world t)) as Hgood.
  { split; [by split; [apply Hok|]|]. split; [by exists s|by apply (to_pcs _ Hok p)]. }
  destruct (stopping_runs p pc _ s Hgood Hs Hrun) as [w' Hruns]. apply rtc_nsteps in Hruns as [n Hn].
  pose proof (net_runs p n _ _ (tw_net t) (tw_app t) Hn Hpc) as Hsteps. simpl in Hsteps.
  replace (TWorld (tw_world t) (tw_net t) (tw_app t)) with t in Hsteps by by destruct t.
  set (t1 := TWorld w' _ _) in Hsteps.
  assert (rtc thread_step (thread_initial u) t1) as Hr1.
  { etrans; [exact Hr|]. apply (rtc_subrel (network_step p)); [|apply rtc_nsteps; by exists n].
    intros x y [Hx Hy]. by exists (TNetwork p). }
  pose proof (joined_ok t1 p d (thread_reachable_ok u t1 Hr1) Happ (lookup_insert_eq _ _ _)) as Hwp.
  apply wp_Done in Hwp as ([] & t2 & Hex & Hok2 & Hfree & Hnet & Hother & Hp & _).
  exists n, t1, t2. split_and!; [|done|done| |by apply free_ok|done|done].
  - intros t'. split; [|by intros ->]. intros Ht'. by eapply nsteps_det.
  - rewrite Hnet. apply lookup_delete_eq.
Qed.
End system.

(** ** A simulated run *)

Section simulation.
Context (ss : SteamSockets sim_addr).
#[local] Existing Instance log_callbacks.
Local Abbreviation TW := (tworld sim_addr unit (list server_event)).
Implicit Types (t : TW).

Definition sim_threads (ops : list (thread_op unit)) : TW :=
  foldl (λ t op, match exec_thread op t with Done _ t' => t' | Fault _ t' => t' end)
    (thread_initial []) ops.

Definition thread_allowed_b (op : thread_op unit) t : bool :=
  match op, tw_app t with
  | TNetwork p, _ => match tw_net t !! p with Some Returned | None => false | Some _ => true end
  | TApp p op, Free =>
      op_allowed_b ss p op (tw_world t) && negb (is_round op) &&
      (negb (waits op) || negb (bool_decide (threaded (tw_world t) p)))
  | TStop p _, Free => bool_decide (threaded (tw_world t) p)
  | TJoined, Joining p _ => match tw_net t !! p with Some Returned => true | _ => false end
  | _, _ => false
  end.

Lemma thread_allowed_b_sound op t : thread_allowed_b op t = true → thread_allowed op t.
Proof.
  destruct op as [p|p op|p d|]; simpl.
  - destruct (tw_net t !! p) as [[]|] eqn:Hp; intros Hok; try done; (split; [done|]); by eexists.
  - destruct (tw_app t); [|done]. rewrite !andb_true_iff, orb_true_iff, !negb_true_iff, bool_decide_eq_false.
    intros [[Hop Hr] Hw]. split_and!; [done|by apply (op_allowed_b_sound ss)|done|].
    intros Hwait. destruct Hw; [congruence|done].
  - destruct (tw_app t); [|done]. by rewrite bool_decide_eq_true.
  - destruct (tw_app t) as [|p d]; [done|]. destruct (tw_net t !! p) as [[]|] eqn:Hp; try done.
    intros _. by exists p, d.
Qed.

Fixpoint threads_run_ok t (ops : list (thread_op unit)) : bool :=
  match ops with
  | [] => true
  | op :: ops =>
      thread_allowed_b op t &&
      match exec_thread op t with Done _ t' => threads_run_ok t' ops | Fault _ _ => false end
  end.

Lemma sim_threads_reachable ops :
  threads_run_ok (thread_initial []) ops = true → rtc thread_step (thread_initial []) (sim_threads ops).
Proof.
  unfold sim_threads. generalize (thread_initial ([] : list server_event) : TW).
  induction ops as [|op ops IH]; intros t Hok; [apply rtc_refl|]. simpl in Hok |- *.
  apply andb_true_iff in Hok as [Hop Hok]. apply thread_allowed_b_sound in Hop.
  destruct (exec_thread op t) as [[] t'|] eqn:Hex; [|done].
  eapply rtc_l; [by exists op|]. by apply IH.
Qed.
End simulation.

(** Client 5 connects and a poll brings two messages; the application stops the
    server while the second is still to be handled. *)
Definition sim_before_round : list (thread_op unit) :=
  [TApp 1 OpConstruct; TApp 1 (OpStartAsync 80); TApp 1 (OpSetOnData (Some tt));
   TApp 1 (OpStatusChanged (StatusChanged 5 StateConnecting StateNone))].
Definition sim_mid_stop : list (thread_op unit) :=
  sim_before_round ++ [TNetwork 1; TNetwork 1; TStop 1 false].

Lemma sim_threads_laws : SteamLaws sim_addr (H:=sim_steam sim_inbox []).
Proof. apply sim_laws. by repeat constructor. Qed.

Lemma threads_safe_witness :
  let ss := sim_steam sim_inbox [] in
  let t := sim_threads ss sim_mid_stop in
  w_user (tw_world t) = [EvData (new_client 5 (5 : sim_addr)) [Byte.x01] 1] ∧
  tw_app t = Joining 1 false ∧
  ∃ t', exec_thread (H1:=log_callbacks) (TNetwork 1) t = Done tt t' ∧ world_inv Interleaved (tw_world t').
Proof.
  intros ss t. pose proof sim_threads_laws as Hlaws. split; [by vm_compute|]. split; [by vm_compute|].
  destruct (threads_safe (H1:=log_callbacks) (ServerCallbacksLaws0:=log_callbacks_laws _)
    [] t (TNetwork 1)) as (t' & Hex & Hinv & _).
  - apply sim_threads_reachable. by vm_compute.
  - apply thread_allowed_b_sound. by vm_compute.
  - exists t'. split; [exact Hex|exact Hinv].
Defined.

Lemma threads_leak_nothing_witness :
  let ss := sim_steam sim_inbox [] in
  let t := sim_threads ss sim_mid_stop in
  received (w_trace (tw_world t)) ≡ₚ released (w_trace (tw_world t)) ++ owed (tw_net t) ∧
  length (owed (tw_net t)) = 1%nat.
Proof.
  intros ss t. pose proof sim_threads_laws as Hlaws. split; [|by vm_compute].
  apply (threads_leak_nothing (H1:=log_callbacks) (ServerCallbacksLaws0:=log_callbacks_laws _) [] t).
  apply sim_threads_reachable. by vm_compute.
Defined.

Lemma uninterrupted_round_witness :
  let ss := sim_steam sim_inbox [] in
  let t := sim_threads ss sim_before_round in
  ∃ n w', network_iteration (H1:=log_callbacks) 1 (tw_world t) = Done tt w' ∧
    nsteps (network_step (H1:=log_callbacks) 1) n t (TWorld w' (<[1%positive := AtTop]> (tw_net t)) Free).
Proof.
  intros ss t. pose proof sim_threads_laws as Hlaws.
  destruct (uninterrupted_round (H1:=log_callbacks) (ServerCallbacksLaws0:=log_callbacks_laws _)
    [] t 1 (sim_server (tw_world t) 1)) as (n & w' & Hround & Hn); [|by vm_compute..|].
  - apply sim_threads_reachable. by vm_compute.
  - exists n, w'. split; [exact Hround|]. by apply Hn.
Defined.

Lemma stop_returns_witness :
  let ss := sim_steam sim_inbox [] in
  let t := sim_threads ss sim_mid_stop in
  ∃ t1 t2, rtc (network_step (H1:=log_callbacks) 1) t t1 ∧
    exec_thread (H1:=log_callbacks) TJoined t1 = Done tt t2 ∧ tw_app t2 = Free ∧
    world_ok (tw_world t2).
Proof.
  intros ss t. pose proof sim_threads_laws as Hlaws.
  destruct (stop_returns (H1:=log_callbacks) (ServerCallbacksLaws0:=log_callbacks_laws _)
    [] t 1 false) as (n & t1 & t2 & Hn & Hex & Hfree & _ & Hok & _); [|by vm_compute..|].
  - apply sim_threads_reachable. by vm_compute.
  - exists t1, t2. split; [apply rtc_nsteps; exists n; by apply Hn|].
    split; [exact Hex|]. split; [exact Hfree|exact Hok].
Defined.
