(* ===== verification/ClientPointers.v ===== *)
(** * The pointer to a client

    [poll] asks [get_client_info] for a pointer into the table of clients and gives
    it to the callback after the mutex of the table was released.  Here the two are
    steps of their own, between which other threads and the application run. *)

From S2P Require Import Prelude Bytes NetworkTypes Packet Serde Runtime.
From S2P Require Import Ledger UdpServer Sessions UdpServerSpec UdpServerSafety Simulated UdpServerSystem.
From S2P Require Import Threads ThreadsProps ThreadsSystem.
Local Open Scope Z_scope.

(** ** The pieces of one message *)

Section pieces.
Context {A CB U : Type} `{SteamIPAddr A} `{SteamSockets A} `{ServerCallbacks A CB U}.
Local Abbreviation W := (world A (UdpServer CB) U).
Implicit Types (w : W) (s : UdpServer CB) (p : positive) (message : steam_message).

(** The test of the callback, and [get_client_info]: a pointer, or null. *)
Definition find_client p message : M W bool :=
  s ← deref p;
  match m_data_received_callback s with
  | Some _ =>
      client ← get_client_info p (msg_conn message);
      mret (bool_decide (is_Some client))
  | None => mret false
  end.

(** [m_data_received_callback( *client, ... )]: the entry the pointer leads to,
    and the callback, as they are now. *)
Definition use_client p message : M W unit :=
  s ← deref p;
  (match m_clients s !! msg_conn message with
   | Some client =>
       match m_data_received_callback s with
       | Some cb => run_on_data cb client (m_pData message) (u64 (m_cbSize message))
       | None => fail StdTerminate
       end
   | None => fail NullDeref
   end) ;;
  call (ReleaseMessage message).

(** The pointer is good. *)
Definition entry_held p message w : Prop := ∃ s,
  w_objs w !! p = Some s ∧ is_Some (m_clients s !! msg_conn message) ∧ is_Some (m_data_received_callback s).

Lemma find_client_Done p message w s :
  w_objs w !! p = Some s → m_client_mutex s = false →
  find_client p message w
  = Done (bool_decide (is_Some (m_clients s !! msg_conn message) ∧ is_Some (m_data_received_callback s))) w.
Proof.
  intros Hs Hm. unfold find_client. rewrite (bind_Done _ _ _ _ _ (deref_Done p s w Hs)).
  destruct (m_data_received_callback s) as [cb|].
  - rewrite (bind_Done _ _ _ _ _ (get_client_info_Done p _ w s Hs Hm)). unfold mret, M_ret. f_equal.
    apply bool_decide_ext. split; [by split|by intros []].
  - rewrite bool_decide_false; [done|]. by intros [_ [? ?]].
Qed.

(** Put together they are the handling of the message. *)
Lemma use_client_held p message w s :
  w_objs w !! p = Some s → m_client_mutex s = false → entry_held p message w →
  use_client p message w = poll_message p message w.
Proof.
  intros Hs Hm (s' & Hs' & [client Hc] & [cb Hcb]). assert (s' = s) as -> by congruence.
  unfold use_client, poll_message. rewrite !(bind_Done _ _ _ _ _ (deref_Done p s w Hs)), Hcb, Hc.
  unfold mbind, M_bind. by rewrite (get_client_info_Done p _ w s Hs Hm), Hc.
Qed.

Lemma nothing_found p message w s :
  w_objs w !! p = Some s → m_client_mutex s = false → ¬ entry_held p message w →
  call (ReleaseMessage message) w = poll_message p message w.
Proof.
  intros Hs Hm Hno. unfold poll_message. rewrite (bind_Done _ _ _ _ _ (deref_Done p s w Hs)).
  destruct (m_data_received_callback s) as [cb|] eqn:Hcb; [|by rewrite (bind_Done skip _ w tt w)].
  rewrite (bind_Done _ _ w tt w); [done|]. rewrite (bind_Done _ _ _ _ _ (get_client_info_Done p _ w s Hs Hm)).
  destruct (m_clients s !! msg_conn message) as [client|] eqn:Hc; [|done]. destruct Hno. exists s. rewrite Hc, Hcb. eauto.
Qed.

Lemma poll_message_cut p message w s :
  w_objs w !! p = Some s → m_client_mutex s = false →
  poll_message p message w
  = (found ← find_client p message;
     if (found : bool) then use_client p message else call (ReleaseMessage message)) w.
Proof.
  intros Hs Hm. rewrite (bind_Done _ _ _ _ _ (find_client_Done p message w s Hs Hm)).
  case_bool_decide as Hd.
  - symmetry. apply (use_client_held p message w s Hs Hm). by exists s.
  - symmetry. apply (nothing_found p message w s Hs Hm). intros (s' & Hs' & Hd'). by simplify_eq.
Qed.
End pieces.

(** ** The system *)

(** The threads, and the servers whose network thread has a pointer to the client
    of the message it is at. *)
Record pointers (A CB U : Type) := Pointers {
  po_threads : tworld A CB U;
  po_held : gset positive;
}.
Arguments Pointers {A CB U}.
Arguments po_threads {A CB U}.
Arguments po_held {A CB U}.

(** A step of [Threads.v] other than the handling of a message; a network thread
    looks for the client of its message, and, if there was none, is done with it; it
    runs the callback. *)
Inductive pointer_op (CB : Type) :=
| PtThread (op : thread_op CB)
| PtFind (p : positive)
| PtUse (p : positive).
Arguments PtThread {CB}.
Arguments PtFind {CB}.
Arguments PtUse {CB}.

Section system.
Context {A CB U : Type} `{SteamIPAddr A} `{!SteamIPAddrLaws A}.
Context `{SteamSockets A} `{!SteamLaws A}.
Context `{ServerCallbacks A CB U} `{CallbackContract U} `{!ServerCallbacksLaws Interleaved A CB U}.
Local Abbreviation W := (world A (UdpServer CB) U).
Local Abbreviation TW := (tworld A CB U).
Local Abbreviation X := (pointers A CB U).
Implicit Types (w : W) (t : TW) (x : X) (p q : positive) (message : steam_message) (pc : net_pc).

(** The message a network thread is at, and its position after it. *)
Definition message_at t p : option (steam_message * net_pc) :=
  match tw_net t !! p with
  | Some (Dispatching i count (message :: slots)) =>
      if decide (i < count) then Some (message, Dispatching (i + 1) count slots) else None
  | _ => None
  end.

Definition on_threads {R} (m : M TW R) : M X R := λ x,
  match m (po_threads x) with
  | Done r t => Done r (Pointers t (po_held x))
  | Fault e t => Fault e (Pointers t (po_held x))
  end.

Definition set_held (f : gset positive → gset positive) x : X := Pointers (po_threads x) (f (po_held x)).

(** A piece on the network thread of [p] that ends the work on a message. *)
Definition finish_message p (piece : M W unit) pc : M TW unit :=
  on_world (on_thread p piece) ;; modify (set_net <[p := pc]>).

Definition exec_pointer (op : pointer_op CB) : M X unit :=
  match op with
  | PtThread op => on_threads (exec_thread op)
  | PtFind p =>
      t ← gets po_threads;
      match message_at t p with
      | Some (message, pc) =>
          found ← on_threads (on_world (on_thread p (find_client p message)));
          if (found : bool) then modify (set_held (union {[p]}))
          else on_threads (finish_message p (call (ReleaseMessage message)) pc)
      | None => skip
      end
  | PtUse p =>
      t ← gets po_threads;
      match message_at t p with
      | Some (message, pc) =>
          on_threads (finish_message p (use_client p message) pc) ;;
          modify (set_held (.∖ {[p]}))
      | None => skip
      end
  end.

Definition pointer_allowed (op : pointer_op CB) x : Prop :=
  let t := po_threads x in
  match op with
  | PtThread op => thread_allowed op t ∧ ∀ p, op = TNetwork p → message_at t p = None
  | PtFind p => ready (tw_world t) ∧ is_Some (message_at t p) ∧ p ∉ po_held x
  | PtUse p => ready (tw_world t) ∧ p ∈ po_held x
  end.

(** Every pointer held leads to an entry, and the callback is there. *)
Definition entries_held x : Prop := ∀ p message pc,
  p ∈ po_held x → message_at (po_threads x) p = Some (message, pc) →
  entry_held p message (tw_world (po_threads x)).

(** Steps that take away no entry a thread has a pointer to, nor its callback. *)
Definition pointer_step x x' : Prop :=
  ∃ op, pointer_allowed op x ∧ exec_pointer op x = Done tt x' ∧ entries_held x'.

Definition pointer_initial (u : U) : X := Pointers (thread_initial u) ∅.

(** ** Cutting the step of a thread *)

Lemma on_thread_here {R} p (m m' : M W R) w :
  m (with_thread (Some p) w) = m' (with_thread (Some p) w) → on_thread p m w = on_thread p m' w.
Proof. intros Hm. unfold on_thread, mbind, M_bind, gets, modify. by rewrite Hm. Qed.

Lemma on_threads_Done {R} (m : M TW R) x r t :
  m (po_threads x) = Done r t → on_threads m x = Done r (Pointers t (po_held x)).
Proof. intros Hm. unfold on_threads. by rewrite Hm. Qed.

Lemma message_at_Some t p message pc :
  message_at t p = Some (message, pc) → ∃ i count slots,
    tw_net t !! p = Some (Dispatching i count (message :: slots)) ∧ i < count ∧
    pc = Dispatching (i + 1) count slots.
Proof.
  unfold message_at. destruct (tw_net t !! p) as [[|i count [|m slots]|infos|]|]; try done.
  case_decide; [|done]. intros [= <- <-]. by exists i, count, slots.
Qed.

(** A step of the thread at a message is its handling. *)
Lemma message_step t p message pc piece :
  message_at t p = Some (message, pc) →
  on_thread p piece (tw_world t) = on_thread p (poll_message p message) (tw_world t) →
  finish_message p piece pc t = exec_thread (TNetwork p) t.
Proof.
  intros (i & count & slots & Hp & Hi & ->)%message_at_Some Hpiece.
  cbn [exec_thread]. erewrite (bind_Done (gets id)); [|done]. cbn [id]. rewrite Hp. cbn [net_step].
  rewrite decide_True by done.
  unfold finish_message, on_world, mbind at 1 3, M_bind at 1 3. rewrite Hpiece.
  unfold on_thread, gets, modify, mret, M_ret, mbind, M_bind.
  by destruct (poll_message p message (with_thread (Some p) (tw_world t))).
Qed.

(** The other steps leave the thread where it is. *)
Lemma exec_thread_net op t t' p pc :
  exec_thread op t = Done tt t' → tw_net t !! p = Some pc → op ≠ TNetwork p →
  (op = TJoined → ∀ d, tw_app t ≠ Joining p d) → tw_net t' !! p = Some pc.
Proof.
  intros Hex Hp Hne Hj.
  destruct op as [q|q op|q d|]; cbn [exec_thread] in Hex; unfold gets, modify, mbind, M_bind, on_world in Hex.
  - cbn [id] in Hex. destruct (tw_net t !! q) as [pcq|]; [|by injection Hex as <-].
    destruct (on_thread q (net_step q pcq) (tw_world t)) as [pc' w'|]; [|done]. injection Hex as <-.
    simpl. rewrite lookup_insert_ne; [done|congruence].
  - destruct (exec_op q op (tw_world t)) as [[] w'|]; [|done]. injection Hex as <-.
    set (t1 := TWorld w' (tw_net t) (tw_app t)).
    destruct (lookup_spawned q t1 p) as [(_ & Hnone & _)|[Hsame _]]; [simpl in Hnone; congruence|]. fold t1. by rewrite Hsame.
  - destruct (stop_begin q (tw_world t)) as [[] w'|]; [|done]. by injection Hex as <-.
  - cbn [id] in Hex. destruct (tw_app t) as [|q d] eqn:Happ; [by injection Hex as <-|].
    assert (tw_net t' = delete q (tw_net t)) as ->.
    { revert Hex. destruct (stop_end q (tw_world t)) as [[] w|]; [|done].
      destruct d; [destruct (destroy_members q w) as [[] w'|]; [|done]|]; by intros [= <-]. }
    rewrite lookup_delete_ne; [done|]. intros ->. by apply (Hj eq_refl d).
Qed.

Lemma message_at_net t t' p : tw_net t' !! p = tw_net t !! p → message_at t' p = message_at t p.
Proof. unfold message_at. by intros ->. Qed.

Lemma message_at_kept op t t' p message pc :
  thread_allowed op t → exec_thread op t = Done tt t' → op ≠ TNetwork p →
  message_at t p = Some (message, pc) → message_at t' p = Some (message, pc).
Proof.
  intros Hop Hex Hne Hat. rewrite <- Hat. apply message_at_net.
  destruct (message_at_Some _ _ _ _ Hat) as (i & count & slots & Hp & _). rewrite Hp.
  eapply exec_thread_net; [done..|]. intros -> d Happ.
  destruct Hop as (q & d' & Happ' & Hret). rewrite Happ in Happ'. injection Happ' as <- _. congruence.
Qed.

(** ** The invariant *)

Record pointers_ok x : Prop := {
  ptr_threads : thread_ok (po_threads x);
  ptr_held p : p ∈ po_held x → is_Some (message_at (po_threads x) p);
}.

Lemma message_server t p message pc :
  thread_ok t → message_at t p = Some (message, pc) →
  ∃ s, w_objs (tw_world t) !! p = Some s ∧ m_client_mutex s = false.
Proof.
  intros Hok (i & count & slots & Hp & _)%message_at_Some.
  destruct (proj1 (to_net _ Hok p) ltac:(by eexists)) as (s & Hs & _). exists s. split; [done|].
  apply (world_ok_lookup _ _ _ _ (to_inv _ Hok) Hs).
Qed.

Lemma message_allowed t p message pc :
  message_at t p = Some (message, pc) → ready (tw_world t) → thread_allowed (TNetwork p) t.
Proof. intros (i & count & slots & Hp & _)%message_at_Some Hrd. split; [done|]. by eexists. Qed.

(** The end of a message, in pieces, is a step of [Threads.v]. *)
Lemma finish_message_ok p message pc piece t :
  thread_ok t → message_at t p = Some (message, pc) → ready (tw_world t) →
  on_thread p piece (tw_world t) = on_thread p (poll_message p message) (tw_world t) →
  ∃ t', finish_message p piece pc t = Done tt t' ∧ thread_step t t' ∧ thread_ok t' ∧
    ∀ q, q ≠ p → is_Some (message_at t q) → is_Some (message_at t' q).
Proof.
  intros Hok Hat Hrd Hpiece. rewrite (message_step t p message pc piece Hat Hpiece).
  pose proof (message_allowed t p message pc Hat Hrd) as Hall.
  pose proof (thread_op_ok _ t Hok Hall) as Hwp. apply wp_Done in Hwp as ([] & t' & Hex & Hok' & _).
  exists t'. split_and!; [done|by exists (TNetwork p)|done|].
  intros q Hne [[m pcq] Hq]. exists (m, pcq). eapply message_at_kept; [done..| |done]. congruence.
Qed.

(** What a step comes to. *)
Definition stepped_to op x : Prop := ∃ x',
  exec_pointer op x = Done tt x' ∧ pointers_ok x' ∧ rtc thread_step (po_threads x) (po_threads x').

Lemma pointer_thread_ok op x :
  pointers_ok x → pointer_allowed (PtThread op) x → stepped_to (PtThread op) x.
Proof.
  intros [Hok Hheld] [Hall Hat]. pose proof (thread_op_ok op _ Hok Hall) as Hwp.
  apply wp_Done in Hwp as ([] & t' & Hex & Hok' & _). exists (Pointers t' (po_held x)).
  split_and!; [by apply on_threads_Done| |by apply rtc_once; exists op].
  split; [done|]. simpl. intros p Hp. destruct (Hheld p Hp) as [[m pc] Hm]. exists (m, pc).
  eapply message_at_kept; [done..| |done]. intros ->. specialize (Hat p eq_refl). congruence.
Qed.

Lemma pointer_find_ok p x : pointers_ok x → pointer_allowed (PtFind p) x → stepped_to (PtFind p) x.
Proof.
  intros [Hok Hheld] (Hrd & [[m pc] Hat] & Hnew). set (t := po_threads x) in *. set (w := tw_world t) in *.
  destruct (message_server t p m pc Hok Hat) as (s & Hs & Hmx).
  pose proof (find_client_Done p m (with_thread (Some p) w) s Hs Hmx) as Hfind.
  set (found := bool_decide _) in Hfind.
  assert (on_threads (on_world (on_thread p (find_client p m))) x = Done found x) as Hrun.
  { unfold on_threads, on_world, on_thread, gets, modify, mret, M_ret, mbind, M_bind. fold t w. rewrite Hfind.
    rewrite with_thread_twice, with_thread_id. subst w t. by destruct x as [[] ?]. }
  unfold stepped_to, exec_pointer. rewrite (bind_Done (gets po_threads) _ x t x) by done. cbv beta. rewrite Hat.
  rewrite (bind_Done _ _ _ _ _ Hrun). subst found. case_bool_decide as Hd.
  - exists (set_held (union {[p]}) x). split_and!; [done| |done]. split; [done|].
    simpl. intros q [->%elem_of_singleton|Hq]%elem_of_union; [by eexists|by apply Hheld].
  - destruct (finish_message_ok p m pc (call (ReleaseMessage m)) t Hok Hat Hrd) as (t' & Hex & Hstep & Hok' & Hother).
    { apply on_thread_here. eapply nothing_found; [exact Hs|done|]. intros (s' & Hs' & Hd').
      apply Hd. assert (s' = s) as -> by (simpl in Hs'; congruence). done. }
    exists (Pointers t' (po_held x)). split_and!; [by apply on_threads_Done| |by apply rtc_once].
    split; [done|]. intros q Hq. apply Hother; [by intros ->|by apply Hheld].
Qed.

Lemma pointer_use_ok p x :
  pointers_ok x → entries_held x → pointer_allowed (PtUse p) x → stepped_to (PtUse p) x.
Proof.
  intros [Hok Hheld] Hgood (Hrd & Hp). destruct (Hheld p Hp) as [[m pc] Hat].
  specialize (Hgood p m pc Hp Hat). set (t := po_threads x) in *.
  destruct (message_server t p m pc Hok Hat) as (s & Hs & Hmx).
  destruct (finish_message_ok p m pc (use_client p m) t Hok Hat Hrd) as (t' & Hex & Hstep & Hok' & Hother).
  { apply on_thread_here. by apply (use_client_held p m _ s). }
  exists (Pointers t' (po_held x ∖ {[p]})). split_and!; [|split; [done|]|by apply rtc_once].
  - unfold exec_pointer. rewrite (bind_Done (gets po_threads) _ x t x) by done. cbv beta. rewrite Hat.
    by rewrite (bind_Done _ _ _ _ _ (on_threads_Done _ x _ _ Hex)).
  - simpl. intros q [Hq Hne%not_elem_of_singleton]%elem_of_difference. by apply Hother, Hheld.
Qed.

Lemma pointer_op_ok op x : pointers_ok x → entries_held x → pointer_allowed op x → stepped_to op x.
Proof. destruct op; auto using pointer_thread_ok, pointer_find_ok, pointer_use_ok. Qed.

Lemma pointer_reachable_ok (u : U) x :
  rtc pointer_step (pointer_initial u) x →
  pointers_ok x ∧ entries_held x ∧ rtc thread_step (thread_initial u) (po_threads x).
Proof.
  assert (pointers_ok (pointer_initial u) ∧ entries_held (pointer_initial u)) as [H1' H2'].
  { split; [split; [apply thread_initial_ok|]|]; intros p; intros; by destruct (not_elem_of_empty (C:=gset positive) p). }
  intros Hr. change (thread_initial u) with (po_threads (pointer_initial u)). revert H1' H2'.
  induction Hr as [x|x1 x2 x3 (op & Hop & Hex & Hheld) _ IH]; intros Hok Hgood; [done|].
  destruct (pointer_op_ok op x1 Hok Hgood Hop) as (x' & Hex' & Hok' & Hruns).
  rewrite Hex in Hex'. injection Hex' as <-. destruct (IH Hok' Hheld) as (? & ? & ?).
  split_and!; [done|done|by etrans].
Qed.

(** ** Pointers that dangle *)

Lemma ready_with_obj p s s' cs w :
  w_objs w !! p = Some s → ready w → ready (with_obj p s' (with_calls cs w)).
Proof. intros Hs. unfold ready. simpl. by rewrite dom_insert_lookup_L. Qed.

(** What the application does to the server of a thread at a message. *)
Lemma app_at_message t p op w' message pc :
  message_at t p = Some (message, pc) → exec_op p op (tw_world t) = Done tt w' →
  exec_thread (TApp p op) t = Done tt (TWorld w' (tw_net t) (tw_app t)).
Proof.
  intros (i & count & slots & Hp & _)%message_at_Some Hex.
  cbn [exec_thread]. unfold on_world, modify, mbind, M_bind. rewrite Hex.
  unfold spawned. simpl. by rewrite Hp.
Qed.

Lemma use_faults x p s message pc e :
  message_at (po_threads x) p = Some (message, pc) → w_objs (tw_world (po_threads x)) !! p = Some s →
  (m_clients s !! msg_conn message = None ∧ e = NullDeref ∨
   is_Some (m_clients s !! msg_conn message) ∧ m_data_received_callback s = None ∧ e = StdTerminate) →
  ∃ x', exec_pointer (PtUse p) x = Fault e x'.
Proof.
  intros Hat Hs Hbad. set (t := po_threads x) in *.
  assert (∃ v, use_client p message (with_thread (Some p) (tw_world t)) = Fault e v) as [v Hv].
  { unfold use_client. rewrite (bind_Done _ _ _ _ _ (deref_Done p s (with_thread (Some p) (tw_world t)) Hs)).
    destruct Hbad as [[-> ->]|([client ->] & -> & ->)]; by eexists. }
  unfold exec_pointer. rewrite (bind_Done (gets po_threads) _ x t x) by done. cbv beta. rewrite Hat.
  eexists. apply bind_Fault. unfold on_threads. fold t.
  unfold finish_message, on_world, on_thread, gets, modify, mbind, M_bind. by rewrite Hv.
Qed.

(** ** Properties *)

(** C14: a network thread takes a pointer to the client of its message and gives it
    to the callback later, while other threads and the application run; as long as
    nobody takes away an entry such a pointer leads to, nor the callback, no step
    faults, and the state is one that the threads reach when each message is
    handled at once. *)
Theorem client_pointers_refine (u : U) x op :
  rtc pointer_step (pointer_initial u) x → pointer_allowed op x →
  ∃ x', exec_pointer op x = Done tt x' ∧
    rtc thread_step (po_threads x) (po_threads x') ∧
    rtc thread_step (thread_initial u) (po_threads x') ∧
    world_inv Interleaved (tw_world (po_threads x')).
Proof.
  intros Hr Hop. destruct (pointer_reachable_ok u x Hr) as (Hok & Hgood & Hthreads).
  destruct (pointer_op_ok op x Hok Hgood Hop) as (x' & Hex & Hok' & Hsteps).
  exists x'. split_and!; [done|done|by etrans|]. apply to_inv, Hok'.
Qed.

(** C34: the application may at any time disconnect a client, or take the data
    callback away: when it does so between the lookup of the client of a message
    and the callback, the callback is run with a reference to an entry that is
    gone, or an empty function is called and the process terminates. *)
Theorem client_pointer_dangles (u : U) x p message pc reason :
  rtc pointer_step (pointer_initial u) x → p ∈ po_held x → ready (tw_world (po_threads x)) →
  message_at (po_threads x) p = Some (message, pc) → tw_app (po_threads x) = Free →
  let disconnects := PtThread (TApp p (OpDisconnect (msg_conn message) reason)) in
  let unsets := PtThread (TApp p (OpSetOnData None)) in
  pointer_allowed disconnects x ∧ pointer_allowed unsets x ∧
  (∃ x1 x2, exec_pointer disconnects x = Done tt x1 ∧ pointer_allowed (PtUse p) x1 ∧
     exec_pointer (PtUse p) x1 = Fault NullDeref x2) ∧
  (∃ x1 x2, exec_pointer unsets x = Done tt x1 ∧ pointer_allowed (PtUse p) x1 ∧
     exec_pointer (PtUse p) x1 = Fault StdTerminate x2).
Proof.
  intros Hr Hp Hrd Hat Hfree disconnects unsets. destruct (pointer_reachable_ok u x Hr) as ([Hok _] & Hgood & _).
  destruct (Hgood p message pc Hp Hat) as (s & Hs & [client Hc] & [cb Hcb]). set (t := po_threads x) in *.
  pose proof (world_ok_lookup _ _ _ _ (to_inv _ Hok) Hs) as Hsok.
  assert (∀ op, op_allowed p op (tw_world t) → is_round op = false → waits op = false →
    pointer_allowed (PtThread (TApp p op)) x) as Hall.
  { intros op Hop Hround Hwaits. by split; [split_and!; [done..|congruence]|]. }
  split; [by apply Hall; [exists s|..]|]. split; [by apply Hall; [exists s|..]|]. split.
  - pose proof (disconnect_Done p (msg_conn message) reason _ s Hs (ok_interface _ _ Hsok) (ok_mutex _ _ Hsok)) as Hex.
    set (w' := with_obj _ _ _) in Hex. set (x1 := Pointers (TWorld w' (tw_net t) (tw_app t)) (po_held x)).
    destruct (use_faults x1 p (set_clients (delete (msg_conn message)) s) message pc NullDeref) as [x2 Hx2].
    + exact Hat.
    + apply lookup_with_obj.
    + left. split; [|done]. destruct s. apply lookup_delete_eq.
    + exists x1, x2. split; [by apply on_threads_Done, (app_at_message _ _ _ _ message pc)|].
      split; [|exact Hx2]. split; [|done]. by eapply ready_with_obj.
  - pose proof (update_Done p (set_on_data None) s _ Hs) as Hex.
    set (w' := with_obj _ _ _) in Hex. set (x1 := Pointers (TWorld w' (tw_net t) (tw_app t)) (po_held x)).
    destruct (use_faults x1 p (set_on_data None s) message pc StdTerminate) as [x2 Hx2].
    + exact Hat.
    + apply lookup_with_obj.
    + right. destruct s. simpl in *. by rewrite Hc.
    + exists x1, x2. split; [by apply on_threads_Done, (app_at_message _ _ _ _ message pc)|].
      split; [|exact Hx2]. split; [|done]. by apply (ready_with_obj p s _ []).
Qed.
End system.

(** ** A simulated run *)

Section simulation.
Context (ss : SteamSockets sim_addr).
#[local] Existing Instance log_callbacks.
Local Abbreviation X := (pointers sim_addr unit (list server_event)).
Implicit Types (x : X).

Definition sim_pointers (ops : list (pointer_op unit)) : X :=
  foldl (λ x op, match exec_pointer op x with Done _ x' => x' | Fault _ x' => x' end) (pointer_initial []) ops.

Definition pointer_allowed_b (op : pointer_op unit) x : bool :=
  let t := po_threads x in
  match op with
  | PtThread op => thread_allowed_b ss op t && match op with TNetwork p => bool_decide (message_at t p = None) | _ => true end
  | PtFind p => bool_decide (is_Some (message_at t p)) && bool_decide (p ∉ po_held x)
  | PtUse p => bool_decide (p ∈ po_held x)
  end.

Definition entries_held_b x : bool :=
  forallb (λ p, match message_at (po_threads x) p, w_objs (tw_world (po_threads x)) !! p with
                | Some (m, _), Some s =>
                    bool_decide (is_Some (m_clients s !! msg_conn m)) && bool_decide (is_Some (m_data_received_callback s))
                | Some _, None => false
                | None, _ => true
                end) (elements (po_held x)).

Lemma pointer_allowed_b_sound op x : pointer_allowed_b op x = true → pointer_allowed op x.
Proof.
  destruct op as [op|p|p]; simpl.
  - intros [Hop Hp]%andb_true_iff. split; [by apply (thread_allowed_b_sound ss)|]. intros p ->. by apply bool_decide_eq_true in Hp.
  - rewrite andb_true_iff, !bool_decide_eq_true. by intros [? ?].
  - rewrite bool_decide_eq_true. done.
Qed.

Lemma entries_held_b_sound x : entries_held_b x = true → entries_held x.
Proof.
  intros Hall p m pc Hp Hat. unfold entries_held_b in Hall. rewrite forallb_forall in Hall.
  specialize (Hall p). rewrite Hat in Hall.
  destruct (w_objs (tw_world (po_threads x)) !! p) as [s|] eqn:Hs; [|by discriminate Hall; apply list_elem_of_In, elem_of_elements].
  exists s. split; [done|]. rewrite andb_true_iff, !bool_decide_eq_true in Hall. apply Hall. by apply list_elem_of_In, elem_of_elements.
Qed.

Fixpoint pointers_run_ok x (ops : list (pointer_op unit)) : bool :=
  match ops with
  | [] => true
  | op :: ops =>
      pointer_allowed_b op x &&
      match exec_pointer op x with Done _ x' => entries_held_b x' && pointers_run_ok x' ops | Fault _ _ => false end
  end.

Lemma sim_pointers_reachable ops :
  pointers_run_ok (pointer_initial []) ops = true → rtc pointer_step (pointer_initial []) (sim_pointers ops).
Proof.
  unfold sim_pointers. generalize (pointer_initial ([] : list server_event) : X).
  induction ops as [|op ops IH]; intros x Hok; [apply rtc_refl|]. simpl in Hok |- *.
  apply andb_true_iff in Hok as [Hop Hok]. apply pointer_allowed_b_sound in Hop.
  destruct (exec_pointer op x) as [[] x'|] eqn:Hex; [|done]. apply andb_true_iff in Hok as [Hheld Hok].
  apply entries_held_b_sound in Hheld. eapply rtc_l; [by exists op|]. by apply IH.
Qed.
End simulation.

(** The network thread has looked up the client of its first message. *)
Definition sim_looked_up : list (pointer_op unit) :=
  (PtThread <$> (sim_before_round ++ [TNetwork 1])) ++ [PtFind 1].

Lemma client_pointers_refine_witness :
  let ss := sim_steam sim_inbox [] in
  let x := sim_pointers ss sim_looked_up in
  po_held x = {[1%positive]} ∧
  ∃ x', exec_pointer (H1:=log_callbacks) (PtUse 1) x = Done tt x' ∧
    rtc (thread_step (H1:=log_callbacks)) (thread_initial []) (po_threads x').
Proof.
  intros ss x. pose proof sim_threads_laws as Hlaws. split; [by vm_compute|].
  destruct (client_pointers_refine (H1:=log_callbacks) (ServerCallbacksLaws0:=log_callbacks_laws _)
    [] x (PtUse 1)) as (x' & Hex & _ & Hr & _).
  - apply sim_pointers_reachable. by vm_compute.
  - apply (pointer_allowed_b_sound ss). by vm_compute.
  - exists x'. split; [exact Hex|exact Hr].
Defined.

Lemma client_pointer_dangles_witness :
  let ss := sim_steam sim_inbox [] in
  ∃ x1 x2,
    exec_pointer (H1:=log_callbacks) (PtThread (TApp 1 (OpDisconnect 5 0))) (sim_pointers ss sim_looked_up) = Done tt x1 ∧
    exec_pointer (H1:=log_callbacks) (PtUse 1) x1 = Fault NullDeref x2.
Proof.
  intros ss. pose proof sim_threads_laws as Hlaws. set (x := sim_pointers ss sim_looked_up).
  destruct (message_at (po_threads x) 1) as [[m pc]|] eqn:Hat; [|by vm_compute in Hat].
  assert (msg_conn m = 5) as Hconn by (revert Hat; vm_compute; by intros [= <- _]).
  destruct (client_pointer_dangles (H1:=log_callbacks) (ServerCallbacksLaws0:=log_callbacks_laws _)
    [] x 1 m pc 0) as (_ & _ & (x1 & x2 & Hd & _ & Hf) & _); [|by vm_compute|done|exact Hat|by vm_compute|].
  - apply sim_pointers_reachable. by vm_compute.
  - rewrite Hconn in Hd. exists x1, x2. split; [exact Hd|exact Hf].
Defined.
