(* ===== verification/PacketProps.v ===== *)
(** * The wire format is what the code reads and writes

    The properties of the header reader and writer, of the two serializers and
    of the address copy. *)

From S2P Require Import Prelude Bytes NetworkTypes Packet Serde Simulated.
Import Strings.Byte.
Local Open Scope Z_scope.

(** ** The header *)

Section header.
Context {W : Type}.

Lemma parse_header_short (data : list byte) : length data < 8 → parse_header data = None.
Proof. intros Hlt. by do 8 (destruct data as [|? data]; [done|simpl in Hlt]); lia. Qed.

Lemma parse_header_take (data : list byte) (n : nat) :
  (8 ≤ n)%nat → parse_header (take n data) = parse_header data.
Proof.
  intros Hn. do 8 (destruct n as [|n]; [lia|]).
  by do 8 (destruct data as [|? data]; [done|]).
Qed.

(** The reader looks at the first [size] bytes only. *)
Lemma unpack_prefix (data : list byte) (size : Z) (w : W) :
  0 ≤ size ≤ length data →
  unpack_internal_packet_header data size w = Done (parse_header (take (Z.to_nat size) data)) w.
Proof.
  intros Hsz. destruct (decide (size < 8)) as [Hlt|Hge].
  - rewrite unpack_short by done. rewrite parse_header_short; [done|]. rewrite length_take. lia.
  - rewrite parse_header_take, <- unpack_Done by lia.
    unfold unpack_internal_packet_header. by rewrite !decide_False by (rewrite sizeof_header_8; lia).
Qed.

(** C20: reading a header from any bytes never faults, and finds one exactly
    when the bytes within the size given start with the wire form of a header:
    the three magic bytes, the serialization type, and the packet type in
    little-endian order. *)
Theorem unpack_exact (data : list byte) (size : Z) (w : W) :
  0 ≤ size ≤ length data →
  ∃ r, unpack_internal_packet_header data size w = Done r w ∧
    ∀ h, r = Some h ↔
      header_wf h ∧ ∃ payload, take (Z.to_nat size) data = header_bytes h ++ payload.
Proof.
  intros Hsz. exists (parse_header (take (Z.to_nat size) data)).
  split; [by apply unpack_prefix|]. intros h. split.
  - intros [Hwf Heq]%parse_header_Some. split; [done|]. by eexists.
  - intros (Hwf & payload & ->). by apply parse_header_bytes.
Qed.

(** C40: writing a header fills the first eight bytes of a buffer with its
    wire form, leaves the others alone and answers the cursor 8; a buffer of
    fewer than eight bytes is overrun. *)
Theorem write_header_exact (buf : list byte) (h : internal_packet_header_t) (w : W) :
  if decide (8 ≤ length buf)
  then write_internal_packet_header buf h w = Done (header_bytes h ++ drop 8 buf, 8) w
  else write_internal_packet_header buf h w = Fault OutOfBounds w.
Proof.
  case_decide as Hlen.
  - rewrite <- (take_drop 8 buf) at 1. apply write_header_Done. rewrite length_take. lia.
  - do 8 (destruct buf as [|? buf]; [done|]). simpl in Hlen. lia.
Qed.

(** C30: a header written into any large enough buffer is read back, whatever
    follows it. *)
Theorem header_roundtrip (buf : list byte) (h : internal_packet_header_t) (w : W) :
  header_wf h → 8 ≤ length buf →
  ∃ buf', write_internal_packet_header buf h w = Done (buf', 8) w ∧
    length buf' = length buf ∧
    unpack_internal_packet_header buf' (length buf') w = Done (Some h) w.
Proof.
  intros Hwf Hlen. exists (header_bytes h ++ drop 8 buf). split_and!.
  - rewrite <- (take_drop 8 buf) at 1. apply write_header_Done. rewrite length_take. lia.
  - rewrite length_app, length_header_bytes, length_drop. lia.
  - by rewrite unpack_Done, parse_header_bytes.
Qed.
End header.

Lemma unpack_exact_witness :
  ∃ r, unpack_internal_packet_header [x4b; x42; x4c; x01; x2a; x00; x00; x00; xff] 9 tt = Done r tt ∧
    r = Some (header_create serde_msgpack 42).
Proof.
  destruct (unpack_exact [x4b; x42; x4c; x01; x2a; x00; x00; x00; xff] 9 tt) as (r & Hr & Hex); [done|].
  exists r. split; [exact Hr|]. apply Hex. split; [by vm_compute|]. exists [xff]. by vm_compute.
Defined.

Lemma header_roundtrip_witness :
  ∃ buf', write_internal_packet_header (replicate 10 xcd) (header_create serde_bin 300) tt
          = Done (buf', 8) tt ∧
    unpack_internal_packet_header buf' (length buf') tt = Done (Some (header_create serde_bin 300)) tt.
Proof.
  destruct (header_roundtrip (replicate 10 xcd) (header_create serde_bin 300) tt)
    as (buf' & Hw & _ & Hr); [by vm_compute|by vm_compute|].
  exists buf'. split; [exact Hw|exact Hr].
Defined.

(** ** The serializers *)

Section serializers.
Context {B : Type} `{OwningBufferLaws B, AllocatorLaws} {W : Type}.

(** C29: a msgpack packet, read back the way the receivers read it, gives the
    serialization type and packet type asked for, and the object packed. *)
Theorem msgpack_roundtrip {T obj} `{MsgpackLaws T obj}
    (conn : kb_connection_t) (t : packet_type_t) (x : T) (w : W) :
  fits 32 t →
  ∃ (pkt : internal_packet_t B) (o : obj),
    serialize_packet conn t x w = Done pkt w ∧
    let bytes := ob_data (m_buffer pkt) in
    ob_size (m_buffer pkt) = length bytes ∧ m_pkt_conn pkt = conn ∧
    unpack_internal_packet_header bytes (length bytes) w
      = Done (Some (header_create serde_msgpack t)) w ∧
    deserialize_packet (drop 8 bytes) (length bytes - 8) w = Done (Some o) w ∧
    payload_as (B:=B) o w = Done (Some x) w.
Proof.
  intros Ht. destruct (serialize_packet_law (B:=B) (payload_t:=obj) W conn t x w Ht)
    as (pkt & body & o & Hser & Hc & _ & Hdata & Hsize & Hdes & Has).
  exists pkt, o. split; [done|]. rewrite Hsize, Hdata. cbv zeta.
  split; [done|]. split; [done|]. split.
  - by rewrite unpack_Done, parse_header_bytes by done.
  - rewrite drop_app_length' by (by rewrite length_header_bytes).
    rewrite length_app, length_header_bytes.
    replace ((8 + length body)%nat - 8) with (Z.of_nat (length body)) by lia. done.
Qed.

(** A binary packet carries the object's bytes and the packet object
    remembers the type asked for, but the header on the wire always says
    [unknown]: a receiver never sees the type of a binary packet. *)
Theorem binary_wire_type_unknown {T} `{TriviallyCopyableLaws T}
    (conn : kb_connection_t) (t : packet_type_t) (x : T) (w : W) :
  fits 32 t →
  ∃ (pkt : internal_packet_t B) (payload : span),
    serialize_packet conn t x w = Done pkt w ∧
    m_packet_type (m_header pkt) = t ∧
    let bytes := ob_data (m_buffer pkt) in
    unpack_internal_packet_header bytes (length bytes) w
      = Done (Some (header_create serde_bin (packet_id_value unknown))) w ∧
    deserialize_packet (drop 8 bytes) (length bytes - 8) w = Done (Some payload) w ∧
    payload_as (B:=B) payload w = Done (Some x) w.
Proof.
  intros Ht. destruct (serialize_packet_law (B:=B) (payload_t:=span) W conn t x w Ht)
    as (pkt & body & o & Hser & Hc & Hh & Hdata & Hsize & Hdes & Has).
  exists pkt, o. split; [done|]. rewrite Hh, Hdata. cbv zeta.
  split; [done|]. split.
  - by rewrite unpack_Done, parse_header_bytes by done.
  - rewrite drop_app_length' by (by rewrite length_header_bytes).
    rewrite length_app, length_header_bytes.
    replace ((8 + length body)%nat - 8) with (Z.of_nat (length body)) by lia. done.
Qed.
End serializers.

Lemma msgpack_roundtrip_witness :
  ∃ (pkt : internal_packet_t (list byte)) (o : list byte),
    serialize_packet 3 128 x2a tt = Done pkt tt ∧
    payload_as (T:=byte) (B:=list byte) o tt = Done (Some x2a) tt.
Proof.
  destruct (msgpack_roundtrip (B:=list byte) (obj:=list byte) 3 128 x2a tt)
    as (pkt & o & Hser & _ & _ & _ & _ & Has); [done|].
  exists pkt, o. split; [exact Hser|exact Has].
Defined.

Lemma binary_wire_type_unknown_witness :
  ∃ pkt : internal_packet_t (list byte),
    serialize_packet (payload_t:=span) 3 128 (x2a, x2b) tt = Done pkt tt ∧
    m_packet_type (m_header pkt) = 128 ∧
    unpack_internal_packet_header (ob_data (m_buffer pkt)) (length (ob_data (m_buffer pkt))) tt
      = Done (Some (header_create serde_bin 0)) tt.
Proof.
  destruct (binary_wire_type_unknown (B:=list byte) 3 128 (x2a, x2b) tt)
    as (pkt & o & Hser & Ht & Hu & _); [done|].
  exists pkt. split; [exact Hser|]. split; [exact Ht|exact Hu].
Defined.

(** ** Addresses *)

Section addresses.
Context `{SteamIPAddrLaws A} {W : Type}.

(** The address built or assigned from a Steam address is its sixteen
    bytes and its port, for both address families and whatever the storage
    held before. *)
Theorem address_copied_whole (a : A) (old : ip_address_t) (storage : list byte) (w : W) :
  length (m_ip old) = 16%nat → length storage = 16%nat →
  ∃ ip : ip_address_t,
    ip_address_assign old a w = Done ip w ∧ ip_address_construct storage a w = Done ip w ∧
    m_ip ip = steam_union a ∧ m_ip_port ip = steam_port a.
Proof.
  intros Hold Hst. eexists. split; [by apply copy_steam_Done|].
  split; [by apply copy_steam_Done|done].
Qed.
End addresses.

Lemma address_copied_whole_witness :
  ∃ ip : ip_address_t, ip_address_construct (replicate 16 xcd) (80 : sim_addr) tt = Done ip tt ∧
    m_ip_port ip = 80.
Proof.
  destruct (address_copied_whole (80 : sim_addr) ip_address_zero (replicate 16 xcd) tt)
    as (ip & _ & Hc & _ & Hp); [done..|].
  exists ip. split; [exact Hc|]. by rewrite Hp.
Defined.
