(* ===== verification/UdpClient.v ===== *)
(** * The UDP client

    [src/kb/net/udp/client/udp_client.hpp] and [udp_client.cpp]: the class
    [UdpClient], one definition per member function.  Clients live in a heap
    [world A (UdpClient CB) U]; [s_instance] is the static of [udp_client.cpp].
    The data callback is a program over the same world ([ClientCallbacks]). *)

From stdpp Require Import pretty.
From S2P Require Import Prelude Bytes NetworkTypes Runtime.
Import Strings.Byte.
Local Open Scope Z_scope.

(** ** State *)

Inductive connection_status_t := disconnected | connecting | connected | failed_to_connect.

#[export] Instance connection_status_eq_decision : EqDecision connection_status_t.
Proof. solve_decision. Defined.

(** [incoming_view_message_t]: a connection and a view of received bytes. *)
Record incoming_view_message_t := ViewMessage {
  view_conn : kb_connection_t;
  view_data : list byte;
  view_size : Z;
}.

Record UdpClient (CB : Type) := MkClient {
  m_running : bool;
  m_connection_status : connection_status_t;
  m_client_thread : bool;                        (** [m_network_thread] is joinable *)
  m_on_data_received : option CB;
  m_client_interface : bool;                     (** [m_interface] is not null *)
  m_client_conn : kb_connection_t;               (** [m_conn] *)
}.
Arguments MkClient {CB}.
Arguments m_running {CB}.
Arguments m_connection_status {CB}.
Arguments m_client_thread {CB}.
Arguments m_on_data_received {CB}.
Arguments m_client_interface {CB}.
Arguments m_client_conn {CB}.

Section setters.
Context {CB : Type}.
Implicit Types s : UdpClient CB.

Definition set_client_running v s := let 'MkClient _ b c d e f := s in MkClient v b c d e f.
Definition set_status v s := let 'MkClient a _ c d e f := s in MkClient a v c d e f.
Definition set_client_thread v s := let 'MkClient a b _ d e f := s in MkClient a b v d e f.
Definition set_on_data_received (v : option CB) s := let 'MkClient a b c _ e f := s in MkClient a b c v e f.
Definition set_client_interface v s := let 'MkClient a b c d _ f := s in MkClient a b c d v f.
Definition set_client_conn v s := let 'MkClient a b c d e _ := s in MkClient a b c d e v.

(** The default member initialisers. *)
Definition client_init : UdpClient CB :=
  MkClient false disconnected false None false k_invalid_connection.
End setters.

(** The user's data callback, by the handle stored in the client. *)
Class ClientCallbacks (A CB U : Type) :=
  run_on_data_received : CB → incoming_view_message_t → M (world A (UdpClient CB) U) unit.

Definition k_default_poll_message_count : Z := 16.

(** ** Operations *)

Section operations.
Context {A CB U : Type} `{SteamIPAddr A} `{SteamSockets A} `{ClientCallbacks A CB U}.
Local Abbreviation W := (world A (UdpClient CB) U).

(** A call through [m_interface]. *)
Definition iface (this : positive) (c : steam_call A) : M W (answer c) :=
  s ← deref this;
  if m_client_interface s then call c else fail NullDeref.

Definition construct (this : positive) : M W unit := modify (with_obj this client_init).

(** [m_network_thread.join()]: a thread cannot join itself. *)
Definition join_network_thread (this : positive) : M W unit :=
  t ← gets w_thread;
  if decide (t = Some this) then fail StdTerminate else update this (set_client_thread false).

(** The final block of [stop]. *)
Definition close_connection (this : positive) : M W unit :=
  s ← deref this;
  if decide (m_client_conn s ≠ k_invalid_connection) then
    iface this (CloseConnection (m_client_conn s) 0 (Some "UdpClient disconnecting"%string) true) ;;
    update this (set_client_conn k_invalid_connection)
  else skip.

Definition stop (this : positive) : M W unit :=
  modify (with_instance None) ;;
  s ← deref this;
  update this (set_client_running false) ;;
  if negb (m_running s) then skip
  else
    (if m_client_thread s then join_network_thread this else skip) ;;
    close_connection this.

(** [~UdpClient()]: [stop()], then the members are destroyed; destroying a
    joinable [std::thread] terminates the process. *)
Definition destruct_client (this : positive) : M W unit :=
  stop this ;;
  s ← deref this;
  if m_client_thread s then fail StdTerminate else modify (with_objs (delete this)).

(** [fmt::format("{}:{}", p_address, p_port)]. *)
Definition address_with_port (p_address : string) (p_port : Z) : string :=
  (p_address +:+ ":" +:+ pretty p_port)%string.

Definition try_connect (this : positive) (p_address : string) (p_port : Z) : M W bool :=
  update this (set_status connecting) ;;
  call SteamNetworkingSockets ≫= λ interface : bool,
  update this (set_client_interface interface) ;;
  modify (with_instance (Some this)) ;;
  let address := address_with_port p_address p_port in
  if negb (is_valid_ip_address address) then
    update this (set_status failed_to_connect) ;; mret false
  else
    (** [ParseString] succeeded just before on the same string. *)
    server_address ← or_fault AssertFailed (ParseString address);
    iface this (ConnectByIPAddress server_address) ≫= λ conn : Z,
    update this (set_client_conn conn) ;;
    if decide (conn = k_invalid_connection) then
      update this (set_status failed_to_connect) ;; mret false
    else mret true.

(** [m_network_thread = std::thread(...)]. *)
Definition spawn_network_thread (this : positive) : M W unit :=
  s ← deref this;
  if m_client_thread s then fail StdTerminate else update this (set_client_thread true).

Definition connect (this : positive) (p_address : string) (p_port : Z) : M W bool :=
  s ← deref this;
  if m_running s then mret false
  else
    res ← try_connect this p_address p_port;
    update this (set_client_running res) ;;
    spawn_network_thread this ;;
    mret res.

(** The library takes the length as a [uint32]. *)
Definition send_raw (this : positive) (p_data : list byte) (p_len : Z) (p_reliable : bool)
    : M W bool :=
  s ← deref this;
  if negb (m_client_interface s) || bool_decide (m_client_conn s = k_invalid_connection)
  then mret false
  else
    let flags := if p_reliable then SendReliable else SendUnreliable in
    data ← read_bytes p_data 0 (u32 p_len);
    call (SendMessageToConnection (m_client_conn s) data flags) ≫= λ res : EResult,
    mret (bool_decide (res = k_EResultOK)).

(** A loop [for (size_t i = 0; i < message_count; ++i)] over the slots the
    library filled; reading another slot is out of bounds. *)
Fixpoint slots_loop (i message_count : Z) (messages : list steam_message)
    (body : steam_message → M W unit) : M W unit :=
  match messages with
  | [] => if decide (i < message_count) then fail OutOfBounds else skip
  | message :: messages =>
      if decide (i < message_count) then
        body message ;; slots_loop (i + 1) message_count messages body
      else skip
  end.

(** The data callback on one message; [m_conn] is read again each time. *)
Definition deliver_message (this : positive) (message : steam_message) : M W unit :=
  s ← deref this;
  let view := ViewMessage (m_client_conn s) (m_pData message) (u32 (m_cbSize message)) in
  match m_on_data_received s with
  | Some cb => run_on_data_received cb view
  | None => fail StdTerminate   (** an empty [std::function] was called *)
  end.

Definition poll_messages (this : positive) : M W unit :=
  s ← deref this;
  if negb (m_client_interface s) || bool_decide (m_client_conn s = k_invalid_connection) then skip
  else
    call (ReceiveMessagesOnConnection (m_client_conn s) k_default_poll_message_count)
      ≫= λ received : Z * list steam_message,
    (** the [i32] count is converted to [size_t] by the comparison *)
    let message_count := u64 received.1 in
    s ← deref this;
    (match m_on_data_received s with
     | Some _ => slots_loop 0 message_count received.2 (deliver_message this)
     | None => skip
     end) ;;
    slots_loop 0 message_count received.2 (λ message, call (ReleaseMessage message)).

Definition on_connection_status_changed (this : positive) (p_info : status_changed) : M W unit :=
  match sc_state p_info with
  | StateNone => skip
  | StateClosedByPeer | StateProblemDetectedLocally =>
      update this (set_client_running false) ;;
      update this (set_status failed_to_connect) ;;
      iface this (CloseConnection (sc_conn p_info) 0 None false) ;;
      update this (set_client_conn k_invalid_connection) ;;
      update this (set_status disconnected)
  | StateConnecting => update this (set_status connecting)
  | StateConnected => update this (set_status connected)
  | StateOther => skip
  end.

(** The static trampoline given to the library. *)
Definition connection_status_changed_callback (p_info : status_changed) : M W unit :=
  i ← gets s_instance;
  match i with
  | None => skip
  | Some instance => on_connection_status_changed instance p_info
  end.

Definition poll (this : positive) : M W unit :=
  s ← deref this;
  if negb (m_running s) then skip
  else
    poll_messages this ;;
    s ← deref this;
    if m_client_interface s then
      call RunCallbacks ≫= λ infos : list status_changed,
      for_each infos connection_status_changed_callback
    else skip.

Definition is_running (this : positive) : M W bool := s ← deref this; mret (m_running s).

Definition set_on_data_callback (this : positive) (p_on_data_received : option CB) : M W unit :=
  update this (set_on_data_received p_on_data_received).

Definition get_connection_status (this : positive) : M W connection_status_t :=
  s ← deref this; mret (m_connection_status s).

(** [network_loop], for at most [fuel] iterations; [true] when it returned. *)
Fixpoint network_loop (fuel : nat) (this : positive) : M W bool :=
  match fuel with
  | O => mret false
  | S fuel =>
      running ← is_running this;
      if (running : bool) then poll this ;; network_loop fuel this else mret true
  end.
End operations.
