(* ===== verification/UdpClientSpec.v ===== *)
(** * What each client operation does

    Exact results of the operations of [UdpClient.v] on every branch, the
    invariant of a process with one client, and the safety of its operations. *)

From stdpp Require Import pretty.
From S2P Require Import Prelude Bytes NetworkTypes Runtime UdpClient.
Import Strings.Byte.
Local Open Scope Z_scope.

(** ** Exact results *)

Section rules.
Context {A CB U : Type} `{SteamIPAddr A} `{SteamSockets A}.
Local Abbreviation W := (world A (UdpClient CB) U).
Implicit Types (w : W) (s : UdpClient CB) (p : positive).

Lemma wp_client_iface p c Q w s :
  w_objs w !! p = Some s → m_client_interface s = true →
  Q (steam_answer (w_trace w) c) (with_calls [c] w) → wp (iface p c) Q w.
Proof.
  intros Hs Hi HQ. unfold iface. apply wp_bind. eapply wp_deref; [done|]. rewrite Hi.
  by apply wp_call.
Qed.

Lemma client_iface_Done p c w s :
  w_objs w !! p = Some s → m_client_interface s = true →
  iface p c w = Done (steam_answer (w_trace w) c) (with_calls [c] w).
Proof. intros Hs Hi. apply wp_eq. by eapply wp_client_iface. Qed.

End rules.

(** A call through the interface of a client that has one. *)
Ltac client_iface_step :=
  lazymatch goal with
  | |- wp (iface ?p ?c) ?Q ?w =>
      eapply (wp_client_iface p c Q w);
      [lookup_obj | first [assumption | match goal with s : UdpClient _ |- _ => by destruct s end]
      | cbv beta; autorewrite with world]
  end.


Section exact.
Context {A CB U : Type} `{SteamIPAddr A} `{SteamSockets A}.
Local Abbreviation W := (world A (UdpClient CB) U).
Implicit Types (w : W) (s : UdpClient CB) (p : positive).

(** What [stop] closes, and what it leaves. *)
Definition client_close_calls s : list (steam_call A) :=
  if decide (m_client_conn s ≠ 0)
  then [CloseConnection (m_client_conn s) 0 (Some "UdpClient disconnecting"%string) true] else [].

Definition client_stopped s : UdpClient CB :=
  set_client_conn 0 (set_client_thread false (set_client_running false s)).

Definition client_stop_result (p : positive) s w : outcome W unit :=
  if m_running s
  then Done tt (with_obj p (client_stopped s) (with_instance None (with_calls (client_close_calls s) w)))
  else Done tt (with_instance None w).

Lemma close_connection_Done p w s :
  w_objs w !! p = Some s → (m_client_conn s ≠ 0 → m_client_interface s = true) →
  close_connection p w = Done tt (with_obj p (set_client_conn 0 s) (with_calls (client_close_calls s) w)).
Proof.
  intros Hs Hi. apply wp_eq. unfold close_connection, client_close_calls, k_invalid_connection.
  wp_steps. case_decide as Hc.
  - wp_steps. eapply wp_client_iface; [done|by apply Hi|]. autorewrite with world. by wp_steps.
  - wp_steps. split; [done|]. autorewrite with world.
    rewrite with_obj_id; [done|]. rewrite Hs. destruct s; simpl in *; by subst.
Qed.

Lemma client_stop_Done p w s :
  w_objs w !! p = Some s → (m_running s = true → m_client_interface s = true) →
  (m_running s = true → m_client_thread s = true → w_thread w ≠ Some p) →
  stop p w = client_stop_result p s w.
Proof.
  intros Hs Hi Hth. unfold client_stop_result. destruct (m_running s) eqn:Hr.
  - specialize (Hi eq_refl). specialize (Hth eq_refl).
    apply wp_eq. unfold stop. wp_steps. rewrite Hr. simpl negb. cbv iota.
    assert (∀ Q, Q tt (with_obj p (set_client_thread false (set_client_running false s)) (with_instance None w)) →
      wp (if m_client_thread s then join_network_thread p else skip) Q
        (with_obj p (set_client_running false s) (with_instance None w))) as Hjoin.
    { intros Q HQ. destruct (m_client_thread s) eqn:Ht.
      - unfold join_network_thread. wp_steps. rewrite decide_False by (by apply Hth). by wp_steps.
      - wp_steps. destruct s; simpl in *; by subst. }
    wp_steps. apply Hjoin.
    eapply wp_of_Done; [eapply close_connection_Done; [lookup_obj|by destruct s]|].
    autorewrite with world. split; [done|]. by destruct s.
  - apply wp_eq. unfold stop. wp_steps. rewrite Hr. simpl. wp_steps.
    split; [done|]. destruct s; simpl in *; subst. by rewrite with_obj_id.
Qed.

(** ** Connecting *)

(** The address string is never empty. *)
Lemma address_with_port_valid a pt :
  is_valid_ip_address (steam_addr:=A) (address_with_port a pt)
  = bool_decide (is_Some (ParseString (steam_addr:=A) (address_with_port a pt))).
Proof.
  unfold is_valid_ip_address.
  assert (String.eqb (address_with_port a pt) EmptyString = false) as ->.
  { apply String.eqb_neq. unfold address_with_port. by destruct a. }
  destruct (ParseString (address_with_port a pt)) eqn:E; rewrite ?E; [|done].
  by rewrite bool_decide_eq_true_2 by eauto.
Qed.

(** The end of [connect]: the answer is stored and the thread is started,
    whatever the answer. *)
Definition connect_end (p : positive) (res : bool) s w : outcome W bool :=
  if m_client_thread s
  then Fault StdTerminate (with_obj p (set_client_running res s) w)
  else Done res (with_obj p (set_client_thread true (set_client_running res s)) w).

(** A client that is trying to connect, with the library at hand. *)
Definition trying s : UdpClient CB := set_client_interface true (set_status connecting s).

Definition connect_result (p : positive) (p_address : string) (p_port : Z) s w : outcome W bool :=
  if m_running s then Done false w
  else
    let w1 := with_instance (Some p) (with_calls [SteamNetworkingSockets] w) in
    match ParseString (address_with_port p_address p_port) with
    | None => connect_end p false (set_status failed_to_connect (trying s)) w1
    | Some address =>
        let conn : Z := steam_answer (w_trace w1) (ConnectByIPAddress address) in
        let w2 := with_calls [ConnectByIPAddress address] w1 in
        if decide (conn = 0)
        then connect_end p false (set_status failed_to_connect (set_client_conn 0 (trying s))) w2
        else connect_end p true (set_client_conn conn (trying s)) w2
    end.

Lemma connect_end_Done p res w s :
  w_objs w !! p = Some s →
  (update p (set_client_running res) ;; spawn_network_thread p ;; mret res) w
  = connect_end p res s w.
Proof.
  intros Hs. unfold connect_end. erewrite bind_Done; [|by apply update_Done].
  assert (m_client_thread (set_client_running res s) = m_client_thread s) as Ht by by destruct s.
  assert (∀ v : W, deref p (with_obj p (set_client_running res s) v)
    = Done (set_client_running res s) (with_obj p (set_client_running res s) v)) as Hd
    by (intros; apply deref_Done, lookup_with_obj).
  unfold spawn_network_thread. destruct (m_client_thread s).
  - erewrite bind_Fault; [done|]. erewrite bind_Done; [|apply Hd]. by rewrite Ht.
  - erewrite bind_Done; [|erewrite bind_Done; [|apply Hd]; rewrite Ht; apply update_Done, lookup_with_obj].
    by autorewrite with world.
Qed.

Lemma connect_Done p a pt w s :
  w_objs w !! p = Some s → steam_answer (w_trace w) SteamNetworkingSockets = true →
  connect p a pt w = connect_result p a pt s w.
Proof.
  intros Hs Hlib. unfold connect, connect_result.
  erewrite bind_Done; [|by apply deref_Done]. destruct (m_running s) eqn:Hr; [done|]. cbv zeta.
  set (w1 := with_instance (Some p) (with_calls [SteamNetworkingSockets] w)).
  assert (∀ (res : bool) s' v, try_connect p a pt w = Done res (with_obj p s' v) →
    (res ← try_connect p a pt; update p (set_client_running res) ;; spawn_network_thread p ;; mret res) w
    = connect_end p res s' v) as Hend.
  { intros res s' v Htry. rewrite (bind_Done _ _ _ _ _ Htry).
    rewrite (connect_end_Done p res _ s') by apply lookup_with_obj.
    unfold connect_end. by autorewrite with world. }
  pose proof (address_with_port_valid a pt) as Hvalid.
  destruct (ParseString (address_with_port a pt)) as [addr|] eqn:Hparse.
  - case_decide as Hc; apply Hend; apply wp_eq; unfold try_connect; wp_steps;
      change (w_trace (with_obj p (set_status connecting s) w)) with (w_trace w); rewrite Hlib;
      wp_steps; rewrite Hvalid; simpl negb; cbv iota; rewrite Hparse;
      (apply wp_bind; eapply wp_or_fault; [done|]); wp_steps;
      client_iface_step; wp_steps.
    + rewrite decide_True by done. wp_steps. simpl in Hc |- *. rewrite Hc.
      split; [done|]. unfold w1; autorewrite with world; by destruct s.
    + rewrite decide_False by done. wp_steps. split; [done|]. unfold w1; autorewrite with world; by destruct s.
  - apply Hend, wp_eq. unfold try_connect. wp_steps.
    change (w_trace (with_obj p (set_status connecting s) w)) with (w_trace w). rewrite Hlib. wp_steps.
    rewrite Hvalid. simpl. wp_steps. by destruct s.
Qed.
End exact.

(** ** Events and messages *)

Section events.
Context {A CB U : Type} `{SteamIPAddr A} `{SteamSockets A} `{ClientCallbacks A CB U}.
Local Abbreviation W := (world A (UdpClient CB) U).
Implicit Types (w : W) (s : UdpClient CB) (p : positive) (info : status_changed).

(** The client after a status change. *)
Definition after_event info s : UdpClient CB :=
  match sc_state info with
  | StateClosedByPeer | StateProblemDetectedLocally =>
      set_status disconnected (set_client_conn 0 (set_client_running false s))
  | StateConnecting => set_status connecting s
  | StateConnected => set_status connected s
  | StateNone | StateOther => s
  end.

Definition event_calls info : list (steam_call A) :=
  match sc_state info with
  | StateClosedByPeer | StateProblemDetectedLocally => [CloseConnection (sc_conn info) 0 None false]
  | _ => []
  end.

Lemma client_event_Done p info w s :
  w_objs w !! p = Some s → m_client_interface s = true →
  on_connection_status_changed p info w
  = Done tt (with_obj p (after_event info s) (with_calls (event_calls info) w)).
Proof.
  intros Hs Hi. apply wp_eq. unfold on_connection_status_changed, after_event, event_calls.
  destruct (sc_state info); wp_steps; try (client_iface_step; wp_steps);
    (split; [done|]); rewrite ?with_obj_id by done; first [done | by destruct s].
Qed.

(** The indexed loop over the slots is a loop over the messages. *)
Lemma slots_loop_for_each (i count : Z) (messages : list steam_message)
    (body : steam_message → M W unit) w :
  count = i + length messages →
  slots_loop i count messages body w = for_each messages body w.
Proof.
  revert i w. induction messages as [|m messages IH]; intros i w ->; cbn [slots_loop for_each].
  - by rewrite decide_False by (simpl; lia).
  - rewrite decide_True by (simpl; lia). unfold mbind, M_bind.
    destruct (body m w); [|done]. apply IH. simpl. lia.
Qed.

Lemma release_Done (m : steam_message) w :
  call (ReleaseMessage m) w = Done tt (with_calls [ReleaseMessage m] w).
Proof. unfold call. by destruct (steam_answer (w_trace w) (ReleaseMessage m)). Qed.

Lemma release_all_Done (messages : list steam_message) w :
  for_each messages (λ m, call (ReleaseMessage m)) w
  = Done tt (with_calls (ReleaseMessage <$> messages) w).
Proof.
  revert w. induction messages as [|m messages IH]; intros w; simpl; [by autorewrite with world|].
  rewrite (bind_Done _ _ _ _ _ (release_Done m w)), IH. by autorewrite with world.
Qed.

(** With a live connection: every message is delivered, then every message is
    released. *)
Lemma poll_messages_Done p w s :
  w_objs w !! p = Some s → m_client_interface s = true → m_client_conn s ≠ 0 →
  let c := ReceiveMessagesOnConnection (m_client_conn s) 16 in
  let messages : list steam_message := (steam_answer (w_trace w) c).2 in
  receive_ok 16 (steam_answer (w_trace w) c) →
  poll_messages p w
  = ((match m_on_data_received s with
      | Some _ => for_each messages (deliver_message p)
      | None => skip
      end) ;; for_each messages (λ m, call (ReleaseMessage m))) (with_calls [c] w).
Proof.
  intros Hs Hi Hc c messages (Hcount & Hmax & _). unfold poll_messages.
  erewrite bind_Done; [|by apply deref_Done]. rewrite Hi, bool_decide_eq_false_2 by done.
  cbn [negb orb]. change (call (ReceiveMessagesOnConnection (m_client_conn s) k_default_poll_message_count))
    with (call (O:=UdpClient CB) (U:=U) c).
  erewrite bind_Done; [|done]. erewrite bind_Done; [|by apply deref_Done].
  fold messages. fold messages in Hcount, Hmax. rewrite Hcount.
  unfold u64. rewrite wrap_small by (unfold fits; lia).
  unfold mbind, M_bind. destruct (m_on_data_received s).
  - rewrite slots_loop_for_each by lia. destruct (for_each _ _ _); [|done].
    by rewrite slots_loop_for_each by lia.
  - cbn. by rewrite slots_loop_for_each by lia.
Qed.

(** A dead connection: the count -1 becomes the largest [size_t], and the
    first loop that runs reads a slot the library never filled. *)
Lemma poll_messages_dead p w s :
  w_objs w !! p = Some s → m_client_interface s = true → m_client_conn s ≠ 0 →
  let c := ReceiveMessagesOnConnection (m_client_conn s) 16 in
  steam_answer (w_trace w) c = (-1, []) →
  poll_messages p w = Fault OutOfBounds (with_calls [c] w).
Proof.
  intros Hs Hi Hc c Hans. unfold poll_messages.
  erewrite bind_Done; [|by apply deref_Done]. rewrite Hi, bool_decide_eq_false_2 by done.
  cbn [negb orb]. change (call (ReceiveMessagesOnConnection (m_client_conn s) k_default_poll_message_count))
    with (call (O:=UdpClient CB) (U:=U) c).
  erewrite bind_Done; [|done]. rewrite Hans. erewrite bind_Done; [|by apply deref_Done].
  by destruct (m_on_data_received s).
Qed.

Lemma client_send_Done p data len reliable w s :
  w_objs w !! p = Some s → 0 ≤ len ≤ length data →
  send_raw p data len reliable w
  = if m_client_interface s && negb (bool_decide (m_client_conn s = 0)) then
      let c := SendMessageToConnection (m_client_conn s) (take (Z.to_nat (u32 len)) data)
                 (if reliable then SendReliable else SendUnreliable) in
      Done (bool_decide (steam_answer (w_trace w) c = k_EResultOK)) (with_calls [c] w)
    else Done false w.
Proof.
  intros Hs Hlen. unfold send_raw, k_invalid_connection.
  erewrite bind_Done; [|by apply deref_Done].
  destruct (m_client_interface s); [|done]. case_bool_decide as Hc; [done|]. cbn [negb orb andb].
  assert (0 ≤ u32 len ≤ len) as Hu.
  { split; [by apply wrap_fits|]. apply Z.mod_le; lia. }
  erewrite bind_Done; [|by apply read_bytes_Done; lia]. rewrite drop_0.
  erewrite bind_Done; [|done]. done.
Qed.
End events.
