(* ===== verification/Links.v ===== *)
(** * What a client promises: its link

    The abstract machine of [UdpClient]: the client of a process has no link, has
    one to a server, or has lost it; and it gets the connection events or not.
    The detailed operations are proved to implement it. *)

From S2P Require Import Prelude Bytes NetworkTypes Runtime UdpClient.
Local Open Scope Z_scope.

(** What [get_connection_status] answers goes with each. *)
Inductive link :=
| Unlinked (status : connection_status_t)
| Linked (conn : kb_connection_t) (status : connection_status_t)
| Broken (status : connection_status_t).       (** never made, or ended by the other side *)

(** The client, and whether events reach it. *)
Record links_state := Links {
  lk_client : option link;
  lk_events : bool;
}.

Definition link_with_status (st : connection_status_t) (l : link) : link :=
  match l with Unlinked _ => Unlinked st | Linked c _ => Linked c st | Broken _ => Broken st end.

Inductive link_step : relation links_state :=
| LkCreate : link_step (Links None false) (Links (Some (Unlinked disconnected)) false)
| LkOpen c st e :
    c ≠ 0 → link_step (Links (Some (Unlinked st)) e) (Links (Some (Linked c connecting)) true)
| LkFail st e :
    link_step (Links (Some (Unlinked st)) e) (Links (Some (Broken failed_to_connect)) true)
| LkStatus st l :
    st = connecting ∨ st = connected →
    link_step (Links (Some l) true) (Links (Some (link_with_status st l)) true)
| LkLose c st :                                  (** the other side ends it *)
    link_step (Links (Some (Linked c st)) true) (Links (Some (Broken disconnected)) true)
| LkLost st :
    link_step (Links (Some (Broken st)) true) (Links (Some (Broken disconnected)) true)
| LkSilence l e :                                (** events do not reach it any more *)
    link_step (Links (Some l) e) (Links (Some l) false)
| LkClose c st :                                 (** only once they do not *)
    link_step (Links (Some (Linked c st)) false) (Links (Some (Unlinked st)) false)
| LkDestroy st :
    link_step (Links (Some (Unlinked st)) false) (Links None false).

(** What a status change reported by the library does to a link. *)
Definition link_event (st : conn_state) (l : link) : link :=
  match st with
  | StateClosedByPeer | StateProblemDetectedLocally => Broken disconnected
  | StateConnecting => link_with_status connecting l
  | StateConnected => link_with_status connected l
  | StateNone | StateOther => l
  end.

(** What closing one's own end does. *)
Definition link_close (l : link) : link :=
  match l with Linked _ st => Unlinked st | _ => l end.

Lemma link_close_steps l e :
  rtc link_step (Links (Some l) e) (Links (Some (link_close l)) false).
Proof.
  eapply rtc_l; [apply LkSilence|]. destruct l; [apply rtc_refl|apply rtc_once, LkClose|apply rtc_refl].
Qed.

Lemma link_event_steps st l :
  (∀ st', l ≠ Unlinked st') →
  rtc link_step (Links (Some l) true) (Links (Some (link_event st l)) true).
Proof.
  intros Hl. assert (link_step (Links (Some l) true) (Links (Some (Broken disconnected)) true)) as Hend
    by (destruct l as [st'|c st'|st']; [by destruct (Hl st')|apply LkLose|apply LkLost]).
  destruct st; try apply rtc_refl; apply rtc_once; try exact Hend; apply LkStatus; auto.
Qed.

(** ** Invariants of the machine *)

(** Events reach a client that has, or has lost, its link. *)
Definition events_linked (lk : links_state) : Prop :=
  lk_events lk = true → ∃ l, lk_client lk = Some l ∧ ∀ st, l ≠ Unlinked st.

Lemma link_step_linked lk lk' : link_step lk lk' → events_linked lk → events_linked lk'.
Proof.
  intros Hstep Hl. unfold events_linked in *.
  destruct Hstep as [| | |st l| | | | |]; simpl in *; try done; intros _; try by eexists.
  destruct (Hl eq_refl) as (l' & [= <-] & Hne). eexists. split; [done|].
  destruct l; [by destruct (Hne status)|done..].
Qed.

(** No step leads out of a lost link. *)
Definition broken (lk : links_state) : Prop := ∃ st, lk_client lk = Some (Broken st).

Lemma broken_stays lk lk' : rtc link_step lk lk' → broken lk → broken lk'.
Proof.
  induction 1 as [|lk1 lk2 lk3 Hstep _ IH]; [done|]. intros [st Hb]. apply IH.
  destruct Hstep; simpl in *; simplify_eq; by eexists.
Qed.

(** ** The abstraction *)

Section abstraction.
Context {A CB U : Type}.
Local Abbreviation W := (world A (UdpClient CB) U).
Implicit Types (w : W) (s : UdpClient CB) (p : positive).

(** A thread without a connection is the mark of a lost link: nothing joins it. *)
Definition link_of s : link :=
  if decide (m_client_conn s ≠ 0) then Linked (m_client_conn s) (m_connection_status s)
  else if m_client_thread s then Broken (m_connection_status s)
  else Unlinked (m_connection_status s).

Lemma link_of_linked s : m_client_conn s ≠ 0 → link_of s = Linked (m_client_conn s) (m_connection_status s).
Proof. intros Hc. unfold link_of. by rewrite decide_True. Qed.
Lemma link_of_lost s : m_client_conn s = 0 → m_client_thread s = true → link_of s = Broken (m_connection_status s).
Proof. intros Hc Ht. unfold link_of. rewrite decide_False by tauto. by rewrite Ht. Qed.
Lemma link_of_none s : m_client_conn s = 0 → m_client_thread s = false → link_of s = Unlinked (m_connection_status s).
Proof. intros Hc Ht. unfold link_of. rewrite decide_False by tauto. by rewrite Ht. Qed.
Lemma link_of_threaded s st : m_client_thread s = true → link_of s ≠ Unlinked st.
Proof. intros Ht. unfold link_of. rewrite Ht. by case_decide. Qed.

Definition links p w : links_state :=
  Links (link_of <$> w_objs w !! p) (bool_decide (s_instance w = Some p)).

Lemma links_with_obj p s w :
  links p (with_obj p s w) = Links (Some (link_of s)) (bool_decide (s_instance w = Some p)).
Proof. unfold links. by rewrite lookup_with_obj. Qed.

Lemma links_lookup p s w :
  w_objs w !! p = Some s → links p w = Links (Some (link_of s)) (bool_decide (s_instance w = Some p)).
Proof. unfold links. by intros ->. Qed.

Lemma links_eq p w w' :
  w_objs w' !! p = w_objs w !! p → s_instance w' = s_instance w → links p w' = links p w.
Proof. unfold links. by intros -> ->. Qed.
End abstraction.
