(* ===== verification/UdpClientSafety.v ===== *)
(** * Safety of the UDP client

    The invariant of a process with one client, the contract of its data
    callback, and what every operation keeps: no fault, the link machine is
    followed, and the messages received are accounted for.  In two versions: when
    operations run one at a time, and when a client can be stopping while its
    thread still runs. *)

From S2P Require Import Prelude Bytes NetworkTypes Runtime.
From S2P Require Import Ledger UdpClient UdpClientSpec Links.
Local Open Scope Z_scope.

(** ** The invariant *)

Section invariant.
Context {A CB U : Type} `{SteamSockets A}.
Local Abbreviation W := (world A (UdpClient CB) U).
Implicit Types (k : threading) (w : W) (s : UdpClient CB) (p q : positive) (tr cs : list (steam_call A)).

(** A running client has a thread and a connection; a connection is alive, and
    the library is there; a client that does not run has no connection, unless it
    is waiting for its thread. *)
Record client_ok k tr s : Prop := {
  cok_running : m_running s = true → m_client_thread s = true ∧ m_client_conn s ≠ 0;
  cok_live : m_client_conn s ≠ 0 → m_client_interface s = true ∧ conn_live tr (m_client_conn s);
  cok_stopped : m_running s = false →
    m_client_conn s = 0 ∨ k = Interleaved ∧ m_client_thread s = true;
}.

(** The process has no client but [p]; one that gets the events has been
    connected. *)
Record client_world_inv k p w : Prop := {
  cw_client q s : w_objs w !! q = Some s → q = p ∧ client_ok k (w_trace w) s;
  cw_instance q : s_instance w = Some q →
    ∃ s, w_objs w !! q = Some s ∧ m_client_interface s = true ∧ m_client_thread s = true;
}.

(** Between operations. *)
Definition client_world_ok p w : Prop := client_world_inv Sequential p w.

Lemma cok_conn {k} tr s : client_ok k tr s → m_running s = true → conn_live tr (m_client_conn s).
Proof. intros Hok Hr. by apply Hok, Hok. Qed.
Lemma cok_interface {k} tr s : client_ok k tr s → m_running s = true → m_client_interface s = true.
Proof. intros Hok Hr. by apply Hok, Hok. Qed.
Lemma cok_thread {k} tr s : client_ok k tr s → m_running s = true → m_client_thread s = true.
Proof. intros Hok Hr. by apply Hok. Qed.

Lemma cok_idle tr s : client_ok Sequential tr s → m_running s = false → m_client_conn s = 0.
Proof. intros Hok Hr. by destruct (cok_stopped _ _ _ Hok Hr) as [?|[? _]]. Qed.

Lemma client_ok_weaken k tr s : client_ok Sequential tr s → client_ok k tr s.
Proof. intros [Hr Hl Hs]. split; [done..|]. intros Hf. destruct (Hs Hf) as [?|[? _]]; [by left|done]. Qed.

Lemma client_world_weaken k p w : client_world_ok p w → client_world_inv k p w.
Proof.
  intros [Hc Hi]. split; [|done]. intros q s Hs. destruct (Hc q s Hs). by split; [|apply client_ok_weaken].
Qed.

(** The client has a data callback. *)
Definition has_data p w : Prop :=
  ∃ s, w_objs w !! p = Some s ∧ is_Some (m_on_data_received s).

Lemma client_ok_calls k tr cs s :
  client_ok k tr s → (∀ r d l, CloseConnection (m_client_conn s) r d l ∉ cs) → client_ok k (tr ++ cs) s.
Proof. intros [Hr Hl Hs] Hcs. split; [done| |done]. intros Hc. destruct (Hl Hc). auto using conn_live_app. Qed.

(** Members that change between operations of the network thread. *)
Lemma client_ok_with_thread k p w (th : option positive) : client_world_inv k p w → client_world_inv k p (with_thread th w).
Proof. by intros []; split. Qed.
Lemma client_ok_with_user k p w f : client_world_inv k p w → client_world_inv k p (with_user f w).
Proof. by intros []; split. Qed.

(** Replacing the client, with calls and a change of the instance. *)
Lemma client_world_replace k p (i : option positive) cs w s s' :
  client_world_inv k p w → w_objs w !! p = Some s → client_ok k (w_trace w ++ cs) s' →
  (i = None ∨ (m_client_interface s' = true ∧ m_client_thread s' = true) ∧ (i = Some p ∨ i = s_instance w)) →
  client_world_inv k p (with_obj p s' (with_instance i (with_calls cs w))).
Proof.
  intros [Hc Hi] Hs Hs' Hinst. split.
  - intros q t Hq. simpl in Hq. apply lookup_insert_Some in Hq as [[<- <-]|[Hne Hq]]; [done|].
    by destruct (Hc q t Hq).
  - intros q Hq. simpl in *. destruct Hinst as [->|[Hif [->| ->]]]; [done|..].
    + injection Hq as <-. exists s'. by rewrite lookup_insert_eq.
    + destruct (Hi q Hq) as (t & Ht & _). destruct (Hc q t Ht) as [-> _].
      exists s'. by rewrite lookup_insert_eq.
Qed.

(** Calls that close nothing. *)
Lemma client_world_calls k p cs w :
  client_world_inv k p w → (∀ c r d l, CloseConnection c r d l ∉ cs) → client_world_inv k p (with_calls cs w).
Proof.
  intros [Hc Hi] Hcs. split; [|done]. intros q s Hs. destruct (Hc q s Hs) as [-> Hok].
  split; [done|]. by apply client_ok_calls.
Qed.
End invariant.

(** A literal list of calls closes no connection. *)
Ltac no_close :=
  let Hin := fresh in
  repeat intro; match goal with Hin : _ ∈ _ |- _ =>
    repeat (apply elem_of_cons in Hin as [Hin|Hin]; [discriminate Hin|]);
    by apply elem_of_nil in Hin
  end.

(** ** What operations keep *)

Section keeping.
Context {A CB U : Type} `{SteamSockets A}.
Local Abbreviation W := (world A (UdpClient CB) U).
Implicit Types (k : threading) (w v : W) (s : UdpClient CB) (p q : positive) (cs : list (steam_call A)).
Implicit Types (d e : list steam_message).

(** The link machine goes on, and if the messages [d] were owed before, [d']
    are owed now. *)
Record client_progress p d d' w w' : Prop := ClientProgress {
  cp_links : rtc link_step (links p w) (links p w');
  cp_ledger e : ledger (d ++ e) (w_trace w) → ledger (d' ++ e) (w_trace w');
}.

Lemma client_progress_trans p d d' d'' w1 w2 w3 :
  client_progress p d d' w1 w2 → client_progress p d' d'' w2 w3 → client_progress p d d'' w1 w3.
Proof. intros [Hs Hl] [Hs' Hl']. split; [by etrans|auto]. Qed.

(** What an interleaved callback leaves alone: the thread, the library, a data
    callback, and the connection; only the loss of the connection, which reaches
    the client as an event, ends it. *)
Definition core_kept (heard : bool) s s' : Prop :=
  m_client_thread s' = m_client_thread s ∧ m_client_interface s' = m_client_interface s ∧
  (is_Some (m_on_data_received s) → is_Some (m_on_data_received s')) ∧
  (m_running s' = m_running s ∧ m_client_conn s' = m_client_conn s ∨
   heard = true ∧ m_running s' = false ∧ m_client_conn s' = 0).

Definition heard w : bool := match s_instance w with Some _ => true | None => false end.

Definition client_modest w w' : Prop :=
  s_instance w' = s_instance w ∧
  ∀ q s, w_objs w !! q = Some s → ∃ s', w_objs w' !! q = Some s' ∧ core_kept (heard w) s s'.

Lemma core_kept_refl b s : core_kept b s s.
Proof. split_and!; auto. Qed.

Lemma core_kept_trans b s1 s2 s3 : core_kept b s1 s2 → core_kept b s2 s3 → core_kept b s1 s3.
Proof.
  intros (Ht & Hi & Hd & Hc) (Ht' & Hi' & Hd' & Hc'). split_and!; [congruence..|auto|].
  destruct Hc' as [[Hr' Hc']|?]; [|by right]. by rewrite Hr', Hc'.
Qed.

Lemma client_modest_same w w' : s_instance w' = s_instance w → w_objs w' = w_objs w → client_modest w w'.
Proof. intros Hi Ho. split; [done|]. rewrite Ho. intros q s Hs. exists s. by split; [|apply core_kept_refl]. Qed.

Lemma client_modest_trans w1 w2 w3 : client_modest w1 w2 → client_modest w2 w3 → client_modest w1 w3.
Proof.
  intros [Hi Hm] [Hi' Hm']. split; [congruence|]. intros q s Hs.
  destruct (Hm q s Hs) as (s2 & Hs2 & Hk). destruct (Hm' q s2 Hs2) as (s3 & Hs3 & Hk').
  exists s3. split; [done|]. eapply core_kept_trans; [done|]. unfold heard in *. by rewrite <- Hi.
Qed.

(** What an operation keeps that runs from [w] to [w'] with the messages [d]
    owed before and [d'] after it. *)
Record client_keeps_owing k p d d' w w' : Prop := ClientKeeps {
  ck_ok : client_world_inv k p w';
  ck_shape : same_shape w w';
  ck_progress : client_progress p d d' w w';
  ck_modest : k = Interleaved → client_modest w w';
}.

Definition client_keeps k p {R} w : R → W → Prop := λ _, client_keeps_owing k p [] [] w.

Lemma ck_ledger k p d d' w w' e :
  client_keeps_owing k p d d' w w' → ledger (d ++ e) (w_trace w) → ledger (d' ++ e) (w_trace w').
Proof. intros Hk. apply (ck_progress _ _ _ _ _ _ Hk). Qed.

Lemma client_keeps_trans k p d d' d'' w v v' :
  client_keeps_owing k p d d' w v → client_keeps_owing k p d' d'' v v' → client_keeps_owing k p d d'' w v'.
Proof.
  intros [_ Hs Hp Hm] [Hv Hs' Hp' Hm'].
  split; [done|by etrans|by eapply client_progress_trans|eauto using client_modest_trans].
Qed.

Lemma client_keeps_frame k p d d' e w w' :
  client_keeps_owing k p d d' w w' → client_keeps_owing k p (d ++ e) (d' ++ e) w w'.
Proof.
  intros [Hw Hs [Hp Hl] Hm]. split; [done..| |done]. split; [done|].
  intros e'. rewrite <- !app_assoc. apply Hl.
Qed.

(** Steps between worlds with the same client and instance. *)
Lemma client_keeps_quiet k p d d' w w' :
  client_world_inv k p w' → w_objs w' = w_objs w → s_instance w' = s_instance w → w_thread w' = w_thread w →
  (∀ e, ledger (d ++ e) (w_trace w) → ledger (d' ++ e) (w_trace w')) → client_keeps_owing k p d d' w w'.
Proof.
  intros Hw Ho Hi Ht Hl. split; [done|by split; rewrite ?Ho| |by intros _; apply client_modest_same].
  split; [|done]. rewrite (links_eq p w w') by (by rewrite ?Ho). apply rtc_refl.
Qed.

Lemma client_keeps_refl k p w : client_world_inv k p w → client_keeps_owing k p [] [] w w.
Proof. intros Hw. by apply client_keeps_quiet. Qed.

Lemma client_keeps_calls k p cs w :
  client_world_inv k p w → Forall idle cs → (∀ c r x l, CloseConnection c r x l ∉ cs) →
  client_keeps_owing k p [] [] w (with_calls cs w).
Proof.
  intros Hw Hcs Hno. apply client_keeps_quiet; try done; [by apply client_world_calls|].
  intros e. by apply ledger_idle.
Qed.

(** Replacing the client, with calls that hand over and release nothing. *)
Lemma client_keeps_replace k p (i : option positive) cs w s s' :
  client_world_inv k p w → w_objs w !! p = Some s → client_ok k (w_trace w ++ cs) s' → Forall idle cs →
  (i = None ∨ (m_client_interface s' = true ∧ m_client_thread s' = true) ∧ (i = Some p ∨ i = s_instance w)) →
  rtc link_step (links p w) (Links (Some (link_of s')) (bool_decide (i = Some p))) →
  (k = Interleaved → i = s_instance w ∧ core_kept (heard w) s s') →
  client_keeps_owing k p [] [] w (with_obj p s' (with_instance i (with_calls cs w))).
Proof.
  intros Hw Hs Hs' Hcs Hi Hl Hm.
  split; [by eapply client_world_replace|by eapply same_shape_with_obj|split|].
  - by rewrite links_with_obj.
  - intros e. by apply ledger_idle.
  - intros Hk. destruct (Hm Hk) as [-> Hcore]. split; [done|]. intros q t Ht.
    destruct (cw_client _ _ _ Hw q t Ht) as [-> _]. exists s'. rewrite lookup_with_obj.
    split; [done|]. congruence.
Qed.

(** A change that is left to one operation at a time. *)
Lemma client_keeps_sequential p (w w' : W) :
  client_world_ok p w → client_keeps_owing Interleaved p [] [] w w' →
  client_keeps_owing Sequential p [] [] w w'.
Proof.
  intros Hw [[Hc Hi] [Hdom Hth] Hp Hm]. split; [split; [|done]|done|done|done].
  intros q s' Hs'. destruct (Hc q s' Hs') as [-> [Hr Hl _]]. split; [done|]. split; [done..|].
  intros Hf. left.
  assert (is_Some (w_objs w !! p)) as [s Hs] by (apply elem_of_dom; rewrite <- Hdom; apply elem_of_dom; by eexists).
  destruct (proj2 (Hm eq_refl) p s Hs) as (s2 & Hs2 & _ & _ & _ & [[Hr2 Hc2]|(_ & _ & ?)]); [|congruence].
  assert (s2 = s') as -> by congruence. rewrite Hc2. destruct (cw_client _ _ _ Hw p s Hs) as [_ Hok].
  eapply cok_idle; [done|congruence].
Qed.
End keeping.

(** What an operation keeps that may run the data callback. *)
Section going_on.
Context {A CB U : Type} `{SteamSockets A} `{CallbackContract U}.
Local Abbreviation W := (world A (UdpClient CB) U).
Implicit Types (k : threading) (w v : W) (p : positive).

Definition client_goes_on_owing k p d d' w w' : Prop :=
  client_keeps_owing k p d d' w w' ∧ user_frame (w_user w) (w_user w').
Definition client_goes_on k p w w' : Prop := client_goes_on_owing k p [] [] w w'.

(** A state in which callbacks may run. *)
Definition client_good k p w : Prop := client_world_inv k p w ∧ ready w.

Lemma client_goes_on_steady k p d d' w w' : client_goes_on_owing k p d d' w w' → steady w w'.
Proof. intros [Hk Hu]. split; [apply Hk|done]. Qed.

Lemma client_goes_on_good k p d d' w w' :
  client_good k p w → client_goes_on_owing k p d d' w w' → client_good k p w'.
Proof.
  intros [_ Hr] Hg. split; [apply Hg|]. by eapply steady_ready; [eapply client_goes_on_steady|].
Qed.

Lemma client_goes_on_lookup k p d d' w w' q :
  client_goes_on_owing k p d d' w w' → is_Some (w_objs w !! q) → is_Some (w_objs w' !! q).
Proof. intros Hg. eapply steady_lookup. by eapply client_goes_on_steady. Qed.

Lemma client_goes_on_refl k p w : client_world_inv k p w → client_goes_on k p w w.
Proof. intros Hw. split; [by apply client_keeps_refl|done]. Qed.

Lemma client_goes_on_trans k p d d' d'' w v v' :
  client_goes_on_owing k p d d' w v → client_goes_on_owing k p d' d'' v v' →
  client_goes_on_owing k p d d'' w v'.
Proof. intros [Hk Hu] [Hk' Hu']. split; [by eapply client_keeps_trans|by etrans]. Qed.

Lemma client_goes_on_frame k p d d' e w w' :
  client_goes_on_owing k p d d' w w' → client_goes_on_owing k p (d ++ e) (d' ++ e) w w'.
Proof. intros [Hk Hu]. split; [by apply client_keeps_frame|done]. Qed.

(** Operations that run no callback. *)
Lemma wp_client_keeps {R} k p (m : M W R) w :
  private m → wp m (client_keeps k p w) w → wp m (λ _, client_goes_on k p w) w.
Proof.
  intros Hm Hk. eapply wp_mono; [by apply wp_private|]. intros r v [Hv Hu]. split; [done|]. by rewrite Hu.
Qed.

(** User code that changes nothing but its own state. *)
Lemma client_goes_on_user k p f w :
  client_world_inv k p w → user_frame (w_user w) (f (w_user w)) → client_goes_on k p w (with_user f w).
Proof. intros Hw Hu. split; [|done]. by apply client_keeps_quiet; [apply client_ok_with_user|..]. Qed.

(** On the network thread. *)
Lemma client_good_thread k p (th : option positive) w : client_good k p w → client_good k p (with_thread th w).
Proof. intros [Hw Hr]. split; [by apply client_ok_with_thread|done]. Qed.

Lemma client_goes_on_thread k p d d' (th : option positive) w v :
  client_goes_on_owing k p d d' (with_thread th w) v →
  client_goes_on_owing k p d d' w (with_thread (w_thread w) v).
Proof.
  intros [[Hv [Hdom _] [Hlk Hl] Hm] Hu]. split; [|done].
  split; [by apply client_ok_with_thread|done|by split|done].
Qed.

Lemma client_goes_on_sequential p w w' :
  client_world_ok p w → client_goes_on Interleaved p w w' → client_goes_on Sequential p w w'.
Proof. intros Hw [Hk Hu]. split; [by apply client_keeps_sequential|done]. Qed.
End going_on.

(** The data callback, where it may run, is itself a correct use of the client,
    keeps it in place, does not take the callback away, and stays within its
    frame. *)
Class ClientCallbacksLaws (k : threading) A CB U `{SteamSockets A, ClientCallbacks A CB U, CallbackContract U} :=
  run_on_data_received_ok p cb msg (w : world A (UdpClient CB) U) :
    client_good k p w → has_data p w → view_size msg = length (view_data msg) →
    length (view_data msg) < 2 ^ 31 →
    wp (run_on_data_received cb msg) (λ _ w', client_goes_on k p w w' ∧ has_data p w') w.

(** A callback fit for interleaving is fit for one operation at a time. *)
Lemma client_sequential_laws A CB U `{SteamSockets A, ClientCallbacks A CB U, CallbackContract U} :
  ClientCallbacksLaws Interleaved A CB U → ClientCallbacksLaws Sequential A CB U.
Proof.
  intros Hlaws p cb msg w [Hw Hr] Hd Hsize Hlen. eapply wp_mono.
  - by apply (Hlaws p cb msg); [split; [apply client_world_weaken|]|..].
  - intros [] v [Hv Hd']. split; [by apply client_goes_on_sequential|done].
Qed.

(** ** Operations keep the invariant *)

Section private_operations.
Context {A CB U : Type} `{SteamIPAddr A} `{SteamSockets A}.

Lemma client_iface_private p c : private (iface (CB:=CB) (U:=U) p c).
Proof. unfold iface. private. Qed.
#[local] Hint Resolve client_iface_private : private.
Lemma client_construct_private p : private (construct (A:=A) (CB:=CB) (U:=U) p).
Proof. unfold construct. private. Qed.
Lemma client_stop_private p : private (stop (CB:=CB) (U:=U) p).
Proof. unfold stop, join_network_thread, close_connection. private. Qed.
Lemma client_destruct_private p : private (destruct_client (CB:=CB) (U:=U) p).
Proof. unfold destruct_client. pose proof client_stop_private. private. Qed.
Lemma client_connect_private p a pt : private (connect (CB:=CB) (U:=U) p a pt).
Proof. unfold connect, try_connect, spawn_network_thread. private. Qed.
Lemma client_send_private p data len reliable : private (send_raw (CB:=CB) (U:=U) p data len reliable).
Proof. unfold send_raw, read_bytes. private. Qed.
Lemma client_event_private p info : private (on_connection_status_changed (CB:=CB) (U:=U) p info).
Proof. unfold on_connection_status_changed. private. Qed.
Lemma client_set_on_data_private p cb : private (set_on_data_callback (CB:=CB) (U:=U) p (A:=A) cb).
Proof. unfold set_on_data_callback. private. Qed.
Lemma client_callback_private info : private (connection_status_changed_callback (CB:=CB) (U:=U) info).
Proof. unfold connection_status_changed_callback. pose proof client_event_private. private. Qed.
End private_operations.

#[export] Hint Resolve client_set_on_data_private client_iface_private client_construct_private client_stop_private
  client_destruct_private client_connect_private client_send_private client_callback_private : private.

Section operations_ok.
Context {A CB U : Type} `{SteamIPAddr A} `{SteamSockets A} `{!SteamLaws A}.
Local Abbreviation W := (world A (UdpClient CB) U).
Implicit Types (k : threading) (w : W) (s : UdpClient CB) (p q : positive).

Lemma client_close_idle s : Forall idle (client_close_calls (A:=A) s).
Proof. unfold client_close_calls. case_decide; by repeat constructor. Qed.

(** Construction, in a process without a client. *)
Lemma client_construct_ok k p w :
  client_world_inv k p w → w_objs w = ∅ →
  wp (construct p) (λ _ w', client_world_inv k p w' ∧ w_objs w' = {[p := client_init]} ∧
    w_thread w' = w_thread w ∧ w_trace w' = w_trace w ∧
    links p w = Links None false ∧ links p w' = Links (Some (Unlinked disconnected)) false) w.
Proof.
  intros Hw Hop. assert (s_instance w = None) as Hinst.
  { destruct (s_instance w) as [q|] eqn:Hq; [|done].
    destruct (cw_instance _ _ _ Hw q Hq) as (s & Hs & _). by rewrite Hop in Hs. }
  unfold construct. wp_steps. split; [split|].
  - intros q s Hq. simpl in Hq. apply lookup_insert_Some in Hq as [[<- <-]|[_ Hq]]; [|by rewrite Hop in Hq].
    split; [done|]. by split; [..|left].
  - intros q Hq. simpl in Hq. congruence.
  - split_and!; [simpl; by rewrite Hop|done..| |].
    + unfold links. by rewrite Hop, Hinst.
    + rewrite links_with_obj, Hinst. done.
Qed.

Lemma client_stop_ok p w s :
  client_world_ok p w → w_objs w !! p = Some s → w_thread w ≠ Some p →
  wp (stop p) (λ _ w', client_keeps Sequential p w tt w' ∧ s_instance w' = None ∧
    links p w' = Links (Some (link_close (link_of s))) false ∧
    ∃ s', w_objs w' !! p = Some s' ∧ m_running s' = false ∧
      (m_running s = true ∨ m_client_thread s = false → m_client_thread s' = false)) w.
Proof.
  intros Hw Hs Hth. destruct (cw_client _ _ _ Hw p s Hs) as [_ Hok].
  unfold wp. rewrite (client_stop_Done p w s Hs (cok_interface _ _ Hok)) by done.
  pose proof (link_close_steps (link_of s) (bool_decide (s_instance w = Some p))) as Hsteps.
  rewrite <- (links_lookup p s w Hs) in Hsteps.
  unfold client_stop_result. destruct (m_running s) eqn:Hr.
  - assert (link_of (client_stopped s) = link_close (link_of s)) as Hlk.
    { rewrite (link_of_linked s) by by apply Hok. by destruct s. }
    split; [|split; [done|split; [by rewrite links_with_obj, Hlk|]]].
    + eapply client_keeps_replace; [done..| |apply client_close_idle|by left|by rewrite Hlk|done].
      destruct s; split; simpl; auto; done.
    + exists (client_stopped s). rewrite lookup_with_obj. by destruct s.
  - assert (link_close (link_of s) = link_of s) as Hlk.
    { unfold link_of. rewrite (cok_idle _ _ Hok Hr). simpl. by destruct (m_client_thread s). }
    rewrite Hlk in *.
    assert (links p (with_instance None w) = Links (Some (link_of s)) false) as Hl by by apply links_lookup.
    split; [|split; [done|split; [done|]]].
    + split; [by destruct Hw; split|done|split; [by rewrite Hl|done]|done].
    + exists s. split; [done|]. split; [done|]. by intros [?|?].
Qed.

Lemma client_destruct_ok p w s :
  client_world_ok p w → w_objs w !! p = Some s → w_thread w ≠ Some p →
  (m_client_thread s = true → m_running s = true) →
  wp (destruct_client p) (λ _ w', client_world_ok p w' ∧ w_objs w' = ∅ ∧
    w_thread w' = w_thread w ∧ client_progress p [] [] w w' ∧ links p w' = Links None false) w.
Proof.
  intros Hw Hs Hth Hzombie. unfold destruct_client. apply wp_bind.
  eapply wp_mono; [by eapply client_stop_ok|].
  intros [] w' ([Hw' [Hdom Hth'] [Hlk Hl] _] & Hinst & Hlk' & s' & Hs' & Hr' & Ht'). wp_steps.
  specialize (Ht' ltac:(destruct (m_client_thread s); auto)). rewrite Ht'. wp_steps.
  assert (links p (with_objs (delete p) w') = Links None false) as Hgone.
  { unfold links. simpl. by rewrite lookup_delete_eq, Hinst. }
  split_and!; [| |done| |done].
  - split; simpl; [|by rewrite Hinst].
    intros q t [_ Hq]%lookup_delete_Some. by apply (cw_client _ _ _ Hw').
  - apply map_empty. intros q. destruct (decide (q = p)) as [->|Hne]; [apply lookup_delete_eq|].
    simpl. rewrite lookup_delete_ne by done. destruct (w_objs w' !! q) as [t|] eqn:Hq; [|done].
    by destruct (cw_client _ _ _ Hw' q t Hq).
  - split; [|exact Hl]. etrans; [exact Hlk|]. rewrite Hgone. apply rtc_once.
    rewrite (links_lookup p s' w' Hs'), Hinst.
    destruct (cw_client _ _ _ Hw' p s' Hs') as [_ Hok'].
    rewrite link_of_none; [apply LkDestroy|by eapply cok_idle|done].
Qed.

(** A connection attempt: what it answers says what became of the link. *)
Definition link_opened (lk : links_state) (b : bool) (lk' : links_state) : Prop :=
  match lk_client lk, b with
  | Some (Unlinked _), true => ∃ c, c ≠ 0 ∧ lk' = Links (Some (Linked c connecting)) true
  | Some (Unlinked _), false => lk' = Links (Some (Broken failed_to_connect)) true
  | _, b => b = false ∧ lk' = lk
  end.

Lemma link_opened_steps lk b lk' : link_opened lk b lk' → rtc link_step lk lk'.
Proof.
  unfold link_opened. destruct lk as [[[st|c st|st]|] e]; simpl.
  - destruct b; [intros (c & Hc & ->)|intros ->]; apply rtc_once; [by apply LkOpen|apply LkFail].
  - intros [_ ->]. apply rtc_refl.
  - intros [_ ->]. apply rtc_refl.
  - intros [_ ->]. apply rtc_refl.
Qed.

Lemma client_connect_ok p a pt w s :
  client_world_ok p w → w_objs w !! p = Some s →
  steam_answer (w_trace w) SteamNetworkingSockets = true →
  (m_client_thread s = true → m_running s = true) →
  wp (connect p a pt) (λ b w', client_keeps Sequential p w b w' ∧ link_opened (links p w) b (links p w')) w.
Proof.
  intros Hw Hs Hlib Hzombie. destruct (cw_client _ _ _ Hw p s Hs) as [_ Hok].
  unfold wp. rewrite (connect_Done p a pt w s Hs Hlib). unfold connect_result.
  destruct (m_running s) eqn:Hr.
  { split; [by apply client_keeps_refl|]. rewrite (links_lookup p s w Hs), link_of_linked by by apply Hok. done. }
  cbv zeta.
  assert (m_client_thread s = false) as Ht by (destruct (m_client_thread s); [by specialize (Hzombie eq_refl)|done]).
  pose proof (cok_idle _ _ Hok Hr) as Hconn.
  assert (∀ (b : bool) s' cs, client_ok Sequential (w_trace w ++ cs) s' → Forall idle cs → m_client_thread s' = true →
    m_client_interface s' = true →
    link_of s' = (if b then Linked (m_client_conn s') connecting else Broken failed_to_connect) →
    (b = true → m_client_conn s' ≠ 0) →
    let w' := with_obj p s' (with_instance (Some p) (with_calls cs w)) in
    client_keeps Sequential p w b w' ∧ link_opened (links p w) b (links p w')) as Hkeep.
  { intros b s' cs Hok' Hcs Ht' Hi' Hl' Hb w'.
    assert (links p w' = Links (Some (link_of s')) true) as Hlw
      by (unfold w'; rewrite links_with_obj; simpl; by rewrite bool_decide_eq_true_2).
    assert (link_opened (links p w) b (links p w')) as Hopened.
    { rewrite Hlw, Hl', (links_lookup p s w Hs), link_of_none by done. unfold link_opened.
      destruct b; [|done]. simpl. eauto. }
    split; [|done].
    eapply client_keeps_replace; [done..|by right; split; [|left]| |done].
    rewrite bool_decide_eq_true_2, <- Hlw by done. by eapply link_opened_steps. }
  destruct (ParseString (address_with_port a pt)) as [addr|]; [case_decide as Hc|];
    unfold connect_end; (destruct s; simpl in *; subst); autorewrite with world;
    lazymatch goal with
    |- client_keeps _ _ _ ?b (with_obj p ?s' (with_instance (Some p) (with_calls ?cs w))) ∧ _ =>
        apply (Hkeep b s' cs); [|by simpl; repeat constructor|done|done|by first [apply link_of_lost|apply link_of_linked]|done]
    end.
  1, 3: split; simpl; auto; done.
  split; simpl; [done| |done]. intros _. split; [done|].
  pose proof (conn_live_connect _ addr Hc) as Hl. by rewrite <- app_assoc in Hl.
Qed.

Lemma client_event_ok k p info w s :
  client_world_inv k p w → w_objs w !! p = Some s → s_instance w = Some p →
  wp (on_connection_status_changed p info) (λ _ w', client_keeps k p w tt w' ∧
    links p w' = Links (Some (link_event (sc_state info) (link_of s))) true) w.
Proof.
  intros Hw Hs Hinst. destruct (cw_client _ _ _ Hw p s Hs) as [_ Hok].
  destruct (cw_instance _ _ _ Hw p Hinst) as (s' & Hs' & Hi & Ht). assert (s' = s) as -> by congruence.
  unfold wp. rewrite (client_event_Done p info w s Hs Hi).
  assert (link_of (after_event info s) = link_event (sc_state info) (link_of s)) as Hlk.
  { unfold after_event, link_event. destruct (sc_state info); try done; destruct s; simpl in *; subst; try done.
    all: unfold link_of; simpl; by case_decide. }
  rewrite links_with_obj, Hlk. simpl. rewrite bool_decide_eq_true_2 by done. split; [|done].
  assert (with_obj p (after_event info s) (with_calls (event_calls info) w)
    = with_obj p (after_event info s) (with_instance (s_instance w) (with_calls (event_calls info) w)))
    as -> by by destruct w.
  eapply client_keeps_replace; [done..| | | | |].
  - unfold after_event, event_calls. destruct (sc_state info); rewrite ?app_nil_r; try done.
    all: destruct Hok; destruct s; simpl in *; by split; auto.
  - unfold event_calls. destruct (sc_state info); by repeat constructor.
  - right. split; [|by right]. unfold after_event. destruct (sc_state info); by destruct s.
  - rewrite (links_lookup p s w Hs), Hinst, Hlk, bool_decide_eq_true_2 by done.
    apply link_event_steps. intros st. by apply link_of_threaded.
  - intros _. split; [done|]. unfold heard. rewrite Hinst. unfold after_event.
    destruct (sc_state info), s; split_and!; simpl in *; auto.
Qed.

(** A status change, wherever it goes. *)
Lemma client_status_callback_ok k p info w :
  client_world_inv k p w →
  wp (connection_status_changed_callback info) (λ _ w', client_keeps k p w tt w' ∧
    links p w' = if lk_events (links p w)
      then Links (link_event (sc_state info) <$> lk_client (links p w)) true else links p w) w.
Proof.
  intros Hw. unfold connection_status_changed_callback. wp_steps.
  destruct (s_instance w) as [q|] eqn:Hq.
  - destruct (cw_instance _ _ _ Hw q Hq) as (s & Hs & _). destruct (cw_client _ _ _ Hw q s Hs) as [-> _].
    eapply wp_mono; [by eapply client_event_ok|]. intros [] v [Hv ->]. split; [done|].
    by rewrite (links_lookup p s w Hs), Hq, bool_decide_eq_true_2.
  - wp_steps. split; [by apply client_keeps_refl|]. unfold links. by rewrite Hq.
Qed.

Lemma client_send_ok k p data len reliable w s :
  client_world_inv k p w → w_objs w !! p = Some s → 0 ≤ len ≤ length data →
  wp (send_raw p data len reliable) (λ b w', client_keeps k p w b w' ∧ w_objs w' = w_objs w ∧
    s_instance w' = s_instance w) w.
Proof.
  intros Hw Hs Hlen. unfold wp. rewrite (client_send_Done p data len reliable w s Hs Hlen).
  destruct (_ && _); (split; [|done]); [|by apply client_keeps_refl].
  apply client_keeps_calls; [done|by repeat constructor|no_close].
Qed.

(** Every message is released once, and only then paid for. *)
Lemma client_release_ok k p (messages : list steam_message) w :
  client_world_inv k p w →
  wp (for_each messages (λ m, call (ReleaseMessage m))) (λ _, client_keeps_owing k p messages [] w) w.
Proof.
  intros Hw. unfold wp. rewrite release_all_Done. apply client_keeps_quiet; try done.
  - apply client_world_calls; [done|].
    intros h r x l Hin. apply list_elem_of_fmap in Hin as (m & Hm & _). by discriminate Hm.
  - intros e. apply ledger_release_all.
Qed.

Lemma client_set_on_data_ok p cb w s :
  client_world_ok p w → w_objs w !! p = Some s →
  wp (set_on_data_callback p cb) (λ _ w', client_keeps Sequential p w tt w' ∧ links p w' = links p w) w.
Proof.
  intros Hw Hs. unfold set_on_data_callback. wp_steps.
  assert (link_of (set_on_data_received cb s) = link_of s) as Hlk by by destruct s.
  split; [|by rewrite links_with_obj, Hlk, (links_lookup p s w Hs)].
  assert (with_obj p (set_on_data_received cb s) w
    = with_obj p (set_on_data_received cb s) (with_instance (s_instance w) (with_calls [] w)))
    as -> by (rewrite with_calls_nil; by destruct w).
  eapply client_keeps_replace; [done..| |by constructor| | |done].
  - rewrite app_nil_r. destruct (cw_client _ _ _ Hw p s Hs) as [_ []]. by destruct s; split.
  - destruct (s_instance w) as [q|] eqn:Hq; [|by left]. right. split; [|by right].
    destruct (cw_instance _ _ _ Hw q Hq) as (t & Ht & Hi & Htt).
    destruct (cw_client _ _ _ Hw q t Ht) as [-> _]. assert (t = s) as -> by congruence. by destruct s.
  - rewrite Hlk, (links_lookup p s w Hs). apply rtc_refl.
Qed.
End operations_ok.

Section polling.
Context {A CB U : Type} `{SteamIPAddr A} `{SteamSockets A} `{!SteamLaws A}.
Context {k : threading} `{ClientCallbacks A CB U} `{CallbackContract U} `{!ClientCallbacksLaws k A CB U}.
Local Abbreviation W := (world A (UdpClient CB) U).
Implicit Types (w : W) (s : UdpClient CB) (p q : positive).

(** A message that is what it says it is. *)
Definition message_ok (m : steam_message) : Prop :=
  m_cbSize m = length (m_pData m) ∧ m_cbSize m < 2 ^ 31.

(** One message handed to the callback. *)
Lemma client_deliver_one_ok p (m : steam_message) w :
  client_good k p w → has_data p w → message_ok m →
  wp (deliver_message p m) (λ _ v, client_goes_on k p w v ∧ has_data p v) w.
Proof.
  intros Hgood Hd [Hsz Hmax]. unfold deliver_message. pose proof Hd as (t & Ht & cb & Hcb). wp_steps. rewrite Hcb.
  assert (u32 (m_cbSize m) = length (m_pData m)) as ->
    by (rewrite Hsz; apply wrap_small; unfold fits; lia).
  apply (run_on_data_received_ok (k:=k) p); [done..|simpl; lia].
Qed.

(** The first loop hands every message to the callback. *)
Lemma client_deliver_ok p (messages : list steam_message) w :
  client_good k p w → has_data p w → Forall message_ok messages →
  wp (for_each messages (deliver_message p)) (λ _, client_goes_on k p w) w.
Proof.
  intros Hgood Hdata Hall. rewrite Forall_forall in Hall.
  apply (wp_mono _ (λ _ v, client_goes_on k p w v ∧ has_data p v)); [|by intros [] v []].
  apply (wp_for_each messages (deliver_message p) (λ v, client_goes_on k p w v ∧ has_data p v)).
  - intros m v Hm [Hv Hd].
    eapply wp_mono; [apply client_deliver_one_ok; [by eapply client_goes_on_good|done|by apply Hall]|].
    intros [] v' [Hv' Hd']. split; [by eapply client_goes_on_trans|done].
  - split; [|done]. apply client_goes_on_refl, Hgood.
Qed.

(** What the library hands over. *)
Lemma client_receive_ok p w s :
  client_world_inv k p w → w_objs w !! p = Some s → m_client_conn s ≠ 0 →
  let c := ReceiveMessagesOnConnection (A:=A) (m_client_conn s) 16 in
  let messages : list steam_message := (steam_answer (w_trace w) c).2 in
  receive_ok 16 (steam_answer (w_trace w) c) ∧ client_goes_on_owing k p [] messages w (with_calls [c] w).
Proof.
  intros Hw Hs Hc c messages. destruct (cw_client _ _ _ Hw p s Hs) as [_ Hok].
  split; [by apply receive_live_conn, Hok|]. split; [|done].
  apply client_keeps_quiet; try done; [apply client_world_calls; [done|no_close]|].
  intros e. apply ledger_receive_conn.
Qed.

(** Releasing them runs no callback. *)
Lemma client_release_goes_on p (messages : list steam_message) w :
  client_world_inv k p w →
  wp (for_each messages (λ m, call (ReleaseMessage m))) (λ _, client_goes_on_owing k p messages [] w) w.
Proof.
  intros Hw. eapply wp_mono.
  - apply (wp_private (for_each messages (λ m, call (ReleaseMessage m)))); [private|]. by apply (client_release_ok k p).
  - intros [] v' [Hv' Hu]. split; [exact Hv'|]. by rewrite Hu.
Qed.

Lemma client_poll_messages_ok p w s :
  client_good k p w → w_objs w !! p = Some s → m_running s = true →
  wp (poll_messages p) (λ _, client_goes_on k p w) w.
Proof.
  intros Hgood Hs Hr. pose proof Hgood as [Hw Hrd]. destruct (cw_client _ _ _ Hw p s Hs) as [_ Hok].
  pose proof (proj2 (cok_running _ _ _ Hok Hr)) as Hc.
  destruct (client_receive_ok p w s Hw Hs Hc) as [Hrecv Hk].
  unfold wp. rewrite (poll_messages_Done p w s Hs (cok_interface _ _ Hok Hr) Hc Hrecv).
  set (c := ReceiveMessagesOnConnection _ _) in *. set (messages := (steam_answer (w_trace w) c).2) in *.
  apply wp_bind. apply (wp_mono _ (λ _, client_goes_on_owing k p [] messages w)).
  - destruct (m_on_data_received s) as [cb|] eqn:Hcb; [|by apply wp_skip].
    eapply wp_mono; [apply (client_deliver_ok p messages); [by eapply client_goes_on_good| |apply Hrecv]|].
    + exists s. split; [done|by exists cb].
    + intros [] v Hv. eapply client_goes_on_trans; [exact Hk|].
      exact (client_goes_on_frame _ _ _ _ messages _ _ Hv).
  - intros [] v Hv. eapply wp_mono; [by apply client_release_goes_on, Hv|].
    intros [] v' Hv'. by eapply client_goes_on_trans.
Qed.

(** Status changes, one after the other. *)
Lemma client_status_changes_ok p (infos : list status_changed) w :
  client_world_inv k p w →
  wp (for_each infos connection_status_changed_callback) (λ _, client_goes_on k p w) w.
Proof.
  intros Hw. apply (wp_for_each _ _ (client_goes_on k p w)); [|by apply client_goes_on_refl].
  intros info u _ Hu. eapply wp_mono; [apply (wp_client_keeps k p); [private|]|].
  - eapply wp_mono; [by apply client_status_callback_ok, Hu|]. by intros [] v [Hv _].
  - intros [] u' Hu'. by eapply client_goes_on_trans.
Qed.

(** The end of [poll]: the library's callbacks. *)
Definition run_callbacks p : M W unit :=
  s ← deref p;
  if m_client_interface s then
    call RunCallbacks ≫= λ infos : list status_changed,
    for_each infos connection_status_changed_callback
  else skip.

Lemma client_run_callbacks_ok p w :
  client_world_inv k p w → is_Some (w_objs w !! p) → wp (run_callbacks p) (λ _, client_goes_on k p w) w.
Proof.
  intros Hw [t Ht]. unfold run_callbacks. wp_steps.
  destruct (m_client_interface t); [|by wp_steps; apply client_goes_on_refl].
  wp_steps. assert (client_goes_on k p w (with_calls [RunCallbacks] w)) as Hv
    by (split; [apply client_keeps_calls; [done|by repeat constructor|no_close]|done]).
  eapply wp_mono; [by apply client_status_changes_ok, Hv|]. intros [] v Hv'. by eapply client_goes_on_trans.
Qed.

Lemma client_poll_ok p w :
  client_good k p w → is_Some (w_objs w !! p) → wp (poll p) (λ _, client_goes_on k p w) w.
Proof.
  intros Hgood [s Hs]. unfold poll. wp_steps.
  destruct (m_running s) eqn:Hr; [|by wp_steps; apply client_goes_on_refl, Hgood].
  cbn [negb]. wp_steps. eapply wp_mono; [by eapply client_poll_messages_ok|].
  intros [] v Hv. pose proof (client_goes_on_lookup _ _ _ _ _ _ p Hv ltac:(by eexists)) as Hp.
  eapply wp_mono; [apply (client_run_callbacks_ok p); [apply Hv|done]|].
  intros [] v' Hv'. by eapply client_goes_on_trans.
Qed.
End polling.
