(* ===== verification/UdpClientSystem.v ===== *)
(** * The UDP client as a system

    The operations on the client of a process as the steps of a transition
    system: the correct uses and their safety, what each does to the client's
    link, the thread nobody can join, and a simulated client. *)

From stdpp Require Import pretty.
From S2P Require Import Prelude Bytes NetworkTypes Packet Serde Runtime.
From S2P Require Import Ledger UdpClient UdpClientSpec Links UdpClientSafety Simulated.
Import Strings.Byte.
Local Open Scope Z_scope.

(** ** The transition system of one client *)

Inductive client_op (CB : Type) :=
| ClConstruct
| ClDestruct
| ClConnect (address : string) (port : Z)
| ClStop
| ClPoll
| ClNetworkIteration                          (** the network thread goes once round its loop *)
| ClStatusChanged (info : status_changed)
| ClSendRaw (data : list byte) (reliable : bool)
| ClSetOnData (cb : option CB).
Arguments ClConstruct {CB}.
Arguments ClDestruct {CB}.
Arguments ClConnect {CB}.
Arguments ClStop {CB}.
Arguments ClPoll {CB}.
Arguments ClNetworkIteration {CB}.
Arguments ClStatusChanged {CB}.
Arguments ClSendRaw {CB}.
Arguments ClSetOnData {CB}.

Section system.
Context {A CB U : Type} `{SteamIPAddr A} `{SteamSockets A} `{ClientCallbacks A CB U} `{CallbackContract U}.
Local Abbreviation W := (world A (UdpClient CB) U).
Implicit Types (w : W) (s : UdpClient CB) (p : positive).

(** One round of [network_loop] on the network thread. *)
Definition client_iteration p : M W unit :=
  on_thread p (running ← is_running p; if (running : bool) then poll p else skip).

Definition exec_client_op p (op : client_op CB) : M W unit :=
  match op with
  | ClConstruct => construct p
  | ClDestruct => destruct_client p
  | ClConnect a pt => connect p a pt ;; skip
  | ClStop => stop p
  | ClPoll => poll p
  | ClNetworkIteration => client_iteration p
  | ClStatusChanged info => connection_status_changed_callback info
  | ClSendRaw data reliable => send_raw p data (length data) reliable ;; skip
  | ClSetOnData cb => set_on_data_callback p cb
  end.

(** The thread of a client that stopped running by itself cannot be joined. *)
Definition zombie s : Prop := m_running s = false ∧ m_client_thread s = true.

(** The correct uses: one client, which is neither connected again nor
    destroyed once it has lost its connection, with the library initialised, and
    polled where its callback may run. *)
Definition client_op_allowed p (op : client_op CB) w : Prop :=
  match op with
  | ClConstruct => w_objs w = ∅
  | ClDestruct => ∃ s, w_objs w !! p = Some s ∧ ¬ zombie s
  | ClConnect _ _ => (∃ s, w_objs w !! p = Some s ∧ ¬ zombie s) ∧
      steam_answer (w_trace w) SteamNetworkingSockets = true
  | ClStatusChanged _ => True
  | ClPoll | ClNetworkIteration => is_Some (w_objs w !! p) ∧ ready w
  | _ => is_Some (w_objs w !! p)
  end.

Definition client_step p w w' : Prop :=
  ∃ op, client_op_allowed p op w ∧ exec_client_op p op w = Done tt w'.

(** What an operation does to the link. *)
Definition op_link (op : client_op CB) (lk lk' : links_state) : Prop :=
  match op with
  | ClConstruct => lk = Links None false ∧ lk' = Links (Some (Unlinked disconnected)) false
  | ClDestruct => lk' = Links None false
  | ClConnect _ _ => ∃ b, link_opened lk b lk'
  | ClStop => lk' = Links (link_close <$> lk_client lk) false
  | ClStatusChanged info =>
      lk' = if lk_events lk then Links (link_event (sc_state info) <$> lk_client lk) true else lk
  | ClPoll | ClNetworkIteration => rtc link_step lk lk'
  | ClSendRaw _ _ | ClSetOnData _ => lk' = lk
  end.

Definition client_initial (u : U) : W := World ∅ None None [] u.
Definition client_app_ok p w : Prop := client_world_ok p w ∧ w_thread w = None.
End system.

Section system_ok.
Context {A CB U : Type} `{SteamIPAddr A} `{SteamSockets A} `{!SteamLaws A}.
Context `{ClientCallbacks A CB U} `{CallbackContract U}.
Local Abbreviation W := (world A (UdpClient CB) U).
Implicit Types (k : threading) (w : W) (s : UdpClient CB) (p : positive).

Lemma not_zombie s : ¬ zombie s → m_client_thread s = true → m_running s = true.
Proof. unfold zombie. destruct (m_running s), (m_client_thread s); tauto. Qed.

Lemma client_iteration_ok k p w :
  ClientCallbacksLaws k A CB U → client_good k p w → is_Some (w_objs w !! p) →
  wp (client_iteration p) (λ _, client_goes_on k p w) w.
Proof.
  intros Hlaws Hgood [s Hs]. apply (client_good_thread _ _ (Some p)) in Hgood.
  apply wp_on_thread. unfold is_running. wp_steps. destruct (m_running s) eqn:Hr.
  - eapply wp_mono; [by apply client_poll_ok|]. intros [] v. apply client_goes_on_thread.
  - wp_steps. apply (client_goes_on_thread _ _ [] [] (Some p) w (with_thread (Some p) w)), client_goes_on_refl, Hgood.
Qed.

Context `{!ClientCallbacksLaws Sequential A CB U}.

(** Every allowed operation keeps the invariant and does not fault, messages are
    accounted for, and the link goes on as the operation says. *)
Lemma exec_client_op_ok p op w :
  client_app_ok p w → client_op_allowed p op w →
  wp (exec_client_op p op) (λ _ w', client_app_ok p w' ∧ client_progress p [] [] w w' ∧
    op_link op (links p w) (links p w')) w.
Proof.
  intros [Hw Hth] Hop.
  assert (w_thread w ≠ Some p) as Hnth by by rewrite Hth.
  assert (∀ v, client_keeps_owing Sequential p [] [] w v →
    client_app_ok p v ∧ client_progress p [] [] w v) as Hkeep.
  { intros v [Hv [_ Hthv] Hl _]. split; [|exact Hl]. split; [done|]. congruence. }
  assert (∀ v, client_goes_on Sequential p w v →
    client_app_ok p v ∧ client_progress p [] [] w v ∧ rtc link_step (links p w) (links p v)) as Hgo.
  { intros v [Hv _]. destruct (Hkeep v Hv) as [Hok Hp]. split; [done|]. split; [done|apply Hp]. }
  destruct op; simpl in Hop |- *.
  - eapply wp_mono; [by apply client_construct_ok|]. intros [] v (Hv & _ & Hthv & Htr & Hl & Hl').
    split; [split; [done|congruence]|]. rewrite Hl, Hl'.
    split; [|done]. split; [rewrite Hl, Hl'; apply rtc_once, LkCreate|by rewrite Htr].
  - destruct Hop as (s & Hs & Hz). eapply wp_mono; [eapply client_destruct_ok; [done..|by apply not_zombie]|].
    intros [] v (Hv & _ & Hthv & Hp & Hl). split; [split; [done|congruence]|done].
  - destruct Hop as [(s & Hs & Hz) Hlib]. apply wp_discard.
    eapply wp_mono; [eapply client_connect_ok; [done..|by apply not_zombie]|].
    intros b v [Hv Hl]. destruct (Hkeep v Hv). by split_and!; [..|exists b].
  - destruct Hop as [s Hs]. eapply wp_mono; [by eapply client_stop_ok|].
    intros [] v (Hv & _ & Hl & _). destruct (Hkeep v Hv). rewrite Hs. by split_and!.
  - destruct Hop as [Hp Hrd]. eapply wp_mono; [by apply (client_poll_ok (k:=Sequential))|]. intros [] v. apply Hgo.
  - destruct Hop as [Hp Hrd]. eapply wp_mono; [by apply (client_iteration_ok Sequential)|]. intros [] v. apply Hgo.
  - eapply wp_mono; [by apply client_status_callback_ok|].
    intros [] v [Hv Hl]. destruct (Hkeep v Hv). by split_and!.
  - destruct Hop as [s Hs]. apply wp_discard. eapply wp_mono; [eapply client_send_ok; [done..|lia]|].
    intros b v (Hv & Ho & Hi). destruct (Hkeep v Hv). split_and!; [done..|]. by apply links_eq; rewrite ?Ho.
  - destruct Hop as [s Hs]. eapply wp_mono; [by eapply client_set_on_data_ok|].
    intros [] v [Hv Hl]. destruct (Hkeep v Hv). by split_and!.
Qed.

Lemma client_initial_ok p (u : U) : client_app_ok p (client_initial (A:=A) (CB:=CB) u).
Proof. split; [|done]. split; [by intros q s Hq|done]. Qed.

Lemma client_steps_ok p (u : U) w :
  rtc (client_step p) (client_initial u) w → client_app_ok p w ∧ ledger [] (w_trace w).
Proof.
  intros Hr. pose proof (client_initial_ok p u) as Hok. pose proof ledger_nil as Hl.
  change [] with (w_trace (client_initial (A:=A) (CB:=CB) u)) in Hl at 2.
  revert Hok Hl. induction Hr as [|w1 w2 w3 (op & Hop & Hex) _ IH]; [done|]. intros Hok Hl.
  pose proof (exec_client_op_ok p op w1 Hok Hop) as Hwp. unfold wp in Hwp. rewrite Hex in Hwp.
  destruct Hwp as (Hok' & [_ Hl'] & _). by apply IH; [|apply (Hl' [])].
Qed.

Lemma client_reachable_ok p (u : U) w : rtc (client_step p) (client_initial u) w → client_app_ok p w.
Proof. intros Hr. by apply (client_steps_ok p u). Qed.

(** Events reach a client that has, or has lost, its link. *)
Lemma client_events_linked k p w : client_world_inv k p w → events_linked (links p w).
Proof.
  intros Hw He. simpl in He. apply bool_decide_eq_true in He.
  destruct (cw_instance _ _ _ Hw p He) as (s & Hs & _ & Ht).
  exists (link_of s). rewrite (links_lookup p s w Hs). split; [done|]. intros st. by apply link_of_threaded.
Qed.
End system_ok.

(** ** The thread nobody can join *)

Section zombies.
Context {A CB U : Type} `{SteamIPAddr A} `{SteamSockets A}.
Local Abbreviation W := (world A (UdpClient CB) U).
Implicit Types (w : W) (s : UdpClient CB) (p : positive).

Lemma zombie_stop p w s :
  w_objs w !! p = Some s → zombie s → stop p w = Done tt (with_instance None w).
Proof.
  intros Hs [Hr Ht]. rewrite (client_stop_Done p w s Hs) by congruence.
  unfold client_stop_result. by rewrite Hr.
Qed.

Lemma zombie_destruct p w s :
  w_objs w !! p = Some s → zombie s → ∃ w', destruct_client p w = Fault StdTerminate w'.
Proof.
  intros Hs Hz. eexists. unfold destruct_client. erewrite bind_Done; [|by eapply zombie_stop].
  erewrite bind_Done; [|by apply deref_Done]. by rewrite (proj2 Hz).
Qed.

Lemma zombie_connect p a pt w s :
  w_objs w !! p = Some s → zombie s → steam_answer (w_trace w) SteamNetworkingSockets = true →
  ∃ w', connect p a pt w = Fault StdTerminate w'.
Proof.
  intros Hs [Hr Ht] Hlib. rewrite (connect_Done p a pt w s Hs Hlib). unfold connect_result.
  rewrite Hr. destruct s; simpl in *; subst.
  destruct (ParseString _); [case_decide|]; by eexists.
Qed.

(** A lost link is one: connecting or destroying such a client terminates the
    process. *)
Lemma broken_zombie p w :
  client_world_ok p w → broken (links p w) → ∃ s, w_objs w !! p = Some s ∧ zombie s.
Proof.
  intros Hw [st Hb]. simpl in Hb. destruct (w_objs w !! p) as [s|] eqn:Hs; [|done]. injection Hb as Hb.
  exists s. split; [done|]. destruct (cw_client _ _ _ Hw p s Hs) as [_ Hok]. unfold link_of in Hb.
  case_decide as Hc; [done|]. destruct (m_client_thread s) eqn:Ht; [|done]. split; [|done].
  destruct (m_running s) eqn:Hr; [|done]. by destruct (cok_running _ _ _ Hok Hr).
Qed.

(** A failed attempt makes one. *)
Lemma failed_connect_zombie p a pt w w1 s :
  w_objs w !! p = Some s → m_running s = false →
  steam_answer (w_trace w) SteamNetworkingSockets = true →
  connect p a pt w = Done false w1 → ∃ s1, w_objs w1 !! p = Some s1 ∧ zombie s1.
Proof.
  intros Hs Hr Hlib. rewrite (connect_Done p a pt w s Hs Hlib). unfold connect_result, connect_end.
  rewrite Hr. intros Hc. cbv zeta in Hc.
  destruct (ParseString _); [case_decide|];
    (match type of Hc with (if ?b then _ else _) = _ => destruct b end; [done|]);
    (discriminate Hc || injection Hc as <-); eexists;
    (split; [apply lookup_with_obj|by destruct s]).
Qed.

(** So does a connection that closes. *)
Lemma closed_zombie info s :
  sc_state info = StateClosedByPeer ∨ sc_state info = StateProblemDetectedLocally →
  m_client_thread s = true → zombie (after_event info s).
Proof. unfold after_event. by intros [-> | ->]; destruct s. Qed.
End zombies.

(** ** Observing the callback *)

(** A callback that records the views it is given. *)
#[local] Instance log_views {A} : ClientCallbacks A unit (list incoming_view_message_t) :=
  λ _ msg, modify (with_user (λ l, l ++ [msg])).

(** The record only grows. *)
#[local] Instance views_contract : CallbackContract (list incoming_view_message_t).
Proof. by refine {| user_frame := prefix; callback_pre _ _ := True |}. Defined.

#[local] Instance log_views_laws k {A} `{SteamSockets A} :
  ClientCallbacksLaws k A unit (list incoming_view_message_t).
Proof.
  intros p cb msg w [Hw _] Hd _ _. split; [|done]. apply client_goes_on_user; [done|]. by apply prefix_app_r.
Qed.

Definition sim_client_world (ss : SteamSockets sim_addr) (ops : list (client_op unit))
    : world sim_addr (UdpClient unit) (list incoming_view_message_t) :=
  foldl (λ w op, match exec_client_op 1 op w with Done _ w' => w' | Fault _ w' => w' end)
    (client_initial []) ops.

Definition sim_client (w : world sim_addr (UdpClient unit) (list incoming_view_message_t))
    (p : positive) : UdpClient unit := default client_init (w_objs w !! p).

(** The boolean form of [client_op_allowed], and runs of allowed operations. *)
Definition client_op_allowed_b (ss : SteamSockets sim_addr) (op : client_op unit)
    (w : world sim_addr (UdpClient unit) (list incoming_view_message_t)) : bool :=
  let usable s := negb (negb (m_running s) && m_client_thread s) in
  match op, w_objs w !! 1%positive with
  | ClConstruct, _ => bool_decide (w_objs w = ∅)
  | ClStatusChanged _, _ => true
  | ClDestruct, Some s => usable s
  | ClConnect _ _, Some s => usable s && steam_answer (w_trace w) SteamNetworkingSockets
  | _, Some _ => true
  | _, None => false
  end.

Fixpoint client_run_ok (ss : SteamSockets sim_addr) w (ops : list (client_op unit)) : bool :=
  match ops with
  | [] => true
  | op :: ops =>
      client_op_allowed_b ss op w &&
      match exec_client_op 1 op w with
      | Done _ w' => client_run_ok ss w' ops
      | Fault _ _ => false
      end
  end.

Lemma client_op_allowed_b_sound ss op w :
  client_op_allowed_b ss op w = true → client_op_allowed 1 op w.
Proof.
  unfold client_op_allowed_b, client_op_allowed, zombie.
  destruct op; destruct (w_objs w !! 1%positive) as [s|] eqn:E; try done.
  1, 2: apply bool_decide_eq_true.
  all: try (by intros; eexists).
  all: destruct (m_running s) eqn:Hr, (m_client_thread s) eqn:Ht; simpl; try done; intros Hb.
  all: try (exists s; split; [done|]; intros [??]; congruence).
  all: (split; [exists s; split; [done|]; intros [??]; congruence|done]).
Qed.

Lemma sim_client_reachable (ss : SteamSockets sim_addr) ops :
  client_run_ok ss (client_initial []) ops = true →
  rtc (client_step 1) (client_initial []) (sim_client_world ss ops).
Proof.
  unfold sim_client_world.
  generalize (client_initial (A:=sim_addr) (CB:=unit) ([] : list incoming_view_message_t)).
  induction ops as [|op ops IH]; intros w Hok; [apply rtc_refl|]. simpl in Hok |- *.
  apply andb_true_iff in Hok as [Hop Hok]. apply client_op_allowed_b_sound in Hop.
  destruct (exec_client_op 1 op w) as [[] w'|] eqn:Hex; [|done].
  eapply rtc_l; [by exists op|]. by apply IH.
Qed.

Lemma sim_client_world_ok inbox statuses ops :
  let ss := sim_steam inbox statuses in
  Forall (λ m, length m.2 < 2 ^ 31) inbox → client_run_ok ss (client_initial []) ops = true →
  client_world_ok 1 (sim_client_world ss ops) ∧ w_thread (sim_client_world ss ops) = None.
Proof.
  intros ss Hin Hok. pose proof (sim_laws inbox statuses Hin) as Hlaws.
  apply (client_reachable_ok 1 []). by apply sim_client_reachable.
Qed.
