(* ===== verification/UdpClientRefines.v ===== *)
(** * The client implements its link

    What the detailed operations of [UdpClient] do to the abstract machine of
    [Links.v]. *)

From S2P Require Import Prelude Bytes NetworkTypes Packet Serde Runtime.
From S2P Require Import Ledger UdpClient UdpClientSpec Links UdpClientSafety Simulated UdpClientSystem.
Local Open Scope Z_scope.

Section refinement.
Context {A CB U : Type} `{SteamIPAddr A} `{SteamSockets A} `{!SteamLaws A}.
Context `{ClientCallbacks A CB U} `{CallbackContract U} `{!ClientCallbacksLaws Sequential A CB U}.
Local Abbreviation W := (world A (UdpClient CB) U).
Implicit Types (w : W) (p : positive).

(** C5: the operations on the one client of a process implement its link: in
    every reachable state, each operation that the state allows does to the
    abstract machine what its contract says (a stop closes the link and silences
    the events, but leaves a lost link lost; a status change reaches the client
    only while it gets the events; polling, where the data callback may run, goes
    some steps of the machine; sending changes nothing), all of it steps of the
    machine; events only reach a client that has or has lost its link; and a link
    once lost is lost for ever.  With the library initialised and a link that is
    not lost, a connection attempt of a client without a link that answers true
    opens one on a valid handle, one that answers false leaves it lost, and one of
    a linked client answers false and changes nothing.  The operations a lost link
    does not allow are to connect and to destroy the client: both terminate the
    process. *)
Theorem operations_refine_links (u : U) w p :
  rtc (client_step p) (client_initial u) w →
  (∀ op, client_op_allowed p op w →
     ∃ w', exec_client_op p op w = Done tt w' ∧
       op_link op (links p w) (links p w') ∧
       rtc link_step (links p w) (links p w') ∧
       events_linked (links p w') ∧
       (broken (links p w) → broken (links p w'))) ∧
  (∀ a pt, client_op_allowed p (ClConnect a pt) w →
     ∃ b w', connect p a pt w = Done b w' ∧ link_opened (links p w) b (links p w')) ∧
  (broken (links p w) →
     (∃ w', destruct_client p w = Fault StdTerminate w') ∧
     (∀ a pt, steam_answer (w_trace w) SteamNetworkingSockets = true →
        ∃ w', connect p a pt w = Fault StdTerminate w')).
Proof.
  intros Hr. pose proof (client_reachable_ok p u w Hr) as Hok. split_and!.
  - intros op Hop. pose proof (exec_client_op_ok p op w Hok Hop) as Hwp.
    apply wp_Done in Hwp as ([] & w' & Hex & [Hw' _] & [Hsteps _] & Hlink). exists w'.
    split_and!; [done..|by eapply client_events_linked|by apply broken_stays].
  - intros a pt [(s & Hs & Hz) Hlib]. destruct Hok as [Hw _].
    pose proof (client_connect_ok p a pt w s Hw Hs Hlib (not_zombie s Hz)) as Hwp.
    apply wp_Done in Hwp as (b & w' & Hex & _ & Hl). by exists b, w'.
  - intros Hb. destruct (broken_zombie p w (proj1 Hok) Hb) as (s & Hs & Hz).
    split; [by eapply zombie_destruct|]. intros a pt Hlib. by eapply zombie_connect.
Qed.
End refinement.

#[local] Existing Instance log_views.
#[local] Existing Instance views_contract.
#[local] Existing Instance log_views_laws.

(** A connected client whose server goes away, and which is stopped then. *)
Definition sim_lost : list (client_op unit) :=
  [ClConstruct; ClConnect "10.0.0.1" 80; ClStatusChanged (StatusChanged 2 StateConnected StateConnecting);
   ClStatusChanged (StatusChanged 2 StateClosedByPeer StateConnected)].

Lemma operations_refine_links_witness :
  let ss := sim_steam [] [] in
  let w := sim_client_world ss sim_lost in
  links 1 w = Links (Some (Broken disconnected)) true ∧
  (∃ w', exec_client_op 1 ClStop w = Done tt w' ∧ links 1 w' = Links (Some (Broken disconnected)) false) ∧
  ∃ w', destruct_client 1 w = Fault StdTerminate w'.
Proof.
  intros ss w. assert (SteamLaws sim_addr) as Hlaws by (apply sim_laws; by repeat constructor).
  split; [by vm_compute|].
  destruct (operations_refine_links [] w 1) as (Hops & _ & Hlost).
  - apply sim_client_reachable. by vm_compute.
  - split.
    + destruct (Hops ClStop) as (w' & Hex & Hl & _).
      * apply (client_op_allowed_b_sound ss ClStop). by vm_compute.
      * exists w'. split; [exact Hex|]. rewrite Hl. by vm_compute.
    + apply Hlost. exists disconnected. by vm_compute.
Defined.
