(* ===== verification/UdpClientProps.v ===== *)
(** * The properties of the UDP client

    Safety of every reachable state, connecting, stopping, polling and sending,
    and the behaviours that modelling showed. *)

From stdpp Require Import pretty.
From S2P Require Import Prelude Bytes NetworkTypes Packet Serde Runtime Ledger.
From S2P Require Import UdpClient UdpClientSpec Links UdpClientSafety Simulated UdpClientSystem.
Import Strings.Byte.
Local Open Scope Z_scope.
#[local] Existing Instance log_views.
#[local] Existing Instance views_contract.
#[local] Existing Instance log_views_laws.

(** ** Safety *)

Section safety.
Context {A CB U : Type} `{SteamIPAddr A} `{SteamSockets A} `{!SteamLaws A}.
Context `{ClientCallbacks A CB U} `{CallbackContract U} `{!ClientCallbacksLaws Sequential A CB U}.

(** In a process with one client, every correct use from every reachable
    state ends without a fault and keeps the client well-formed: connecting,
    stopping, polling by hand or on the network thread, status changes of any
    connection, sending, and destroying a client that has not lost its
    connection.  Every message received has then been released exactly once. *)
Theorem client_reachable_safe p (u : U) (w : world A (UdpClient CB) U) op :
  rtc (client_step p) (client_initial u) w → client_op_allowed p op w →
  ∃ w', exec_client_op p op w = Done tt w' ∧ client_world_ok p w' ∧ w_thread w' = None ∧
    ledger [] (w_trace w').
Proof.
  intros Hr Hop. destruct (client_steps_ok p u w Hr) as [Hok Hl].
  pose proof (exec_client_op_ok p op w Hok Hop) as Hwp.
  apply wp_Done in Hwp as ([] & w' & Hex & [Hw Hth] & [_ Hl'] & _). exists w'. split_and!; try done.
  by apply (Hl' []).
Qed.
End safety.

Definition sim_connected : list (client_op unit) :=
  [ClConstruct; ClSetOnData (Some tt); ClConnect "10.0.0.1" 80;
   ClStatusChanged (StatusChanged 3 StateConnected StateConnecting)].

Lemma client_reachable_safe_witness :
  let ss := sim_steam [(3, [x01])] [StatusChanged 3 StateConnected StateConnecting] in
  ∃ w', exec_client_op 1 ClNetworkIteration (sim_client_world ss sim_connected) = Done tt w' ∧
    client_world_ok 1 w' ∧ w_thread w' = None ∧ ledger [] (w_trace w').
Proof.
  intros ss.
  assert (SteamLaws sim_addr) as Hlaws by (apply sim_laws; by repeat constructor).
  apply (client_reachable_safe 1 []).
  - apply sim_client_reachable. by vm_compute.
  - apply (client_op_allowed_b_sound ss ClNetworkIteration). by vm_compute.
Defined.

(** ** Connecting *)

Section connect.
Context {A CB U : Type} `{SteamIPAddr A} `{SteamSockets A}.
Local Abbreviation W := (world A (UdpClient CB) U).
Implicit Types (w : W) (s : UdpClient CB) (p q : positive).

(** C28: connecting an idle client: an address that does not parse makes no
    connection; otherwise the parsed address is connected to once.  The answer
    and the status say whether the library gave a handle; in every case the
    network thread is started and the client becomes the static instance. *)
Theorem connect_outcomes p a pt w s :
  w_objs w !! p = Some s → m_running s = false → m_client_thread s = false →
  steam_answer (w_trace w) SteamNetworkingSockets = true →
  ∃ r w' s',
    connect p a pt w = Done r w' ∧ w_objs w' !! p = Some s' ∧ s_instance w' = Some p ∧
    m_running s' = r ∧ m_client_thread s' = true ∧
    m_connection_status s' = (if r then connecting else failed_to_connect) ∧
    match ParseString (a +:+ ":" +:+ pretty pt) with
    | None => r = false ∧ w_trace w' = w_trace w ++ [SteamNetworkingSockets]
    | Some addr =>
        let handle : Z :=
          steam_answer (w_trace w ++ [SteamNetworkingSockets]) (ConnectByIPAddress addr) in
        r = negb (bool_decide (handle = 0)) ∧ m_client_conn s' = handle ∧
        w_trace w' = w_trace w ++ [SteamNetworkingSockets; ConnectByIPAddress addr]
    end.
Proof.
  intros Hs Hr Ht Hlib. rewrite (connect_Done p a pt w s Hs Hlib).
  unfold connect_result, connect_end. rewrite Hr. cbv zeta. unfold address_with_port.
  destruct s as [? ? ? ? ? ?]; simpl in Hr, Ht; subst.
  destruct (ParseString _) as [addr|]; [case_decide as Hc|]; autorewrite with world;
    simpl m_client_thread; cbv iota; do 3 eexists; (split; [done|]); rewrite lookup_with_obj;
    (split; [done|]); split_and!; try done.
  - simpl. by rewrite bool_decide_eq_true_2.
  - simpl. by rewrite bool_decide_eq_false_2.
Qed.

(** A connection attempt that fails leaves a network thread that nothing
    joins: destroying the client, with or without [stop] before, and trying to
    connect again, all terminate the process. *)
Theorem failed_connect_terminates p a pt w w1 s :
  w_objs w !! p = Some s → m_running s = false → m_client_thread s = false →
  steam_answer (w_trace w) SteamNetworkingSockets = true →
  connect p a pt w = Done false w1 →
  (∃ w2, destruct_client p w1 = Fault StdTerminate w2) ∧
  (∃ w2 w3, stop p w1 = Done tt w2 ∧ destruct_client p w2 = Fault StdTerminate w3) ∧
  (∀ a' pt', steam_answer (w_trace w1) SteamNetworkingSockets = true →
     ∃ w2, connect p a' pt' w1 = Fault StdTerminate w2).
Proof.
  intros Hs Hr _ Hlib Hc.
  destruct (failed_connect_zombie p a pt w w1 s Hs Hr Hlib Hc) as (s1 & Hs1 & Hz).
  split; [by eapply zombie_destruct|]. split.
  - eexists. pose proof (zombie_stop p w1 s1 Hs1 Hz) as Hstop.
    destruct (zombie_destruct p (with_instance None w1) s1 Hs1 Hz) as [w3 Hd].
    exists w3. by split.
  - intros a' pt' Hlib'. by eapply zombie_connect.
Qed.

(** C38: when the peer closes the connection, or refuses the attempt, the
    connection is closed and the client stops running with the status
    [disconnected] (the status [failed_to_connect] set first is overwritten);
    its thread is no longer joined: [stop] does nothing, and destroying the
    client or connecting it again terminates the process. *)
Theorem lost_connection_terminates p info w s :
  client_world_ok p w → w_objs w !! p = Some s → m_running s = true → s_instance w = Some p →
  sc_state info = StateClosedByPeer ∨ sc_state info = StateProblemDetectedLocally →
  ∃ w1 s1,
    connection_status_changed_callback (CB:=CB) info w = Done tt w1 ∧
    w_objs w1 !! p = Some s1 ∧ m_running s1 = false ∧ m_client_conn s1 = 0 ∧
    m_connection_status s1 = disconnected ∧
    w_trace w1 = w_trace w ++ [CloseConnection (sc_conn info) 0 None false] ∧
    stop p w1 = Done tt (with_instance None w1) ∧
    (∃ w2, destruct_client p w1 = Fault StdTerminate w2) ∧
    (∀ a pt, steam_answer (w_trace w1) SteamNetworkingSockets = true →
       ∃ w2, connect p a pt w1 = Fault StdTerminate w2).
Proof.
  intros Hw Hs Hr Hinst Hst. destruct (cw_client _ _ _ Hw p s Hs) as [_ Hok].
  pose proof (cok_interface _ _ Hok Hr) as Hi. pose proof (cok_thread _ _ Hok Hr) as Ht.
  pose proof (closed_zombie info s Hst Ht) as Hz.
  unfold connection_status_changed_callback, gets. eexists _, (after_event info s).
  split; [erewrite bind_Done; [|done]; rewrite Hinst; by apply client_event_Done|].
  rewrite lookup_with_obj. split; [done|].
  assert (event_calls (A:=A) info = [CloseConnection (sc_conn info) 0 None false]) as ->
    by (unfold event_calls; by destruct Hst as [-> | ->]).
  split_and!; try (unfold after_event; by destruct Hst as [-> | ->], s).
  - eapply zombie_stop; [apply lookup_with_obj|done].
  - eapply zombie_destruct; [apply lookup_with_obj|done].
  - intros a pt Hlib. eapply zombie_connect; [apply lookup_with_obj|done..].
Qed.
End connect.

Lemma connect_outcomes_witness :
  let ss := sim_steam [] [] in
  let w := sim_client_world ss [ClConstruct] in
  ∃ r w', connect 1 "10.0.0.1" 80 w = Done r w' ∧
    w_trace w' = [SteamNetworkingSockets; ConnectByIPAddress (7 : sim_addr)].
Proof.
  intros ss w.
  destruct (connect_outcomes 1 "10.0.0.1" 80 w (sim_client w 1))
    as (r & w' & s' & Hc & _ & _ & _ & _ & _ & Hout); [by vm_compute..|].
  exists r, w'. split; [exact Hc|]. apply Hout.
Defined.

(** The only address the simulated library does not parse is ["bad:1"]. *)
Lemma failed_connect_terminates_witness :
  let ss := sim_steam [] [] in
  let w := sim_client_world ss [ClConstruct] in
  ∃ w1 w2, connect 1 "bad" 1 w = Done false w1 ∧ destruct_client 1 w1 = Fault StdTerminate w2.
Proof.
  intros ss w.
  pose (w1 := match connect 1 "bad" 1 w with Done _ w1 => w1 | Fault _ w1 => w1 end).
  assert (connect 1 "bad" 1 w = Done false w1) as Hc by by vm_compute.
  destruct (failed_connect_terminates 1 "bad" 1 w w1 (sim_client w 1)) as ((w2 & Hd) & _ & _);
    [by vm_compute..|exact Hc|].
  exists w1, w2. split; [exact Hc|exact Hd].
Defined.

Lemma lost_connection_terminates_witness :
  let ss := sim_steam [] [] in
  let w := sim_client_world ss sim_connected in
  ∃ w1 w2, connection_status_changed_callback (StatusChanged 2 StateClosedByPeer StateConnected) w
           = Done tt w1 ∧ destruct_client 1 w1 = Fault StdTerminate w2.
Proof.
  intros ss w.
  destruct (sim_client_world_ok [] [] sim_connected) as [Hw _]; [by repeat constructor|by vm_compute|].
  destruct (lost_connection_terminates 1 (StatusChanged 2 StateClosedByPeer StateConnected) w
    (sim_client w 1) Hw) as (w1 & s1 & Hev & _ & _ & _ & _ & _ & _ & (w2 & Hd) & _);
    [by vm_compute..|by left|].
  exists w1, w2. split; [exact Hev|exact Hd].
Defined.

(** ** Stopping *)

Section stopping.
Context {A CB U : Type} `{SteamSockets A}.
Local Abbreviation W := (world A (UdpClient CB) U).
Implicit Types (w : W) (s : UdpClient CB) (p : positive).

(** C35: stopping a running client from another thread joins its thread and
    closes its connection once, with linger; a second [stop] does nothing and
    the client can be destroyed; the connection status keeps the value it had
    while connected. *)
Theorem client_stop_closes p w s :
  client_world_ok p w → w_objs w !! p = Some s → m_running s = true → w_thread w ≠ Some p →
  ∃ w1 s1 w2,
    stop p w = Done tt w1 ∧ w_objs w1 !! p = Some s1 ∧
    m_running s1 = false ∧ m_client_thread s1 = false ∧ m_client_conn s1 = 0 ∧
    m_connection_status s1 = m_connection_status s ∧ s_instance w1 = None ∧
    w_trace w1 = w_trace w ++
      [CloseConnection (m_client_conn s) 0 (Some "UdpClient disconnecting"%string) true] ∧
    stop p w1 = Done tt w1 ∧
    destruct_client p w1 = Done tt w2 ∧ w_objs w2 = delete p (w_objs w1) ∧ w_trace w2 = w_trace w1.
Proof.
  intros Hw Hs Hr Hth. destruct (cw_client _ _ _ Hw p s Hs) as [_ Hok].
  pose proof (proj1 (cok_conn _ _ Hok Hr)) as Hconn.
  rewrite (client_stop_Done p w s Hs (cok_interface _ _ Hok)) by done.
  unfold client_stop_result. rewrite Hr.
  set (w1 := with_obj p (client_stopped s) _).
  assert (w_objs w1 !! p = Some (client_stopped s)) as Hs1 by apply lookup_with_obj.
  assert (stop p w1 = Done tt w1) as Hstop.
  { rewrite (client_stop_Done p w1 (client_stopped s) Hs1) by (by destruct s).
    unfold client_stop_result. by destruct s. }
  exists w1, (client_stopped s), (with_objs (delete p) w1).
  split_and!; try done; try (by destruct s).
  - unfold w1. simpl. unfold client_close_calls. by rewrite decide_True.
  - unfold destruct_client. erewrite bind_Done; [|exact Hstop].
    erewrite bind_Done; [|by apply deref_Done]. by destruct s.
Qed.
End stopping.

Lemma client_stop_closes_witness :
  let ss := sim_steam [] [] in
  let w := sim_client_world ss sim_connected in
  ∃ w1 s1, stop 1 w = Done tt w1 ∧ w_objs w1 !! 1%positive = Some s1 ∧
    m_connection_status s1 = connected ∧
    w_trace w1 = w_trace w ++ [CloseConnection 2 0 (Some "UdpClient disconnecting"%string) true].
Proof.
  intros ss w.
  destruct (sim_client_world_ok [] [] sim_connected) as [Hw _]; [by repeat constructor|by vm_compute|].
  destruct (client_stop_closes 1 w (sim_client w 1) Hw)
    as (w1 & s1 & w2 & Hstop & Hs1 & _ & _ & _ & Hst & _ & Htr & _); [by vm_compute..|].
  exists w1, s1. split; [exact Hstop|]. split; [exact Hs1|]. split; [rewrite Hst; by vm_compute|].
  rewrite Htr. by vm_compute.
Defined.

(** ** Two clients in one process *)

Section two_clients.
Context {A CB U : Type} `{SteamSockets A} `{!SteamLaws A} `{ClientCallbacks A CB U}.
Local Abbreviation W := (world A (UdpClient CB) U).
Implicit Types (w : W) (s t : UdpClient CB) (p q : positive).

(** A connection just closed is not live. *)
Lemma conn_closed_dead (tr : list (steam_call A)) c r d l :
  ¬ conn_live (tr ++ [CloseConnection c r d l]) c.
Proof.
  intros (_ & tr1 & tr2 & a & Htr & _ & Hno). destruct tr2 as [|x tr2 _] using rev_ind.
  - apply app_inj_tail in Htr as [_ Htr]. discriminate Htr.
  - rewrite app_comm_cons, app_assoc in Htr. apply app_inj_tail in Htr as [_ <-].
    apply (Hno r d l), elem_of_app. right. by apply list_elem_of_singleton.
Qed.

(** With two running clients, the last to connect receives the events of
    both: when the peer closes the first one's connection, the second stops
    running and drops its own connection without closing it, while the first
    goes on running with a closed handle, and its next poll reads messages
    that were never written. *)
Theorem second_client_breaks_both p q info w s t :
  w_objs w !! p = Some s → w_objs w !! q = Some t → p ≠ q →
  client_ok Sequential (w_trace w) s → client_ok Sequential (w_trace w) t →
  m_running s = true → m_running t = true → s_instance w = Some q →
  sc_state info = StateClosedByPeer → sc_conn info = m_client_conn s →
  m_client_conn s ≠ m_client_conn t →
  ∃ w1 t1 w2,
    connection_status_changed_callback info w = Done tt w1 ∧
    w_objs w1 !! p = Some s ∧
    w_objs w1 !! q = Some t1 ∧ m_running t1 = false ∧ m_client_conn t1 = 0 ∧
    conn_live (w_trace w1) (m_client_conn t) ∧
    poll p w1 = Fault OutOfBounds w2.
Proof.
  intros Hs Ht Hpq Hoks Hokt Hrs Hrt Hinst Hst Hconn Hne.
  set (close := CloseConnection (m_client_conn s) 0 None false : steam_call A).
  pose proof (cok_conn _ _ Hokt Hrt) as Hlive.
  unfold connection_status_changed_callback, gets.
  assert (event_calls (A:=A) info = [close]) as Hcalls
    by (unfold event_calls; by rewrite Hst, Hconn).
  eexists _, (after_event info t), _.
  split; [erewrite bind_Done; [|done]; rewrite Hinst; apply client_event_Done; [done|by eapply cok_interface]|].
  rewrite lookup_with_obj, lookup_with_obj_ne by done. rewrite Hcalls.
  split; [done|]. split; [done|].
  split; [unfold after_event; rewrite Hst; by destruct t|].
  split; [unfold after_event; rewrite Hst; by destruct t|].
  split.
  - apply conn_live_app; [done|]. intros r d l Hin%list_elem_of_singleton. unfold close in Hin; congruence.
  - set (w1 := with_obj q _ _).
    assert (w_objs w1 !! p = Some s) as Hs1 by (unfold w1; by rewrite lookup_with_obj_ne).
    unfold poll. erewrite bind_Done; [|by apply deref_Done]. rewrite Hrs. cbn [negb].
    erewrite bind_Fault; [done|]. apply (poll_messages_dead p w1 s Hs1).
    + by eapply cok_interface.
    + apply (cok_conn _ _ Hoks Hrs).
    + apply receive_closed_conn. apply conn_closed_dead.
Qed.
End two_clients.

(** Two clients, each connected, the second one last. *)
Definition sim_two_connected (ss : SteamSockets sim_addr) :
    world sim_addr (UdpClient unit) (list incoming_view_message_t) :=
  foldl (λ w '(p, op), match exec_client_op p op w with Done _ w' => w' | Fault _ w' => w' end)
    (client_initial [])
    [(1%positive, ClConstruct); (1%positive, ClConnect "10.0.0.1" 80);
     (2%positive, ClConstruct); (2%positive, ClConnect "10.0.0.2" 80)].

Lemma second_client_breaks_both_witness :
  let ss := sim_steam [] [] in
  let w := sim_two_connected ss in
  ∃ w1 w2, connection_status_changed_callback (StatusChanged 2 StateClosedByPeer StateConnected) w
           = Done tt w1 ∧ poll 1 w1 = Fault OutOfBounds w2.
Proof.
  intros ss w.
  assert (SteamLaws sim_addr) as Hlaws by (apply sim_laws; by repeat constructor).
  assert (client_ok Sequential (w_trace w) (sim_client w 1)) as Hok1.
  { split; [by vm_compute| |by vm_compute]. intros _. split; [by vm_compute|]. by apply sim_conn_live; vm_compute. }
  assert (client_ok Sequential (w_trace w) (sim_client w 2)) as Hok2.
  { split; [by vm_compute| |by vm_compute]. intros _. split; [by vm_compute|]. by apply sim_conn_live; vm_compute. }
  destruct (second_client_breaks_both 1 2 (StatusChanged 2 StateClosedByPeer StateConnected) w
    (sim_client w 1) (sim_client w 2)) as (w1 & t1 & w2 & Hev & _ & _ & _ & _ & _ & Hpoll);
    [by vm_compute|by vm_compute|done|exact Hok1|exact Hok2|by vm_compute..|].
  exists w1, w2. split; [exact Hev|exact Hpoll].
Defined.

(** ** Polling and sending *)

Section messages.
Context {A : Type} `{SteamSockets A} `{!SteamLaws A}.
Local Abbreviation W := (world A (UdpClient unit) (list incoming_view_message_t)).
Implicit Types (w : W) (s : UdpClient unit) (p : positive).

(** The view of a message the data callback is given. *)
Definition view_of s (m : steam_message) : list incoming_view_message_t :=
  match m_on_data_received s with
  | Some _ => [ViewMessage (m_client_conn s) (m_pData m) (length (m_pData m))]
  | None => []
  end.

Lemma deliver_all_Done p (messages : list steam_message) w s :
  w_objs w !! p = Some s → is_Some (m_on_data_received s) →
  Forall (λ m, m_cbSize m = length (m_pData m) ∧ m_cbSize m < 2 ^ 31) messages →
  for_each messages (deliver_message p) w
  = Done tt (with_user (λ l, l ++ (messages ≫= view_of s)) w).
Proof.
  intros Hs [cb Hcb] Hall. revert w Hs.
  induction Hall as [|m messages [Hsz Hmax] _ IH]; intros w Hs.
  { destruct w. unfold with_user. simpl. by rewrite app_nil_r. }
  cbn [for_each]. erewrite bind_Done.
  2: { unfold deliver_message. erewrite bind_Done; [|by apply deref_Done]. rewrite Hcb. done. }
  rewrite IH by done. f_equal. unfold with_user, view_of. simpl. rewrite Hcb.
  unfold u32. rewrite wrap_small by (unfold fits; lia). rewrite Hsz.
  by rewrite <- app_assoc.
Qed.

(** One poll of a running client, when the library reports no status
    change, hands the data callback every message received on the connection,
    in order and whole, then releases each message once, at most sixteen of
    them; without a callback they are only released; the client is unchanged.
    A client that does not run makes no call. *)
Theorem client_poll_delivers p w s :
  client_world_ok p w → w_objs w !! p = Some s →
  (m_running s = false → poll p w = Done tt w) ∧
  (m_running s = true →
     let receive := ReceiveMessagesOnConnection (m_client_conn s) 16 in
     let msgs : list steam_message := (steam_answer (w_trace w) receive).2 in
     let calls := receive :: (ReleaseMessage <$> msgs) in
     steam_answer (w_trace w ++ calls) RunCallbacks = [] →
     poll p w = Done tt (with_user (λ l, l ++ (msgs ≫= view_of s))
                          (with_calls (calls ++ [RunCallbacks]) w)) ∧
     length msgs ≤ 16).
Proof.
  intros Hw Hs. split.
  { intros Hr. unfold poll. erewrite bind_Done; [|by apply deref_Done]. by rewrite Hr. }
  intros Hr receive msgs calls Hcb. destruct (cw_client _ _ _ Hw p s Hs) as [_ Hok].
  pose proof (cok_interface _ _ Hok Hr) as Hi. pose proof (cok_conn _ _ Hok Hr) as Hlive.
  assert (receive_ok 16 (steam_answer (w_trace w) receive)) as Hrecv by by apply receive_live_conn.
  split; [|apply Hrecv].
  assert (poll_messages p w = Done tt (with_user (λ l, l ++ (msgs ≫= view_of s)) (with_calls calls w))) as Hmsgs.
  { rewrite (poll_messages_Done p w s Hs Hi (proj1 Hlive) Hrecv). fold receive msgs.
    erewrite bind_Done.
    2: { instantiate (1 := with_user (λ l, l ++ (msgs ≫= view_of s)) (with_calls [receive] w)).
         instantiate (1 := tt).
         destruct (m_on_data_received s) as [cb|] eqn:Hd.
         - apply (deliver_all_Done p msgs _ s); [done|by exists cb|apply Hrecv].
         - assert (msgs ≫= view_of s = []) as ->.
           { clear -Hd. induction msgs as [|m l IH]; [done|]. simpl. unfold view_of at 1. by rewrite Hd. }
           destruct w. unfold with_user. simpl. by rewrite app_nil_r. }
    rewrite release_all_Done. f_equal. unfold with_user, with_calls. simpl. by rewrite <- app_assoc. }
  unfold poll. erewrite bind_Done; [|by apply deref_Done]. rewrite Hr. cbn [negb].
  rewrite (bind_Done _ _ _ _ _ Hmsgs). erewrite bind_Done; [|by apply deref_Done]. rewrite Hi.
  erewrite bind_Done; [|done]. cbn [w_trace with_user with_calls]. rewrite Hcb.
  unfold for_each, skip, mret, M_ret. f_equal. unfold with_user, with_calls. simpl.
  by rewrite <- !app_assoc.
Qed.

(** [send_raw] sends on the client's connection, with the delivery asked
    for, the first [len mod 2^32] bytes, the whole buffer when it is shorter
    than 4 GiB, and answers whether the library took them; a client without a
    connection answers false and calls nothing. *)
Theorem send_raw_exact p data reliable w s :
  w_objs w !! p = Some s →
  let sent := take (Z.to_nat (length data mod 2 ^ 32)) data in
  let c : steam_call A := SendMessageToConnection (m_client_conn s) sent
             (match reliable with true => SendReliable | false => SendUnreliable end) in
  (m_client_interface s = false ∨ m_client_conn s = 0 →
     send_raw p data (length data) reliable w = Done false w) ∧
  (m_client_interface s = true → m_client_conn s ≠ 0 →
     send_raw p data (length data) reliable w
     = Done (bool_decide (steam_answer (w_trace w) c = k_EResultOK)) (with_calls [c] w)) ∧
  (length data < 2 ^ 32 → sent = data).
Proof.
  intros Hs sent c. rewrite (client_send_Done p data (length data) reliable w s Hs ltac:(lia)).
  split_and!.
  - intros [-> | ->]; [done|]. by rewrite bool_decide_eq_true_2, andb_false_r.
  - intros -> Hc. by rewrite bool_decide_eq_false_2.
  - intros Hlt. unfold sent. rewrite Z.mod_small by lia. by rewrite Nat2Z.id, firstn_all.
Qed.
End messages.

Lemma client_poll_delivers_witness :
  let ss := sim_steam [(2, [x01]); (2, [x02; x03])] [] in
  let w := sim_client_world ss sim_connected in
  ∃ w', poll 1 w = Done tt w' ∧ w_user w' = [ViewMessage 2 [x01] 1; ViewMessage 2 [x02; x03] 2].
Proof.
  intros ss w.
  assert (Forall (λ m : kb_connection_t * list byte, length m.2 < 2 ^ 31) [(2, [x01]); (2, [x02; x03])])
    as Hin by by repeat constructor.
  pose proof (sim_laws _ [] Hin) as Hlaws.
  destruct (sim_client_world_ok _ [] sim_connected Hin) as [Hw _]; [by vm_compute|].
  destruct (client_poll_delivers 1 w (sim_client w 1) Hw) as [_ Hrun]; [by vm_compute|].
  destruct Hrun as [Hpoll _]; [by vm_compute..|].
  eexists. split; [exact Hpoll|]. by vm_compute.
Defined.

Lemma send_raw_exact_witness :
  let ss := sim_steam [] [] in
  let w := sim_client_world ss sim_connected in
  send_raw 1 [x01; x02] 2 false w
  = Done true (with_calls [SendMessageToConnection 2 [x01; x02] SendUnreliable] w).
Proof.
  intros ss w. destruct (send_raw_exact 1 [x01; x02] false w (sim_client w 1)) as (_ & Hsend & _);
    [by vm_compute|].
  specialize (Hsend ltac:(by vm_compute) ltac:(by vm_compute)). exact Hsend.
Defined.
