(* ===== verification/ClientThreads.v ===== *)
(** * The client's network thread and the application, interleaved

    [UdpClientSystem.v] runs operations one at a time.  Here the network thread of
    the client has a position in [network_loop] and takes one step per test,
    message and status change; [stop] is cut where it waits in [join]; and other
    threads run in between.  The steps are the pieces the operations of
    [UdpClient.v] are made of. *)

From S2P Require Import Prelude Bytes NetworkTypes Runtime.
From S2P Require Import Ledger UdpClient UdpClientSpec Links UdpClientSafety UdpClientSystem.
Local Open Scope Z_scope.

(** ** Positions *)

(** Where the network thread is: about to test [m_running] in [network_loop], or
    again in [poll]; about to test the connection in [poll_messages], or past that
    test and about to receive on it; in the loop that delivers, at index [i] of
    [count] with the slots that are left and all of them, or in the one that
    releases; at the end of [poll]; handling the status changes [RunCallbacks]
    reports; returned. *)
Inductive client_pc :=
| CAtTop
| CEntered
| CPolling
| CChecked
| CDelivering (i count : Z) (slots all : list steam_message)
| CReleasing (i count : Z) (slots : list steam_message)
| CCallbacks
| CHandling (infos : list status_changed)
| CReturned.

(** The application's thread: free, or waiting in [stop] (of the destructor, if
    so marked) for the network thread to return. *)
Inductive client_app :=
| CFree
| CJoining (destroying : bool).

Record cthreads (A CB U : Type) := CThreads {
  ct_world : world A (UdpClient CB) U;
  ct_net : option client_pc;
  ct_app : client_app;
}.
Arguments CThreads {A CB U}.
Arguments ct_world {A CB U}.
Arguments ct_net {A CB U}.
Arguments ct_app {A CB U}.

(** What the threads do. *)
Inductive client_thread_op (CB U : Type) :=
| CNetwork                                   (** one step of the network thread *)
| CApp (op : client_op CB)                   (** an operation of the application *)
| CStop (destroying : bool)                  (** [stop] up to its [join] *)
| CJoined                                    (** the [join] returns, and the rest *)
| CUser (f : U → U).                         (** other code changes what callbacks act on *)
Arguments CNetwork {CB U}.
Arguments CApp {CB U}.
Arguments CStop {CB U}.
Arguments CJoined {CB U}.
Arguments CUser {CB U}.

Section steps.
Context {A CB U : Type} `{SteamIPAddr A} `{SteamSockets A} `{ClientCallbacks A CB U}.
Local Abbreviation W := (world A (UdpClient CB) U).
Local Abbreviation CT := (cthreads A CB U).
Implicit Types (w : W) (t : CT) (p : positive) (pc : client_pc).

(** ** One step of the network thread *)

(** [poll_messages] after its test: the receiving, and the test of the callback. *)
Definition receive_messages p : M W (Z * list steam_message * bool) :=
  s ← deref p;
  call (ReceiveMessagesOnConnection (m_client_conn s) k_default_poll_message_count)
    ≫= λ received : Z * list steam_message,
  s ← deref p;
  mret (u64 received.1, received.2, bool_decide (is_Some (m_on_data_received s))).

Definition client_net_step p pc : M W client_pc :=
  match pc with
  | CAtTop =>
      running ← is_running p;
      mret (if (running : bool) then CEntered else CReturned)
  | CEntered =>
      s ← deref p;
      mret (if negb (m_running s) then CAtTop else CPolling)
  | CPolling =>
      s ← deref p;
      mret (if negb (m_client_interface s) || bool_decide (m_client_conn s = k_invalid_connection)
            then CCallbacks else CChecked)
  | CChecked =>
      receive_messages p ≫= λ '(count, slots, callback),
      mret (if (callback : bool) then CDelivering 0 count slots slots else CReleasing 0 count slots)
  | CDelivering i count slots all =>
      if decide (i < count) then
        match slots with
        | [] => fail OutOfBounds
        | message :: slots => deliver_message p message ;; mret (CDelivering (i + 1) count slots all)
        end
      else mret (CReleasing 0 count all)
  | CReleasing i count slots =>
      if decide (i < count) then
        match slots with
        | [] => fail OutOfBounds
        | message :: slots => call (ReleaseMessage message) ;; mret (CReleasing (i + 1) count slots)
        end
      else mret CCallbacks
  | CCallbacks =>
      s ← deref p;
      if m_client_interface s then
        call RunCallbacks ≫= λ infos : list status_changed, mret (CHandling infos)
      else mret CAtTop
  | CHandling [] => mret CAtTop
  | CHandling (info :: infos) =>
      connection_status_changed_callback info ;; mret (CHandling infos)
  | CReturned => mret CReturned
  end.

(** What is left of the round at a position, in one go. *)
Definition client_net_rest p pc : M W unit :=
  let deliver := deliver_message p in
  let release message := call (ReleaseMessage message) in
  match pc with
  | CAtTop | CReturned => skip
  | CEntered => poll p
  | CPolling => poll_messages p ;; run_callbacks p
  | CChecked =>
      receive_messages p ≫= λ '(count, slots, callback),
      (if (callback : bool) then slots_loop 0 count slots deliver else skip) ;;
      slots_loop 0 count slots release ;;
      run_callbacks p
  | CDelivering i count slots all =>
      slots_loop i count slots deliver ;; slots_loop 0 count all release ;; run_callbacks p
  | CReleasing i count slots => slots_loop i count slots release ;; run_callbacks p
  | CCallbacks => run_callbacks p
  | CHandling infos => for_each infos connection_status_changed_callback
  end.

(** ** Stopping, cut at the [join] *)

(** The answer is what [m_running] was. *)
Definition client_stop_begin p : M W bool :=
  modify (with_instance None) ;;
  s ← deref p;
  update p (set_client_running false) ;;
  mret (m_running s).

Definition client_stop_end p : M W unit :=
  s ← deref p;
  (if m_client_thread s then join_network_thread p else skip) ;;
  close_connection p.

Definition client_destroy_members p : M W unit :=
  s ← deref p;
  if m_client_thread s then fail StdTerminate else modify (with_objs (delete p)).

(** ** The steps of all threads *)

Definition on_cworld {R} (m : M W R) : M CT R := λ t,
  match m (ct_world t) with
  | Done r w => Done r (CThreads w (ct_net t) (ct_app t))
  | Fault e w => Fault e (CThreads w (ct_net t) (ct_app t))
  end.

Definition set_cnet (pc : option client_pc) t : CT := CThreads (ct_world t) pc (ct_app t).
Definition set_capp (a : client_app) t : CT := CThreads (ct_world t) (ct_net t) a.

(** The client has a thread. *)
Definition client_threaded p w : bool :=
  match w_objs w !! p with Some s => m_client_thread s | None => false end.

(** A thread that has just been spawned is at the top of its loop. *)
Definition client_spawned p t : CT :=
  match ct_net t with
  | None => if client_threaded p (ct_world t) then set_cnet (Some CAtTop) t else t
  | Some _ => t
  end.

Definition exec_client_thread p (op : client_thread_op CB U) : M CT unit :=
  match op with
  | CNetwork =>
      t ← gets id;
      match ct_net t with
      | Some pc =>
          pc' ← on_cworld (on_thread p (client_net_step p pc));
          modify (set_cnet (Some pc'))
      | None => skip
      end
  | CApp op => on_cworld (exec_client_op p op) ;; modify (client_spawned p)
  | CStop destroying =>
      was_running ← on_cworld (client_stop_begin p);
      if (was_running : bool) then modify (set_capp (CJoining destroying))
      else on_cworld (if destroying then client_destroy_members p else skip)
  | CJoined =>
      t ← gets id;
      match ct_app t with
      | CJoining destroying =>
          on_cworld (client_stop_end p ;; (if destroying then client_destroy_members p else skip)) ;;
          modify (set_cnet None) ;;
          modify (set_capp CFree)
      | CFree => skip
      end
  | CUser f => on_cworld (modify (with_user f))
  end.

(** The operations the application calls in one piece. *)
Definition in_one_piece (op : client_op CB) : bool :=
  match op with ClStop | ClDestruct | ClNetworkIteration => false | _ => true end.

(** The thread has tested what the operation takes away: the connection, before
    it receives on it; the callback, in the loop that calls it. *)
Definition exposed pc (op : client_op CB) : bool :=
  match pc, op with
  | CChecked, ClPoll | CChecked, ClStatusChanged _ => true
  | CDelivering _ _ _ _, ClSetOnData None => true
  | _, _ => false
  end.

Context `{CallbackContract U}.

(** The correct uses: the thread steps until it has returned; the application,
    while it is not waiting, uses the client as [client_op_allowed] says, where
    the thread is not exposed to it, and stops it in two parts; the [join]
    returns when the thread has. *)
Definition client_thread_allowed p (op : client_thread_op CB U) t : Prop :=
  let w := ct_world t in
  match op with
  | CNetwork => ready w ∧ ∃ pc, ct_net t = Some pc ∧ pc ≠ CReturned
  | CApp op =>
      ct_app t = CFree ∧ client_op_allowed p op w ∧ in_one_piece op = true ∧
      (∀ pc, ct_net t = Some pc → exposed pc op = false)
  | CStop destroying =>
      ct_app t = CFree ∧ ∃ s, w_objs w !! p = Some s ∧ (destroying = true → ¬ zombie s)
  | CJoined => (∃ d, ct_app t = CJoining d) ∧ ct_net t = Some CReturned
  | CUser _ => True
  end.

Definition client_thread_step p t t' : Prop :=
  ∃ op, client_thread_allowed p op t ∧ exec_client_thread p op t = Done tt t'.

(** The steps of the network thread. *)
Definition client_network_step p t t' : Prop :=
  client_thread_allowed p CNetwork t ∧ exec_client_thread p CNetwork t = Done tt t'.

Definition client_thread_initial (u : U) : CT := CThreads (client_initial u) None CFree.
End steps.
