(* ===== verification/ClientThreadsProps.v ===== *)
(** * The steps of the client's network thread

    The pieces and the operations they are cut from; what one step keeps; and the
    round of a thread left alone. *)

From S2P Require Import Prelude Bytes NetworkTypes Runtime.
From S2P Require Import Ledger UdpClient UdpClientSpec Links UdpClientSafety UdpClientSystem ClientThreads.
Local Open Scope Z_scope.

(** ** The pieces and the operations they are cut from *)

Section pieces.
Context {A CB U : Type} `{SteamIPAddr A} `{SteamSockets A} `{ClientCallbacks A CB U}.
Local Abbreviation W := (world A (UdpClient CB) U).
Implicit Types (w : W) (s : UdpClient CB) (p : positive) (pc : client_pc).

Lemma client_stop_cut p w s :
  w_objs w !! p = Some s →
  stop p w = (was_running ← client_stop_begin p; if (was_running : bool) then client_stop_end p else skip) w.
Proof.
  intros Hs. unfold stop, client_stop_begin, client_stop_end, modify, mbind, M_bind.
  rewrite (deref_Done p s (with_instance None w) Hs), (update_Done p _ s (with_instance None w) Hs).
  unfold mret, M_ret. destruct (m_running s); [|done]. cbn [negb].
  rewrite (deref_Done p (set_client_running false s)) by apply lookup_with_obj. by destruct s.
Qed.

Lemma client_destruct_cut p w : destruct_client p w = (stop p ;; client_destroy_members p) w.
Proof. done. Qed.

Lemma poll_cut p : poll p = (s ← deref p; if negb (m_running s) then skip else poll_messages p ;; run_callbacks p).
Proof. done. Qed.

(** The message loop of [poll], from its test. *)
Lemma poll_messages_cut p w s (k : M W unit) :
  w_objs w !! p = Some s →
  (poll_messages p ;; k) w
  = if negb (m_client_interface s) || bool_decide (m_client_conn s = k_invalid_connection) then k w
    else (receive_messages p ≫= λ '(count, slots, callback),
      (if (callback : bool) then slots_loop 0 count slots (deliver_message p) else skip) ;;
      slots_loop 0 count slots (λ message, call (ReleaseMessage message)) ;; k) w.
Proof.
  intros Hs. unfold poll_messages, receive_messages, mbind, M_bind, skip, mret, M_ret, call.
  rewrite !(deref_Done p s w Hs). destruct (negb _ || _); [done|].
  rewrite !(deref_Done p s (with_calls _ w)) by done.
  destruct (m_on_data_received s); cbn; [destruct (slots_loop _ _ _ (deliver_message p) _); [|done]|];
    by destruct (slots_loop _ _ _ _ _).
Qed.

(** A position, one step, and what is left. *)
Lemma client_rest_step p pc w :
  is_Some (w_objs w !! p) → pc ≠ CAtTop →
  client_net_rest p pc w = (client_net_step p pc ≫= client_net_rest p) w.
Proof.
  intros [s Hs] Hpc. destruct pc as [| | | |i count slots all|i count slots| |infos|]; try done;
    cbn [client_net_rest client_net_step].
  - rewrite poll_cut. unfold mbind, M_bind. rewrite !(deref_Done p s w Hs). by destruct (m_running s).
  - rewrite (poll_messages_cut p w s) by done. unfold mbind, M_bind. rewrite (deref_Done p s w Hs).
    by destruct (negb _ || _).
  - unfold mbind, M_bind. by destruct (receive_messages p w) as [[[count slots] []] v|].
  - destruct slots as [|m slots]; cbn [slots_loop]; case_decide; unfold mbind, M_bind; try done.
    by destruct (deliver_message p m w).
  - destruct slots as [|m slots]; cbn [slots_loop]; by case_decide.
  - unfold run_callbacks, mbind, M_bind, skip. rewrite !(deref_Done p s w Hs). by destruct (m_client_interface s).
  - destruct infos as [|info infos]; [done|]. cbn [for_each]. unfold mbind, M_bind.
    by destruct (connection_status_changed_callback info w).
Qed.

Lemma client_round_step p w :
  (running ← is_running p; if (running : bool) then poll p else skip) w
  = (client_net_step p CAtTop ≫= client_net_rest p) w.
Proof. unfold client_net_step, mbind, M_bind. by destruct (is_running p w) as [[|] v|]. Qed.
End pieces.

(** ** One step *)

(** The messages the thread has been handed and not yet released. *)
Definition client_pc_owed (pc : client_pc) : list steam_message :=
  match pc with CDelivering _ _ _ all => all | CReleasing _ _ slots => slots | _ => [] end.

(** The order of the positions in a round, which ends at the top. *)
Inductive client_pc_next : relation client_pc :=
| NextStopped : client_pc_next CEntered CAtTop
| NextPolling : client_pc_next CEntered CPolling
| NextUnlinked : client_pc_next CPolling CCallbacks
| NextChecked : client_pc_next CPolling CChecked
| NextDeliver count slots : client_pc_next CChecked (CDelivering 0 count slots slots)
| NextSkip count slots : client_pc_next CChecked (CReleasing 0 count slots)
| NextDelivered i count m slots all :
    client_pc_next (CDelivering i count (m :: slots) all) (CDelivering (i + 1) count slots all)
| NextRelease i count all : client_pc_next (CDelivering i count [] all) (CReleasing 0 count all)
| NextReleased i count m slots :
    client_pc_next (CReleasing i count (m :: slots)) (CReleasing (i + 1) count slots)
| NextCallbacks i count : client_pc_next (CReleasing i count []) CCallbacks
| NextHandle infos : client_pc_next CCallbacks (CHandling infos)
| NextNothing : client_pc_next CCallbacks CAtTop
| NextHandled info infos : client_pc_next (CHandling (info :: infos)) (CHandling infos)
| NextRound : client_pc_next (CHandling []) CAtTop.

(** Every round ends. *)
Lemma client_pc_next_wf : well_founded (flip client_pc_next).
Proof.
  assert (∀ pc, (∀ pc', client_pc_next pc pc' → Acc (flip client_pc_next) pc') →
    Acc (flip client_pc_next) pc) as Hstep by by intros pc Hpc; constructor.
  assert (Acc (flip client_pc_next) CAtTop) as Htop by (apply Hstep; inversion 1).
  assert (∀ infos, Acc (flip client_pc_next) (CHandling infos)) as Hhandling.
  { intros infos. induction infos; apply Hstep; inversion 1; subst; assumption. }
  assert (Acc (flip client_pc_next) CCallbacks) as Hcallbacks by (apply Hstep; inversion 1; subst; auto).
  assert (∀ slots i count, Acc (flip client_pc_next) (CReleasing i count slots)) as Hrel.
  { intros slots. induction slots; intros i count; apply Hstep; inversion 1; subst; auto. }
  assert (∀ slots i count all, Acc (flip client_pc_next) (CDelivering i count slots all)) as Hdel.
  { intros slots. induction slots; intros i count all; apply Hstep; inversion 1; subst; auto. }
  assert (Acc (flip client_pc_next) CChecked) as Hchecked by (apply Hstep; inversion 1; subst; auto).
  assert (Acc (flip client_pc_next) CPolling) as Hpolling by (apply Hstep; inversion 1; subst; auto).
  assert (Acc (flip client_pc_next) CEntered) as Hentered by (apply Hstep; inversion 1; subst; auto).
  assert (Acc (flip client_pc_next) CReturned) as Hreturned by (apply Hstep; inversion 1).
  intros []; auto.
Qed.

Section network.
Context {A CB U : Type} `{SteamIPAddr A} `{SteamSockets A} `{!SteamLaws A}.
Context `{ClientCallbacks A CB U} `{CallbackContract U} `{!ClientCallbacksLaws Interleaved A CB U}.
Local Abbreviation W := (world A (UdpClient CB) U).
Implicit Types (w : W) (s : UdpClient CB) (p : positive) (pc : client_pc).

(** What the thread has tested still holds, and the slots left are those the
    count says, each with its size. *)
Definition client_pc_ok p pc w : Prop :=
  match pc with
  | CChecked => ∃ s, w_objs w !! p = Some s ∧ m_client_conn s ≠ 0
  | CDelivering i count slots all =>
      has_data p w ∧ count = i + length slots ∧ count = length all ∧ Forall message_ok slots
  | CReleasing i count slots => count = i + length slots
  | _ => True
  end.

(** The client at [p], its thread at the position [pc], where callbacks may
    run. *)
Definition client_net_good p pc w : Prop :=
  client_good Interleaved p w ∧ is_Some (w_objs w !! p) ∧ client_pc_ok p pc w.

(** What a step of the thread leaves. *)
Definition client_stepped p pc w pc' w' : Prop :=
  client_goes_on_owing Interleaved p (client_pc_owed pc) (client_pc_owed pc') w w' ∧ client_pc_ok p pc' w'.

Lemma client_pc_ok_thread p pc (th : option positive) w : client_pc_ok p pc (with_thread th w) ↔ client_pc_ok p pc w.
Proof. by destruct pc. Qed.

Lemma client_receive_step_ok p w :
  client_net_good p CChecked w →
  wp (client_net_step p CChecked) (λ pc' w',
    client_stepped p CChecked w pc' w' ∧ client_pc_next CChecked pc') w.
Proof.
  intros ([Hw Hrd] & _ & s & Hs & Hc). destruct (client_receive_ok p w s Hw Hs Hc) as [Hrecv Hk].
  set (c := ReceiveMessagesOnConnection _ _) in *. set (slots := (steam_answer (w_trace w) c).2) in *.
  destruct Hrecv as (Hcount & Hmax & Hall). fold slots in Hcount, Hmax, Hall.
  assert (u64 (steam_answer (w_trace w) c).1 = length slots) as Hu.
  { rewrite Hcount. unfold u64. apply wrap_small. unfold fits. lia. }
  cbn [client_net_step]. unfold receive_messages. change k_default_poll_message_count with 16. wp_steps.
  fold c slots. rewrite Hu.
  destruct (m_on_data_received s) as [cb|] eqn:Hcb; cbn; (split; [|constructor]); (split; [exact Hk|]); [|simpl; lia].
  split; [|split; [lia|done]]. exists s. by split; [|exists cb].
Qed.

Lemma client_net_step_ok p pc w :
  client_net_good p pc w → pc ≠ CAtTop → pc ≠ CReturned →
  wp (client_net_step p pc) (λ pc' w', client_stepped p pc w pc' w' ∧ client_pc_next pc pc') w.
Proof.
  intros Hgood Htop Hret. pose proof Hgood as ([Hw Hrd] & [s Hs] & Hpc).
  pose proof (client_goes_on_refl _ p w Hw) as Hrefl.
  destruct pc as [| | | |i count slots all|i count slots| |[|info infos]|]; try done;
    cbn [client_net_step].
  - wp_steps. destruct (m_running s); by split; [|constructor].
  - wp_steps. destruct (m_client_interface s); cbn [negb orb]; [|by split; [|constructor]].
    case_bool_decide; cbn; (split; [|constructor]); (split; [done|]); [done|]. by exists s.
  - by apply client_receive_step_ok.
  - destruct Hpc as (Hd & -> & Hall & Hok). destruct slots as [|m slots].
    + rewrite decide_False by (simpl; lia). wp_steps. split; [|constructor]. split; [|simpl in *; lia].
      exact (client_goes_on_frame _ _ _ _ all _ _ Hrefl).
    + rewrite decide_True by (simpl; lia). apply Forall_cons in Hok as [Hm Hok].
      apply wp_bind. eapply wp_mono; [by apply client_deliver_one_ok|]. intros [] v [Hv Hd']. wp_steps.
      split; [|constructor]. split; [exact (client_goes_on_frame _ _ _ _ all _ _ Hv)|].
      split; [done|]. simpl in *. split; [lia|done].
  - cbn in Hpc. subst count. destruct slots as [|m slots].
    + rewrite decide_False by (simpl; lia). wp_steps. by split; [|constructor].
    + rewrite decide_True by (simpl; lia). apply wp_bind.
      pose proof (client_release_goes_on (k:=Interleaved) p [m] w Hw) as Hone. cbn [for_each] in Hone.
      unfold wp in *. unfold mbind, M_bind in Hone. destruct (call (ReleaseMessage m) w) as [[] v|]; [|done].
      cbn. split; [|constructor]. split; [|simpl; lia].
      exact (client_goes_on_frame _ _ _ _ slots _ _ Hone).
  - wp_steps. destruct (m_client_interface s); wp_steps; (split; [|constructor]); [|done]. split; [|done]. split; [|done].
    apply client_keeps_calls; [done|by repeat constructor|no_close].
  - wp_steps. by split; [|constructor].
  - apply wp_bind. pose proof (client_status_changes_ok (k:=Interleaved) p [info] w Hw) as Hone. cbn [for_each] in Hone.
    unfold wp in *. unfold mbind, M_bind in Hone. destruct (connection_status_changed_callback info w) as [[] v|]; [|done].
    cbn. by split; [|constructor].
Qed.

(** The test at the top of the loop. *)
Lemma client_top_step p w s :
  w_objs w !! p = Some s →
  on_thread p (client_net_step p CAtTop) w = Done (if m_running s then CEntered else CReturned) w.
Proof.
  intros Hs. unfold on_thread, client_net_step, is_running, gets, modify, mbind, M_bind.
  rewrite (deref_Done p s (with_thread (Some p) w) Hs). cbn. by rewrite with_thread_twice, with_thread_id.
Qed.

Lemma client_thread_step_ok p pc w :
  client_net_good p pc w → pc ≠ CAtTop → pc ≠ CReturned →
  wp (on_thread p (client_net_step p pc)) (λ pc' w', client_stepped p pc w pc' w' ∧ client_pc_next pc pc') w.
Proof.
  intros (Hgood & Hs & Hpc) Htop Hret. apply wp_on_thread.
  eapply wp_mono; [apply client_net_step_ok; [|done..]|].
  - split; [by apply client_good_thread|]. split; [done|by apply client_pc_ok_thread].
  - intros pc' v [[Hv Hpc'] Hnext]. split; [|done].
    split; [by eapply client_goes_on_thread|by apply client_pc_ok_thread].
Qed.

Lemma client_stepped_good p pc w pc' w' :
  client_net_good p pc w → client_stepped p pc w pc' w' → client_net_good p pc' w'.
Proof.
  intros (Hgood & Hs & _) [Hgo Hpc']. split; [by eapply client_goes_on_good|].
  split; [by eapply client_goes_on_lookup|done].
Qed.

(** ** A thread left alone *)

(** Its steps, apart from what other threads do. *)
Definition client_net_run p : relation (client_pc * W) := λ '(pc, w) '(pc', w'),
  pc ≠ CReturned ∧ ready w ∧ on_thread p (client_net_step p pc) w = Done pc' w'.

Lemma client_on_thread_step p pc w :
  client_net_good p pc w → pc ≠ CAtTop → pc ≠ CReturned →
  on_thread p (client_net_rest p pc) w
  = (on_thread p (client_net_step p pc) ≫= λ pc', on_thread p (client_net_rest p pc')) w.
Proof.
  intros Hgood Htop Hret.
  transitivity (on_thread p (client_net_step p pc ≫= client_net_rest p) w).
  - apply on_thread_eq, client_rest_step; [|done]. by apply Hgood.
  - apply on_thread_bind. intros pc' v Hstep. destruct Hgood as (Hgood & Hs & Hpc).
    assert (client_net_good p pc (with_thread (Some p) w)) as Hgt
      by (split; [by apply client_good_thread|split; [done|by apply client_pc_ok_thread]]).
    pose proof (client_net_step_ok p pc _ Hgt Htop Hret) as Hwp. unfold wp in Hwp. rewrite Hstep in Hwp.
    by destruct Hwp as [[[[_ [_ Hth] _ _] _] _] _].
Qed.

(** What is left of a round ends without a fault, step by step, at the top. *)
Lemma client_rest_runs p pc w :
  client_net_good p pc w → pc ≠ CAtTop → pc ≠ CReturned →
  ∃ w', on_thread p (client_net_rest p pc) w = Done tt w' ∧ rtc (client_net_run p) (pc, w) (CAtTop, w').
Proof.
  revert w. induction (client_pc_next_wf pc) as [pc _ IH]. intros w Hgood Htop Hret.
  rewrite client_on_thread_step by done.
  pose proof (client_thread_step_ok p pc w Hgood Htop Hret) as Hwp.
  apply wp_Done in Hwp as (pc1 & w1 & Hstep & Hst & Hnext).
  pose proof (client_stepped_good _ _ _ _ _ Hgood Hst) as Hgood1.
  rewrite (bind_Done _ _ _ _ _ Hstep).
  assert (client_net_run p (pc, w) (pc1, w1)) as Hrun by (split; [done|split; [apply Hgood|done]]).
  assert (pc1 = CAtTop ∨ pc1 ≠ CAtTop) as [->|Htop1] by (destruct pc1; by (left + right)).
  - exists w1. split; [apply on_thread_skip|by apply rtc_once].
  - destruct (IH pc1 Hnext w1 Hgood1 Htop1) as (w' & Hrest & Hruns); [by destruct Hnext|].
    exists w'. split; [done|]. by eapply rtc_l.
Qed.

(** The round of a thread at the top of its loop. *)
Lemma client_round_runs p w s :
  client_good Interleaved p w → w_objs w !! p = Some s →
  ∃ w', client_iteration p w = Done tt w' ∧
    rtc (client_net_run p) (CAtTop, w) (if m_running s then CAtTop else CReturned, w').
Proof.
  intros Hgood Hs. unfold client_iteration.
  assert (client_net_run p (CAtTop, w) (if m_running s then CEntered else CReturned, w)) as Hrun
    by (split; [done|split; [apply Hgood|by apply client_top_step]]).
  assert (on_thread p (running ← is_running p; if (running : bool) then poll p else skip) w
    = on_thread p (client_net_rest p (if m_running s then CEntered else CReturned)) w) as ->.
  { unfold on_thread, is_running, gets, modify, mbind, M_bind.
    rewrite (deref_Done p s (with_thread (Some p) w) Hs). cbn. by destruct (m_running s). }
  destruct (m_running s).
  - destruct (client_rest_runs p CEntered w) as (w' & Hrest & Hruns); [|done..|].
    + by split; [|split; [exists s|]].
    + exists w'. split; [done|]. by eapply rtc_l.
  - exists w. split; [apply on_thread_skip|by apply rtc_once].
Qed.

Lemma client_net_run_good p x y :
  client_net_good p x.1 x.2 → client_net_run p x y → client_net_good p y.1 y.2 ∧ client_modest x.2 y.2.
Proof.
  destruct x as [pc w], y as [pc' w']. simpl. intros Hgood (Hret & _ & Hstep).
  assert (pc = CAtTop ∨ pc ≠ CAtTop) as [->|Htop] by (destruct pc; by (left + right)).
  - pose proof Hgood as (Hg & [s Hs] & _). rewrite (client_top_step p w s Hs) in Hstep.
    injection Hstep as <- <-. split; [|by apply client_modest_same].
    split; [done|]. split; [by exists s|]. by destruct (m_running s).
  - pose proof (client_thread_step_ok p pc w Hgood Htop Hret) as Hwp. unfold wp in Hwp.
    rewrite Hstep in Hwp. destruct Hwp as [Hst _]. split; [by eapply client_stepped_good|].
    by apply (ck_modest _ _ _ _ _ _ (proj1 (proj1 Hst))).
Qed.

Lemma client_net_runs_good p x y :
  client_net_good p x.1 x.2 → rtc (client_net_run p) x y → client_net_good p y.1 y.2 ∧ client_modest x.2 y.2.
Proof.
  intros Hgood Hr. revert Hgood. induction Hr as [x|x y z Hxy _ IH]; intros Hgood.
  - split; [done|by apply client_modest_same].
  - destruct (client_net_run_good p x y Hgood Hxy) as [Hgood' Hm].
    destruct (IH Hgood') as [Hgood'' Hm']. split; [done|]. by eapply client_modest_trans.
Qed.

(** Told to stop, the thread returns. *)
Lemma client_stopping_runs p pc w s :
  client_net_good p pc w → w_objs w !! p = Some s → m_running s = false →
  ∃ w', rtc (client_net_run p) (pc, w) (CReturned, w').
Proof.
  intros Hgood Hs Hr.
  assert (∀ v, client_net_good p CAtTop v → client_modest w v → rtc (client_net_run p) (CAtTop, v) (CReturned, v)) as Htop.
  { intros v (Hgv & [s' Hs'] & _) Hm. apply rtc_once. split; [done|]. split; [apply Hgv|].
    rewrite (client_top_step p v s' Hs').
    destruct (proj2 Hm p s Hs) as (s2 & Hs2 & _ & _ & _ & Hrun). assert (s2 = s') as -> by congruence.
    assert (m_running s' = false) as -> by (destruct Hrun as [[? _]|(_ & ? & _)]; congruence). done. }
  assert (pc = CReturned ∨ pc = CAtTop ∨ (pc ≠ CAtTop ∧ pc ≠ CReturned)) as [->|[->|[Hat Hret]]]
    by (destruct pc; auto).
  { exists w. apply rtc_refl. }
  { exists w. by apply Htop; [|apply client_modest_same]. }
  destruct (client_rest_runs p pc w Hgood Hat Hret) as (w' & _ & Hruns).
  destruct (client_net_runs_good p (pc, w) (CAtTop, w') Hgood Hruns) as [Hgood' Hm].
  exists w'. etrans; [exact Hruns|]. by apply Htop.
Qed.
End network.
