(* ===== verification/ClientThreadsSystem.v ===== *)
(** * Every interleaving of the client's threads

    The invariant of the client's network thread and the application, kept by
    each of their steps, and the theorems on every interleaving. *)

From S2P Require Import Prelude Bytes NetworkTypes Packet Serde Runtime.
From S2P Require Import Ledger UdpClient UdpClientSpec Links UdpClientSafety Simulated UdpClientSystem.
From S2P Require Import ClientThreads ClientThreadsProps.
Local Open Scope Z_scope.

(** The messages the thread holds, if there is one. *)
Definition client_owed (net : option client_pc) : list steam_message :=
  match net with Some pc => client_pc_owed pc | None => [] end.

Section system.
Context {A CB U : Type} `{SteamIPAddr A} `{SteamSockets A} `{!SteamLaws A}.
Context `{ClientCallbacks A CB U} `{CallbackContract U} `{!ClientCallbacksLaws Interleaved A CB U}.
Local Abbreviation W := (world A (UdpClient CB) U).
Local Abbreviation CT := (cthreads A CB U).
Implicit Types (w : W) (t : CT) (s : UdpClient CB) (p q : positive) (pc : client_pc).

(** ** The invariant *)

(** A well-formed client; a position for its thread, at which what the thread
    has tested still holds; only a client the application waits for has been told
    to stop while it has a connection; and the messages owed are those the thread
    holds. *)
Record client_threads_ok p t : Prop := {
  cto_inv : client_world_inv Interleaved p (ct_world t);
  cto_thread : w_thread (ct_world t) = None;
  cto_net : is_Some (ct_net t) ↔ client_threaded p (ct_world t) = true;
  cto_pc pc : ct_net t = Some pc → client_pc_ok p pc (ct_world t);
  cto_running s : w_objs (ct_world t) !! p = Some s → m_client_conn s ≠ 0 →
    m_running s = true ∨ ∃ d, ct_app t = CJoining d;
  cto_returned s : w_objs (ct_world t) !! p = Some s → ct_net t = Some CReturned → m_running s = false;
  cto_joining d : ct_app t = CJoining d → s_instance (ct_world t) = None ∧
    ∃ s, w_objs (ct_world t) !! p = Some s ∧ m_client_thread s = true ∧
      m_running s = false ∧ m_client_conn s ≠ 0;
  cto_ledger : ledger (client_owed (ct_net t)) (w_trace (ct_world t));
}.

Lemma client_threaded_lookup p w s : w_objs w !! p = Some s → client_threaded p w = m_client_thread s.
Proof. unfold client_threaded. by intros ->. Qed.

(** While the application is free, no operation is half done. *)
Lemma client_free_ok p t : client_threads_ok p t → ct_app t = CFree → client_app_ok p (ct_world t).
Proof.
  intros Hok Hfree. split; [|apply Hok]. pose proof (cto_inv _ _ Hok) as [Hc Hi]. split; [|done].
  intros q s Hs. destruct (Hc q s Hs) as [-> [Hr Hl _]]. split; [done|]. split; [done..|].
  intros Hf. left. destruct (decide (m_client_conn s = 0)) as [|Hne]; [done|].
  destruct (cto_running _ _ Hok s Hs Hne) as [?|[d Hd]]; congruence.
Qed.

Lemma client_threaded_object p t : client_threads_ok p t → is_Some (ct_net t) → is_Some (w_objs (ct_world t) !! p).
Proof. intros Hok Hn%(cto_net _ _ Hok). revert Hn. unfold client_threaded. by destruct (_ !! p). Qed.

(** ** A step of the network thread *)

Lemma client_any_step_ok p pc w :
  client_net_good p pc w → pc ≠ CReturned →
  wp (on_thread p (client_net_step p pc)) (λ pc' w', client_stepped p pc w pc' w' ∧
    (pc' = CReturned → ∀ s, w_objs w' !! p = Some s → m_running s = false)) w.
Proof.
  intros Hgood Hret. assert (pc = CAtTop ∨ pc ≠ CAtTop) as [->|Htop] by (destruct pc; by (left + right)).
  - pose proof Hgood as ([Hw _] & [s Hs] & _). eapply wp_of_Done; [by apply client_top_step|].
    destruct (m_running s) eqn:Hr; (split; [split; [by apply client_goes_on_refl|done]|]); [done|].
    intros _ s' Hs'. congruence.
  - eapply wp_mono; [by apply client_thread_step_ok|]. intros pc' v [Hst Hnext]. split; [done|].
    intros ->. inversion Hnext.
Qed.

(** What stays of a client over a modest step. *)
Lemma client_modest_lookup p w w' s' :
  client_modest w w' → is_Some (w_objs w !! p) → w_objs w' !! p = Some s' →
  ∃ s, w_objs w !! p = Some s ∧ core_kept (heard w) s s'.
Proof.
  intros [_ Hm] [s Hs] Hs'. exists s. split; [done|].
  destruct (Hm p s Hs) as (s2 & Hs2 & Hk). congruence.
Qed.

Lemma client_network_ok p t :
  client_threads_ok p t → client_thread_allowed p CNetwork t →
  wp (exec_client_thread p CNetwork) (λ _ t', client_threads_ok p t' ∧ ct_app t' = ct_app t ∧
    rtc link_step (links p (ct_world t)) (links p (ct_world t')) ∧
    steady (ct_world t) (ct_world t')) t.
Proof.
  intros Hok (Hrd & pc & Hpc & Hret).
  pose proof (client_threaded_object p t Hok ltac:(by eexists)) as Hp.
  destruct t as [w net app]. simpl in Hrd, Hpc, Hp. subst net.
  assert (client_net_good p pc w) as Hgood
    by (split; [split; [apply Hok|done]|split; [done|by apply (cto_pc _ _ Hok)]]).
  pose proof (client_any_step_ok p pc w Hgood Hret) as Hwp.
  apply wp_Done in Hwp as (pc' & w' & Hstep & [Hgo Hpc'] & Hreturned).
  pose proof (client_goes_on_steady _ _ _ _ _ _ Hgo) as Hsteady. destruct Hgo as [[Hinv [_ Hth] [Hlk Hl] Hm] _].
  cbn [exec_client_thread]. apply wp_bind, wp_gets. cbn [id ct_net].
  apply wp_bind. unfold on_cworld, wp. cbn [ct_world]. rewrite Hstep. cbn. specialize (Hm eq_refl).
  split_and!; [|done..]. destruct Hok as [_ Hth0 Hnet _ Hrun _ Hjoin Hled]. simpl in *.
  split; simpl; [done|congruence|..].
  - split; [intros _|by eexists]. destruct Hp as [s Hs]. destruct (proj2 Hm p s Hs) as (s' & Hs' & Ht & _).
    rewrite (client_threaded_lookup p w' s' Hs'), Ht, <- (client_threaded_lookup p w s Hs). apply Hnet. by eexists.
  - by intros ? [= <-].
  - intros s' Hs' Hc. destruct (client_modest_lookup p w w' s' Hm Hp Hs') as (s & Hs & _ & _ & _ & Hcase).
    destruct Hcase as [[-> Hc']|(_ & _ & ?)]; [|done]. apply (Hrun s Hs). congruence.
  - intros s' Hs' [= ->]. by apply Hreturned.
  - intros d Hd. destruct (Hjoin d Hd) as (Hi & s & Hs & Ht & Hr & Hc). destruct Hm as [Hi' Hm].
    split; [congruence|]. destruct (Hm p s Hs) as (s' & Hs' & Ht' & _ & _ & Hcase). exists s'.
    unfold heard in Hcase. rewrite Hi in Hcase. destruct Hcase as [[Hr' Hc']|[? _]]; [|done].
    split_and!; congruence.
  - specialize (Hl []). rewrite !app_nil_r in Hl. by apply Hl.
Qed.

(** ** An operation of the application *)

#[local] Instance client_threads_laws : ClientCallbacksLaws Sequential A CB U :=
  client_sequential_laws A CB U _.

(** The thread of the client can go on as if nothing had happened, but at the
    positions that are exposed. *)
Definition undisturbed p (exp : client_pc → bool) w w' : Prop :=
  client_threaded p w' = true ∧
  (∀ pc, exp pc = false → client_pc_ok p pc w → client_pc_ok p pc w') ∧
  (∀ s', w_objs w' !! p = Some s' → ∃ s, w_objs w !! p = Some s ∧
    (m_running s = false → m_running s' = false)).

Lemma undisturbed_same p exp w w' :
  w_objs w' = w_objs w → client_threaded p w = true → undisturbed p exp w w'.
Proof.
  intros Ho Ht. unfold undisturbed, client_threaded, client_pc_ok, has_data in *. rewrite Ho. split_and!; [done| |].
  - by intros [].
  - intros s' Hs'. by exists s'.
Qed.

(** An event, or a poll, may take the connection and nothing else. *)
Lemma undisturbed_modest p exp w w' :
  exp CChecked = true → client_modest w w' → client_threaded p w = true → undisturbed p exp w w'.
Proof.
  intros Hop Hm Ht. unfold client_threaded in Ht. destruct (w_objs w !! p) as [s|] eqn:Hs; [|done].
  destruct (proj2 Hm p s Hs) as (s' & Hs' & Ht' & _ & Hd & Hc). split_and!.
  - unfold client_threaded. rewrite Hs'. congruence.
  - intros [] Hexp Hpc; try done; [congruence|]. destruct Hpc as [(s0 & Hs0 & Hcb) ?].
    split; [|done]. exists s'. split; [done|]. apply Hd. congruence.
  - intros s2 Hs2. assert (s2 = s') as -> by congruence. exists s. split; [done|].
    destruct Hc as [[-> _]|(_ & ? & _)]; done.
Qed.

Lemma client_set_on_data_undisturbed p cb w :
  client_threaded p w = true →
  wp (set_on_data_callback p cb) (λ _, undisturbed p (λ pc, exposed pc (ClSetOnData cb)) w) w.
Proof.
  intros Ht. unfold client_threaded in Ht. destruct (w_objs w !! p) as [s|] eqn:Hs; [|done].
  unfold set_on_data_callback. wp_steps. unfold undisturbed, client_threaded, client_pc_ok, has_data.
  rewrite lookup_with_obj. split_and!; [by destruct s| |].
  - intros [] Hexp; try done.
    + intros (s0 & Hs0 & Hc). eexists. split; [done|]. assert (s0 = s) as -> by congruence. by destruct s.
    + intros [_ ?]. split; [|done]. eexists. split; [done|]. destruct cb, s; [by eexists|done].
  - intros s' [= <-]. exists s. split; [done|]. by destruct s.
Qed.

Lemma exec_client_op_undisturbed p op w :
  client_app_ok p w → client_op_allowed p op w → in_one_piece op = true → client_threaded p w = true →
  wp (exec_client_op p op) (λ _, undisturbed p (λ pc, exposed pc op) w) w.
Proof.
  intros [Hw Hth] Hop Hone Ht. pose proof (client_world_weaken Interleaved p w Hw) as Hwi.
  assert (∀ m : M W unit, exposed CChecked op = true →
    wp m (λ _, client_goes_on Interleaved p w) w → wp m (λ _, undisturbed p (λ pc, exposed pc op) w) w) as Hgo.
  { intros m Hexp Hm. eapply wp_mono; [exact Hm|]. intros [] w' [Hk _].
    by apply undisturbed_modest; [|apply Hk|]. }
  destruct op; simpl in Hop |- *; try done.
  - unfold client_threaded in Ht. by rewrite Hop in Ht.
  - destruct Hop as [(s & Hs & Hz) Hlib]. apply wp_discard. rewrite (client_threaded_lookup p w s Hs) in Ht.
    eapply wp_of_Done; [rewrite (connect_Done p _ _ w s Hs Hlib); unfold connect_result;
      by rewrite (not_zombie s Hz Ht)|].
    apply undisturbed_same; [done|]. by rewrite (client_threaded_lookup p w s Hs).
  - destruct Hop as [Hp Hrd]. by apply Hgo, (client_poll_ok (k:=Interleaved)).
  - apply Hgo; [done|]. apply wp_client_keeps; [apply client_callback_private|].
    eapply wp_mono; [by apply client_status_callback_ok|]. by intros [] v [Hv _].
  - destruct Hop as [s Hs]. apply wp_discard. eapply wp_mono; [by eapply client_send_ok; [..|lia]|].
    intros b v (_ & Ho & _). by apply undisturbed_same.
  - by apply client_set_on_data_undisturbed.
Qed.

Lemma client_spawned_world p t : ct_world (client_spawned p t) = ct_world t.
Proof. unfold client_spawned. destruct (ct_net t); [done|]. by destruct (client_threaded _ _). Qed.
Lemma client_spawned_app p t : ct_app (client_spawned p t) = ct_app t.
Proof. unfold client_spawned. destruct (ct_net t); [done|]. by destruct (client_threaded _ _). Qed.

Lemma client_spawned_net p t :
  (∀ pc, ct_net t = Some pc → client_threaded p (ct_world t) = true) →
  ct_net (client_spawned p t) =
    if client_threaded p (ct_world t) then Some (default CAtTop (ct_net t)) else None.
Proof.
  intros Ht. unfold client_spawned. destruct (ct_net t) as [pc|] eqn:Hn; [by rewrite Hn, (Ht pc)|].
  by destruct (client_threaded p (ct_world t)).
Qed.

(** An operation in one piece, which may spawn the thread. *)
Lemma client_atomic_step_ok p exp (m : M W unit) t :
  client_threads_ok p t → ct_app t = CFree → (∀ pc, ct_net t = Some pc → exp pc = false) →
  wp m (λ _ w', client_app_ok p w' ∧ client_progress p [] [] (ct_world t) w' ∧
    (client_threaded p (ct_world t) = true → undisturbed p exp (ct_world t) w')) (ct_world t) →
  wp (on_cworld m ;; modify (client_spawned p)) (λ _ t', client_threads_ok p t' ∧ ct_app t' = CFree ∧
    rtc link_step (links p (ct_world t)) (links p (ct_world t'))) t.
Proof.
  intros Hok Hfree Hexp Hwp.
  apply wp_Done in Hwp as ([] & w' & Hex & [Hw' Hth'] & [Hlk Hled] & Hund).
  apply wp_bind. unfold on_cworld, wp. rewrite Hex. unfold modify.
  set (t1 := CThreads w' (ct_net t) (ct_app t)).
  rewrite client_spawned_world, client_spawned_app. split; [|done].
  assert (ct_net (client_spawned p t1) = if client_threaded p w' then Some (default CAtTop (ct_net t)) else None) as Hnet.
  { apply (client_spawned_net p t1). intros pc Hpc. apply Hund, (cto_net _ _ Hok). by exists pc. }
  assert (∀ pc, ct_net (client_spawned p t1) = Some pc → ct_net t = Some pc ∨ ct_net t = None ∧ pc = CAtTop) as Hpcs.
  { intros pc. rewrite Hnet. destruct (client_threaded p w'); [|done]. destruct (ct_net t); intros [= <-]; auto. }
  split; rewrite ?client_spawned_world, ?client_spawned_app; try done.
  - by apply client_world_weaken.
  - rewrite Hnet. cbn [ct_world t1]. destruct (client_threaded p w'); [by split; [|eexists]|].
    split; [by intros [? ?]|done].
  - intros pc Hpc. destruct (Hpcs pc Hpc) as [Hold|[_ ->]]; [|done].
    apply Hund; [apply (cto_net _ _ Hok); by exists pc|by apply Hexp|by apply (cto_pc _ _ Hok)].
  - intros s Hs Hc. left. destruct (cw_client _ _ _ Hw' p s Hs) as [_ Hsok].
    destruct (m_running s) eqn:Hr; [done|]. by destruct (cok_idle _ _ Hsok Hr).
  - intros s Hs Hret. destruct (Hpcs _ Hret) as [Hold|[_ ?]]; [|done].
    destruct (Hund ltac:(apply (cto_net _ _ Hok); by eexists)) as (_ & _ & Hrun).
    destruct (Hrun s Hs) as (s0 & Hs0 & Hr). apply Hr. by apply (cto_returned _ _ Hok s0).
  - intros d Hd. simpl in Hd. congruence.
  - assert (client_owed (ct_net (client_spawned p t1)) = client_owed (ct_net t)) as ->.
    { unfold client_spawned, t1. destruct t as [w [pc|] app]; [done|].
      cbn [ct_net ct_world]. by destruct (client_threaded p w'). }
    apply (Hled (client_owed (ct_net t))), Hok.
Qed.

Lemma client_app_step_ok p op t :
  client_threads_ok p t → client_thread_allowed p (CApp op) t →
  wp (exec_client_thread p (CApp op)) (λ _ t', client_threads_ok p t' ∧ ct_app t' = CFree ∧
    rtc link_step (links p (ct_world t)) (links p (ct_world t'))) t.
Proof.
  intros Hok (Hfree & Hop & Hone & Hexp). pose proof (client_free_ok p t Hok Hfree) as Happ.
  apply (client_atomic_step_ok p (λ pc, exposed pc op)); [done..|].
  pose proof (exec_client_op_ok p op (ct_world t) Happ Hop) as Hwp.
  apply wp_Done in Hwp as ([] & w' & Hex & Happ' & Hp & _). eapply wp_of_Done; [done|].
  split_and!; [done..|]. intros Ht.
  pose proof (exec_client_op_undisturbed p op _ Happ Hop Hone Ht) as Hu. unfold wp in Hu. by rewrite Hex in Hu.
Qed.

(** ** Stopping *)

(** A client told to stop keeps its connection until its thread has returned. *)
Lemma stopping_client_ok tr s :
  m_client_thread s = true → client_ok Interleaved tr s → client_ok Interleaved tr (set_client_running false s).
Proof. intros Ht [_ Hl _]. destruct s; simpl in *. split; simpl; auto; done. Qed.

Lemma client_stop_begin_Done p w s :
  w_objs w !! p = Some s →
  client_stop_begin p w
  = Done (m_running s) (with_obj p (set_client_running false s) (with_instance None w)).
Proof.
  intros Hs. unfold client_stop_begin. erewrite bind_Done; [|done]. erewrite bind_Done; [|by apply deref_Done].
  by erewrite bind_Done; [|by apply update_Done].
Qed.

(** A destructor, when there is no thread to wait for. *)
Lemma client_destroy_ok p w s :
  client_world_ok p w → w_objs w !! p = Some s → s_instance w = None → m_running s = false →
  m_client_thread s = false → w_thread w = None →
  wp (client_destroy_members p) (λ _ w', client_app_ok p w' ∧ w_objs w' = ∅ ∧
    w_trace w' = w_trace w ∧ w_user w' = w_user w ∧ rtc link_step (links p w) (links p w')) w.
Proof.
  intros Hw Hs Hi Hr Ht Hth. unfold client_destroy_members. wp_steps. rewrite Ht. wp_steps.
  assert (delete p (w_objs w) = ∅) as Hempty.
  { apply map_empty. intros q. destruct (decide (q = p)) as [->|Hne]; [apply lookup_delete_eq|].
    rewrite lookup_delete_ne by done. destruct (w_objs w !! q) as [t|] eqn:Hq; [|done].
    by destruct (cw_client _ _ _ Hw q t Hq). }
  split_and!; [split; [split|done]|done|done|done|].
  - intros q t Hq. simpl in Hq. by rewrite Hempty in Hq.
  - intros q Hq. simpl in Hq. congruence.
  - rewrite (links_lookup p s w Hs), Hi. unfold links. simpl. rewrite lookup_delete_eq, Hi.
    destruct (cw_client _ _ _ Hw p s Hs) as [_ Hok]. rewrite link_of_none; [|by eapply cok_idle|done].
    apply rtc_once, LkDestroy.
Qed.

Lemma client_threads_initial_ok p w :
  client_app_ok p w → client_threaded p w = false → ledger [] (w_trace w) →
  client_threads_ok p (CThreads w None CFree).
Proof.
  intros [Hw Hth] Ht Hl. split; simpl; try done.
  - by apply client_world_weaken.
  - rewrite Ht. split; [by intros [? ?]|done].
  - intros s Hs Hc. left. destruct (m_running s) eqn:Hr; [done|].
    destruct (cw_client _ _ _ Hw p s Hs) as [_ Hok]. by destruct (cok_idle _ _ Hok Hr).
Qed.

(** Nothing to stop: at most the object goes. *)
Lemma client_stop_idle_ok p d t s :
  client_threads_ok p t → ct_app t = CFree → w_objs (ct_world t) !! p = Some s → m_running s = false →
  (d = true → ¬ zombie s) →
  wp (on_cworld (if d then client_destroy_members p else skip)) (λ _ t', client_threads_ok p t' ∧
    rtc link_step (Links (lk_client (links p (ct_world t))) false) (links p (ct_world t')) ∧ ct_app t' = CFree ∧
    w_user (ct_world t') = w_user (ct_world t) ∧
    dom (w_objs (ct_world t')) = if d then ∅ else dom (w_objs (ct_world t)))
    (CThreads (with_instance None (ct_world t)) (ct_net t) CFree).
Proof.
  intros Hok Hfree Hs Hr Hz. pose proof (client_free_ok p t Hok Hfree) as [Hw Hth].
  destruct t as [w net app]. simpl in *. subst app. set (w1 := with_instance None w).
  assert (client_world_ok p w1) as Hw1 by (by destruct Hw; split).
  assert (links p w1 = Links (lk_client (links p w)) false) as Hl1 by done.
  unfold wp, on_cworld. cbn [ct_world]. destruct d.
  - specialize (Hz eq_refl). assert (m_client_thread s = false) as Ht.
    { destruct (m_client_thread s) eqn:Ht; [|done]. by rewrite (not_zombie s Hz Ht) in Hr. }
    assert (net = None) as ->.
    { destruct net as [pc|]; [|done]. pose proof (proj1 (cto_net _ _ Hok) ltac:(by eexists)) as Hn.
      simpl in Hn. rewrite (client_threaded_lookup p w s Hs) in Hn. congruence. }
    pose proof (client_destroy_ok p w1 s Hw1 Hs eq_refl Hr Ht Hth) as Hwp.
    apply wp_Done in Hwp as ([] & w' & -> & Hok' & Hempty & Htr & Hu & Hl). rewrite Hl1 in Hl.
    split_and!; [|done..|by cbn; rewrite Hempty, dom_empty_L].
    apply client_threads_initial_ok; [done|by unfold client_threaded; rewrite Hempty|].
    rewrite Htr. apply Hok.
  - cbn. split_and!; [|by rewrite Hl1|done..]. destruct Hok as [[Hc _] _ Hnet Hpc Hrun Hret _ Hled]. simpl in *.
    split; simpl; try done.
Qed.

Lemma client_stop_ok_threads p d t :
  client_threads_ok p t → client_thread_allowed p (CStop d) t →
  wp (exec_client_thread p (CStop d)) (λ _ t', client_threads_ok p t' ∧
    rtc link_step (links p (ct_world t)) (links p (ct_world t')) ∧
    w_user (ct_world t') = w_user (ct_world t) ∧
    (ct_app t' = CJoining d ∧ dom (w_objs (ct_world t')) = dom (w_objs (ct_world t)) ∨
     ct_app t' = CFree ∧ dom (w_objs (ct_world t')) = if d then ∅ else dom (w_objs (ct_world t)))) t.
Proof.
  intros Hok (Hfree & s & Hs & Hz). pose proof (client_free_ok p t Hok Hfree) as [Hw Hth].
  assert (rtc link_step (links p (ct_world t)) (Links (lk_client (links p (ct_world t))) false)) as Hsilence.
  { rewrite (links_lookup p s _ Hs). apply rtc_once, LkSilence. }
  cbn [exec_client_thread]. apply wp_bind. unfold on_cworld at 1, wp at 1.
  rewrite (client_stop_begin_Done p (ct_world t) s Hs). destruct (m_running s) eqn:Hr.
  - set (s' := set_client_running false s). set (w' := with_obj p s' _).
    destruct (cw_client _ _ _ (cto_inv _ _ Hok) p s Hs) as [_ Hsok].
    destruct (cok_running _ _ _ Hsok Hr) as [Ht Hc].
    assert (links p w' = Links (lk_client (links p (ct_world t))) false) as Hl.
    { unfold w'. rewrite links_with_obj, (links_lookup p s _ Hs). simpl. by destruct s. }
    apply wp_modify. split; [|split; [by simpl; rewrite Hl|split; [done|left; split; [done|]]]].
    2: { simpl. rewrite dom_insert_L. apply subseteq_union_1_L, singleton_subseteq_l, elem_of_dom. by exists s. }
    destruct t as [w net app], Hok as [Hinv _ Hnet Hpc _ Hret _ Hled]. simpl in *.
    assert (∀ x, w_objs w' !! p = Some x → x = s') as Hx by (intros x; unfold w'; rewrite lookup_with_obj; congruence).
    split; simpl; try done.
    + pose proof (client_world_replace Interleaved p None [] w s s' Hinv Hs) as Hrep.
      rewrite app_nil_r, with_calls_nil in Hrep. apply Hrep; [by apply stopping_client_ok|by left].
    + rewrite (client_threaded_lookup p w' s') by apply lookup_with_obj. rewrite Hnet, (client_threaded_lookup p w s Hs).
      by destruct s.
    + intros pc Hpc'. specialize (Hpc pc Hpc'). assert (w_objs w' !! p = Some s') as Hs' by apply lookup_with_obj.
      destruct pc; simpl in Hpc |- *; try done.
      * destruct Hpc as (s0 & Hs0 & Hc0). exists s'. split; [done|]. assert (s0 = s) as -> by congruence. by destruct s.
      * destruct Hpc as [(s0 & Hs0 & Hd) ?]. split; [|done]. exists s'. split; [done|].
        assert (s0 = s) as -> by congruence. by destruct s.
    + intros x _ _. right. by exists d.
    + intros x ->%Hx _. by destruct s.
    + intros d' [= <-]. split; [done|]. exists s'. split; [apply lookup_with_obj|]. by destruct s.
  - assert (with_obj p (set_client_running false s) (with_instance None (ct_world t))
      = with_instance None (ct_world t)) as ->.
    { apply with_obj_id. simpl. rewrite Hs. destruct s; simpl in *; by subst. }
    rewrite Hfree. eapply wp_mono; [by apply (client_stop_idle_ok p d t s)|]. intros [] t' (Ht' & Hl & Happ & Hu & Hd).
    split_and!; [done|by etrans|done|by right].
Qed.

(** The client when [stop] has returned. *)
Lemma client_stop_end_Done p w s :
  w_objs w !! p = Some s → m_client_thread s = true → m_client_interface s = true →
  m_client_conn s ≠ 0 → w_thread w = None →
  client_stop_end p w
  = Done tt (with_obj p (set_client_conn 0 (set_client_thread false s)) (with_calls (client_close_calls s) w)).
Proof.
  intros Hs Ht Hi Hc Hth. unfold client_stop_end. erewrite bind_Done; [|by apply deref_Done]. rewrite Ht.
  erewrite bind_Done.
  2: { unfold join_network_thread, gets. erewrite bind_Done; [|done].
       rewrite Hth, decide_False by done. by apply update_Done. }
  rewrite (close_connection_Done p _ (set_client_thread false s)); [|apply lookup_with_obj|by destruct s].
  autorewrite with world. by destruct s.
Qed.

Lemma client_stop_end_ok p w s :
  client_world_inv Interleaved p w → w_objs w !! p = Some s → s_instance w = None → w_thread w = None →
  m_client_thread s = true → m_running s = false → m_client_conn s ≠ 0 →
  wp (client_stop_end p) (λ _ w1, client_app_ok p w1 ∧ s_instance w1 = None ∧
    w_objs w1 = {[p := client_stopped s]} ∧
    w_trace w1 = w_trace w ++
      [CloseConnection (m_client_conn s) 0 (Some "UdpClient disconnecting"%string) true] ∧
    w_user w1 = w_user w ∧ rtc link_step (links p w) (links p w1)) w.
Proof.
  intros Hinv Hs Hi Hth Ht Hr Hc. destruct (cw_client _ _ _ Hinv p s Hs) as [_ Hsok].
  destruct (cok_live _ _ _ Hsok Hc) as [Hif _]. set (s' := set_client_conn 0 (set_client_thread false s)).
  assert (client_stopped s = s') as Hst by (destruct s; simpl in *; by subst). rewrite Hst.
  eapply wp_of_Done; [by apply client_stop_end_Done|]. fold s'. set (w1 := with_obj p s' _).
  assert (w_objs w1 = {[p := s']}) as Hobjs.
  { unfold w1. simpl. apply map_eq. intros q. destruct (decide (p = q)) as [<-|Hne].
    - by rewrite lookup_insert_eq, lookup_singleton_eq.
    - rewrite lookup_insert_ne, lookup_singleton_ne by done. destruct (w_objs w !! q) as [t|] eqn:Hq; [|done].
      by destruct (cw_client _ _ _ Hinv q t Hq). }
  split_and!; [split; [split|done]|done|done| |done|].
  - rewrite Hobjs. intros q t [<- <-]%lookup_singleton_Some.
    split; [done|]. split; [destruct s; simpl in *; congruence|by destruct s|left; by destruct s].
  - unfold w1. simpl. congruence.
  - unfold w1, client_close_calls. simpl. by rewrite decide_True.
  - rewrite (links_lookup p s w Hs), Hi, link_of_linked by done.
    rewrite (links_lookup p s' w1) by apply lookup_with_obj. change (s_instance w1) with (s_instance w). rewrite Hi.
    rewrite (link_of_none s') by by destruct s.
    assert (m_connection_status s' = m_connection_status s) as -> by by destruct s. apply rtc_once, LkClose.
Qed.

Lemma client_joined_ok p d t :
  client_threads_ok p t → ct_app t = CJoining d → ct_net t = Some CReturned →
  wp (exec_client_thread p CJoined) (λ _ t', client_threads_ok p t' ∧ ct_app t' = CFree ∧ ct_net t' = None ∧
    rtc link_step (links p (ct_world t)) (links p (ct_world t')) ∧
    w_user (ct_world t') = w_user (ct_world t) ∧
    ∃ s, w_objs (ct_world t) !! p = Some s ∧ m_client_conn s ≠ 0 ∧
      w_trace (ct_world t') = w_trace (ct_world t) ++
        [CloseConnection (m_client_conn s) 0 (Some "UdpClient disconnecting"%string) true] ∧
      w_objs (ct_world t') = if d then ∅ else {[p := client_stopped s]}) t.
Proof.
  intros Hok Happ Hret. destruct (cto_joining _ _ Hok d Happ) as (Hi & s & Hs & Ht & Hr & Hc).
  destruct t as [w net app]. simpl in *. subst net app.
  destruct Hok as [Hinv Hth _ _ _ _ _ Hled]. simpl in *.
  pose proof (client_stop_end_ok p w s Hinv Hs Hi Hth Ht Hr Hc) as Hend.
  apply wp_Done in Hend as ([] & w1 & Hex & [Hw1 Hth1] & Hi1 & Hobjs & Htr & Hu & Hlk).
  assert (ledger [] (w_trace w1)) as Hl1 by (rewrite Htr; apply ledger_idle; [by repeat constructor|done]).
  assert (w_objs w1 !! p = Some (client_stopped s)) as Hs1 by by rewrite Hobjs, lookup_singleton_eq.
  assert (m_running (client_stopped s) = false ∧ m_client_thread (client_stopped s) = false) as [Hr1 Ht1] by by destruct s.
  cbn [exec_client_thread]. apply wp_bind, wp_gets. cbn [id ct_app]. apply wp_bind. unfold on_cworld, wp at 1.
  cbn [ct_world]. erewrite bind_Done by exact Hex. destruct d.
  - pose proof (client_destroy_ok p w1 _ Hw1 Hs1 Hi1 Hr1 Ht1 Hth1) as Hwp.
    apply wp_Done in Hwp as ([] & w2 & -> & Hok2 & Hempty & Htr2 & Hu2 & Hl2).
    assert (client_threaded p w2 = false) as Htw by (unfold client_threaded; by rewrite Hempty).
    cbn. split_and!; [|done|done|by etrans|by etrans|].
    + apply (client_threads_initial_ok p w2); [done..|by rewrite Htr2].
    + exists s. split_and!; [done..| |done]. by rewrite <- Htr.
  - cbn. split_and!; [|done|done|done|done|by exists s].
    apply (client_threads_initial_ok p w1); [done| |done]. by rewrite (client_threaded_lookup p w1 _ Hs1).
Qed.

Lemma client_user_ok p f t :
  client_threads_ok p t → client_threads_ok p (CThreads (with_user f (ct_world t)) (ct_net t) (ct_app t)).
Proof. intros [Hinv Hth Hnet Hpc Hrun Hret Hj Hl]. split; simpl; try done. by apply client_ok_with_user. Qed.
End system.

(** ** A lost link *)

Section lost.
Context {A CB U : Type} `{SteamIPAddr A} `{SteamSockets A} `{ClientCallbacks A CB U}.
Local Abbreviation W := (world A (UdpClient CB) U).
Local Abbreviation CT := (cthreads A CB U).
Implicit Types (w : W) (t : CT) (p : positive).

(** The process terminates. *)
Definition terminates {V R} (m : M V R) (v : V) : Prop := ∃ v', m v = Fault StdTerminate v'.

Lemma terminates_bind {V R S} (m : M V R) (k : R → M V S) v : terminates m v → terminates (m ≫= k) v.
Proof. intros [v' Hm]. exists v'. by apply bind_Fault. Qed.

Lemma terminates_after {V R S} (m : M V R) (k : R → M V S) v r v' :
  m v = Done r v' → terminates (k r) v' → terminates (m ≫= k) v.
Proof. intros Hm [v'' Hk]. exists v''. by rewrite (bind_Done _ _ _ _ _ Hm). Qed.

Lemma terminates_on_cworld {R} (m : M W R) t : terminates m (ct_world t) → terminates (on_cworld m) t.
Proof. intros [w' Hm]. eexists. unfold on_cworld. by rewrite Hm. Qed.

Lemma lost_connect p a pt w :
  client_world_ok p w → broken (links p w) → steam_answer (w_trace w) SteamNetworkingSockets = true →
  terminates (connect p a pt) w.
Proof. intros Hw Hb Hlib. destruct (broken_zombie p w Hw Hb) as (s & Hs & Hz). by eapply zombie_connect. Qed.

(** The destructor, which has nothing to wait for. *)
Lemma lost_destroy p t :
  client_world_ok p (ct_world t) → broken (links p (ct_world t)) →
  terminates (exec_client_thread p (CStop true)) t.
Proof.
  intros Hw Hb. destruct (broken_zombie p _ Hw Hb) as (s & Hs & Hr & Ht). destruct t as [w net app]. simpl in *.
  set (w1 := with_obj p (set_client_running false s) (with_instance None w)).
  assert (client_stop_begin p w = Done false w1) as Hbegin.
  { unfold client_stop_begin. erewrite bind_Done; [|done]. rewrite (bind_Done _ _ _ s (with_instance None w)) by by apply deref_Done.
    erewrite bind_Done; [|by apply update_Done]. by rewrite Hr. }
  cbn [exec_client_thread]. apply (terminates_after _ _ _ false (CThreads w1 net app)).
  - unfold on_cworld. simpl. by rewrite Hbegin.
  - apply terminates_on_cworld. exists w1. unfold client_destroy_members. simpl.
    erewrite bind_Done; [|apply deref_Done, lookup_with_obj]. destruct s. simpl in *. by rewrite Ht.
Qed.
End lost.
