(* ===== verification/ClientInterleavings.v ===== *)
(** * What holds in every interleaving of the client's threads

    Safety, the link and the messages; the round of a thread left alone; the end
    of a [stop]; and the moments at which another thread must not interfere. *)

From S2P Require Import Prelude Bytes NetworkTypes Packet Serde Runtime.
From S2P Require Import Ledger UdpClient UdpClientSpec Links UdpClientSafety Simulated UdpClientSystem.
From S2P Require Import ClientThreads ClientThreadsProps ClientThreadsSystem.
Local Open Scope Z_scope.

Section theorems.
Context {A CB U : Type} `{SteamIPAddr A} `{SteamSockets A} `{!SteamLaws A}.
Context `{ClientCallbacks A CB U} `{CallbackContract U} `{!ClientCallbacksLaws Interleaved A CB U}.
Local Abbreviation CT := (cthreads A CB U).
Implicit Types (t : CT) (s : UdpClient CB) (p : positive).

Lemma client_thread_op_ok p op t :
  client_threads_ok p t → client_thread_allowed p op t →
  wp (exec_client_thread p op) (λ _ t', client_threads_ok p t' ∧
    rtc link_step (links p (ct_world t)) (links p (ct_world t'))) t.
Proof.
  intros Hok Hop. destruct op as [|op|d| |f].
  - eapply wp_mono; [by apply client_network_ok|]. by intros [] t' (? & _ & ? & _).
  - eapply wp_mono; [by apply client_app_step_ok|]. by intros [] t' (? & _ & ?).
  - eapply wp_mono; [by apply client_stop_ok_threads|]. by intros [] t' (? & ? & _).
  - destruct Hop as [[d Happ] Hret]. eapply wp_mono; [by apply (client_joined_ok p d)|].
    by intros [] t' (? & _ & _ & ? & _).
  - split; [by apply client_user_ok|]. apply rtc_refl.
Qed.

Lemma client_threads_reachable_ok p (u : U) t :
  rtc (client_thread_step p) (client_thread_initial u) t → client_threads_ok p t.
Proof.
  intros Hr. assert (client_threads_ok p (client_thread_initial u : CT)) as Hok.
  { by apply (client_threads_initial_ok p (client_initial u)); [apply client_initial_ok| |apply ledger_nil]. }
  revert Hok. induction Hr as [|t1 t2 t3 (op & Hop & Hex) _ IH]; [done|]. intros Hok. apply IH.
  pose proof (client_thread_op_ok p op t1 Hok Hop) as Hwp. unfold wp in Hwp. rewrite Hex in Hwp. apply Hwp.
Qed.

(** C6: the one client of a process, its network thread, one step per test, message
    and status change, the application, whose [stop] waits in between, and code
    that changes what callbacks act on, interleaved in every way but two: no other
    thread has a status change handled, nor polls, just between the thread's test
    of the connection and its receiving on it, and nobody takes the data callback
    away while the thread is delivering messages ([exposed_positions_fault] shows
    what happens then).  As long as the callback keeps its contract, the library is
    initialised before the client connects, and a client whose link is lost is
    neither connected again nor destroyed, no step faults; the client stays
    well-formed, and as strictly as between operations while the application is
    free; the steps are steps of the link machine; there is a position for the
    thread exactly while there is a thread; and every message received has been
    released once, or is held by the thread.  Once the link is lost, connecting or
    destroying the client terminates the process. *)
Theorem client_threads_safe p (u : U) t :
  rtc (client_thread_step p) (client_thread_initial u) t →
  (∀ op, client_thread_allowed p op t →
     ∃ t', exec_client_thread p op t = Done tt t' ∧
       client_world_inv Interleaved p (ct_world t') ∧
       (ct_app t' = CFree → client_world_ok p (ct_world t')) ∧
       rtc link_step (links p (ct_world t)) (links p (ct_world t')) ∧
       (is_Some (ct_net t') ↔ client_threaded p (ct_world t') = true) ∧
       received (w_trace (ct_world t')) ≡ₚ released (w_trace (ct_world t')) ++ client_owed (ct_net t')) ∧
  (ct_app t = CFree → broken (links p (ct_world t)) →
     terminates (exec_client_thread p (CStop true)) t ∧
     (∀ a pt, steam_answer (w_trace (ct_world t)) SteamNetworkingSockets = true →
        terminates (exec_client_thread p (CApp (ClConnect a pt))) t)).
Proof.
  intros Hr. pose proof (client_threads_reachable_ok p u t Hr) as Hok. split.
  - intros op Hop. pose proof (client_thread_op_ok p op t Hok Hop) as Hwp.
    apply wp_Done in Hwp as ([] & t' & Hex & Hok' & Hlk).
    exists t'. split_and!; [done|apply Hok'| |done|apply Hok'|apply Hok']. intros Hfree. by apply client_free_ok.
  - intros Hfree Hb. destruct (client_free_ok p t Hok Hfree) as [Hw _]. split; [by apply lost_destroy|].
    intros a pt Hlib. by apply terminates_bind, terminates_on_cworld, terminates_bind, lost_connect.
Qed.

(** ** One thread left alone *)

Lemma client_net_run_step p pc w pc' w' app :
  client_net_run p (pc, w) (pc', w') →
  client_network_step p (CThreads w (Some pc) app) (CThreads w' (Some pc') app).
Proof.
  intros (Hret & Hrd & Hstep). split; [split; [done|by exists pc]|].
  cbn [exec_client_thread]. erewrite bind_Done; [|done]. cbn [id ct_net].
  unfold mbind, M_bind, on_cworld. cbn [ct_world]. by rewrite Hstep.
Qed.

Lemma client_net_runs p n x y app :
  nsteps (client_net_run p) n x y →
  nsteps (client_network_step p) n (CThreads x.2 (Some x.1) app) (CThreads y.2 (Some y.1) app).
Proof.
  induction 1 as [|n [pc w] [pc1 w1] y Hstep _ IH]; [constructor|].
  eapply nsteps_l; [by apply client_net_run_step|exact IH].
Qed.

Lemma client_nsteps_det p n t t1 t2 :
  nsteps (client_network_step p) n t t1 → nsteps (client_network_step p) n t t2 → t1 = t2.
Proof.
  intros Hn. revert t2. induction Hn as [|n x y z [_ Hxy] _ IH]; intros t2 Hn2; inversion Hn2; subst; [done|].
  apply IH. match goal with Hs : client_network_step p x ?y' |- _ =>
    destruct Hs as [_ Hs]; rewrite Hxy in Hs; by injection Hs as <- end.
Qed.

(** C18: the network thread of a client that nobody interrupts does, step by step,
    exactly what one round of [network_loop] does: from the top of its loop, after
    some number of steps of its own the state is that of the round and no other,
    and the thread is at the top again, or has returned if the client does not
    run. *)
Theorem uninterrupted_client_round p (u : U) t s :
  rtc (client_thread_step p) (client_thread_initial u) t → ready (ct_world t) →
  w_objs (ct_world t) !! p = Some s → ct_net t = Some CAtTop →
  ∃ n w', client_iteration p (ct_world t) = Done tt w' ∧
    ∀ t', nsteps (client_network_step p) n t t' ↔
      t' = CThreads w' (Some (if m_running s then CAtTop else CReturned)) (ct_app t).
Proof.
  intros Hr Hrd Hs Htop. pose proof (client_threads_reachable_ok p u t Hr) as Hok.
  destruct (client_round_runs p (ct_world t) s (conj (cto_inv _ _ Hok) Hrd) Hs) as (w' & Hround & Hruns).
  apply rtc_nsteps in Hruns as [n Hn]. exists n, w'. split; [done|].
  pose proof (client_net_runs p n _ _ (ct_app t) Hn) as Hsteps. simpl in Hsteps. rewrite <- Htop in Hsteps.
  replace (CThreads (ct_world t) (ct_net t) (ct_app t)) with t in Hsteps by by destruct t.
  intros t'. split; [|by intros ->]. intros Ht'. by eapply client_nsteps_det.
Qed.

(** ** A [stop] returns *)

(** C12: a [stop] of the client returns: from every moment at which the
    application waits in it, the network thread, left to run, returns after some
    number of steps, always the same, having released every message it holds; the
    [join] then returns, the connection is closed once, with linger, and the
    client is left stopped, or gone if it was its destructor. *)
Theorem client_stop_returns p (u : U) t d :
  rtc (client_thread_step p) (client_thread_initial u) t → ct_app t = CJoining d → ready (ct_world t) →
  ∃ n t1 t2 s,
    (∀ t', nsteps (client_network_step p) n t t' ↔ t' = t1) ∧
    received (w_trace (ct_world t1)) ≡ₚ released (w_trace (ct_world t1)) ∧
    exec_client_thread p CJoined t1 = Done tt t2 ∧ ct_app t2 = CFree ∧ ct_net t2 = None ∧
    client_world_ok p (ct_world t2) ∧
    w_objs (ct_world t1) !! p = Some s ∧
    w_trace (ct_world t2) = w_trace (ct_world t1) ++
      [CloseConnection (m_client_conn s) 0 (Some "UdpClient disconnecting"%string) true] ∧
    w_objs (ct_world t2) = if d then ∅ else {[p := client_stopped s]}.
Proof.
  intros Hr Happ Hrd. pose proof (client_threads_reachable_ok p u t Hr) as Hok.
  destruct (cto_joining _ _ Hok d Happ) as (Hi & s & Hs & Ht & Hrun & _).
  destruct (proj2 (cto_net _ _ Hok)) as [pc Hpc]; [by rewrite (client_threaded_lookup p _ s Hs)|].
  assert (client_net_good p pc (ct_world t)) as Hgood.
  { split; [by split; [apply Hok|]|]. split; [by exists s|by apply (cto_pc _ _ Hok)]. }
  destruct (client_stopping_runs p pc _ s Hgood Hs Hrun) as [w' Hruns]. apply rtc_nsteps in Hruns as [n Hn].
  pose proof (client_net_runs p n _ _ (ct_app t) Hn) as Hsteps. simpl in Hsteps. rewrite <- Hpc in Hsteps.
  replace (CThreads (ct_world t) (ct_net t) (ct_app t)) with t in Hsteps by by destruct t.
  set (t1 := CThreads w' _ _) in Hsteps.
  assert (rtc (client_thread_step p) (client_thread_initial u) t1) as Hr1.
  { etrans; [exact Hr|]. apply (rtc_subrel (client_network_step p)); [|apply rtc_nsteps; by exists n].
    intros x y [Hx Hy]. by exists CNetwork. }
  pose proof (client_threads_reachable_ok p u t1 Hr1) as Hok1.
  pose proof (client_joined_ok p d t1 Hok1 Happ eq_refl) as Hwp.
  apply wp_Done in Hwp as ([] & t2 & Hex & Hok2 & Hfree & Hnet & _ & _ & s1 & Hs1 & _ & Htr & Hobjs).
  exists n, t1, t2, s1. split_and!; try done.
  - intros t'. split; [|by intros ->]. intros Ht'. by eapply client_nsteps_det.
  - pose proof (cto_ledger _ _ Hok1) as Hl. unfold ledger in Hl. by rewrite app_nil_r in Hl.
  - by apply client_free_ok.
Qed.
End theorems.

(** ** Where other threads must not interfere *)

Section races.
Context {A CB U : Type} `{SteamIPAddr A} `{SteamSockets A} `{!SteamLaws A} `{ClientCallbacks A CB U}.
Local Abbreviation W := (world A (UdpClient CB) U).
Local Abbreviation CT := (cthreads A CB U).
Implicit Types (w : W) (t : CT) (s : UdpClient CB) (p : positive).

Lemma client_network_Done p pc pc' w w' app :
  on_thread p (client_net_step p pc) w = Done pc' w' →
  exec_client_thread p CNetwork (CThreads w (Some pc) app) = Done tt (CThreads w' (Some pc') app).
Proof.
  intros Hstep. cbn [exec_client_thread]. erewrite bind_Done; [|done]. cbn [id ct_net].
  erewrite bind_Done; [|unfold on_cworld; cbn [ct_world]; by rewrite Hstep]. done.
Qed.

Lemma client_network_Fault p pc e w w' app :
  on_thread p (client_net_step p pc) w = Fault e w' →
  exec_client_thread p CNetwork (CThreads w (Some pc) app) = Fault e (CThreads w' (Some pc) app).
Proof.
  intros Hstep. cbn [exec_client_thread]. erewrite bind_Done; [|done]. cbn [id ct_net].
  erewrite bind_Fault; [|unfold on_cworld; cbn [ct_world]; by rewrite Hstep]. done.
Qed.

Lemma client_app_Done p op pc w w' app :
  exec_client_op p op w = Done tt w' →
  exec_client_thread p (CApp op) (CThreads w (Some pc) app) = Done tt (CThreads w' (Some pc) app).
Proof.
  intros Hop. cbn [exec_client_thread]. erewrite bind_Done; [|unfold on_cworld; cbn [ct_world]; by rewrite Hop]. done.
Qed.

(** Receiving on no connection. *)
Lemma receive_unlinked p w s :
  w_objs w !! p = Some s → m_client_conn s = 0 →
  receive_messages p w
  = Done (2 ^ 64 - 1, [], bool_decide (is_Some (m_on_data_received s)))
      (with_calls [ReceiveMessagesOnConnection 0 16] w).
Proof.
  intros Hs Hc. unfold receive_messages. erewrite bind_Done; [|by apply deref_Done]. rewrite Hc.
  unfold call, mbind, M_bind. change k_default_poll_message_count with 16.
  rewrite receive_closed_conn by (by intros [? _]).
  by rewrite (deref_Done p s) by done.
Qed.

(** C39: the client's members are shared with its network thread unprotected.
    When another thread runs the library's callbacks and the connection is
    reported closed just after the network thread has tested it, the thread
    receives on no connection, and then reads a message that was never written;
    when the data callback is taken away while the thread is delivering messages,
    it calls an empty function, and the process terminates. *)
Theorem exposed_positions_fault p t s :
  w_objs (ct_world t) !! p = Some s →
  (∀ info, ct_net t = Some CChecked → s_instance (ct_world t) = Some p → m_client_interface s = true →
     sc_state info = StateClosedByPeer ∨ sc_state info = StateProblemDetectedLocally →
     ∃ t1 t2 t3, exec_client_thread p (CApp (ClStatusChanged info)) t = Done tt t1 ∧
       exec_client_thread p CNetwork t1 = Done tt t2 ∧
       exec_client_thread p CNetwork t2 = Fault OutOfBounds t3) ∧
  (∀ i count m slots all, ct_net t = Some (CDelivering i count (m :: slots) all) → i < count →
     ∃ t1 t2, exec_client_thread p (CApp (ClSetOnData None)) t = Done tt t1 ∧
       exec_client_thread p CNetwork t1 = Fault StdTerminate t2).
Proof.
  intros Hs. destruct t as [w net app]. simpl in Hs. split.
  - intros info Hnet Hi Hif Hst. simpl in Hnet, Hi. subst net. set (s1 := after_event info s).
    assert (m_client_conn s1 = 0) as Hc by (unfold s1, after_event; by destruct Hst as [-> | ->], s).
    set (w1 := with_obj p s1 (with_calls (event_calls info) w)).
    assert (connection_status_changed_callback info w = Done tt w1) as Hev.
    { unfold connection_status_changed_callback, gets. erewrite bind_Done; [|done]. rewrite Hi.
      by apply client_event_Done. }
    eexists _, _, _. split; [by apply client_app_Done|]. split.
    + apply client_network_Done, on_thread_Done. cbn [client_net_step].
      erewrite bind_Done; [|apply (receive_unlinked p _ s1); [apply lookup_with_obj|done]]. done.
    + apply client_network_Fault, on_thread_Fault. by destruct (bool_decide _).
  - intros i count m slots all Hnet Hlt. simpl in Hnet. subst net. eexists _, _. split.
    + apply client_app_Done. by apply (update_Done p).
    + apply client_network_Fault, on_thread_Fault. cbn [client_net_step]. rewrite decide_True by done.
      unfold deliver_message.
      erewrite bind_Fault; [|erewrite bind_Done; [|apply deref_Done, lookup_with_obj]; by destruct s]. done.
Qed.
End races.

(** ** A simulated run *)

#[local] Existing Instance log_views.
#[local] Existing Instance views_contract.
#[local] Existing Instance log_views_laws.

Section simulation.
Context (ss : SteamSockets sim_addr).
Local Abbreviation views := (list incoming_view_message_t).
Local Abbreviation CT := (cthreads sim_addr unit views).
Implicit Types (t : CT) (op : client_thread_op unit views).

Definition sim_client_threads (ops : list (client_thread_op unit views)) : CT :=
  foldl (λ t op, match exec_client_thread 1 op t with Done _ t' => t' | Fault _ t' => t' end)
    (client_thread_initial []) ops.

Definition client_thread_allowed_b op t : bool :=
  match op, ct_app t with
  | CNetwork, _ => match ct_net t with Some CReturned | None => false | Some _ => true end
  | CApp op, CFree =>
      client_op_allowed_b ss op (ct_world t) && in_one_piece op &&
      match ct_net t with Some pc => negb (exposed pc op) | None => true end
  | CStop d, CFree =>
      match w_objs (ct_world t) !! 1%positive with
      | Some s => negb d || m_running s || negb (m_client_thread s)
      | None => false
      end
  | CJoined, CJoining _ => match ct_net t with Some CReturned => true | _ => false end
  | CUser _, _ => true
  | _, _ => false
  end.

Lemma client_thread_allowed_b_sound op t : client_thread_allowed_b op t = true → client_thread_allowed 1 op t.
Proof.
  unfold client_thread_allowed_b. destruct op as [|op|d| |f]; simpl.
  - destruct (ct_net t) as [[]|]; intros Hok; try done; (split; [done|]); by eexists.
  - destruct (ct_app t); [|done]. rewrite !andb_true_iff. intros [[Hop Hone] Hexp].
    split_and!; [done|by apply (client_op_allowed_b_sound ss)|done|].
    intros pc Hpc. rewrite Hpc in Hexp. by apply negb_true_iff in Hexp.
  - destruct (ct_app t); [|done]. destruct (w_objs (ct_world t) !! 1%positive) as [s|] eqn:Hs; [|done].
    intros Hz. split; [done|]. exists s. split; [done|]. intros -> [Hr Ht]. by rewrite Hr, Ht in Hz.
  - destruct (ct_app t) as [|d]; [done|]. destruct (ct_net t) as [[]|]; try done. intros _. by split; [exists d|].
  - done.
Qed.

Fixpoint client_threads_run_ok t (ops : list (client_thread_op unit views)) : bool :=
  match ops with
  | [] => true
  | op :: ops =>
      client_thread_allowed_b op t &&
      match exec_client_thread 1 op t with Done _ t' => client_threads_run_ok t' ops | Fault _ _ => false end
  end.

Lemma sim_client_threads_reachable ops :
  client_threads_run_ok (client_thread_initial []) ops = true →
  rtc (client_thread_step 1) (client_thread_initial []) (sim_client_threads ops).
Proof.
  unfold sim_client_threads. generalize (client_thread_initial ([] : views) : CT).
  induction ops as [|op ops IH]; intros t Hok; [apply rtc_refl|]. simpl in Hok |- *.
  apply andb_true_iff in Hok as [Hop Hok]. apply client_thread_allowed_b_sound in Hop.
  destruct (exec_client_thread 1 op t) as [[] t'|] eqn:Hex; [|done].
  eapply rtc_l; [by exists op|]. by apply IH.
Qed.
End simulation.

Local Abbreviation thread_ops := (list (client_thread_op unit (list incoming_view_message_t))).

(** The client has connected; two messages wait for it. *)
Definition sim_client_inbox : list (kb_connection_t * list Byte.byte) := [(2, [Byte.x01]); (2, [Byte.x02])].
Definition sim_client_top : thread_ops :=
  [CApp ClConstruct; CApp (ClSetOnData (Some tt)); CApp (ClConnect "10.0.0.1" 80)].
(** Its thread has tested the connection. *)
Definition sim_client_checked : thread_ops := sim_client_top ++ [CNetwork; CNetwork; CNetwork].
(** It has delivered the first message when the application stops the client. *)
Definition sim_client_stopping : thread_ops := sim_client_checked ++ [CNetwork; CNetwork; CStop true].

Lemma sim_client_laws : SteamLaws sim_addr (H:=sim_steam sim_client_inbox []).
Proof. apply sim_laws. by repeat constructor. Qed.

Lemma client_threads_safe_witness :
  let ss := sim_steam sim_client_inbox [] in
  let t := sim_client_threads ss sim_client_stopping in
  length (client_owed (ct_net t)) = 2%nat ∧ ct_app t = CJoining true ∧
  ∃ t', exec_client_thread 1 CNetwork t = Done tt t' ∧ length (w_user (ct_world t')) = 2%nat ∧
    received (w_trace (ct_world t')) ≡ₚ released (w_trace (ct_world t')) ++ client_owed (ct_net t').
Proof.
  intros ss t. pose proof sim_client_laws as Hlaws. split; [by vm_compute|]. split; [by vm_compute|].
  destruct (client_threads_safe 1 [] t) as [Hops _]; [apply sim_client_threads_reachable; by vm_compute|].
  destruct (Hops CNetwork) as (t' & Hex & _ & _ & _ & _ & Hl).
  - apply (client_thread_allowed_b_sound ss). by vm_compute.
  - exists t'. split; [exact Hex|]. split; [|exact Hl].
    assert (match exec_client_thread 1 CNetwork t with
            | Done _ v => length (w_user (ct_world v)) | Fault _ _ => 0%nat end = 2%nat) as Hlen by by vm_compute.
    by rewrite Hex in Hlen.
Defined.

Lemma uninterrupted_client_round_witness :
  let ss := sim_steam sim_client_inbox [] in
  let t := sim_client_threads ss sim_client_top in
  ∃ n w', client_iteration 1 (ct_world t) = Done tt w' ∧ length (w_user w') = 2%nat ∧
    nsteps (client_network_step 1) n t (CThreads w' (Some CAtTop) CFree).
Proof.
  intros ss t. pose proof sim_client_laws as Hlaws.
  destruct (uninterrupted_client_round 1 [] t (sim_client (ct_world t) 1)) as (n & w' & Hround & Hn);
    [apply sim_client_threads_reachable|..]; [by vm_compute..|].
  exists n, w'. split; [exact Hround|]. split; [|by apply Hn].
  assert (length (w_user (after (client_iteration 1 (ct_world t)))) = 2%nat) as Hlen by by vm_compute.
  by rewrite Hround in Hlen.
Defined.

Lemma client_stop_returns_witness :
  let ss := sim_steam sim_client_inbox [] in
  let t := sim_client_threads ss sim_client_stopping in
  ∃ t1 t2, rtc (client_network_step 1) t t1 ∧ exec_client_thread 1 CJoined t1 = Done tt t2 ∧
    ct_app t2 = CFree ∧ w_objs (ct_world t2) = ∅.
Proof.
  intros ss t. pose proof sim_client_laws as Hlaws.
  destruct (client_stop_returns 1 [] t true)
    as (n & t1 & t2 & s & Hn & _ & Hex & Hfree & _ & _ & _ & _ & Hobjs);
    [apply sim_client_threads_reachable|..]; [by vm_compute..|].
  exists t1, t2. split; [apply rtc_nsteps; exists n; by apply Hn|].
  split; [exact Hex|]. split; [exact Hfree|exact Hobjs].
Defined.

Lemma exposed_positions_fault_witness :
  let ss := sim_steam sim_client_inbox [] in
  let t := sim_client_threads ss sim_client_checked in
  ∃ t1 t2 t3,
    exec_client_thread 1 (CApp (ClStatusChanged (StatusChanged 2 StateClosedByPeer StateConnected))) t = Done tt t1 ∧
    exec_client_thread 1 CNetwork t1 = Done tt t2 ∧
    exec_client_thread 1 CNetwork t2 = Fault OutOfBounds t3.
Proof.
  intros ss t. pose proof sim_client_laws as Hlaws.
  destruct (exposed_positions_fault 1 t (sim_client (ct_world t) 1)) as [Hrace _]; [by vm_compute|].
  apply Hrace; [by vm_compute..|by left].
Defined.
