(* ===== verification/Dispatch.v ===== *)
(** * Dispatching a datagram

    The specification both receivers implement: which handler a datagram is for,
    and the payload the handler is given. *)

From S2P Require Import Prelude Bytes NetworkTypes Packet Serde.
Import Strings.Byte.
Local Open Scope Z_scope.

Section dispatch.
Context {H payload_t : Type} `{PacketDeserializerLaws payload_t}.
Implicit Types (handlers : gmap packet_type_t H) (data : list byte).

Definition dispatch handlers data : option (H * payload_t) :=
  match parse_header data with
  | Some header =>
      if decide (m_serde_type header = SerdeT) then
        match handlers !! m_packet_type header, decode (drop 8 data) with
        | Some handler, Some payload => Some (handler, payload)
        | _, _ => None
        end
      else None
  | None => None
  end.

(** The datagram is a packet of type [t] with a bound handler and a payload that
    decodes. *)
Definition matches handlers data (t : packet_type_t) (handler : H) (payload : payload_t) : Prop :=
  fits 32 t ∧ fits 8 SerdeT ∧ handlers !! t = Some handler ∧
  ∃ body, data = header_bytes (header_create SerdeT t) ++ body ∧ decode body = Some payload.

Lemma dispatch_matches handlers data handler payload :
  dispatch handlers data = Some (handler, payload) ↔ ∃ t, matches handlers data t handler payload.
Proof.
  unfold dispatch. split.
  - intros Hdis. destruct (parse_header data) as [[magic serde t]|] eqn:Hparse; [|done].
    cbn [m_serde_type m_packet_type] in Hdis. case_decide as Hserde; [|done]. subst serde.
    destruct (handlers !! t) as [h|] eqn:Hh; [|done].
    destruct (decode (drop 8 data)) as [x|] eqn:Hd; [|done]. injection Hdis as <- <-.
    apply parse_header_Some in Hparse as [(Hm & Hs & Ht) Hdata]. simpl in Hm, Hs, Ht.
    exists t. split_and!; try done. exists (drop 8 data). split; [|done]. by rewrite Hdata at 1.
  - intros (t & Ht & Hs & Hh & body & -> & Hd).
    rewrite parse_header_bytes by by apply header_wf_create.
    cbn [header_create m_serde_type m_packet_type]. rewrite decide_True by done. rewrite Hh.
    rewrite drop_app_length' by (by rewrite length_header_bytes). by rewrite Hd.
Qed.

(** A header leaves the rest of the datagram as the payload. *)
Lemma parse_header_length data header :
  parse_header data = Some header → (length data = 8 + length (drop 8 data))%nat.
Proof.
  intros [_ Hdata]%parse_header_Some. rewrite Hdata at 1. by rewrite length_app, length_header_bytes.
Qed.

(** Deserializing the part of a buffer after the header. *)
Lemma deserialize_after_header {W} data header (w : W) :
  parse_header data = Some header → length data < 2 ^ 64 →
  deserialize_packet (drop (Z.to_nat sizeof_header) data) (u64 (length data - sizeof_header)) w
  = Done (decode (drop 8 data)) w ∧
  u64 (length data - sizeof_header) < length data.
Proof.
  intros Hparse Hlen. pose proof (parse_header_length _ _ Hparse) as Hsz.
  rewrite sizeof_header_8. change (Z.to_nat 8) with 8%nat.
  unfold u64. rewrite wrap_small by (unfold fits; lia).
  replace (length data - 8) with (Z.of_nat (length (drop 8 data))) by lia.
  split; [apply deserialize_law|lia].
Qed.
End dispatch.
