(* ===== verification/PacketServer.v ===== *)
(** * The packet server

    [src/kb/net/udp/server/udp_packet_server.hpp] and [.inl]: the class template
    [UdpPacketServer], for any serializer of the interface of [Serde.v].  A
    packet server is owned by shared pointers; its [m_server] is the [UdpServer]
    at the same address, whose data callback holds a weak pointer to it. *)

From S2P Require Import Prelude Bytes NetworkTypes Packet Serde Runtime UdpServer.
Import Strings.Byte.
Local Open Scope Z_scope.

(** ** State *)

(** The handlers, and the number of shared pointers that own the object. *)
Record PacketServer (H : Type) := MkPacketServer {
  m_packet_handlers : gmap packet_type_t H;
  use_count : nat;
}.
Arguments MkPacketServer {H}.
Arguments m_packet_handlers {H}.
Arguments use_count {H}.

(** The packet servers alive, and what their handlers act on. *)
Record packet_heap (H U : Type) := PacketHeap {
  ps_objs : gmap positive (PacketServer H);
  ps_user : U;
}.
Arguments PacketHeap {H U}.
Arguments ps_objs {H U}.
Arguments ps_user {H U}.

(** Servers whose callback handle is a weak pointer to a packet server. *)
Definition packet_world (A H U : Type) : Type := world A (UdpServer positive) (packet_heap H U).

(** The user's packet handlers, by the handle stored in the map. *)
Class PacketHandlers (A H U payload_t : Type) :=
  run_handler : H → kb_connection_t → payload_t → M (packet_world A H U) unit.

(** ** Operations *)

Section operations.
Context {A H U payload_t : Type} `{SteamIPAddr A} `{SteamSockets A}.
Context `{PacketDeserializer payload_t} `{PacketHandlers A H U payload_t}.
Local Abbreviation W := (packet_world A H U).

Definition with_ps (f : gmap positive (PacketServer H) → gmap positive (PacketServer H)) (w : W) : W :=
  with_user (λ u, PacketHeap (f (ps_objs u)) (ps_user u)) w.

Definition deref_ps (this : positive) : M W (PacketServer H) :=
  λ w, or_fault NullDeref (ps_objs (w_user w) !! this) w.

(** [weak.lock()]: a new owner, unless the object has expired. *)
Definition weak_lock (this : positive) : M W bool :=
  u ← gets w_user;
  match ps_objs u !! this with
  | Some self =>
      if decide (use_count self = 0%nat) then mret false
      else
        modify (with_ps <[this := MkPacketServer (m_packet_handlers self) (S (use_count self))]>) ;;
        mret true
  | None => mret false
  end.

(** A shared pointer goes away; the last one destroys the object, whose members
    are destroyed in reverse order: the handlers, then [m_server]. *)
Definition release (this : positive) : M W unit :=
  self ← deref_ps this;
  if decide (use_count self ≤ 1)%nat then
    modify (with_ps (delete this)) ;;
    destruct_server this
  else modify (with_ps <[this := MkPacketServer (m_packet_handlers self) (pred (use_count self))]>).

Definition bind_packet_handler (this : positive) (p_packet_type : packet_type_t)
    (packet_handler_func : H) : M W bool :=
  self ← deref_ps this;
  match m_packet_handlers self !! p_packet_type with
  | Some _ => mret false
  | None =>
      modify (with_ps <[this := MkPacketServer
        (<[p_packet_type := packet_handler_func]> (m_packet_handlers self)) (use_count self)]>) ;;
      mret true
  end.

Definition unbind_packet_handler (this : positive) (p_packet_type : packet_type_t) : M W unit :=
  self ← deref_ps this;
  modify (with_ps <[this := MkPacketServer
    (delete p_packet_type (m_packet_handlers self)) (use_count self)]>).

Definition handle_packet (this : positive) (p_client : client_info_t) (p_data : list byte) (p_len : Z)
    : M W bool :=
  maybe_header ← unpack_internal_packet_header p_data p_len;
  match maybe_header with
  | None => mret false
  | Some header =>
      let serde_type := m_serde_type header in
      if decide (serde_type ≠ SerdeT) then mret false
      else
        let packet_type := m_packet_type header in
        self ← deref_ps this;
        match m_packet_handlers self !! packet_type with
        | None => mret false
        | Some handler =>
            let payload_ptr := drop (Z.to_nat sizeof_header) p_data in
            let payload_size := u64 (p_len - sizeof_header) in
            kb_assert (bool_decide (payload_size < p_len)) ;;
            maybe_payload ← deserialize_packet payload_ptr payload_size;
            match maybe_payload with
            | None => mret false
            | Some payload =>
                run_handler handler (m_conn p_client) payload ;;
                mret true
            end
        end
  end.

(** The closure [create] gives to [m_server]; nothing is set for the other two
    callbacks. *)
#[global] Instance packet_callbacks : ServerCallbacks A positive (packet_heap H U) := {|
  run_on_data weak client data size :=
    locked ← weak_lock weak;
    if (locked : bool) then handle_packet weak client data size ;; release weak else skip;
  run_on_connected _ _ := skip;
  run_on_disconnected _ _ := skip;
|}.

(** [std::make_shared], then the callback with the weak pointer. *)
Definition create (this : positive) : M W unit :=
  construct this ;;
  modify (with_ps <[this := MkPacketServer ∅ 1]>) ;;
  set_on_data_callback this (Some this).

Definition start (this : positive) (p_port : Z) : M W bool := start_async this p_port.

Definition stop (this : positive) : M W unit := UdpServer.stop this.

Context {B T : Type} `{OwningBuffer B} `{!PacketSerializer B T payload_t}.

Definition send_packet_internal (this : positive) (p_packet : internal_packet_t B) (p_reliable : bool)
    : M W bool :=
  UdpServer.send this (m_pkt_conn p_packet) (ob_data (m_buffer p_packet))
    (u32 (ob_size (m_buffer p_packet))) p_reliable.

Definition broadcast_packet_internal (this : positive) (p_packet : internal_packet_t B)
    (p_reliable : bool) : M W bool :=
  UdpServer.broadcast this (ob_data (m_buffer p_packet)) (u32 (ob_size (m_buffer p_packet))) p_reliable.

Definition send (this : positive) (p_conn : kb_connection_t) (p_packet_type : packet_type_t)
    (p_obj : T) (p_reliable : bool) : M W bool :=
  packet ← serialize_packet p_conn p_packet_type p_obj;
  send_packet_internal this packet p_reliable.

Definition broadcast (this : positive) (p_packet_type : packet_type_t) (p_obj : T) (p_reliable : bool)
    : M W bool :=
  packet ← serialize_packet k_invalid_connection p_packet_type p_obj;
  broadcast_packet_internal this packet p_reliable.
End operations.
