(* ===== verification/PacketServerProps.v ===== *)
(** * The properties of the packet server

    Dispatch of received bytes, binding, sending, polling through the handlers;
    the packet server as a client of [UdpServer]'s callback interface; and the
    last shared pointer released on the network thread. *)

From S2P Require Import Prelude Bytes NetworkTypes Packet Serde Runtime UdpServer.
From S2P Require Import Sessions UdpServerSpec UdpServerSafety Simulated.
From S2P Require Import Dispatch PacketServer.
Import Strings.Byte.
Local Open Scope Z_scope.

(** ** Dispatch *)

Section dispatch.
Context {A H U payload_t : Type} `{SteamIPAddr A} `{SteamSockets A}.
Context `{PacketDeserializerLaws payload_t} `{PacketHandlers A H U payload_t}.
Local Abbreviation W := (packet_world A H U).
Implicit Types (w : W) (p : positive) (ps : PacketServer H) (data : list byte).

Lemma deref_ps_Done p ps w : ps_objs (w_user w) !! p = Some ps → deref_ps p w = Done ps w.
Proof. intros Hps. unfold deref_ps. by rewrite Hps. Qed.

Lemma handle_packet_Done p client data w ps :
  ps_objs (w_user w) !! p = Some ps → length data < 2 ^ 64 →
  handle_packet p client data (length data) w
  = match dispatch (m_packet_handlers ps) data with
    | Some (handler, payload) => (run_handler handler (m_conn client) payload ;; mret true) w
    | None => Done false w
    end.
Proof.
  intros Hps Hlen. unfold handle_packet, dispatch.
  rewrite (bind_Done _ _ _ _ _ (unpack_Done data w)).
  destruct (parse_header data) as [header|] eqn:Hparse; [|done].
  destruct (deserialize_after_header data header w Hparse Hlen) as [Hdes Hlt].
  destruct (decide (m_serde_type header = SerdeT)) as [Hs|Hs].
  2: by rewrite decide_True.
  rewrite decide_False by (intros Hne; done).
  erewrite bind_Done; [|by apply deref_ps_Done].
  destruct (m_packet_handlers ps !! m_packet_type header) as [handler|]; [|done].
  rewrite bool_decide_eq_true_2 by done. erewrite bind_Done; [|done].
  rewrite (bind_Done _ _ _ _ _ Hdes). by destruct (decode (drop 8 data)).
Qed.

(** C21: a datagram runs a handler exactly when it is a header of this server's
    serialization type with a bound packet type, followed by bytes that decode;
    the handler bound to that type runs once, with the sender and the decoded
    payload, and the answer is true; any other datagram, however malformed,
    changes nothing and is answered false. *)
Theorem handle_packet_dispatches p client data w ps :
  ps_objs (w_user w) !! p = Some ps → length data < 2 ^ 64 →
  (∀ t handler payload, matches (m_packet_handlers ps) data t handler payload →
     handle_packet p client data (length data) w
     = (run_handler handler (m_conn client) payload ;; mret true) w) ∧
  ((∀ t handler payload, ¬ matches (m_packet_handlers ps) data t handler payload) →
     handle_packet p client data (length data) w = Done false w).
Proof.
  intros Hps Hlen. rewrite (handle_packet_Done p client data w ps Hps Hlen). split.
  - intros t handler payload Hm. assert (dispatch (m_packet_handlers ps) data = Some (handler, payload)) as ->
      by (apply dispatch_matches; by exists t). done.
  - intros Hno. destruct (dispatch (m_packet_handlers ps) data) as [[handler payload]|] eqn:Hdis; [|done].
    apply dispatch_matches in Hdis as [t Hm]. by apply Hno in Hm.
Qed.

(** The first handler bound to a packet type stays until it is unbound:
    binding again is refused and changes nothing; binding and unbinding leave
    the handlers of every other type alone. *)
Theorem first_binding_wins p t h w ps :
  ps_objs (w_user w) !! p = Some ps →
  ∃ b w1 ps1,
    bind_packet_handler p t h w = Done b w1 ∧ ps_objs (w_user w1) !! p = Some ps1 ∧
    (b = true ↔ m_packet_handlers ps !! t = None) ∧
    m_packet_handlers ps1 !! t = Some (default h (m_packet_handlers ps !! t)) ∧
    (∀ t', t' ≠ t → m_packet_handlers ps1 !! t' = m_packet_handlers ps !! t') ∧
    (∀ h', bind_packet_handler p t h' w1 = Done false w1) ∧
    ∃ w2 ps2, unbind_packet_handler p t w1 = Done tt w2 ∧ ps_objs (w_user w2) !! p = Some ps2 ∧
      m_packet_handlers ps2 = delete t (m_packet_handlers ps) ∧ use_count ps2 = use_count ps.
Proof.
  intros Hps.
  set (ps1 := MkPacketServer (<[t := default h (m_packet_handlers ps !! t)]> (m_packet_handlers ps)) (use_count ps)).
  set (w1 := if m_packet_handlers ps !! t is Some _ then w else with_ps <[p := ps1]> w).
  assert (ps_objs (w_user w1) !! p = Some ps1) as Hps1.
  { unfold w1. destruct (m_packet_handlers ps !! t) as [h0|] eqn:Ht.
    - rewrite Hps. unfold ps1. simpl. rewrite insert_id by done. by destruct ps.
    - apply lookup_insert_eq. }
  assert (m_packet_handlers ps1 !! t = Some (default h (m_packet_handlers ps !! t))) as Ht1
    by apply lookup_insert_eq.
  exists (bool_decide (m_packet_handlers ps !! t = None)), w1, ps1. split_and!.
  - unfold bind_packet_handler. erewrite bind_Done; [|by apply deref_ps_Done].
    unfold w1, ps1. by destruct (m_packet_handlers ps !! t).
  - done.
  - apply bool_decide_eq_true.
  - done.
  - intros t' Hne. by apply lookup_insert_ne.
  - intros h'. unfold bind_packet_handler. erewrite bind_Done; [|by apply deref_ps_Done].
    by rewrite Ht1.
  - eexists _, _. split.
    + unfold unbind_packet_handler. by erewrite bind_Done; [|by apply deref_ps_Done].
    + split; [apply lookup_insert_eq|]. simpl. split; [|done].
      by rewrite delete_insert_eq.
Qed.
End dispatch.

(** ** Sending *)

Section sending.
Context {A H U B T payload_t : Type} `{SteamSockets A}.
Context `{PacketSerializerLaws B T payload_t}.
Local Abbreviation W := (packet_world A H U).
Implicit Types (w : W) (p : positive) (s : UdpServer positive).

(** The bytes of a packet of the wire type for [t] that carries [x]. *)
Definition carries (t : packet_type_t) (x : T) (bytes : list byte) : Prop :=
  ∃ body payload,
    bytes = header_bytes (header_create SerdeT (wire_packet_type t)) ++ body ∧
    (∀ W' (w' : W'), deserialize_packet body (length body) w' = Done (Some payload) w') ∧
    (∀ W' (w' : W'), payload_as (B:=B) payload w' = Done (Some x) w').

(** C36: [send] gives the library, for the connection asked for, the bytes that
    serializing the object gives, which are those of a packet that carries it, whole
    when they are shorter than 4 GiB, and
    answers whether it took them; [broadcast] does so for every client in
    order, and answers false without a client or after a refusal. *)
Theorem packet_send_exact p conn t (x : T) reliable w s :
  world_ok w → w_objs w !! p = Some s → fits 32 t →
  (∃ pkt, serialize_packet (payload_t:=payload_t) conn t x w = Done pkt w ∧
    let bytes := ob_data (B:=B) (m_buffer pkt) in
    carries t x bytes ∧
    (length bytes < 2 ^ 32 →
     let c := send_call bytes reliable conn in
     send (B:=B) p conn t x reliable w
     = Done (bool_decide (steam_answer (w_trace w) c = k_EResultOK)) (with_calls [c] w))) ∧
  (∃ pkt, serialize_packet (payload_t:=payload_t) k_invalid_connection t x w = Done pkt w ∧
    let bytes := ob_data (B:=B) (m_buffer pkt) in
    carries t x bytes ∧
    (length bytes < 2 ^ 32 →
     ∃ b, broadcast (B:=B) p t x reliable w
          = Done b (with_calls (send_call bytes reliable <$> client_keys s) w) ∧
       (b = true → client_keys s ≠ [] ∧
          all_accepted (w_trace w) (client_keys s) bytes reliable = true))).
Proof.
  intros Hw Hs Ht. pose proof (world_ok_lookup _ _ _ _ Hw Hs) as Hok.
  assert (∀ bytes : list byte, length bytes < 2 ^ 32 → u32 (length bytes) = length bytes) as Hu32
    by (intros; apply wrap_small; unfold fits; lia).
  assert (∀ bytes : list byte, take (Z.to_nat (length bytes)) bytes = bytes) as Htake
    by (intros; by rewrite Nat2Z.id, firstn_all).
  split.
  - destruct (serialize_packet_law W conn t x w Ht)
      as (pkt & body & payload & Hser & Hc & _ & Hdata & Hsize & Hdes & Has).
    exists pkt. split; [done|]. intros bytes. split; [by exists body, payload|]. intros Hlen c. subst bytes.
    unfold send. rewrite (bind_Done _ _ _ _ _ Hser). unfold send_packet_internal.
    rewrite Hc, Hsize, Hu32 by done.
    rewrite (send_Done p conn _ _ reliable w s) by (first [done | apply Hok | lia]).
    by rewrite Htake.
  - destruct (serialize_packet_law W k_invalid_connection t x w Ht)
      as (pkt & body & payload & Hser & Hc & _ & Hdata & Hsize & Hdes & Has).
    exists pkt. split; [done|]. intros bytes. split; [by exists body, payload|]. intros Hlen. subst bytes.
    unfold broadcast. rewrite (bind_Done _ _ _ _ _ Hser). unfold broadcast_packet_internal.
    rewrite Hsize, Hu32 by done.
    rewrite (broadcast_Done p _ _ reliable w s) by (first [done | apply Hok | lia]).
    rewrite Htake. case_decide as Hemp.
    + exists false. rewrite client_keys_empty by done. by autorewrite with world.
    + eexists. split; [done|]. intros Hall. split; [|done]. intros Hnil.
      apply Hemp, map_empty. intros c. destruct (m_clients s !! c) eqn:Hc'; [|done].
      assert (c ∈ client_keys s) as Hin by by apply elem_of_client_keys.
      rewrite Hnil in Hin. by apply elem_of_nil in Hin.
Qed.
End sending.

(** ** The contract of packet handlers *)

Section contract.
Context {H U : Type} `{CallbackContract U}.
Implicit Types h : packet_heap H U.

(** The owners of each packet server. *)
Definition owners h : gmap positive nat := use_count <$> ps_objs h.

Lemma lookup_owners h p : owners h !! p = use_count <$> ps_objs h !! p.
Proof. apply lookup_fmap. Qed.

Lemma dom_owners h : dom (owners h) = dom (ps_objs h).
Proof. apply dom_fmap_L. Qed.

(** Handlers may rely on the contract of the user's state, and leave every packet
    server with the owners it had. *)
#[export] Instance packet_contract : CallbackContract (packet_heap H U).
Proof.
  refine {|
    user_frame h h' := owners h' = owners h ∧ user_frame (ps_user h) (ps_user h');
    callback_pre D h := callback_pre D (ps_user h);
  |}.
  - split; [done|]. intros h1 h2 h3 [Ho Hu] [Ho' Hu']. split; [congruence|by etrans].
  - intros D h h' [_ Hu]. by apply callback_pre_frame.
Defined.
End contract.

(** ** The packet server's use of [UdpServer] *)

Section callbacks.
Context {A H U payload_t : Type} `{SteamIPAddr A} `{!SteamIPAddrLaws A} `{SteamSockets A} `{!SteamLaws A}.
Context `{PacketDeserializerLaws payload_t} `{PacketHandlers A H U payload_t} `{CallbackContract U}.
Local Abbreviation W := (packet_world A H U).
Implicit Types (w : W) (p q : positive) (s : UdpServer positive) (ps : PacketServer H).

(** What the packet server needs of its handlers: where they may run, they are
    correct uses of the servers and drop no shared pointer. *)
Class PacketHandlersLaws (k : threading) : Prop :=
  run_handler_ok h conn payload w :
    good k w → wp (run_handler h conn payload) (λ _, goes_on k w) w.

Lemma world_inv_with_ps k f w : world_inv k w → world_inv k (with_ps f w).
Proof. apply world_inv_user. Qed.

(** The packet servers are not the servers' business. *)
Lemma keeps_with_ps k d d' f g w v :
  keeps_owing k d d' (with_ps f w) v → keeps_owing k d d' w (with_ps g v).
Proof.
  intros [Hv [Hdom Hth] [Hs Hl] Hm].
  split; [by apply world_inv_with_ps|by split|by split|]. intros Hk. by destruct (Hm Hk).
Qed.

Lemma weak_lock_Done p w ps :
  ps_objs (w_user w) !! p = Some ps → use_count ps ≠ 0%nat →
  weak_lock p w
  = Done true (with_ps <[p := MkPacketServer (m_packet_handlers ps) (S (use_count ps))]> w).
Proof.
  intros Hps Hn. unfold weak_lock. erewrite bind_Done; [|done].
  unfold packet_world in *. rewrite Hps. by rewrite decide_False.
Qed.

Lemma release_Done_shared p w ps :
  ps_objs (w_user w) !! p = Some ps → (1 < use_count ps)%nat →
  release p w
  = Done tt (with_ps <[p := MkPacketServer (m_packet_handlers ps) (pred (use_count ps))]> w).
Proof.
  intros Hps Hn. unfold release. erewrite bind_Done; [|by apply deref_ps_Done].
  by rewrite decide_False by lia.
Qed.

(** A weak pointer that does not lock leaves everything alone. *)
Lemma weak_lock_expired p w :
  (∀ ps, ps_objs (w_user w) !! p = Some ps → use_count ps = 0%nat) → weak_lock p w = Done false w.
Proof.
  intros Hno. unfold weak_lock. erewrite bind_Done; [|done].
  destruct (ps_objs (w_user w) !! p) as [ps|] eqn:Hps; [|done].
  by rewrite decide_True by by apply Hno.
Qed.

(** Taking and dropping an owner around a handler. *)
Lemma unlocked_goes_on k p w v ps ps2 :
  let w1 := with_ps <[p := MkPacketServer (m_packet_handlers ps) (S (use_count ps))]> w in
  ps_objs (w_user w) !! p = Some ps → goes_on k w1 v →
  ps_objs (w_user v) !! p = Some ps2 →
  use_count ps2 = S (use_count ps) ∧
  goes_on k w (with_ps <[p := MkPacketServer (m_packet_handlers ps2) (pred (use_count ps2))]> v).
Proof.
  intros w1 Hps [Hk [Hown Hu]] Hps2.
  assert (use_count ps2 = S (use_count ps)) as Hn.
  { pose proof (lookup_owners (w_user v) p) as Hl. rewrite Hown, lookup_owners, Hps2 in Hl.
    simpl in Hl. rewrite lookup_insert_eq in Hl. by injection Hl. }
  split; [done|]. split; [by eapply keeps_with_ps|]. split; [|done]. rewrite Hn.
  unfold owners in *. simpl in *.
  rewrite fmap_insert, Hown, fmap_insert, insert_insert_eq. simpl.
  apply insert_id. by rewrite lookup_fmap, Hps.
Qed.

#[export] Instance packet_callbacks_laws k `{!PacketHandlersLaws k} :
  ServerCallbacksLaws k A positive (packet_heap H U).
Proof.
  split; [|by intros p ci w [Hw _]; apply wp_skip, goes_on_refl..].
  intros p ci data w Hlen Hgood. pose proof Hgood as [Hw Hr]. pose proof (goes_on_refl k w Hw) as Hrefl.
  cbn [run_on_data packet_callbacks].
  destruct (ps_objs (w_user w) !! p) as [ps|] eqn:Hps;
    [destruct (decide (use_count ps = 0%nat)) as [Hz|Hn]|].
  1, 3: apply wp_bind; eapply wp_of_Done; [apply weak_lock_expired; congruence|]; by apply wp_skip.
  apply wp_bind. eapply wp_of_Done; [by apply weak_lock_Done|]. cbv iota.
  set (ps1 := MkPacketServer _ _). set (w1 := with_ps _ w).
  assert (ps_objs (w_user w1) !! p = Some ps1) as Hps1 by apply lookup_insert_eq.
  assert (good k w1) as Hgood1 by (split; [by apply world_inv_with_ps|exact Hr]).
  apply wp_bind. apply (wp_mono _ (λ _, goes_on k w1)).
  - unfold wp. rewrite (handle_packet_Done p ci data w1 ps1) by (first [done | lia]).
    destruct (dispatch (m_packet_handlers ps1) data) as [[h x]|]; [|apply goes_on_refl, Hgood1].
    apply wp_bind. eapply wp_mono; [by apply run_handler_ok|]. intros [] v Hv. by apply wp_ret.
  - intros b v Hv.
    destruct (ps_objs (w_user v) !! p) as [ps2|] eqn:Hps2.
    2: { apply not_elem_of_dom in Hps2. destruct Hps2. destruct Hv as [_ [Hown _]].
         by rewrite <- dom_owners, Hown, dom_owners; apply elem_of_dom; eexists. }
    destruct (unlocked_goes_on k p w v ps ps2 Hps Hv Hps2) as [Hcount Hv'].
    eapply wp_of_Done; [apply release_Done_shared; [done|lia]|]. exact Hv'.
Qed.

(** When a handler running on the network thread drops the application's
    last shared pointer, the lock taken for the call becomes the last owner; its
    release destroys the server on its own network thread, which joins itself,
    and the process terminates. *)
Theorem last_release_on_network_thread_terminates p client data w s ps h x :
  w_objs w !! p = Some s → m_is_running s = true → m_network_thread s = true →
  w_thread w = Some p →
  ps_objs (w_user w) !! p = Some ps → use_count ps = 1%nat → length data < 2 ^ 64 →
  dispatch (m_packet_handlers ps) data = Some (h, x) →
  run_handler (A:=A) (U:=U) h (m_conn client) x = release p →
  ∃ w', run_on_data p client data (length data) w = Fault StdTerminate w'.
Proof.
  intros Hs Hr Ht Hth Hps Hn Hlen Hdis Hrel. eexists. cbn [run_on_data packet_callbacks].
  erewrite bind_Done; [|by apply weak_lock_Done; [|by rewrite Hn]]. cbv iota. rewrite Hn.
  set (w1 := with_ps _ w).
  assert (ps_objs (w_user w1) !! p = Some (MkPacketServer (m_packet_handlers ps) 2)) as Hps1
    by apply lookup_insert_eq.
  erewrite bind_Done.
  2: { rewrite (handle_packet_Done p client data w1 _ Hps1 Hlen).
       change (dispatch (m_packet_handlers (MkPacketServer (m_packet_handlers ps) 2)) data) with (dispatch (m_packet_handlers ps) data).
       rewrite Hdis, Hrel. erewrite bind_Done; [done|].
       apply release_Done_shared; [done|simpl; lia]. }
  cbn [use_count pred m_packet_handlers].
  set (w2 := with_ps _ w1).
  assert (ps_objs (w_user w2) !! p = Some (MkPacketServer (m_packet_handlers ps) 1)) as Hps2
    by apply lookup_insert_eq.
  unfold release. erewrite bind_Done; [|by apply deref_ps_Done]. rewrite decide_True by done.
  erewrite bind_Done; [|done]. unfold destruct_server, UdpServer.stop.
  erewrite bind_Fault; [done|].
  erewrite bind_Done; [|done]. erewrite bind_Done; [|by apply deref_Done].
  erewrite bind_Done; [|by apply update_Done]. rewrite Hr, Ht. cbv beta iota delta [negb].
  erewrite bind_Fault; [done|]. unfold join_network_thread. erewrite bind_Done; [|done].
  by rewrite decide_True.
Qed.
End callbacks.

(** ** Observing handlers *)

(** Handlers that record their tag, the sender and the payload. *)
Section logging.
Context {A payload_t : Type} `{SteamIPAddr A} `{!SteamIPAddrLaws A} `{SteamSockets A} `{!SteamLaws A}.
Context `{PacketDeserializerLaws payload_t}.
Local Abbreviation log := (list (nat * kb_connection_t * payload_t)).
Local Abbreviation W := (packet_world A nat log).
Implicit Types (w : W) (p : positive) (s : UdpServer positive) (ps : PacketServer nat).

Definition log_packet (e : nat * kb_connection_t * payload_t) (w : W) : W :=
  with_user (λ u, PacketHeap (ps_objs u) (ps_user u ++ [e])) w.

#[local] Instance log_handlers : PacketHandlers A nat log payload_t :=
  λ tag conn x, modify (log_packet (tag, conn, x)).

#[local] Instance log_packets_contract : CallbackContract log.
Proof. by refine {| user_frame := prefix; callback_pre _ _ := True |}. Defined.

#[local] Instance log_handlers_laws k : PacketHandlersLaws (H:=nat) (U:=log) k.
Proof. intros tag conn x w [Hw _]. apply (goes_on_user k); [done|]. split; [done|]. by apply prefix_app_r. Qed.

(** What one message of the server's connections leaves in the log. *)
Definition received s ps (m : steam_message) : log :=
  match m_clients s !! msg_conn m, dispatch (m_packet_handlers ps) (m_pData m) with
  | Some client, Some (tag, x) => [(tag, m_conn client, x)]
  | _, _ => []
  end.

Definition log_all (l : log) (w : W) : W :=
  with_user (λ u, PacketHeap (ps_objs u) (ps_user u ++ l)) w.

Lemma packet_data_log p client data w ps :
  ps_objs (w_user w) !! p = Some ps → use_count ps ≠ 0%nat → length data < 2 ^ 64 →
  run_on_data p client data (length data) w
  = Done tt (log_all (match dispatch (m_packet_handlers ps) data with
                      | Some (tag, x) => [(tag, m_conn client, x)] | None => [] end) w).
Proof.
  intros Hps Hn Hlen. cbn [run_on_data packet_callbacks].
  rewrite (bind_Done _ _ _ _ _ (weak_lock_Done p w ps Hps Hn)). cbv iota.
  set (ps1 := MkPacketServer (m_packet_handlers ps) (S (use_count ps))). set (w1 := with_ps <[p := ps1]> w).
  assert (ps_objs (w_user w1) !! p = Some ps1) as Hps1 by apply lookup_insert_eq.
  change (dispatch (m_packet_handlers ps) data) with (dispatch (m_packet_handlers ps1) data).
  assert (∀ l, release p (log_all l w1) = Done tt (log_all l w)) as Hrel.
  { intros l. rewrite (release_Done_shared p _ ps1); [|done|simpl; lia]. f_equal.
    unfold log_all, with_ps, with_user, w1. simpl. destruct w as [o i t tr [objs u]]. simpl in *.
    rewrite insert_insert_eq. do 2 f_equal. apply insert_id. by destruct ps. }
  erewrite bind_Done.
  2: { rewrite (handle_packet_Done p client data w1 ps1 Hps1 Hlen).
       instantiate (1 := log_all (match dispatch (m_packet_handlers ps1) data with
         | Some (tag, x) => [(tag, m_conn client, x)] | None => [] end) w1).
       instantiate (1 := bool_decide (is_Some (dispatch (m_packet_handlers ps1) data))).
       destruct (dispatch (m_packet_handlers ps1) data) as [[tag x]|]; [done|].
       unfold log_all, with_user. destruct w1 as [o i t tr [objs u]]. simpl. by rewrite app_nil_r. }
  apply Hrel.
Qed.

Lemma packet_messages_log p (msgs : list steam_message) w s ps :
  w_objs w !! p = Some s → m_client_mutex s = false → m_data_received_callback s = Some p →
  ps_objs (w_user w) !! p = Some ps → use_count ps ≠ 0%nat →
  Forall (λ m, m_cbSize m = length (m_pData m) ∧ m_cbSize m < 2 ^ 31) msgs →
  for_each msgs (poll_message p) w
  = Done tt (log_all (msgs ≫= received s ps) (with_calls (ReleaseMessage <$> msgs) w)).
Proof.
  intros Hs Hm Hcb Hps Hn Hall. revert w Hs Hps.
  induction Hall as [|m msgs [Hsz Hmax] _ IH]; intros w Hs Hps.
  { destruct w as [o i t tr [objs u]]. unfold log_all, with_user, with_calls. simpl. by rewrite !app_nil_r. }
  cbn [for_each].
  assert (poll_message p m w = Done tt (log_all (received s ps m) (with_calls [ReleaseMessage m] w))) as Hstep.
  { unfold poll_message. erewrite bind_Done; [|by apply deref_Done]. rewrite Hcb.
    erewrite bind_Done.
    2: { erewrite bind_Done; [|by apply get_client_info_Done].
         instantiate (1 := log_all (received s ps m) w). instantiate (1 := tt).
         unfold received. destruct (m_clients s !! msg_conn m) as [client|].
         - unfold u64. rewrite Hsz, wrap_small by (unfold fits; lia).
           apply packet_data_log; [done|done|lia].
         - destruct w as [o i t tr [objs u]]. unfold log_all, with_user. simpl. by rewrite app_nil_r. }
    unfold call. by destruct (steam_answer _ (ReleaseMessage m)). }
  rewrite (bind_Done _ _ _ _ _ Hstep), IH by done. f_equal.
  destruct w as [o i t tr [objs u]]. unfold log_all, with_user, with_calls. simpl.
  by rewrite <- !app_assoc.
Qed.

(** C8: one poll of a running packet server, when the library reports no status
    change, runs the handlers of exactly the received datagrams that come from
    known clients, carry a header of the server's serialization type and a bound
    packet type, and decode: each once, in the order received, with its sender
    and payload; every message is released. *)
Theorem packet_poll_dispatches p w s ps :
  world_ok w → w_objs w !! p = Some s → m_is_running s = true →
  m_data_received_callback s = Some p → ps_objs (w_user w) !! p = Some ps → use_count ps ≠ 0%nat →
  let receive := ReceiveMessagesOnPollGroup (m_poll_group s) 32 in
  let msgs : list steam_message := (steam_answer (w_trace w) receive).2 in
  let calls := receive :: (ReleaseMessage <$> msgs) in
  steam_answer (w_trace w ++ calls) RunCallbacks = [] →
  poll p w = Done tt (log_all (msgs ≫= received s ps) (with_calls (calls ++ [RunCallbacks]) w)).
Proof.
  intros Hw Hs Hr Hcb Hps Hn receive msgs calls Hno.
  pose proof (world_ok_lookup _ _ _ _ Hw Hs) as Hok.
  assert (receive_ok 32 (steam_answer (w_trace w) receive)) as Hrecv
    by (apply receive_live_group; [done|by apply Hok, running_active]).
  rewrite (poll_Done p w s Hs (ok_interface _ _ Hok) Hrecv). fold receive msgs.
  unfold poll_body. erewrite bind_Done.
  2: { apply (packet_messages_log p msgs _ s ps); [done|apply Hok|done..|apply Hrecv]. }
  match goal with |- (iface _ _ ≫= _) ?v = _ =>
    rewrite (bind_Done _ _ _ _ _ (iface_Done p RunCallbacks v s Hs (ok_interface _ _ Hok))) end.
  cbn [w_trace log_all with_user with_calls]. rewrite <- (app_assoc _ [receive]). cbn [app]. fold calls.
  rewrite Hno. unfold for_each, skip, mret, M_ret. f_equal.
  unfold log_all, with_user, with_calls. simpl. by rewrite <- !app_assoc.
Qed.
End logging.

(** ** A simulated packet server *)

(** A msgpack packet server at address 1 on port 80, with a handler tagged 3 for
    packets of type 128 and one client, 5. *)
Section simulation.
Context (inbox : list (kb_connection_t * list byte)).
#[local] Instance sim_packet_steam : SteamSockets sim_addr := sim_steam inbox [].
#[local] Existing Instance log_handlers.
Local Abbreviation log := (list (nat * kb_connection_t * list byte)).

Definition sim_packet_setup : M (packet_world sim_addr nat log) unit :=
  create 1 ;;
  start 1 80 ;;
  bind_packet_handler 1 128 3%nat ;;
  connection_status_changed_callback (StatusChanged 5 StateConnecting StateNone).

Definition sim_packet_world : packet_world sim_addr nat log :=
  match sim_packet_setup (World ∅ None None [] (PacketHeap ∅ [])) with
  | Done _ w => w
  | Fault _ w => w
  end.

Definition sim_packet_server : UdpServer positive :=
  default (server_init false) (w_objs sim_packet_world !! 1%positive).
Definition sim_packet_part : PacketServer nat :=
  default (MkPacketServer ∅ 0) (ps_objs (w_user sim_packet_world) !! 1%positive).

Lemma sim_packet_world_ok : world_ok sim_packet_world.
Proof.
  assert (w_objs sim_packet_world = {[1%positive := sim_packet_server]}) as Hobjs by by vm_compute.
  assert (m_clients sim_packet_server = {[5 := new_client 5 (5 : sim_addr)]}) as Hcl by by vm_compute.
  split.
  - rewrite Hobjs. apply map_Forall_singleton. split; [by vm_compute..|intros _|by vm_compute| |].
    + by apply (sim_group_live inbox []); vm_compute.
    + unfold clients_ok. rewrite Hcl. apply map_Forall_singleton. by vm_compute.
    + rewrite Hcl. apply map_Forall_singleton.
      exists (take 3 (w_trace sim_packet_world)), [GetConnectionInfo 5]. by vm_compute.
  - intros q Hq. assert (q = 1%positive) as -> by (vm_compute in Hq; congruence).
    exists sim_packet_server. rewrite Hobjs. split; [apply lookup_singleton_eq|by vm_compute].
  - intros q1 q2 s1 s2 H1 H2 _ _ _. rewrite Hobjs in H1, H2.
    apply lookup_singleton_Some in H1 as [<- _]. by apply lookup_singleton_Some in H2 as [<- _].
  - intros q t _ Hq _. rewrite Hobjs in Hq. apply lookup_singleton_Some in Hq as [_ <-]. by vm_compute.
Qed.
End simulation.

(** A datagram of a msgpack packet of type 128 that carries one byte, and one of
    another serialization type. *)
Definition sim_datagram (b : byte) : list byte :=
  header_bytes (header_create serde_msgpack 128) ++ [x91; b].
Definition sim_foreign_datagram : list byte := header_bytes (header_create serde_bin 128) ++ [x91].

#[local] Existing Instance log_handlers.
#[local] Existing Instance log_handlers_laws.

Lemma handle_packet_dispatches_witness :
  let ss := sim_packet_steam [] in
  let w := sim_packet_world [] in
  ∃ w', handle_packet 1 (new_client 5 (5 : sim_addr)) (sim_datagram x2a) 10 w = Done true w' ∧
    ps_user (w_user w') = [(3%nat, 5, [x2a])].
Proof.
  intros ss w.
  destruct (handle_packet_dispatches (payload_t:=list byte) 1 (new_client 5 (5 : sim_addr))
    (sim_datagram x2a) w (sim_packet_part [])) as [Hrun _]; [by vm_compute..|].
  specialize (Hrun 128 3%nat [x2a] ltac:(split_and!; [by vm_compute..|exists [x91; x2a]; by vm_compute])).
  eexists. split; [exact Hrun|]. by vm_compute.
Defined.

Lemma first_binding_wins_witness :
  let w := sim_packet_world [] in
  ∃ w1 ps1, bind_packet_handler 1 128 4%nat w = Done false w1 ∧
    ps_objs (w_user w1) !! 1%positive = Some ps1 ∧ m_packet_handlers ps1 !! (128 : packet_type_t) = Some 3%nat.
Proof.
  intros w.
  destruct (first_binding_wins 1 128 4%nat w (sim_packet_part []))
    as (b & w1 & ps1 & Hb & Hps1 & Hiff & Ht & _); [by vm_compute|].
  exists w1, ps1. split; [|split; [exact Hps1|rewrite Ht; by vm_compute]].
  destruct b; [|exact Hb]. by specialize (proj1 Hiff eq_refl).
Defined.

Lemma packet_send_exact_witness :
  let ss := sim_packet_steam [] in
  let w := sim_packet_world [] in
  let bytes := sim_datagram x2a in
  client_keys (sim_packet_server []) = [5] ∧
  carries (B:=list byte) (payload_t:=list byte) 128 x2a bytes ∧
  send (B:=list byte) (payload_t:=list byte) 1 5 128 x2a true w = Done true (with_calls [send_call bytes true 5] w) ∧
  ∃ b, broadcast (B:=list byte) (payload_t:=list byte) 1 128 x2a true w
       = Done b (with_calls [send_call bytes true 5] w).
Proof.
  intros ss w bytes.
  destruct (packet_send_exact (B:=list byte) (payload_t:=list byte) 1 5 128 x2a true w
    (sim_packet_server []) (sim_packet_world_ok [])) as [(pkt & Hser & Hc & Hsend) (pkt' & Hser' & _ & Hcast)]; [by vm_compute..|].
  assert (ob_data (m_buffer pkt) = bytes) as Hbytes by (revert Hser; vm_compute; by intros [= <-]).
  assert (ob_data (m_buffer pkt') = bytes) as Hbytes' by (revert Hser'; vm_compute; by intros [= <-]).
  rewrite Hbytes in Hc, Hsend. rewrite Hbytes' in Hcast.
  assert (client_keys (sim_packet_server []) = [5]) as Hkeys by by vm_compute.
  split; [exact Hkeys|]. split; [exact Hc|]. split; [by apply Hsend; vm_compute|].
  destruct Hcast as (b & Hb & _); [by vm_compute|]. exists b. by rewrite Hkeys in Hb.
Defined.

Definition sim_packet_inbox : list (kb_connection_t * list byte) :=
  [(5, sim_datagram x2a); (5, sim_foreign_datagram); (7, sim_datagram x2b); (5, [x4b]);
   (5, sim_datagram x2c)].

Lemma packet_poll_dispatches_witness :
  let ss := sim_packet_steam sim_packet_inbox in
  let w := sim_packet_world sim_packet_inbox in
  ∃ w', poll 1 w = Done tt w' ∧ ps_user (w_user w') = [(3%nat, 5, [x2a]); (3%nat, 5, [x2c])].
Proof.
  intros ss w.
  assert (SteamLaws sim_addr) as Hlaws by (apply sim_laws; by repeat constructor).
  pose proof (packet_poll_dispatches (payload_t:=list byte) 1 w (sim_packet_server sim_packet_inbox)
    (sim_packet_part sim_packet_inbox) (sim_packet_world_ok _)) as Hpoll.
  eexists. split; [apply Hpoll; by vm_compute|]. by vm_compute.
Defined.

(** The handler that drops the application's pointer. *)
Definition release_handlers : PacketHandlers sim_addr nat (list (nat * kb_connection_t * list byte)) (list byte) :=
  λ _ _ _, let ss := sim_packet_steam [] in release 1.

Lemma last_release_on_network_thread_terminates_witness :
  let ss := sim_packet_steam [] in
  let w := with_thread (Some 1%positive) (sim_packet_world []) in
  ∃ w', run_on_data (ServerCallbacks:=packet_callbacks (H3:=release_handlers)) 1%positive
          (new_client 5 (5 : sim_addr)) (sim_datagram x2a) 10 w = Fault StdTerminate w'.
Proof.
  intros ss w.
  apply (last_release_on_network_thread_terminates (H4:=release_handlers) (payload_t:=list byte)
    1 (new_client 5 (5 : sim_addr)) (sim_datagram x2a) w (sim_packet_server []) (sim_packet_part []) 3%nat [x2a]).
  all: by vm_compute.
Defined.
