(* ===== verification/PacketServerSystem.v ===== *)
(** * The packet server as a system

    Creating, sharing and releasing packet servers, binding handlers, starting,
    stopping, sending and polling, in any order: the steps of a transition
    system, its invariant, and the safety of every reachable state. *)

From S2P Require Import Prelude Bytes NetworkTypes Packet Serde Runtime UdpServer.
From S2P Require Import Sessions UdpServerSpec UdpServerSafety Simulated UdpServerSystem.
From S2P Require Import Dispatch PacketServer PacketServerProps.
Import Strings.Byte.
Local Open Scope Z_scope.

(** ** The transition system *)

(** The calls an application makes on the packet server at an address, the
    rounds of its network thread, and the library's events. *)
Inductive packet_op (H T : Type) :=
| PkCreate
| PkCopy                                         (** a copy of a shared pointer to it *)
| PkRelease                                      (** the end of a shared pointer to it *)
| PkStart (port : Z)
| PkStop
| PkBind (t : packet_type_t) (handler : H)
| PkUnbind (t : packet_type_t)
| PkSend (conn : kb_connection_t) (t : packet_type_t) (x : T) (reliable : bool)
| PkBroadcast (t : packet_type_t) (x : T) (reliable : bool)
| PkPoll                                         (** on the public member [m_server] *)
| PkNetworkRound
| PkStatusChanged (info : status_changed).
Arguments PkCreate {H T}.
Arguments PkCopy {H T}.
Arguments PkRelease {H T}.
Arguments PkStart {H T}.
Arguments PkStop {H T}.
Arguments PkBind {H T}.
Arguments PkUnbind {H T}.
Arguments PkSend {H T}.
Arguments PkBroadcast {H T}.
Arguments PkPoll {H T}.
Arguments PkNetworkRound {H T}.
Arguments PkStatusChanged {H T}.

Section system.
Context {A H U B T payload_t : Type} `{SteamIPAddr A} `{SteamSockets A}.
Context `{PacketSerializerLaws B T payload_t} `{PacketHandlers A H U payload_t} `{CallbackContract U}.
Local Abbreviation W := (packet_world A H U).
Implicit Types (w : W) (p : positive) (op : packet_op H T).

Definition exec_packet_op p op : M W unit :=
  match op with
  | PkCreate => create p
  | PkCopy => weak_lock p ;; skip
  | PkRelease => release p
  | PkStart pt => start p pt ;; skip
  | PkStop => stop p
  | PkBind t handler => bind_packet_handler p t handler ;; skip
  | PkUnbind t => unbind_packet_handler p t
  | PkSend conn t x reliable => send (B:=B) p conn t x reliable ;; skip
  | PkBroadcast t x reliable => broadcast (B:=B) p t x reliable ;; skip
  | PkPoll => poll p
  | PkNetworkRound => network_iteration p
  | PkStatusChanged info => connection_status_changed_callback info
  end.

(** Handlers may run. *)
Definition handlers_ready w : Prop := callback_pre (dom (w_objs w)) (ps_user (w_user w)).

(** The correct uses: through a shared pointer, with packet types of 32 bits;
    polled only while the server runs and where its handlers may run. *)
Definition packet_op_allowed p op w : Prop :=
  match op with
  | PkCreate => w_objs w !! p = None ∧ ps_objs (w_user w) !! p = None ∧
      steam_answer (w_trace w) SteamNetworkingSockets = true
  | PkSend _ t _ _ | PkBroadcast t _ _ => is_Some (ps_objs (w_user w) !! p) ∧ fits 32 t
  | PkPoll => handlers_ready w ∧ ∃ s, w_objs w !! p = Some s ∧ m_is_running s = true
  | PkNetworkRound => handlers_ready w ∧ is_Some (w_objs w !! p)
  | PkStatusChanged _ => handlers_ready w
  | _ => is_Some (ps_objs (w_user w) !! p)
  end.

Definition packet_step w w' : Prop :=
  ∃ p op, packet_op_allowed p op w ∧ exec_packet_op p op w = Done tt w'.

Definition packet_initial (u : U) : W := World ∅ None None [] (PacketHeap ∅ u).

(** Well-formed servers; every server is that of a packet server with an owner. *)
Record packet_ok w : Prop := {
  pk_world : world_ok w;
  pk_thread : w_thread w = None;
  pk_dom : dom (w_objs w) = dom (ps_objs (w_user w));
  pk_owned p ps : ps_objs (w_user w) !! p = Some ps → use_count ps ≠ 0%nat;
}.

Lemma packet_ok_server p w : packet_ok w → is_Some (ps_objs (w_user w) !! p) → is_Some (w_objs w !! p).
Proof. intros Hok Hp. apply elem_of_dom. rewrite (pk_dom _ Hok). by apply elem_of_dom. Qed.

Lemma owned_owners w :
  (∀ p ps, ps_objs (w_user w) !! p = Some ps → use_count ps ≠ 0%nat) ↔
  map_Forall (λ _ n, n ≠ 0%nat) (owners (w_user w)).
Proof.
  unfold owners. rewrite map_Forall_fmap. split; intros Hp p ps Hps; by eapply Hp.
Qed.

(** What the operations keep: besides, no message is lost, and the sessions go
    steps of their machine. *)
Definition packet_keeps w w' : Prop := packet_ok w' ∧ progress [] [] w w'.

(** Steps that keep the servers and the owners. *)
Lemma packet_ok_steady w w' : packet_ok w → goes_on Sequential w w' → packet_keeps w w'.
Proof.
  intros [Hw Hth Hdom Hown] [[Hw' [Hdom' Hth'] Hp _] [Ho _]]. split; [|done]. split; [done|congruence| |].
  - by rewrite Hdom', Hdom, <- !dom_owners, Ho.
  - apply owned_owners. rewrite Ho. by apply owned_owners.
Qed.

Lemma packet_ok_goes_on {R} (m : M W R) w :
  packet_ok w → wp m (λ _, goes_on Sequential w) w → wp m (λ _, packet_keeps w) w.
Proof. intros Hok Hm. eapply wp_mono; [exact Hm|]. intros r v. by apply packet_ok_steady. Qed.

(** Operations of the server below, which run no handler. *)
Lemma packet_ok_private {R} (m : M W R) w :
  packet_ok w → private m → wp m (keeps Sequential w) w → wp m (λ _, packet_keeps w) w.
Proof. intros Hok Hm Hwp. apply packet_ok_goes_on; [done|]. by apply wp_keeps_goes_on. Qed.

(** Changes of a packet server that is there. *)
Lemma packet_ok_with_ps p w ps ps' :
  packet_ok w → ps_objs (w_user w) !! p = Some ps → use_count ps' ≠ 0%nat →
  packet_keeps w (with_ps <[p := ps']> w).
Proof.
  intros [Hw Hth Hdom Hown] Hps Hn.
  split; [|by apply (progress_calls []); rewrite ?app_nil_r]. split; [by apply world_inv_with_ps|done|..].
  - simpl. rewrite dom_insert_L, Hdom. symmetry.
    apply subseteq_union_1_L, singleton_subseteq_l. by apply elem_of_dom.
  - intros q qs. simpl. intros [[_ <-]|[_ Hq]]%lookup_insert_Some; [done|by eapply Hown].
Qed.
End system.

Section system_ok.
Context {A H U B T payload_t : Type} `{SteamIPAddr A} `{!SteamIPAddrLaws A} `{SteamSockets A} `{!SteamLaws A}.
Context `{!PacketDeserializer payload_t, !PacketDeserializerLaws payload_t}.
Context `{!OwningBuffer B, !PacketSerializer B T payload_t, !PacketSerializerLaws B T payload_t}.
Context `{PacketHandlers A H U payload_t} `{CallbackContract U} `{!PacketHandlersLaws Sequential}.
Local Abbreviation W := (packet_world A H U).
Implicit Types (w : W) (p : positive) (op : packet_op H T).

Lemma create_packet_ok p w :
  packet_ok w → packet_op_allowed p (PkCreate (H:=H) (T:=T)) w → wp (create p) (λ _, packet_keeps w) w.
Proof.
  intros [Hw Hth Hdom Hown] (Hp & Hps & Hlib). unfold create. apply wp_bind.
  eapply wp_mono; [apply wp_private; [apply construct_private|by apply construct_ok]|].
  intros [] v [(Hv & Hth' & Hdom' & Hpr & _) Hu]. apply wp_bind, wp_modify.
  set (v1 := with_ps <[p := MkPacketServer ∅ 1]> v).
  assert (packet_ok v1) as Hv1.
  { split; [by apply world_inv_with_ps|simpl; congruence|..].
    - simpl. by rewrite dom_insert_L, Hdom', Hu, Hdom.
    - intros q qs. simpl. rewrite Hu. intros [[_ <-]|[_ Hq]]%lookup_insert_Some; [done|by eapply Hown]. }
  assert (progress [] [] w v1) as Hpr1
    by (eapply progress_trans; [exact Hpr|]; by apply (progress_calls []); rewrite ?app_nil_r).
  apply (wp_mono _ (λ _, packet_keeps v1)); [|intros [] v' [Hv' Hpr']; split; [done|by eapply progress_trans]].
  apply packet_ok_private; [done|apply private_update|]. apply update_ok.
  - apply Hv1.
  - apply (packet_ok_server p _ Hv1). apply lookup_insert_is_Some. by left.
  - intros tr [] []. by split.
  - by intros [].
Qed.

Lemma copy_packet_ok p w ps :
  packet_ok w → ps_objs (w_user w) !! p = Some ps → wp (weak_lock p) (λ _, packet_keeps w) w.
Proof.
  intros Hok Hps. eapply wp_of_Done; [by apply weak_lock_Done; [|by eapply pk_owned]|].
  by eapply packet_ok_with_ps.
Qed.

(** The last owner takes the server with it. *)
Lemma release_packet_ok p w ps :
  packet_ok w → ps_objs (w_user w) !! p = Some ps → wp (release p) (λ _, packet_keeps w) w.
Proof.
  intros Hok Hps. pose proof (pk_owned _ Hok p ps Hps) as Hn.
  unfold release. apply wp_bind. eapply wp_of_Done; [by apply deref_ps_Done|]. case_decide as Hlast.
  - apply wp_bind, wp_modify. set (v := with_ps (delete p) w).
    destruct (packet_ok_server p w Hok ltac:(by exists ps)) as [s Hs].
    eapply wp_mono.
    { apply wp_private; [apply destruct_private|]. apply (destruct_server_ok p v s); [|done|].
      - by apply world_inv_with_ps, Hok.
      - simpl. by rewrite (pk_thread _ Hok). }
    intros [] v' [(Hv' & Hdom & Hth & Hpr & _) Hu]. destruct Hok as [_ Hth0 Hdom0 Hown0].
    assert (progress [] [] w v) as Hpr0 by by apply (progress_calls []); rewrite ?app_nil_r.
    split; [|by eapply progress_trans]. split; [done|..].
    + by rewrite Hth.
    + rewrite Hdom, Hu. simpl. by rewrite dom_delete_L, Hdom0.
    + intros q qs. rewrite Hu. simpl. intros [_ Hq]%lookup_delete_Some. by eapply Hown0.
  - eapply wp_modify, packet_ok_with_ps; [done..|]. simpl. lia.
Qed.

Lemma bind_packet_ok p t handler w ps :
  packet_ok w → ps_objs (w_user w) !! p = Some ps → wp (bind_packet_handler p t handler) (λ _, packet_keeps w) w.
Proof.
  intros Hok Hps. unfold bind_packet_handler. apply wp_bind.
  eapply wp_of_Done; [by apply deref_ps_Done|].
  destruct (m_packet_handlers ps !! t);
    [apply wp_ret; by apply packet_ok_steady, goes_on_refl, Hok|].
  apply wp_bind, wp_modify, wp_ret. eapply packet_ok_with_ps; [done..|]. exact (pk_owned w Hok p ps Hps).
Qed.

Lemma unbind_packet_ok p t w ps :
  packet_ok w → ps_objs (w_user w) !! p = Some ps → wp (unbind_packet_handler p t) (λ _, packet_keeps w) w.
Proof.
  intros Hok Hps. unfold unbind_packet_handler. apply wp_bind.
  eapply wp_of_Done; [by apply deref_ps_Done|].
  eapply wp_modify, packet_ok_with_ps; [done..|]. exact (pk_owned w Hok p ps Hps).
Qed.

(** Both ways of sending hand the server below the bytes of the packet. *)
Lemma packet_send_goes_on k p conn t (x : T) reliable w s :
  world_inv k w → w_objs w !! p = Some s → fits 32 t →
  wp (send (B:=B) p conn t x reliable) (λ _, goes_on k w) w.
Proof.
  intros Hw Hs Ht.
  destruct (serialize_packet_law W conn t x w Ht) as (pkt & _ & _ & Hser & _ & _ & _ & Hsize & _).
  apply wp_bind. eapply wp_of_Done; [done|]. unfold send_packet_internal. rewrite Hsize.
  apply wp_keeps_goes_on; [apply send_private|]. eapply send_ok; [done..|].
  split; [apply wrap_fits; lia|apply Z.mod_le; lia].
Qed.

Lemma packet_broadcast_goes_on k p t (x : T) reliable w s :
  world_inv k w → w_objs w !! p = Some s → fits 32 t →
  wp (broadcast (B:=B) p t x reliable) (λ _, goes_on k w) w.
Proof.
  intros Hw Hs Ht.
  destruct (serialize_packet_law W k_invalid_connection t x w Ht) as (pkt & _ & _ & Hser & _ & _ & _ & Hsize & _).
  apply wp_bind. eapply wp_of_Done; [done|]. unfold broadcast_packet_internal. rewrite Hsize.
  apply wp_keeps_goes_on; [apply broadcast_private|]. eapply broadcast_ok; [done..|].
  split; [apply wrap_fits; lia|apply Z.mod_le; lia].
Qed.

Lemma exec_packet_op_ok p op w :
  packet_ok w → packet_op_allowed p op w → wp (exec_packet_op (B:=B) p op) (λ _, packet_keeps w) w.
Proof.
  intros Hok Hop. pose proof (pk_world _ Hok) as Hw.
  assert (w_thread w ≠ Some p) as Hnth by by rewrite (pk_thread _ Hok).
  assert (is_Some (ps_objs (w_user w) !! p) → is_Some (w_objs w !! p)) as Hserver
    by by apply packet_ok_server.
  assert (handlers_ready w → good Sequential w) as Hgood by done.
  destruct op; simpl in Hop |- *.
  - by apply create_packet_ok.
  - destruct Hop as [ps Hps]. by eapply wp_discard, copy_packet_ok.
  - destruct Hop as [ps Hps]. by eapply release_packet_ok.
  - destruct (Hserver Hop) as [s Hs]. apply wp_discard, packet_ok_private; [done|apply start_async_private|].
    eapply wp_mono; [by eapply start_async_ok|]. by intros r v [Hv _].
  - destruct (Hserver Hop) as [s Hs]. apply packet_ok_private; [done|apply stop_private|].
    eapply wp_mono; [by eapply stop_ok|]. by intros r v [Hv _].
  - destruct Hop as [ps Hps]. by eapply wp_discard, bind_packet_ok.
  - destruct Hop as [ps Hps]. by eapply unbind_packet_ok.
  - destruct Hop as [Hp Ht]. destruct (Hserver Hp) as [s Hs]. by eapply wp_discard, packet_ok_goes_on, packet_send_goes_on.
  - destruct Hop as [Hp Ht]. destruct (Hserver Hp) as [s Hs].
    by eapply wp_discard, packet_ok_goes_on, packet_broadcast_goes_on.
  - destruct Hop as (Hrd & s & Hs & Hr). apply packet_ok_goes_on; [done|]. eapply poll_ok; [by apply Hgood|done|by apply running_active].
  - destruct Hop as [Hrd Hp]. apply packet_ok_goes_on; [done|]. by apply network_iteration_ok; [apply Hgood|].
  - apply packet_ok_goes_on; [done|]. by apply status_callback_ok, Hgood.
Qed.

Lemma packet_initial_ok (u : U) : packet_ok (packet_initial u : W).
Proof.
  split; [|done|done|by intros p ps Hp]. by split.
Qed.

Lemma packet_reachable_ok (u : U) w :
  rtc (packet_step (B:=B) (T:=T)) (packet_initial u) w → packet_ok w.
Proof.
  intros Hr. pose proof (packet_initial_ok u) as Hok. revert Hok.
  induction Hr as [|w1 w2 w3 (p & op & Hop & Hex) _ IH]; [done|]. intros Hok. apply IH.
  pose proof (exec_packet_op_ok p op w1 Hok Hop) as Hwp. unfold wp in Hwp. rewrite Hex in Hwp. apply Hwp.
Qed.

(** However packet servers are created, shared, released, bound, started,
    stopped, polled and sent through, whatever bytes their peers send, no
    operation faults as long as handlers keep their contract; every packet
    server alive has an owner and its [UdpServer], and no [UdpServer] outlives
    its packet server. *)
Theorem packet_reachable_safe (u : U) w p op :
  rtc (packet_step (B:=B) (T:=T)) (packet_initial u) w → packet_op_allowed p op w →
  ∃ w', exec_packet_op (B:=B) p op w = Done tt w' ∧ world_ok w' ∧ w_thread w' = None ∧
    (∀ q, is_Some (w_objs w' !! q) ↔ ∃ ps, ps_objs (w_user w') !! q = Some ps ∧ use_count ps ≠ 0%nat).
Proof.
  intros Hr Hop. pose proof (exec_packet_op_ok p op w (packet_reachable_ok u w Hr) Hop) as Hwp.
  apply wp_Done in Hwp as ([] & w' & Hex & [Hw Hth Hdom Hown] & _). exists w'. split_and!; [done..|].
  intros q. rewrite <- elem_of_dom, Hdom, elem_of_dom. split; [|by intros (ps & -> & _)].
  intros [ps Hps]. exists ps. split; [done|by eapply Hown].
Qed.
End system_ok.

(** ** A server whose handlers answer *)

Section replies.
Context {A : Type} `{SteamSockets A} `{!SteamLaws A}.
Local Abbreviation W := (packet_world A packet_type_t unit).

(** The handler [t] of the packet server at address 1 answers every packet
    with a packet of type [t mod 2^32] that carries the byte 42. *)
#[local] Instance reply_handlers : PacketHandlers A packet_type_t unit (list byte) :=
  λ t conn _, send (B:=list byte) (T:=byte) (payload_t:=list byte) 1 conn (u32 t) x2a true ;; skip.

#[local] Instance reply_contract : CallbackContract unit.
Proof. by refine {| user_frame := eq; callback_pre D _ := 1%positive ∈ D |}; intros D [] []. Defined.

Lemma reply_ready (w : W) : handlers_ready w ↔ is_Some (w_objs w !! 1%positive).
Proof. change (handlers_ready w) with (1%positive ∈ dom (w_objs w)). apply elem_of_dom. Qed.

Lemma reply_handlers_laws k : PacketHandlersLaws (A:=A) (payload_t:=list byte) k.
Proof.
  intros t conn x w [Hw Hr]. apply reply_ready in Hr as [s Hs]. apply wp_discard.
  by eapply packet_send_goes_on; [..|apply wrap_fits].
Qed.
End replies.

#[local] Existing Instance reply_handlers.
#[local] Existing Instance reply_contract.
#[local] Existing Instance reply_handlers_laws.

Definition sim_reply (ss : SteamSockets sim_addr) (ops : list (packet_op packet_type_t byte))
    : packet_world sim_addr packet_type_t unit :=
  foldl (λ w op, match exec_packet_op (B:=list byte) (payload_t:=list byte) 1 op w with
                 | Done _ w' => w' | Fault _ w' => w' end)
    (packet_initial tt) ops.

(** A client connects; its packet of type 128 is answered by one of type 7. *)
Lemma packet_reachable_safe_witness :
  let ss := sim_steam [(5, sim_datagram x2b)] [StatusChanged 5 StateConnecting StateNone] in
  let w := sim_reply ss [PkCreate; PkBind 128 7; PkStart 80; PkNetworkRound] in
  ∃ w', exec_packet_op (B:=list byte) (payload_t:=list byte) (T:=byte) 1 PkNetworkRound w
          = Done tt w' ∧ world_ok w' ∧
    SendMessageToConnection 5 (header_bytes (header_create serde_msgpack 7) ++ [x91; x2a]) SendReliable
      ∈ w_trace w'.
Proof.
  intros ss w.
  assert (SteamLaws sim_addr) as Hlaws by (apply sim_laws; by repeat constructor).
  destruct (packet_reachable_safe (B:=list byte) (T:=byte) (payload_t:=list byte) tt w 1 PkNetworkRound)
    as (w' & Hex & Hok & _).
  - eapply rtc_l; [exists 1%positive, PkCreate; split; [by vm_compute|]|].
    { instantiate (1 := sim_reply ss [PkCreate]). by vm_compute. }
    eapply rtc_l; [exists 1%positive, (PkBind 128 7); split; [by vm_compute; eexists|]|].
    { instantiate (1 := sim_reply ss [PkCreate; PkBind 128 7]). by vm_compute. }
    eapply rtc_l; [exists 1%positive, (PkStart 80); split; [by vm_compute; eexists|]|].
    { instantiate (1 := sim_reply ss [PkCreate; PkBind 128 7; PkStart 80]). by vm_compute. }
    apply rtc_once. exists 1%positive, PkNetworkRound. split; [|by vm_compute].
    split; [apply reply_ready|]; by vm_compute; eexists.
  - split; [apply reply_ready|]; by vm_compute; eexists.
  - exists w'. split; [exact Hex|]. split; [exact Hok|].
    assert (match exec_packet_op (B:=list byte) (payload_t:=list byte) (T:=byte) 1 PkNetworkRound w with
            | Done _ v => In (SendMessageToConnection 5 (header_bytes (header_create serde_msgpack 7) ++ [x91; x2a])
                                SendReliable) (w_trace v)
            | Fault _ _ => False end) as Hsent by (vm_compute; tauto).
    rewrite Hex in Hsent. by apply list_elem_of_In.
Defined.
