(* ===== verification/PacketServerThreads.v ===== *)
(** * The packet servers, interleaved with their network threads

    [PacketServerSystem.v] with the network threads of [Threads.v]: handlers run
    at the grain of one message, and the application creates, binds, sends, stops
    and lets go in between. *)

From S2P Require Import Prelude Bytes NetworkTypes Packet Serde Runtime Ledger.
From S2P Require Import UdpServer Sessions UdpServerSpec UdpServerSafety Simulated UdpServerSystem.
From S2P Require Import Threads ThreadsProps ThreadsSystem.
From S2P Require Import Dispatch PacketServer PacketServerProps PacketServerSystem.
Import Strings.Byte.
Local Open Scope Z_scope.

(** What the threads do: a step of a network thread; an operation of the
    application; [stop] up to its [join]; the last owner goes, and with it the
    server, up to the [join] of its destructor; the [join] returns. *)
Inductive packet_server_thread_op (H T : Type) :=
| PvNetwork (p : positive)
| PvApp (p : positive) (op : packet_op H T)
| PvStop (p : positive)
| PvLastRelease (p : positive)
| PvJoined.
Arguments PvNetwork {H T}.
Arguments PvApp {H T}.
Arguments PvStop {H T}.
Arguments PvLastRelease {H T}.
Arguments PvJoined {H T}.

Section system.
Context {A H U B T payload_t : Type} `{SteamIPAddr A} `{SteamSockets A}.
Context `{PacketSerializerLaws B T payload_t} `{PacketHandlers A H U payload_t} `{CallbackContract U}.
Local Abbreviation W := (packet_world A H U).
Local Abbreviation TW := (tworld A positive (packet_heap H U)).
Implicit Types (w : W) (t : TW) (p : positive) (op : packet_op H T).

Definition exec_packet_server_thread (top : packet_server_thread_op H T) : M TW unit :=
  match top with
  | PvNetwork p => exec_thread (TNetwork p)
  | PvApp p op => on_world (exec_packet_op (B:=B) p op) ;; modify (spawned p)
  | PvStop p => exec_thread (TStop p false)
  | PvLastRelease p => on_world (modify (with_ps (delete p))) ;; exec_thread (TStop p true)
  | PvJoined => exec_thread TJoined
  end.

(** The operations the application calls in one piece: not those that wait for a
    network thread, or are one. *)
Definition packet_server_in_one_piece p op w : Prop :=
  match op with
  | PkStop => ¬ threaded w p
  | PkRelease => threaded w p → ∀ ps, ps_objs (w_user w) !! p = Some ps → (1 < use_count ps)%nat
  | PkNetworkRound => False
  | _ => True
  end.

Definition packet_server_thread_allowed (top : packet_server_thread_op H T) t : Prop :=
  let w := tw_world t in
  match top with
  | PvNetwork p => handlers_ready w ∧ ∃ pc, tw_net t !! p = Some pc ∧ pc ≠ Returned
  | PvApp p op => tw_app t = Free ∧ packet_op_allowed p op w ∧ packet_server_in_one_piece p op w
  | PvStop p => tw_app t = Free ∧ threaded w p
  | PvLastRelease p => tw_app t = Free ∧ threaded w p ∧
      ∃ ps, ps_objs (w_user w) !! p = Some ps ∧ use_count ps = 1%nat
  | PvJoined => ∃ p d, tw_app t = Joining p d ∧ tw_net t !! p = Some Returned
  end.

Definition packet_server_thread_step t t' : Prop :=
  ∃ top, packet_server_thread_allowed top t ∧ exec_packet_server_thread top t = Done tt t'.

Definition packet_server_thread_initial (u : U) : TW := TWorld (packet_initial u) ∅ Free.

(** ** The invariant *)

(** Servers and threads in order; every packet server has an owner; it is there
    with its server, but for the wait of its destructor. *)
Record packet_server_threads_ok t : Prop := {
  pvo_threads : thread_ok t;
  pvo_owned : map_Forall (λ _ n, n ≠ 0%nat) (owners (w_user (tw_world t)));
  pvo_dom : dom (ps_objs (w_user (tw_world t))) =
    match tw_app t with
    | Joining p true => dom (w_objs (tw_world t)) ∖ {[p]}
    | _ => dom (w_objs (tw_world t))
    end;
}.

(** Steps that leave the packet servers alone. *)
Lemma packet_server_threads_kept t t' :
  packet_server_threads_ok t → thread_ok t' → owners (w_user (tw_world t')) = owners (w_user (tw_world t)) →
  tw_app t' = tw_app t → dom (w_objs (tw_world t')) = dom (w_objs (tw_world t)) → packet_server_threads_ok t'.
Proof.
  intros [_ Hown Hdom] Hok' Ho Happ Hd. split; [done|by rewrite Ho|].
  by rewrite <- dom_owners, Ho, dom_owners, Hdom, Happ, Hd.
Qed.
End system.

Section system_ok.
Context {A H U B T payload_t : Type} `{SteamIPAddr A} `{!SteamIPAddrLaws A} `{SteamSockets A} `{!SteamLaws A}.
Context `{!PacketDeserializer payload_t, !PacketDeserializerLaws payload_t}.
Context `{!OwningBuffer B, !PacketSerializer B T payload_t, !PacketSerializerLaws B T payload_t}.
Context `{PacketHandlers A H U payload_t} `{CallbackContract U} `{!PacketHandlersLaws Interleaved}.
Local Abbreviation W := (packet_world A H U).
Local Abbreviation TW := (tworld A positive (packet_heap H U)).
Implicit Types (w : W) (t : TW) (p : positive) (op : packet_op H T).

Lemma packet_server_free_ok t : packet_server_threads_ok t → tw_app t = Free → packet_ok (tw_world t).
Proof.
  intros [Hok Hown Hdom] Hfree. destruct (free_ok t Hok Hfree) as [Hw Hth]. rewrite Hfree in Hdom.
  split; [done..|by apply owned_owners].
Qed.

(** Handlers fit for interleaving are fit for one operation at a time. *)
Lemma handlers_sequential : PacketHandlersLaws (A:=A) (H:=H) (U:=U) Sequential.
Proof.
  intros h conn payload w [Hw Hr]. eapply wp_mono.
  - apply run_handler_ok. split; [by apply world_inv_weaken|done].
  - intros [] v Hv. by apply goes_on_sequential.
Qed.
#[local] Existing Instance handlers_sequential.

Lemma release_confined p : confined p (release (A:=A) (H:=H) (U:=U) p).
Proof.
  unfold release. apply confined_bind; [|intros ps; confined].
  apply confined_steps. intros w ps w'. unfold deref_ps. by destruct (ps_objs _ !! p) as [?|]; intros [= _ <-].
Qed.

(** An operation of a packet server in one piece leaves the other threads alone. *)
Lemma exec_packet_op_threads p op w :
  packet_ok w → packet_op_allowed p op w → packet_server_in_one_piece p op w →
  wp (exec_packet_op (B:=B) p op) (λ _, same_threads p w) w.
Proof.
  intros Hok Hop Hone. pose proof (pk_world _ Hok) as Hw.
  pose proof (exec_packet_op_ok (B:=B) p op w Hok Hop) as Hsafe.
  assert (∀ {R} (m : M W R), wp m (λ _ w', w_objs w' = w_objs w) w → wp m (λ _, same_threads p w) w) as Hsame.
  { intros R m Hm. eapply wp_mono; [exact Hm|]. intros r w' Ho. unfold same_threads, threaded. by rewrite Ho. }
  assert (∀ sop, op_allowed p sop w → is_round sop = false → (waits sop = true → ¬ threaded w p) →
    wp (exec_op p sop) (λ _, same_threads p w) w) as Hserver.
  { intros sop Hsop Hr Hwait. apply exec_op_threads; [|done..]. by split; [|apply Hok]. }
  assert (∀ {R} (m : M W R), wp m (λ _, goes_on Interleaved w) w → wp m (λ _, same_threads p w) w) as Hgo.
  { intros R m Hm. eapply wp_mono; [exact Hm|]. intros r w' [Hk _]. by apply modest_threads, Hk. }
  assert (is_Some (ps_objs (w_user w) !! p) → is_Some (w_objs w !! p)) as Hobj by by apply packet_ok_server.
  destruct op; simpl in Hop, Hone, Hsafe |- *; try done.
  - apply confined_threads; [unfold create; confined|].
    eapply wp_mono; [exact Hsafe|]. intros _ v _ (s & Hs & _). destruct Hop. congruence.
  - destruct Hop as [ps Hps]. apply Hsame, wp_discard.
    by eapply wp_of_Done; [by apply weak_lock_Done; [|by eapply pk_owned]|].
  - destruct Hop as [ps Hps]. destruct (decide (1 < use_count ps)%nat) as [Hn|Hn].
    + apply Hsame. by eapply wp_of_Done; [by apply release_Done_shared|].
    + apply confined_threads; [apply release_confined|].
      eapply wp_mono; [exact Hsafe|]. intros _ v _ Ht. by destruct Hn; eapply Hone.
  - apply (Hserver (OpStartAsync port)); [by apply Hobj|done..].
  - apply (Hserver OpStop); [by apply Hobj|done..].
  - destruct Hop as [ps Hps]. apply Hsame, wp_discard. unfold bind_packet_handler. apply wp_bind.
    eapply wp_of_Done; [by apply deref_ps_Done|].
    destruct (m_packet_handlers ps !! t); [by apply wp_ret|]. by apply wp_bind, wp_modify, wp_ret.
  - destruct Hop as [ps Hps]. apply Hsame. unfold unbind_packet_handler. apply wp_bind.
    eapply wp_of_Done; [by apply deref_ps_Done|]. by apply wp_modify.
  - destruct Hop as [Hp Ht]. destruct (Hobj Hp) as [s Hs].
    apply Hgo, wp_discard. eapply packet_send_goes_on; [by apply world_inv_weaken|done..].
  - destruct Hop as [Hp Ht]. destruct (Hobj Hp) as [s Hs].
    apply Hgo, wp_discard. eapply packet_broadcast_goes_on; [by apply world_inv_weaken|done..].
  - apply (Hserver OpPoll); [|done..]. by destruct Hop.
  - by apply (Hserver (OpStatusChanged info)).
Qed.

(** ** Every step keeps the invariant *)

Definition packet_servers_go t t' : Prop :=
  packet_server_threads_ok t' ∧ rtc session_step (sessions (tw_world t)) (sessions (tw_world t')).

Lemma modest_dom w w' : modest w w' → dom (w_objs w') = dom (w_objs w).
Proof. intros [_ Hcore]. by rewrite <- (dom_fmap_L core (w_objs w')), Hcore, dom_fmap_L. Qed.

Lemma packet_server_network_ok p t :
  packet_server_threads_ok t → packet_server_thread_allowed (T:=T) (PvNetwork p) t →
  wp (exec_thread (TNetwork p)) (λ _, packet_servers_go t) t.
Proof.
  intros Hok [Hrd Hpc]. eapply wp_mono; [by apply (network_step_ok p t); [apply Hok|split]|].
  intros [] t' (Hok' & Happ & Hm & [Hsess _] & Ho & _). split; [|done].
  by eapply packet_server_threads_kept; [..|apply modest_dom].
Qed.

Lemma packet_server_app_ok p op t :
  packet_server_threads_ok t → packet_server_thread_allowed (PvApp p op) t →
  wp (exec_packet_server_thread (B:=B) (PvApp p op)) (λ _, packet_servers_go t) t.
Proof.
  intros Hok (Hfree & Hop & Hone). pose proof (packet_server_free_ok t Hok Hfree) as Hfok.
  pose proof (exec_packet_op_ok (B:=B) p op (tw_world t) Hfok Hop) as Hpk.
  eapply wp_mono; [apply (atomic_step_ok p _ t (pvo_threads _ Hok) Hfree)|].
  - eapply wp_mono; [apply (wp_and _ _ _ _ Hpk (exec_packet_op_threads p op _ Hfok Hop Hone))|].
    intros [] w' [[Hv Hp] Hthr]. split_and!; [|done..]. by split; apply Hv.
  - intros [] t' (Hok' & Hfree' & Hex & Hsess). unfold wp in Hpk. rewrite Hex in Hpk. destruct Hpk as [Hv _].
    split; [|done]. split; [done|by apply owned_owners, Hv|]. rewrite Hfree'. symmetry. apply Hv.
Qed.

Lemma packet_server_stop_ok p t :
  packet_server_threads_ok t → packet_server_thread_allowed (T:=T) (PvStop p) t →
  wp (exec_thread (TStop p false)) (λ _, packet_servers_go t) t.
Proof.
  intros Hok [Hfree Ht]. eapply wp_mono; [by apply (stop_begin_ok p false t); [apply Hok|]|].
  intros [] t' (Hok' & Happ & Hu & Hd & Hsess). split; [|done].
  split; [done|rewrite Hu; apply Hok|]. by rewrite Happ, Hu, (pvo_dom _ Hok), Hfree, Hd.
Qed.

(** The packet server is gone at once, the server when its thread has returned. *)
Lemma packet_server_last_release_ok p t :
  packet_server_threads_ok t → packet_server_thread_allowed (T:=T) (PvLastRelease p) t →
  wp (exec_packet_server_thread (B:=B) (T:=T) (PvLastRelease p)) (λ _, packet_servers_go t) t.
Proof.
  intros Hok (Hfree & Ht & _). cbn [exec_packet_server_thread]. apply wp_bind. unfold wp at 1, on_world, modify.
  set (t1 := TWorld (with_ps (delete p) (tw_world t)) (tw_net t) (tw_app t)).
  change (wp (exec_thread (TStop p true)) (λ _, packet_servers_go t) t1).
  assert (thread_ok t1) as Hok1 by (destruct Hok as [[] _ _]; split; try done; by apply world_inv_with_ps).
  eapply wp_mono; [by apply (stop_begin_ok p true t1 Hok1)|].
  intros [] t' (Hok' & Happ & Hu & Hd & Hsess). split; [|done]. split; [done|..].
  - rewrite Hu. unfold owners. simpl. rewrite fmap_delete. apply map_Forall_delete, Hok.
  - rewrite Happ, Hu, Hd. simpl. by rewrite dom_delete_L, (pvo_dom _ Hok), Hfree.
Qed.

Lemma packet_server_joined_ok t :
  packet_server_threads_ok t → packet_server_thread_allowed (T:=T) PvJoined t →
  wp (exec_thread TJoined) (λ _, packet_servers_go t) t.
Proof.
  intros Hok (p & d & Happ & Hret). eapply wp_mono; [by eapply joined_ok; [apply Hok|..]|].
  intros [] t' (Hok' & Hfree & _ & Hothers & (s & Hs & Hp) & Hu & Hsess). split; [|done].
  split; [done|rewrite Hu; apply Hok|]. rewrite Hfree, Hu, (pvo_dom _ Hok), Happ.
  apply set_eq. intros q. destruct (decide (q = p)) as [->|Hne].
  - destruct d; rewrite ?elem_of_difference, !elem_of_dom, Hp, ?elem_of_singleton;
      [|by rewrite Hs]. split; [by intros [_ []]|by intros [? ?]].
  - assert (q ∈ dom (w_objs (tw_world t)) ↔ q ∈ dom (w_objs (tw_world t'))) as Hq
      by (by rewrite !elem_of_dom, Hothers).
    destruct d; [|done]. rewrite elem_of_difference, elem_of_singleton, Hq. tauto.
Qed.

Lemma packet_server_thread_op_ok top t :
  packet_server_threads_ok t → packet_server_thread_allowed top t →
  wp (exec_packet_server_thread (B:=B) (T:=T) top) (λ _, packet_servers_go t) t.
Proof.
  intros Hok Hop. destruct top; eauto using packet_server_network_ok, packet_server_app_ok,
    packet_server_stop_ok, packet_server_last_release_ok, packet_server_joined_ok.
Qed.

Lemma packet_server_threads_reachable_ok (u : U) t :
  rtc (packet_server_thread_step (B:=B) (T:=T)) (packet_server_thread_initial u) t →
  packet_server_threads_ok t.
Proof.
  intros Hr. assert (packet_server_threads_ok (packet_server_thread_initial u : TW)) as Hok
    by (split; [exact (thread_initial_ok (PacketHeap ∅ u))|done|done]).
  revert Hok. induction Hr as [|t1 t2 t3 (op & Hop & Hex) _ IH]; [done|]. intros Hok. apply IH.
  pose proof (packet_server_thread_op_ok op t1 Hok Hop) as Hwp. unfold wp in Hwp. rewrite Hex in Hwp. apply Hwp.
Qed.

(** C3: in every interleaving of the network threads of packet servers, whose
    handlers run between two of their steps, with an application that creates,
    shares, binds, unbinds, starts, stops, sends, and lets go of the last owner, at
    the grain of one message or status change, no step faults, whatever bytes the clients send, as long as handlers keep their
    contract: the servers below stay well-formed and their sessions go steps of
    their machine; every packet server has an owner, and is there with its server,
    but for the time the destructor waits for the thread, when it is already gone;
    and every message received has been released once, or is held by a thread. *)
Theorem packet_server_threads_safe (u : U) t top :
  rtc (packet_server_thread_step (B:=B) (T:=T)) (packet_server_thread_initial u) t →
  packet_server_thread_allowed top t →
  ∃ t', exec_packet_server_thread (B:=B) top t = Done tt t' ∧
    world_inv Interleaved (tw_world t') ∧
    (tw_app t' = Free → world_ok (tw_world t')) ∧
    rtc session_step (sessions (tw_world t)) (sessions (tw_world t')) ∧
    (∀ q ps, ps_objs (w_user (tw_world t')) !! q = Some ps → use_count ps ≠ 0%nat) ∧
    dom (ps_objs (w_user (tw_world t'))) =
      (match tw_app t' with
       | Joining p true => dom (w_objs (tw_world t')) ∖ {[p]}
       | _ => dom (w_objs (tw_world t'))
       end) ∧
    Ledger.received (w_trace (tw_world t')) ≡ₚ released (w_trace (tw_world t')) ++ owed (tw_net t').
Proof.
  intros Hr Hop. pose proof (packet_server_threads_reachable_ok u t Hr) as Hok.
  pose proof (packet_server_thread_op_ok top t Hok Hop) as Hwp. apply wp_Done in Hwp as ([] & t' & Hex & Hok' & Hl).
  exists t'. split_and!; [done|apply Hok'| |done| |apply Hok'|apply Hok'].
  - intros Hfree. apply free_ok; [apply Hok'|done].
  - by apply owned_owners, Hok'.
Qed.
End system_ok.

(** ** A simulated run *)

#[local] Existing Instance reply_handlers.
#[local] Existing Instance reply_contract.
#[local] Existing Instance reply_handlers_laws.

Section simulation.
Context (ss : SteamSockets sim_addr).
Local Abbreviation TW := (tworld sim_addr positive (packet_heap packet_type_t unit)).
Local Abbreviation top := (packet_server_thread_op packet_type_t byte).
Implicit Types t : TW.

Definition sim_packet_server_threads (ops : list top) : TW :=
  foldl (λ t op, match exec_packet_server_thread (B:=list byte) (payload_t:=list byte) op t with
                 | Done _ t' => t' | Fault _ t' => t' end)
    (packet_server_thread_initial tt) ops.

(** The boolean form of [packet_server_thread_allowed], for the operations used
    below. *)
Definition packet_server_thread_allowed_b (op : top) t : bool :=
  let w := tw_world t in
  match op, tw_app t with
  | PvNetwork p, _ =>
      bool_decide (1%positive ∈ dom (w_objs w)) &&
      match tw_net t !! p with Some Returned | None => false | Some _ => true end
  | PvApp p PkCreate, Free =>
      bool_decide (p ∉ dom (w_objs w)) && bool_decide (p ∉ dom (ps_objs (w_user w))) &&
      steam_answer (w_trace w) SteamNetworkingSockets
  | PvApp p (PkBind _ _), Free | PvApp p (PkStart _), Free => bool_decide (p ∈ dom (ps_objs (w_user w)))
  | PvApp p (PkStatusChanged _), Free => bool_decide (1%positive ∈ dom (w_objs w))
  | PvLastRelease p, Free =>
      bool_decide (threaded w p) &&
      match ps_objs (w_user w) !! p with Some ps => use_count ps =? 1 | None => false end%nat
  | _, _ => false
  end.

Lemma packet_server_thread_allowed_b_sound op t :
  packet_server_thread_allowed_b op t = true → packet_server_thread_allowed op t.
Proof.
  unfold packet_server_thread_allowed_b. destruct op as [p|p op| |p|]; simpl.
  - rewrite andb_true_iff, bool_decide_eq_true. intros [Hp Hpc]. split; [exact Hp|].
    destruct (tw_net t !! p) as [[]|]; try done; by eexists.
  - destruct op, (tw_app t); try done.
    + rewrite !andb_true_iff, !bool_decide_eq_true, !not_elem_of_dom. intros [[Ho Hp] Hl]. by split_and!.
    + rewrite bool_decide_eq_true, elem_of_dom. intros Hp. by split_and!.
    + rewrite bool_decide_eq_true, elem_of_dom. intros Hp. by split_and!.
    + rewrite bool_decide_eq_true. intros Hp. by split_and!.
  - by destruct (tw_app t).
  - destruct (tw_app t); [|done]. rewrite andb_true_iff, bool_decide_eq_true. intros [Ht Hc]. split_and!; [done..|].
    destruct (ps_objs _ !! _) as [ps|]; [|done]. exists ps. split; [done|]. by apply Nat.eqb_eq.
  - by destruct (tw_app t).
Qed.

Fixpoint packet_server_threads_run_ok t (ops : list top) : bool :=
  match ops with
  | [] => true
  | op :: ops =>
      packet_server_thread_allowed_b op t &&
      match exec_packet_server_thread (B:=list byte) (payload_t:=list byte) op t with
      | Done _ t' => packet_server_threads_run_ok t' ops | Fault _ _ => false end
  end.

Lemma sim_packet_server_threads_reachable ops :
  packet_server_threads_run_ok (packet_server_thread_initial tt) ops = true →
  rtc (packet_server_thread_step (B:=list byte) (T:=byte) (payload_t:=list byte))
    (packet_server_thread_initial tt) (sim_packet_server_threads ops).
Proof.
  unfold sim_packet_server_threads. generalize (packet_server_thread_initial tt : TW).
  induction ops as [|op ops IH]; intros t Hok; [apply rtc_refl|]. simpl in Hok |- *.
  apply andb_true_iff in Hok as [Hop Hok]. apply packet_server_thread_allowed_b_sound in Hop.
  destruct (exec_packet_server_thread op t) as [[] t'|] eqn:Hex; [|done].
  eapply rtc_l; [by exists op|]. by apply IH.
Qed.
End simulation.

(** Client 5 has sent two packets of type 128; the first has been answered when
    the last owner lets go of the server. *)
Definition sim_packet_server_released : list (packet_server_thread_op packet_type_t byte) :=
  [PvApp 1 PkCreate; PvApp 1 (PkBind 128 7); PvApp 1 (PkStart 80);
   PvApp 1 (PkStatusChanged (StatusChanged 5 StateConnecting StateNone));
   PvNetwork 1; PvNetwork 1; PvLastRelease 1].

Lemma packet_server_threads_safe_witness :
  let ss := sim_steam [(5, sim_datagram x2b); (5, sim_datagram x2b)] [] in
  let t := sim_packet_server_threads ss sim_packet_server_released in
  let answers t := List.filter (λ c, match c with SendMessageToConnection _ _ _ => true | _ => false end)
                     (w_trace (A:=sim_addr) (tw_world t)) in
  tw_app t = Joining 1 true ∧ length (owed (tw_net t)) = 1%nat ∧ length (answers t) = 1%nat ∧
  ∃ t', exec_packet_server_thread (B:=list byte) (payload_t:=list byte) (PvNetwork 1) t = Done tt t' ∧
    world_inv Interleaved (tw_world t') ∧ length (answers t') = 1%nat.
Proof.
  intros ss t answers.
  assert (SteamLaws sim_addr) as Hlaws by (apply sim_laws; by repeat constructor).
  split; [by vm_compute|]. split; [by vm_compute|]. split; [by vm_compute|].
  destruct (packet_server_threads_safe (B:=list byte) (T:=byte) (payload_t:=list byte) tt t (PvNetwork 1))
    as (t' & Hex & Hinv & _).
  - apply sim_packet_server_threads_reachable. by vm_compute.
  - apply (packet_server_thread_allowed_b_sound ss). by vm_compute.
  - exists t'. split; [exact Hex|]. split; [exact Hinv|].
    assert (match exec_packet_server_thread (B:=list byte) (payload_t:=list byte) (PvNetwork 1) t with
            | Done _ v => length (answers v) | Fault _ _ => 0%nat end = 1%nat) as Hlen by by vm_compute.
    by rewrite Hex in Hlen.
Defined.
