(* ===== verification/PacketClient.v ===== *)
(** * The packet client

    [src/kb/net/udp/client/udp_packet_client.hpp] and [.inl]: the class template
    [UdpPacketClient], for any serializer of the interface of [Serde.v].  Like a
    packet server, it is owned by shared pointers, and its [m_client], the
    [UdpClient] at the same address, holds a weak pointer to it. *)

From S2P Require Import Prelude Bytes NetworkTypes Packet Serde Runtime UdpClient.
Import Strings.Byte.
Local Open Scope Z_scope.

(** ** State *)

Record PacketClient (H P : Type) := MkPacketClient {
  m_handlers : gmap packet_type_t H;
  m_handler_mutex : bool;                        (** held *)
  m_pre_handler : option P;                      (** [m_on_data_received_pre_handler_callback] *)
  pc_use_count : nat;                            (** shared pointers that own the object *)
}.
Arguments MkPacketClient {H P}.
Arguments m_handlers {H P}.
Arguments m_handler_mutex {H P}.
Arguments m_pre_handler {H P}.
Arguments pc_use_count {H P}.

Section setters.
Context {H P : Type}.
Implicit Types c : PacketClient H P.
Definition set_handlers F c : PacketClient H P := let 'MkPacketClient a b d e := c in MkPacketClient (F a) b d e.
Definition set_handler_mutex v c : PacketClient H P := let 'MkPacketClient a _ d e := c in MkPacketClient a v d e.
Definition set_pre_handler v c : PacketClient H P := let 'MkPacketClient a b _ e := c in MkPacketClient a b v e.
Definition set_pc_use_count v c : PacketClient H P := let 'MkPacketClient a b d _ := c in MkPacketClient a b d v.
End setters.

(** The packet clients alive, and what their callbacks act on. *)
Record client_heap (H P U : Type) := ClientHeap {
  pc_objs : gmap positive (PacketClient H P);
  pc_user : U;
}.
Arguments ClientHeap {H P U}.
Arguments pc_objs {H P U}.
Arguments pc_user {H P U}.

(** Clients whose callback handle is a weak pointer to a packet client. *)
Definition client_world (A H P U : Type) : Type := world A (UdpClient positive) (client_heap H P U).

(** The user's packet handlers, and the pre-handler the asynchronous client
    registers, by the handles stored in the packet client. *)
Class ClientPacketHandlers (A H P U payload_t : Type) := {
  run_client_handler : H → payload_t → M (client_world A H P U) unit;
  run_pre_handler : P → incoming_view_message_t → M (client_world A H P U) bool;
}.

(** ** Operations *)

Section operations.
Context {A H P U payload_t : Type} `{SteamIPAddr A} `{SteamSockets A}.
Context `{PacketDeserializer payload_t} `{ClientPacketHandlers A H P U payload_t}.
Local Abbreviation W := (client_world A H P U).

Definition with_pc (f : gmap positive (PacketClient H P) → gmap positive (PacketClient H P)) (w : W) : W :=
  with_user (λ u, ClientHeap (f (pc_objs u)) (pc_user u)) w.

Definition deref_pc (this : positive) : M W (PacketClient H P) :=
  λ w, or_fault NullDeref (pc_objs (w_user w) !! this) w.

Definition update_pc (this : positive) (f : PacketClient H P → PacketClient H P) : M W unit :=
  self ← deref_pc this; modify (with_pc <[this := f self]>).

(** [std::scoped_lock lock{ m_handler_mutex }] around a block. *)
Definition handler_lock {R} (this : positive) (block : M W R) : M W R :=
  self ← deref_pc this;
  if m_handler_mutex self then fail Deadlock
  else
    update_pc this (set_handler_mutex true) ;;
    r ← block;
    update_pc this (set_handler_mutex false) ;;
    mret r.

(** [weak.lock()]: a new owner, unless the object has expired. *)
Definition weak_lock (this : positive) : M W bool :=
  u ← gets w_user;
  match pc_objs u !! this with
  | Some self =>
      if decide (pc_use_count self = 0%nat) then mret false
      else update_pc this (set_pc_use_count (S (pc_use_count self))) ;; mret true
  | None => mret false
  end.

(** A shared pointer goes away; the last one destroys the object, whose members
    are destroyed in reverse order: the handlers, then [m_client]. *)
Definition release (this : positive) : M W unit :=
  self ← deref_pc this;
  if decide (pc_use_count self ≤ 1)%nat then
    modify (with_pc (delete this)) ;;
    destruct_client this
  else update_pc this (set_pc_use_count (pred (pc_use_count self))).

Definition bind_packet_handler (this : positive) (p_packet_type : packet_type_t) (p_handler : H)
    : M W bool :=
  handler_lock this (
    self ← deref_pc this;
    match m_handlers self !! p_packet_type with
    | Some _ => mret false
    | None => update_pc this (set_handlers <[p_packet_type := p_handler]>) ;; mret true
    end).

Definition unbind_packet_handler (this : positive) (p_packet_type : packet_type_t) : M W unit :=
  handler_lock this (update_pc this (set_handlers (delete p_packet_type))).

Definition register_on_data_received_pre_handler_callback (this : positive) (p_callback : option P)
    : M W unit :=
  update_pc this (set_pre_handler p_callback).

Definition handle_message (this : positive) (p_message : incoming_view_message_t) : M W bool :=
  maybe_internal_packet_header ←
    unpack_internal_packet_header (view_data p_message) (view_size p_message);
  match maybe_internal_packet_header with
  | None => mret false
  | Some header =>
      let serde_type := m_serde_type header in
      if decide (serde_type ≠ SerdeT) then mret false
      else
        let packet_type := m_packet_type header in
        self ← deref_pc this;
        pre_handler_callback_res ←
          match m_pre_handler self with
          | Some callback => run_pre_handler callback p_message
          | None => mret false
          end;
        if (pre_handler_callback_res : bool) then mret true
        else
          (** [std::scoped_lock { m_handler_mutex };] declares no variable: the
              mutex is released before the lookup. *)
          handler_lock this skip ;;
          self ← deref_pc this;
          match m_handlers self !! packet_type with
          | None => mret false
          | Some handler =>
              let payload_ptr := drop (Z.to_nat sizeof_header) (view_data p_message) in
              let payload_size := u64 (view_size p_message - sizeof_header) in
              maybe_payload ← deserialize_packet payload_ptr payload_size;
              match maybe_payload with
              | None => mret false
              | Some payload => run_client_handler handler payload ;; mret true
              end
          end
  end.

(** The closure [create] gives to [m_client]. *)
#[global] Instance packet_client_callbacks : ClientCallbacks A positive (client_heap H P U) :=
  λ weak p_message,
    locked ← weak_lock weak;
    if (locked : bool) then handle_message weak p_message ;; release weak else skip.

(** [std::make_shared], then the callback with the weak pointer. *)
Definition create (this : positive) : M W unit :=
  construct this ;;
  modify (with_pc <[this := MkPacketClient ∅ false None 1]>) ;;
  set_on_data_callback this (Some this).

Definition connect (this : positive) (p_address : string) (p_port : Z) : M W bool :=
  UdpClient.connect this p_address p_port.

Definition stop (this : positive) : M W unit := UdpClient.stop this.

Definition get_connection_status (this : positive) : M W connection_status_t :=
  UdpClient.get_connection_status this.

Definition is_running (this : positive) : M W bool := UdpClient.is_running this.

Context {B T : Type} `{OwningBuffer B} `{!PacketSerializer B T payload_t}.

Definition send_packet_internal (this : positive) (p_packet : internal_packet_t B) (p_reliable : bool)
    : M W bool :=
  send_raw this (ob_data (m_buffer p_packet)) (ob_size (m_buffer p_packet)) p_reliable.

Definition send_packet (this : positive) (p_packet_type : packet_type_t) (p_object : T)
    (p_reliable : bool) : M W bool :=
  packet ← serialize_packet k_invalid_connection p_packet_type p_object;
  send_packet_internal this packet p_reliable.
End operations.
