(* ===== verification/PacketClientProps.v ===== *)
(** * The properties of the packet client

    What a received message runs, and sending. *)

From S2P Require Import Prelude Bytes NetworkTypes Packet Serde Runtime.
From S2P Require Import Simulated Dispatch.
From S2P Require Import UdpClient UdpClientSpec PacketClient.
Import Strings.Byte.
Local Open Scope Z_scope.

(** ** Messages *)

Section messages.
Context {A H P U payload_t : Type} `{SteamIPAddr A} `{SteamSockets A}.
Context `{PacketDeserializerLaws payload_t} `{ClientPacketHandlers A H P U payload_t}.
Local Abbreviation W := (client_world A H P U).
Implicit Types (w : W) (p : positive) (c : PacketClient H P).

Lemma deref_pc_Done p c w : pc_objs (w_user w) !! p = Some c → deref_pc p w = Done c w.
Proof. intros Hc. unfold deref_pc. by rewrite Hc. Qed.

Lemma update_pc_Done p f c w :
  pc_objs (w_user w) !! p = Some c → update_pc p f w = Done tt (with_pc <[p := f c]> w).
Proof. intros Hc. unfold update_pc. by erewrite bind_Done; [|by apply deref_pc_Done]. Qed.

Lemma lookup_with_pc p c w : pc_objs (w_user (with_pc <[p := c]> w)) !! p = Some c.
Proof. apply lookup_insert_eq. Qed.

Lemma with_pc_with_pc p c c' w : with_pc <[p := c]> (with_pc <[p := c']> w) = with_pc <[p := c]> w.
Proof. unfold with_pc, with_user. simpl. by rewrite insert_insert_eq. Qed.

Lemma with_pc_id p c w : pc_objs (w_user w) !! p = Some c → with_pc <[p := c]> w = w.
Proof.
  intros Hc. destruct w as [o i t tr [objs u]]. unfold with_pc, with_user. simpl in *.
  by rewrite insert_id.
Qed.

(** The temporary lock of [handle_message] leaves everything as it was. *)
Lemma handler_lock_skip p c w :
  pc_objs (w_user w) !! p = Some c → m_handler_mutex c = false → handler_lock p skip w = Done tt w.
Proof.
  intros Hc Hm. unfold handler_lock. erewrite bind_Done; [|by apply deref_pc_Done]. rewrite Hm.
  erewrite bind_Done; [|by apply update_pc_Done]. erewrite bind_Done; [|done].
  erewrite bind_Done; [|apply update_pc_Done, lookup_with_pc]. rewrite with_pc_with_pc.
  rewrite with_pc_id; [done|]. rewrite Hc. by destruct c; simpl in *; subst.
Qed.

(** The pre-handler's answer, [false] without one. *)
Definition pre_handle (msg : incoming_view_message_t) c : M W bool :=
  match m_pre_handler c with
  | Some callback => run_pre_handler callback msg
  | None => mret false
  end.

(** The message carries a header of this client's serialization type. *)
Definition addressed (msg : incoming_view_message_t) : Prop :=
  ∃ header, parse_header (view_data msg) = Some header ∧ m_serde_type header = SerdeT.

(** A message without a header of this client's serialization type is
    answered false and runs nothing.  Otherwise the pre-handler, when there is
    one, sees it first, and its [true] ends the matter; if it declines, and
    leaves the handlers' mutex free, the handler bound to the packet type runs
    once with the decoded payload and the answer is true; without such a handler
    or such a payload the answer is false. *)
Theorem handle_message_dispatches p msg w c :
  pc_objs (w_user w) !! p = Some c →
  view_size msg = length (view_data msg) → length (view_data msg) < 2 ^ 64 →
  (¬ addressed msg → handle_message p msg w = Done false w) ∧
  (addressed msg →
    (∀ w1, pre_handle msg c w = Done true w1 → handle_message p msg w = Done true w1) ∧
    (∀ w1 c1, pre_handle msg c w = Done false w1 →
       pc_objs (w_user w1) !! p = Some c1 → m_handler_mutex c1 = false →
       (∀ t handler payload, matches (m_handlers c1) (view_data msg) t handler payload →
          handle_message p msg w = (run_client_handler handler payload ;; mret true) w1) ∧
       ((∀ t handler payload, ¬ matches (m_handlers c1) (view_data msg) t handler payload) →
          handle_message p msg w = Done false w1))).
Proof.
  intros Hc Hsize Hlen. unfold handle_message, addressed. rewrite Hsize.
  rewrite (bind_Done _ _ _ _ _ (unpack_Done (view_data msg) w)).
  destruct (parse_header (view_data msg)) as [header|] eqn:Hparse.
  2: { split; [done|]. by intros (h & ? & ?). }
  destruct (decide (m_serde_type header = SerdeT)) as [Hs|Hs].
  2: { rewrite decide_True by done. split; [done|]. intros (h & [= <-] & ?). done. }
  rewrite decide_False by (intros Hne; done).
  split; [intros []; by exists header|]. intros _.
  erewrite (bind_Done (deref_pc p)); [|by apply deref_pc_Done].
  fold (pre_handle msg c). split.
  { intros w1 Hpre. by rewrite (bind_Done _ _ _ _ _ Hpre). }
  intros w1 c1 Hpre Hc1 Hm. rewrite (bind_Done _ _ _ _ _ Hpre).
  erewrite bind_Done; [|by eapply handler_lock_skip]. erewrite bind_Done; [|by apply deref_pc_Done].
  assert (∀ handler payload,
    dispatch (m_handlers c1) (view_data msg) = Some (handler, payload) ↔
    m_handlers c1 !! m_packet_type header = Some handler ∧ decode (drop 8 (view_data msg)) = Some payload)
    as Hdis.
  { intros h x. unfold dispatch. rewrite Hparse, decide_True by done.
    destruct (m_handlers c1 !! m_packet_type header), (decode (drop 8 (view_data msg)));
      (split; [intros Heq; split; congruence|intros [??]; congruence]). }
  destruct (deserialize_after_header (view_data msg) header w1 Hparse Hlen) as [Hdes _].
  split.
  - intros t h x Hmt. assert (dispatch (m_handlers c1) (view_data msg) = Some (h, x)) as Hd
      by (apply dispatch_matches; by exists t).
    apply Hdis in Hd as [-> Hx]. by rewrite (bind_Done _ _ _ _ _ Hdes), Hx.
  - intros Hno. destruct (m_handlers c1 !! m_packet_type header) as [h|] eqn:Hh; [|done].
    rewrite (bind_Done _ _ _ _ _ Hdes). destruct (decode (drop 8 (view_data msg))) as [x|] eqn:Hx; [|done].
    destruct (proj1 (dispatch_matches _ _ h x) (proj2 (Hdis h x) (conj eq_refl eq_refl))) as [t Hmt].
    by apply Hno in Hmt.
Qed.
End messages.

(** ** Sending *)

Section sending.
Context {A H P U B T payload_t : Type} `{SteamIPAddr A} `{SteamSockets A}.
Context `{PacketSerializerLaws B T payload_t}.
Local Abbreviation W := (client_world A H P U).
Implicit Types (w : W) (p : positive) (s : UdpClient positive).

(** Sending a packet that has been serialized. *)
Lemma send_packet_Done p t (x : T) reliable w s pkt :
  w_objs w !! p = Some s → serialize_packet k_invalid_connection t x w = Done pkt w →
  ob_size (m_buffer pkt) = length (ob_data (m_buffer pkt)) → length (ob_data (m_buffer pkt)) < 2 ^ 32 →
  send_packet (B:=B) p t x reliable w
  = if m_client_interface s && negb (bool_decide (m_client_conn s = 0)) then
      let c := SendMessageToConnection (m_client_conn s) (ob_data (m_buffer pkt))
                 (match reliable with true => SendReliable | false => SendUnreliable end) in
      Done (bool_decide (steam_answer (w_trace w) c = k_EResultOK)) (with_calls [c] w)
    else Done false w.
Proof.
  intros Hs Hser Hsize Hlen. unfold send_packet. rewrite (bind_Done _ _ _ _ _ Hser).
  unfold send_packet_internal. rewrite Hsize.
  rewrite (client_send_Done p _ _ reliable w s Hs) by lia.
  assert (u32 (length (ob_data (m_buffer pkt))) = length (ob_data (m_buffer pkt))) as ->
    by (apply wrap_small; unfold fits; lia).
  by rewrite Nat2Z.id, firstn_all.
Qed.

(** [send_packet] on a connected client gives the library, on the client's
    connection, the bytes of a packet that carries the object, whole when they
    are shorter than 4 GiB, and answers whether it took them; without a
    connection it answers false and calls nothing. *)
Theorem send_packet_exact p t (x : T) reliable w s :
  w_objs w !! p = Some s → fits 32 t →
  ∃ bytes body payload,
    bytes = header_bytes (header_create SerdeT (wire_packet_type t)) ++ body ∧
    (∀ W' (w' : W'), deserialize_packet body (length body) w' = Done (Some payload) w') ∧
    (∀ W' (w' : W'), payload_as (B:=B) payload w' = Done (Some x) w') ∧
    (length bytes < 2 ^ 32 →
     send_packet (B:=B) p t x reliable w
     = if m_client_interface s && negb (bool_decide (m_client_conn s = 0)) then
         let c := SendMessageToConnection (m_client_conn s) bytes
                    (match reliable with true => SendReliable | false => SendUnreliable end) in
         Done (bool_decide (steam_answer (w_trace w) c = k_EResultOK)) (with_calls [c] w)
       else Done false w).
Proof.
  intros Hs Ht.
  destruct (serialize_packet_law W k_invalid_connection t x w Ht)
    as (pkt & body & payload & Hser & _ & _ & Hdata & Hsize & Hdes & Has).
  exists (ob_data (m_buffer pkt)), body, payload. split_and!; [done..|]. intros Hlen.
  by apply send_packet_Done.
Qed.
End sending.

(** ** A simulated packet client *)

(** Handlers that record their tag and payload; a pre-handler that answers as it
    is told. *)
Section logging.
Context {A payload_t : Type}.
Local Abbreviation log := (list (nat * payload_t)).

#[local] Instance log_client_handlers : ClientPacketHandlers A nat bool log payload_t := {|
  run_client_handler tag x := modify (with_user (λ u, ClientHeap (pc_objs u) (pc_user u ++ [(tag, x)])));
  run_pre_handler answer _ := mret answer;
|}.
End logging.

Section simulation.
#[local] Instance sim_client_steam : SteamSockets sim_addr := sim_steam [] [].
#[local] Existing Instance log_client_handlers.

(** A connected msgpack client at address 1, with a handler tagged 3 for packets
    of type 128. *)
Definition sim_packet_client_world : client_world sim_addr nat bool (list (nat * list byte)) :=
  match (create 1 ;; bind_packet_handler 1 128 3%nat ;; connect 1 "10.0.0.1" 80)
          (World ∅ None None [] (ClientHeap ∅ [])) with
  | Done _ w => w
  | Fault _ w => w
  end.

Definition sim_packet_client : UdpClient positive :=
  default client_init (w_objs sim_packet_client_world !! 1%positive).
Definition sim_packet_client_part : PacketClient nat bool :=
  default (MkPacketClient ∅ false None 0) (pc_objs (w_user sim_packet_client_world) !! 1%positive).

Definition sim_view (b : byte) : incoming_view_message_t :=
  ViewMessage 2 (header_bytes (header_create serde_msgpack 128) ++ [x91; b]) 10.

Lemma handle_message_dispatches_witness :
  ∃ w', handle_message 1 (sim_view x2a) sim_packet_client_world = Done true w' ∧
    pc_user (w_user w') = [(3%nat, [x2a])].
Proof.
  destruct (handle_message_dispatches (payload_t:=list byte) 1 (sim_view x2a) sim_packet_client_world
    sim_packet_client_part) as [_ Hrun]; [by vm_compute..|].
  destruct Hrun as [_ Hrun]; [eexists; by vm_compute|].
  destruct (Hrun sim_packet_client_world sim_packet_client_part) as [Hm _]; [by vm_compute..|].
  eexists. split.
  - apply (Hm 128 3%nat [x2a]). split_and!; [by vm_compute..|]. exists [x91; x2a]. by vm_compute.
  - by vm_compute.
Defined.

Lemma send_packet_exact_witness :
  ∃ bytes, length bytes < 2 ^ 32 → ∃ b,
    send_packet (B:=list byte) (payload_t:=list byte) 1 128 x2a true sim_packet_client_world
    = Done b (with_calls [SendMessageToConnection 2 bytes SendReliable] sim_packet_client_world).
Proof.
  destruct (send_packet_exact (B:=list byte) (payload_t:=list byte) 1 128 x2a true
    sim_packet_client_world sim_packet_client) as (bytes & body & payload & _ & _ & _ & Hsend);
    [by vm_compute..|].
  exists bytes. intros Hlen. eexists. rewrite (Hsend Hlen).
  change (m_client_interface sim_packet_client && negb (bool_decide (m_client_conn sim_packet_client = 0)))
    with true.
  change (m_client_conn sim_packet_client) with 2. done.
Defined.
End simulation.
