(* ===== verification/PacketClientSystem.v ===== *)
(** * The packet client as a system

    The packet client as a client of [UdpClient]'s callback interface: what its
    handlers may rely on and must leave alone; and the transition system of
    creating, sharing, releasing, connecting, binding, sending and polling. *)

From S2P Require Import Prelude Bytes NetworkTypes Packet Serde Runtime Ledger.
From S2P Require Import UdpClient UdpClientSpec Links UdpClientSafety Simulated UdpClientSystem.
From S2P Require Import Dispatch PacketClient PacketClientProps.
Import Strings.Byte.
Local Open Scope Z_scope.

(** ** The contract of packet handlers *)

Section contract.
Context {H P U : Type} `{CallbackContract U}.
Implicit Types h : client_heap H P U.

(** The owners of each packet client, and whether its mutex is held. *)
Definition holdings h : gmap positive (nat * bool) :=
  (λ c, (pc_use_count c, m_handler_mutex c)) <$> pc_objs h.

Lemma lookup_holdings h p :
  holdings h !! p = (λ c, (pc_use_count c, m_handler_mutex c)) <$> pc_objs h !! p.
Proof. apply lookup_fmap. Qed.

Lemma dom_holdings h : dom (holdings h) = dom (pc_objs h).
Proof. apply dom_fmap_L. Qed.

(** Nobody is binding or looking up a handler. *)
Definition mutexes_free h : Prop := map_Forall (λ _ x, x.2 = false) (holdings h).

(** Handlers may rely on the contract of the user's state and on the mutexes of
    the packet clients being free, and leave every packet client with the owners
    it had and its mutex free. *)
#[export] Instance packet_client_contract : CallbackContract (client_heap H P U).
Proof.
  refine {|
    user_frame h h' := holdings h' = holdings h ∧ user_frame (pc_user h) (pc_user h');
    callback_pre D h := callback_pre D (pc_user h) ∧ mutexes_free h;
  |}.
  - split; [done|]. intros h1 h2 h3 [Ho Hu] [Ho' Hu']. split; [congruence|by etrans].
  - intros D h h' [Ho Hu] [Hpre Hm]. split; [by eapply callback_pre_frame|].
    unfold mutexes_free. by rewrite Ho.
Defined.
End contract.

(** ** The packet client's use of [UdpClient] *)

Section callbacks.
Context {A H P U payload_t : Type} `{SteamIPAddr A} `{SteamSockets A} `{!SteamLaws A}.
Context `{PacketDeserializerLaws payload_t} `{ClientPacketHandlers A H P U payload_t} `{CallbackContract U}.
Local Abbreviation W := (client_world A H P U).
Implicit Types (k : threading) (w : W) (p q : positive) (c : PacketClient H P).

(** What user code keeps that is run for the client at [p]. *)
Definition behaves k p w w' : Prop := client_goes_on k p w w' ∧ has_data p w'.

(** What the packet client needs of its handlers and its pre-handler. *)
Class ClientPacketHandlersLaws k : Prop := {
  run_client_handler_ok p h payload w :
    client_good k p w → has_data p w → wp (run_client_handler h payload) (λ _, behaves k p w) w;
  run_pre_handler_ok p cb msg w :
    client_good k p w → has_data p w → view_size msg = length (view_data msg) →
    length (view_data msg) < 2 ^ 31 → wp (run_pre_handler cb msg) (λ _, behaves k p w) w;
}.

Lemma behaves_refl k p w : client_good k p w → has_data p w → behaves k p w w.
Proof. intros [Hw _] Hd. split; [by apply client_goes_on_refl|done]. Qed.

Lemma behaves_trans k p w v v' : behaves k p w v → behaves k p v v' → behaves k p w v'.
Proof. intros [Hv _] [Hv' Hd]. split; [by eapply client_goes_on_trans|done]. Qed.

Lemma behaves_good k p w v : client_good k p w → behaves k p w v → client_good k p v.
Proof. intros Hg [Hv _]. by eapply client_goes_on_good. Qed.

(** The packet client at an address outlives the handlers. *)
Lemma behaves_lookup k p q w v c :
  behaves k p w v → pc_objs (w_user w) !! q = Some c →
  ∃ c', pc_objs (w_user v) !! q = Some c' ∧
    pc_use_count c' = pc_use_count c ∧ m_handler_mutex c' = m_handler_mutex c.
Proof.
  intros [[_ [Ho _]] _] Hc. pose proof (lookup_holdings (w_user v) q) as Hl.
  rewrite Ho, lookup_holdings, Hc in Hl. simpl in Hl.
  destruct (pc_objs (w_user v) !! q) as [c'|]; [|done]. simpl in Hl. exists c'. split; [done|].
  split; congruence.
Qed.

Lemma mutex_free q w c :
  mutexes_free (w_user w) → pc_objs (w_user w) !! q = Some c → m_handler_mutex c = false.
Proof.
  intros Hm Hc. pose proof (lookup_holdings (w_user w) q) as Hl. rewrite Hc in Hl.
  exact (Hm q _ Hl).
Qed.

(** The packet clients are not the client's business. *)
Lemma client_world_with_pc k p f w : client_world_inv k p w → client_world_inv k p (with_pc f w).
Proof. intros Hw. by destruct Hw; split. Qed.

Lemma client_keeps_with_pc k p d d' f g w v :
  client_keeps_owing k p d d' (with_pc f w) v → client_keeps_owing k p d d' w (with_pc g v).
Proof. intros [Hv Hs [Hlk Hl] Hm]. split; [by apply client_world_with_pc|done|by split|done]. Qed.

Context {k : threading} `{!ClientPacketHandlersLaws k}.

Lemma handle_message_ok p q msg w c :
  client_good k p w → has_data p w → pc_objs (w_user w) !! q = Some c →
  view_size msg = length (view_data msg) → length (view_data msg) < 2 ^ 31 →
  wp (handle_message q msg) (λ _, behaves k p w) w.
Proof.
  intros Hgood Hdata Hc Hsize Hlen. pose proof (behaves_refl k p w Hgood Hdata) as Hrefl.
  unfold handle_message. rewrite Hsize. apply wp_bind. eapply wp_of_Done; [apply unpack_Done|].
  destruct (parse_header (view_data msg)) as [header|] eqn:Hparse; [|by apply wp_ret].
  case_decide; [by apply wp_ret|]. cbv zeta.
  apply wp_bind. eapply wp_of_Done; [by apply deref_pc_Done|].
  apply wp_bind. apply (wp_mono _ (λ _, behaves k p w)).
  { destruct (m_pre_handler c); [by apply run_pre_handler_ok|by apply wp_ret]. }
  intros [] v Hv; [by apply wp_ret|].
  destruct (behaves_lookup k p q w v c Hv Hc) as (c1 & Hc1 & _ & Hm1).
  assert (m_handler_mutex c = false) as Hm by (eapply mutex_free; [apply Hgood|done]).
  apply wp_bind. eapply wp_of_Done; [eapply handler_lock_skip; [done|congruence]|].
  apply wp_bind. eapply wp_of_Done; [by apply deref_pc_Done|].
  destruct (m_handlers c1 !! m_packet_type header) as [handler|]; [|by apply wp_ret].
  apply wp_bind.
  eapply wp_of_Done; [apply (deserialize_after_header _ header); [done|lia]|].
  destruct (decode _) as [payload|]; [|by apply wp_ret].
  apply wp_bind. eapply wp_mono; [apply (run_client_handler_ok p); [by eapply behaves_good|apply Hv]|].
  intros [] u Hu. apply wp_ret. by eapply behaves_trans.
Qed.

Lemma pc_weak_lock_Done q w c :
  pc_objs (w_user w) !! q = Some c → pc_use_count c ≠ 0%nat →
  weak_lock q w = Done true (with_pc <[q := set_pc_use_count (S (pc_use_count c)) c]> w).
Proof.
  intros Hc Hn. unfold weak_lock. erewrite bind_Done; [|done]. unfold client_world in *.
  rewrite Hc, decide_False by done. by erewrite bind_Done; [|by apply update_pc_Done].
Qed.

(** A weak pointer that does not lock leaves everything alone. *)
Lemma pc_weak_lock_expired q w :
  (∀ c, pc_objs (w_user w) !! q = Some c → pc_use_count c = 0%nat) → weak_lock q w = Done false w.
Proof.
  intros Hno. unfold weak_lock. erewrite bind_Done; [|done].
  destruct (pc_objs (w_user w) !! q) as [c|] eqn:Hc; [|done]. by rewrite decide_True by by apply Hno.
Qed.

Lemma pc_release_shared q w c :
  pc_objs (w_user w) !! q = Some c → (1 < pc_use_count c)%nat →
  release q w = Done tt (with_pc <[q := set_pc_use_count (pred (pc_use_count c)) c]> w).
Proof.
  intros Hc Hn. unfold release. erewrite bind_Done; [|by apply deref_pc_Done].
  rewrite decide_False by lia. by apply update_pc_Done.
Qed.

(** Taking and dropping an owner around a handler. *)
Lemma client_ready_locked q w c n :
  pc_objs (w_user w) !! q = Some c → ready w → ready (with_pc <[q := set_pc_use_count n c]> w).
Proof.
  intros Hc [Hpre Hm]. split; [done|].
  unfold mutexes_free, holdings in *. simpl. rewrite fmap_insert. apply map_Forall_insert_2; [|done].
  pose proof (mutex_free q w c Hm Hc). by destruct c.
Qed.

Lemma client_unlocked_behaves p q w v c c2 :
  let w1 := with_pc <[q := set_pc_use_count (S (pc_use_count c)) c]> w in
  pc_objs (w_user w) !! q = Some c → behaves k p w1 v → pc_objs (w_user v) !! q = Some c2 →
  pc_use_count c2 = S (pc_use_count c) ∧
  behaves k p w (with_pc <[q := set_pc_use_count (pred (pc_use_count c2)) c2]> v).
Proof.
  intros w1 Hc Hv Hc2.
  destruct (behaves_lookup k p q w1 v _ Hv (lookup_with_pc q _ w)) as (c' & Hc' & Hn & Hm).
  rewrite Hc2 in Hc'. injection Hc' as <-.
  assert (pc_use_count c2 = S (pc_use_count c)) as Hn2 by (rewrite Hn; by destruct c).
  assert (m_handler_mutex c2 = m_handler_mutex c) as Hm2 by (rewrite Hm; by destruct c).
  split; [done|]. destruct Hv as [[Hk [Ho Hu]] Hd].
  split; [|done]. split; [by eapply client_keeps_with_pc|]. split; [|done].
  rewrite Hn2. unfold holdings in *. simpl in *. rewrite fmap_insert, Ho, fmap_insert, insert_insert_eq.
  apply insert_id. rewrite lookup_fmap. unfold client_world in *. rewrite Hc. simpl.
  rewrite <- Hm2. by destruct c2.
Qed.

#[export] Instance packet_client_callbacks_laws : ClientCallbacksLaws k A positive (client_heap H P U).
Proof.
  intros p q msg w Hgood Hdata Hsize Hlen. pose proof (behaves_refl k p w Hgood Hdata) as Hrefl.
  unfold run_on_data_received, packet_client_callbacks.
  apply (wp_mono _ (λ _, behaves k p w)); [|by intros [] v []].
  destruct (pc_objs (w_user w) !! q) as [c|] eqn:Hc; [destruct (decide (pc_use_count c = 0%nat)) as [Hz|Hn]|].
  1, 3: apply wp_bind; eapply wp_of_Done; [apply pc_weak_lock_expired; congruence|]; by apply wp_skip.
  apply wp_bind. eapply wp_of_Done; [by apply pc_weak_lock_Done|]. cbv iota.
  set (c1 := set_pc_use_count _ c). set (w1 := with_pc _ w).
  assert (pc_objs (w_user w1) !! q = Some c1) as Hc1 by apply lookup_with_pc.
  assert (client_good k p w1) as Hgood1.
  { destruct Hgood. split; [by apply client_world_with_pc|by apply client_ready_locked]. }
  apply wp_bind. eapply wp_mono; [by apply (handle_message_ok p q msg w1 c1)|]. intros b v Hv.
  destruct (behaves_lookup k p q w1 v c1 Hv Hc1) as (c2 & Hc2 & _).
  destruct (client_unlocked_behaves p q w v c c2 Hc Hv Hc2) as [Hcount Hv'].
  eapply wp_of_Done; [apply pc_release_shared; [done|lia]|]. exact Hv'.
Qed.
End callbacks.

(** ** The transition system *)

(** The calls an application makes on the packet client at an address, the
    rounds of its network thread, and the library's events. *)
Inductive packet_client_op (H P U T : Type) :=
| PcCreate
| PcCopy                                         (** a copy of a shared pointer to it *)
| PcRelease                                      (** the end of a shared pointer to it *)
| PcConnect (address : string) (port : Z)
| PcStop
| PcBind (t : packet_type_t) (handler : H)
| PcUnbind (t : packet_type_t)
| PcPreHandler (callback : option P)             (** registered by the asynchronous client *)
| PcSend (t : packet_type_t) (x : T) (reliable : bool)
| PcNetworkRound
| PcStatusChanged (info : status_changed)
| PcUser (f : U → U).                             (** other code changes what the handlers act on *)
Arguments PcCreate {H P U T}.
Arguments PcCopy {H P U T}.
Arguments PcRelease {H P U T}.
Arguments PcConnect {H P U T}.
Arguments PcStop {H P U T}.
Arguments PcBind {H P U T}.
Arguments PcUnbind {H P U T}.
Arguments PcPreHandler {H P U T}.
Arguments PcSend {H P U T}.
Arguments PcNetworkRound {H P U T}.
Arguments PcStatusChanged {H P U T}.
Arguments PcUser {H P U T}.

Section system.
Context {A H P U B T payload_t : Type} `{SteamIPAddr A} `{SteamSockets A}.
Context `{PacketSerializerLaws B T payload_t} `{ClientPacketHandlers A H P U payload_t} `{CallbackContract U}.
Local Abbreviation W := (client_world A H P U).
Implicit Types (w : W) (p : positive) (op : packet_client_op H P U T) (c : PacketClient H P).

Definition exec_packet_client_op p op : M W unit :=
  match op with
  | PcCreate => create p
  | PcCopy => weak_lock p ;; skip
  | PcRelease => release p
  | PcConnect a pt => connect p a pt ;; skip
  | PcStop => stop p
  | PcBind t handler => bind_packet_handler p t handler ;; skip
  | PcUnbind t => unbind_packet_handler p t
  | PcPreHandler callback => register_on_data_received_pre_handler_callback p callback
  | PcSend t x reliable => send_packet (B:=B) p t x reliable ;; skip
  | PcNetworkRound => client_iteration p
  | PcStatusChanged info => connection_status_changed_callback info
  | PcUser f => modify (with_user (λ h, ClientHeap (pc_objs h) (f (pc_user h))))
  end.

(** Handlers may run. *)
Definition client_handlers_ready w : Prop := callback_pre (dom (w_objs w)) (pc_user (w_user w)).

(** The client at [p] has not lost its connection. *)
Definition usable p w : Prop := ∃ s, w_objs w !! p = Some s ∧ ¬ zombie s.

(** The correct uses of one packet client: through a shared pointer, with packet
    types of 32 bits; not connected again, nor left by its last owner, once its
    connection is lost.  What the handlers act on may change at any time. *)
Definition packet_client_op_allowed p op w : Prop :=
  match op with
  | PcCreate => w_objs w = ∅ ∧ pc_objs (w_user w) = ∅
  | PcRelease => ∃ c, pc_objs (w_user w) !! p = Some c ∧ (pc_use_count c = 1%nat → usable p w)
  | PcConnect _ _ => usable p w ∧ steam_answer (w_trace w) SteamNetworkingSockets = true
  | PcSend t _ _ => is_Some (pc_objs (w_user w) !! p) ∧ fits 32 t
  | PcNetworkRound => client_handlers_ready w ∧ is_Some (w_objs w !! p)
  | PcStatusChanged _ | PcUser _ => True
  | _ => is_Some (pc_objs (w_user w) !! p)
  end.

Definition packet_client_step p w w' : Prop :=
  ∃ op, packet_client_op_allowed p op w ∧ exec_packet_client_op p op w = Done tt w'.

Definition packet_client_initial (u : U) : W := World ∅ None None [] (ClientHeap ∅ u).

(** A well-formed client; it is that of a packet client with an owner and a free
    mutex. *)
Record packet_client_ok p w : Prop := {
  pcl_world : client_world_ok p w;
  pcl_thread : w_thread w = None;
  pcl_dom : dom (w_objs w) = dom (pc_objs (w_user w));
  pcl_held : map_Forall (λ _ x, x.1 ≠ 0%nat ∧ x.2 = false) (holdings (w_user w));
}.

(** What the operations keep. *)
Definition packet_client_keeps p w w' : Prop :=
  packet_client_ok p w' ∧ client_progress p [] [] w w'.

Lemma packet_client_ok_lookup p q w c :
  packet_client_ok p w → pc_objs (w_user w) !! q = Some c →
  pc_use_count c ≠ 0%nat ∧ m_handler_mutex c = false.
Proof.
  intros Hok Hc. pose proof (lookup_holdings (w_user w) q) as Hl. rewrite Hc in Hl.
  exact (pcl_held _ _ Hok q _ Hl).
Qed.

Lemma packet_client_ok_object p w :
  packet_client_ok p w → is_Some (pc_objs (w_user w) !! p) → is_Some (w_objs w !! p).
Proof. intros Hok Hp. apply elem_of_dom. rewrite (pcl_dom _ _ Hok). by apply elem_of_dom. Qed.

Lemma packet_client_ok_good p w : packet_client_ok p w → client_handlers_ready w → client_good Sequential p w.
Proof.
  intros Hok Hr. split; [apply Hok|]. split; [done|].
  eapply map_Forall_impl; [apply Hok|]. by intros q x [_ Hx].
Qed.

(** Steps that keep the clients, the owners and the mutexes. *)
Lemma packet_client_ok_steady p w w' : packet_client_ok p w → client_goes_on Sequential p w w' → packet_client_keeps p w w'.
Proof.
  intros [Hw Hth Hdom Hheld] [[Hw' [Hdom' Hth'] Hp _] [Ho _]]. split; [|done].
  split; [done|congruence| |by rewrite Ho]. by rewrite Hdom', Hdom, <- !dom_holdings, Ho.
Qed.

(** Operations of the client below, which run no handler. *)
Lemma packet_client_ok_private {R} p (m : M W R) w :
  packet_client_ok p w → private m → wp m (client_keeps Sequential p w) w → wp m (λ _, packet_client_keeps p w) w.
Proof.
  intros Hok Hm Hwp. eapply wp_mono; [by apply wp_client_keeps|].
  intros r v. by apply packet_client_ok_steady.
Qed.

(** Changes of the heap of packet clients. *)
Lemma packet_client_ok_quiet p f w :
  packet_client_ok p w → dom (w_objs w) = dom (pc_objs (f (w_user w))) →
  map_Forall (λ _ x, x.1 ≠ 0%nat ∧ x.2 = false) (holdings (f (w_user w))) → packet_client_keeps p w (with_user f w).
Proof.
  intros [Hw Hth _ _] Hdom Hheld. split; [split; [by apply client_ok_with_user|done..]|].
  split; [apply rtc_refl|done].
Qed.

(** Changes of a packet client that is there. *)
Lemma packet_client_ok_with_pc p q w c c' :
  packet_client_ok p w → pc_objs (w_user w) !! q = Some c →
  pc_use_count c' ≠ 0%nat → m_handler_mutex c' = false → packet_client_keeps p w (with_pc <[q := c']> w).
Proof.
  intros Hok Hc Hn Hm. apply packet_client_ok_quiet; [done|..].
  - simpl. rewrite dom_insert_L, (pcl_dom _ _ Hok). symmetry.
    apply subseteq_union_1_L, singleton_subseteq_l. by apply elem_of_dom.
  - unfold holdings. simpl. rewrite fmap_insert. apply map_Forall_insert_2; [done|]. apply (pcl_held _ _ Hok).
Qed.
End system.

Section system_ok.
Context {A H P U B T payload_t : Type} `{SteamIPAddr A} `{SteamSockets A} `{!SteamLaws A}.
Context `{!PacketDeserializer payload_t, !PacketDeserializerLaws payload_t}.
Context `{!OwningBuffer B, !PacketSerializer B T payload_t, !PacketSerializerLaws B T payload_t}.
Context `{ClientPacketHandlers A H P U payload_t} `{CallbackContract U} `{!ClientPacketHandlersLaws Sequential}.
Local Abbreviation W := (client_world A H P U).
Implicit Types (w : W) (p : positive) (op : packet_client_op H P U T) (c : PacketClient H P).

Lemma create_packet_client_ok p w :
  packet_client_ok p w → w_objs w = ∅ → wp (create p) (λ _, packet_client_keeps p w) w.
Proof.
  intros [Hw Hth Hdom Hheld] Hempty.
  assert (pc_objs (w_user w) = ∅) as Hpc by (apply dom_empty_inv_L; by rewrite <- Hdom, Hempty, dom_empty_L).
  unfold create. apply wp_bind. eapply wp_mono; [apply wp_private; [apply client_construct_private|]; by apply client_construct_ok|].
  intros [] v [(Hv & Hobjs & Hthv & Htr & Hl & Hl') Hu]. apply wp_bind, wp_modify.
  set (v1 := with_pc _ v).
  assert (client_world_ok p v1) as Hv1 by by apply client_world_with_pc.
  assert (w_objs v1 !! p = Some client_init) as Hs by (simpl; by rewrite Hobjs, lookup_singleton_eq).
  eapply wp_mono; [apply wp_private; [apply client_set_on_data_private|]; by eapply client_set_on_data_ok|].
  intros [] v2 [[[Hv2 [Hdom2 Hth2] [_ Hled] _] Hl2] Hu2].
  assert (w_trace v1 = w_trace w) as Htr1 by done.
  assert (links p v1 = Links (Some (Unlinked disconnected)) false) as Hl1 by by rewrite <- Hl'.
  split; [split; [done|rewrite Hth2; simpl; congruence| |]|split].
  - rewrite Hdom2, Hu2. simpl. rewrite Hobjs, Hu, Hpc, dom_singleton_L, dom_insert_L, dom_empty_L.
    by rewrite (right_id_L ∅ (∪)).
  - rewrite Hu2. unfold holdings. simpl. by rewrite Hu, Hpc, insert_empty, map_fmap_singleton, map_Forall_singleton.
  - rewrite Hl2, Hl1, Hl. apply rtc_once, LkCreate.
  - intros e He. apply (Hled e). by rewrite Htr1.
Qed.

Lemma copy_packet_client_ok p w c :
  packet_client_ok p w → pc_objs (w_user w) !! p = Some c → wp (weak_lock p) (λ _, packet_client_keeps p w) w.
Proof.
  intros Hok Hc. destruct (packet_client_ok_lookup p p w c Hok Hc) as [Hn Hm].
  eapply wp_of_Done; [by apply pc_weak_lock_Done|].
  eapply packet_client_ok_with_pc; [done..|by destruct c|by destruct c].
Qed.

(** The last owner takes the client with it. *)
Lemma release_packet_client_ok p w c :
  packet_client_ok p w → pc_objs (w_user w) !! p = Some c → (pc_use_count c = 1%nat → usable p w) →
  wp (release p) (λ _, packet_client_keeps p w) w.
Proof.
  intros Hok Hc Hlast. destruct (packet_client_ok_lookup p p w c Hok Hc) as [Hn Hm].
  unfold release. apply wp_bind. eapply wp_of_Done; [by apply deref_pc_Done|]. case_decide as Hone.
  - destruct (Hlast ltac:(lia)) as (s & Hs & Hz). apply wp_bind, wp_modify. set (v := with_pc (delete p) w).
    eapply wp_mono.
    { apply wp_private; [apply client_destruct_private|]. apply (client_destruct_ok p v s).
      - apply client_world_with_pc, Hok.
      - done.
      - simpl. by rewrite (pcl_thread _ _ Hok).
      - by apply not_zombie. }
    intros [] v' [(Hv' & Hempty & Hth & Hp & _) Hu]. destruct Hok as [Hw Hth0 Hdom0 Hheld0].
    assert (pc_objs (w_user v') = ∅) as Hpc.
    { rewrite Hu. simpl. apply dom_empty_inv_L. rewrite dom_delete_L, <- Hdom0.
      apply elem_of_equiv_empty_L. intros q. rewrite elem_of_difference, elem_of_dom, elem_of_singleton.
      intros [[t Ht] Hne]. by destruct (cw_client _ _ _ Hw q t Ht). }
    split; [split; [done|by rewrite Hth|..]|by destruct Hp; split].
    + by rewrite Hempty, Hpc, !dom_empty_L.
    + unfold holdings. rewrite Hpc, fmap_empty. apply map_Forall_empty.
  - eapply wp_of_Done; [by apply update_pc_Done|].
    eapply packet_client_ok_with_pc; [done..| |by destruct c]. destruct c; simpl in *; lia.
Qed.

(** Binding and unbinding under the lock. *)
Lemma handler_lock_Done {R} p (block : M W R) w c r c' :
  pc_objs (w_user w) !! p = Some c → m_handler_mutex c = false →
  block (with_pc <[p := set_handler_mutex true c]> w) = Done r (with_pc <[p := set_handler_mutex true c']> w) →
  m_handler_mutex c' = false → handler_lock p block w = Done r (with_pc <[p := c']> w).
Proof.
  intros Hc Hm Hblock Hm'. unfold handler_lock. erewrite bind_Done; [|by apply deref_pc_Done]. rewrite Hm.
  erewrite bind_Done; [|by apply update_pc_Done]. rewrite (bind_Done _ _ _ _ _ Hblock).
  erewrite bind_Done; [|apply update_pc_Done, lookup_with_pc]. rewrite with_pc_with_pc.
  by destruct c'; simpl in *; subst.
Qed.

Lemma bind_client_handler_ok p t handler w c :
  packet_client_ok p w → pc_objs (w_user w) !! p = Some c →
  wp (bind_packet_handler p t handler) (λ _ v, packet_client_keeps p w v ∧ w_objs v = w_objs w) w.
Proof.
  intros Hok Hc. destruct (packet_client_ok_lookup p p w c Hok Hc) as [Hn Hm].
  pose (bound := match m_handlers c !! t with Some _ => c | None => set_handlers <[t := handler]> c end).
  assert (pc_use_count bound ≠ 0%nat ∧ m_handler_mutex bound = false) as [Hn' Hm']
    by (unfold bound; destruct (m_handlers c !! t); by destruct c).
  eapply wp_of_Done; [eapply (handler_lock_Done p _ w c _ bound); [done..| |done]|].
  - erewrite bind_Done; [|apply deref_pc_Done, lookup_with_pc].
    assert (m_handlers (set_handler_mutex true c) = m_handlers c) as -> by by destruct c.
    unfold bound. instantiate (1 := match m_handlers c !! t with Some _ => false | None => true end).
    destruct (m_handlers c !! t); [done|].
    erewrite bind_Done; [|apply update_pc_Done, lookup_with_pc]. rewrite with_pc_with_pc. by destruct c.
  - split; [by eapply packet_client_ok_with_pc|done].
Qed.

Lemma unbind_client_handler_ok p t w c :
  packet_client_ok p w → pc_objs (w_user w) !! p = Some c →
  wp (unbind_packet_handler p t) (λ _ v, packet_client_keeps p w v ∧ w_objs v = w_objs w) w.
Proof.
  intros Hok Hc. destruct (packet_client_ok_lookup p p w c Hok Hc) as [Hn Hm].
  eapply wp_of_Done; [eapply (handler_lock_Done p _ w c _ (set_handlers (delete t) c)); [done..| |by destruct c]|].
  - rewrite (update_pc_Done p _ _ _ (lookup_with_pc p _ w)), with_pc_with_pc. by destruct c.
  - split; [eapply packet_client_ok_with_pc; [done..|by destruct c|by destruct c]|done].
Qed.

(** Sending hands the client below the bytes of the packet. *)
Lemma packet_client_send_keeps k p t (x : T) reliable w s :
  client_world_inv k p w → w_objs w !! p = Some s → fits 32 t →
  wp (send_packet (B:=B) p t x reliable) (λ _ v, client_goes_on k p w v ∧
    w_objs v = w_objs w ∧ w_user v = w_user w) w.
Proof.
  intros Hw Hs Ht.
  destruct (serialize_packet_law W k_invalid_connection t x w Ht) as (pkt & _ & _ & Hser & _ & _ & _ & Hsize & _).
  apply wp_bind. eapply wp_of_Done; [done|]. unfold send_packet_internal. rewrite Hsize. unfold wp.
  rewrite (client_send_Done p _ _ reliable w s Hs) by lia.
  destruct (_ && _); [|by split; [apply client_goes_on_refl|]].
  split; [|done]. split; [|done]. apply client_keeps_calls; [done|by repeat constructor|no_close].
Qed.

Lemma exec_packet_client_op_ok p op w :
  packet_client_ok p w → packet_client_op_allowed p op w →
  wp (exec_packet_client_op (B:=B) p op) (λ _, packet_client_keeps p w) w.
Proof.
  intros Hok Hop. pose proof (pcl_world _ _ Hok) as Hw.
  assert (w_thread w ≠ Some p) as Hnth by by rewrite (pcl_thread _ _ Hok).
  destruct op; simpl in Hop |- *.
  - by apply create_packet_client_ok; [|apply Hop].
  - destruct Hop as [c Hc]. by eapply wp_discard, copy_packet_client_ok.
  - destruct Hop as (c & Hc & Hlast). by eapply release_packet_client_ok.
  - destruct Hop as [(s & Hs & Hz) Hlib]. apply wp_discard, packet_client_ok_private; [done|apply client_connect_private|].
    eapply wp_mono; [by eapply client_connect_ok; [done..|apply not_zombie]|]. by intros b v [Hv _].
  - destruct (packet_client_ok_object p w Hok Hop) as [s Hs].
    apply packet_client_ok_private; [done|apply client_stop_private|].
    eapply wp_mono; [by eapply client_stop_ok|]. by intros [] v [Hv _].
  - destruct Hop as [c Hc]. apply wp_discard. eapply wp_mono; [by eapply bind_client_handler_ok|].
    by intros b v [Hv _].
  - destruct Hop as [c Hc]. eapply wp_mono; [by eapply unbind_client_handler_ok|]. by intros b v [Hv _].
  - destruct Hop as [c Hc]. destruct (packet_client_ok_lookup p p w c Hok Hc) as [Hn Hm].
    eapply wp_of_Done; [by apply update_pc_Done|].
    eapply packet_client_ok_with_pc; [done..|by destruct c|by destruct c].
  - destruct Hop as [Hp Ht]. destruct (packet_client_ok_object p w Hok Hp) as [s Hs]. apply wp_discard.
    eapply wp_mono; [by eapply packet_client_send_keeps|].
    intros r v [Hv _]. by eapply packet_client_ok_steady.
  - destruct Hop as [Hrd Hp].
    eapply wp_mono; [by apply (client_iteration_ok Sequential); [apply _|apply packet_client_ok_good|]|].
    intros [] v. by apply packet_client_ok_steady.
  - apply packet_client_ok_private; [done|apply client_callback_private|].
    eapply wp_mono; [by apply client_status_callback_ok|]. by intros [] v [Hv _].
  - apply wp_modify, packet_client_ok_quiet; [done|apply Hok|apply Hok].
Qed.

Lemma packet_client_initial_ok p (u : U) : packet_client_ok p (packet_client_initial u : W).
Proof.
  split; [by split; [intros q s Hq|]|done|done|].
  unfold holdings. simpl. rewrite fmap_empty. apply map_Forall_empty.
Qed.

Lemma packet_client_reachable_ok p (u : U) w :
  rtc (packet_client_step (B:=B) (T:=T) p) (packet_client_initial u) w →
  packet_client_ok p w ∧ ledger [] (w_trace w).
Proof.
  intros Hr. pose proof (packet_client_initial_ok p u) as Hok. pose proof ledger_nil as Hl.
  change [] with (w_trace (packet_client_initial u : W)) in Hl at 2.
  revert Hok Hl. induction Hr as [|w1 w2 w3 (op & Hop & Hex) _ IH]; [done|]. intros Hok Hl.
  pose proof (exec_packet_client_op_ok p op w1 Hok Hop) as Hwp. unfold wp in Hwp. rewrite Hex in Hwp.
  destruct Hwp as [Hok' [_ Hl']]. by apply IH; [|apply (Hl' [])].
Qed.

(** However the packet client of a process is created, shared, released,
    connected, stopped, bound, polled and sent through, whatever bytes the server
    sends, no operation faults as long as handlers keep their contract; the packet
    client has an owner and its [UdpClient] as long as it is alive, nobody holds
    its mutex, and every message received has been released exactly once. *)
Theorem packet_client_reachable_safe (u : U) w p op :
  rtc (packet_client_step (B:=B) (T:=T) p) (packet_client_initial u) w → packet_client_op_allowed p op w →
  ∃ w', exec_packet_client_op (B:=B) p op w = Done tt w' ∧ client_world_ok p w' ∧ w_thread w' = None ∧
    ledger [] (w_trace w') ∧
    (∀ q, is_Some (w_objs w' !! q) ↔
       ∃ c, pc_objs (w_user w') !! q = Some c ∧ pc_use_count c ≠ 0%nat ∧ m_handler_mutex c = false).
Proof.
  intros Hr Hop. destruct (packet_client_reachable_ok p u w Hr) as [Hok0 Hl].
  pose proof (exec_packet_client_op_ok p op w Hok0 Hop) as Hwp.
  apply wp_Done in Hwp as ([] & w' & Hex & Hok & [_ Hl']). exists w'.
  split_and!; [done|apply Hok|apply Hok|by apply (Hl' [])|].
  intros q. rewrite <- elem_of_dom, (pcl_dom _ _ Hok), elem_of_dom. split; [|by intros (c & -> & _)].
  intros [c Hc]. exists c. split; [done|by eapply packet_client_ok_lookup].
Qed.
End system_ok.

(** ** A client whose handlers answer *)

Section replies.
Context {A : Type} `{SteamIPAddr A} `{SteamSockets A} `{!SteamLaws A}.
Local Abbreviation W := (client_world A packet_type_t bool unit).

(** The handler [t] of the packet client at address 1 answers every packet with
    a packet of type [t mod 2^32] that carries the byte 42; a pre-handler answers
    as it is told. *)
#[local] Instance reply_client_handlers : ClientPacketHandlers A packet_type_t bool unit (list byte) := {|
  run_client_handler t _ := send_packet (B:=list byte) (T:=byte) (payload_t:=list byte) 1 (u32 t) x2a true ;; skip;
  run_pre_handler answer _ := mret answer;
|}.

#[local] Instance reply_client_contract : CallbackContract unit.
Proof. by refine {| user_frame := eq; callback_pre D _ := 1%positive ∈ D |}; intros D [] []. Defined.

#[local] Instance reply_client_handlers_laws k : ClientPacketHandlersLaws k (A:=A) (payload_t:=list byte).
Proof.
  split.
  - intros p t x w [Hw [Hr _]] Hd. assert (is_Some (w_objs w !! 1%positive)) as [s Hs] by by apply elem_of_dom.
    destruct (cw_client _ _ _ Hw 1%positive s Hs) as [<- _]. cbn [run_client_handler reply_client_handlers].
    apply wp_bind. eapply wp_mono; [by eapply (packet_client_send_keeps k 1 (u32 t) x2a); [..|apply wrap_fits]|].
    intros r v (Hv & Hobjs & _). apply wp_skip. split; [done|]. unfold has_data. by rewrite Hobjs.
  - intros p answer msg w Hgood Hd _ _. by apply wp_ret, behaves_refl.
Qed.
End replies.

#[local] Existing Instance reply_client_handlers.
#[local] Existing Instance reply_client_contract.
#[local] Existing Instance reply_client_handlers_laws.

Definition sim_client_reply (ss : SteamSockets sim_addr) (ops : list (packet_client_op packet_type_t bool unit byte))
    : client_world sim_addr packet_type_t bool unit :=
  foldl (λ w op, match exec_packet_client_op (B:=list byte) (payload_t:=list byte) 1 op w with
                 | Done _ w' => w' | Fault _ w' => w' end)
    (packet_client_initial tt) ops.

(** The server's packet of type 128 is answered by one of type 7. *)
Lemma packet_client_reachable_safe_witness :
  let ss := sim_steam [(2, header_bytes (header_create serde_msgpack 128) ++ [x91; x2b])]
              [StatusChanged 2 StateConnected StateConnecting] in
  let w := sim_client_reply ss [PcCreate; PcBind 128 7; PcConnect "10.0.0.1" 80] in
  ∃ w', exec_packet_client_op (B:=list byte) (payload_t:=list byte) (T:=byte) 1 PcNetworkRound w
          = Done tt w' ∧ ledger [] (w_trace w') ∧
    SendMessageToConnection 2 (header_bytes (header_create serde_msgpack 7) ++ [x91; x2a]) SendReliable
      ∈ w_trace w'.
Proof.
  intros ss w.
  assert (SteamLaws sim_addr) as Hlaws by (apply sim_laws; by repeat constructor).
  destruct (packet_client_reachable_safe (B:=list byte) (T:=byte) (payload_t:=list byte) tt w 1 PcNetworkRound)
    as (w' & Hex & _ & _ & Hl & _).
  - eapply rtc_l; [exists PcCreate; split; [by vm_compute|]|].
    { instantiate (1 := sim_client_reply ss [PcCreate]). by vm_compute. }
    eapply rtc_l; [exists (PcBind 128 7); split; [by vm_compute; eexists|]|].
    { instantiate (1 := sim_client_reply ss [PcCreate; PcBind 128 7]). by vm_compute. }
    apply rtc_once. exists (PcConnect "10.0.0.1" 80). split; [|by vm_compute].
    split; [|by vm_compute]. eexists. split; [by vm_compute|]. by intros [_ [=]].
  - split; [change (1%positive ∈ dom (w_objs w)); apply elem_of_dom|]; by vm_compute; eexists.
  - exists w'. split; [exact Hex|]. split; [exact Hl|].
    assert (match exec_packet_client_op (B:=list byte) (payload_t:=list byte) (T:=byte) 1 PcNetworkRound w with
            | Done _ v => In (SendMessageToConnection 2 (header_bytes (header_create serde_msgpack 7) ++ [x91; x2a])
                                SendReliable) (w_trace v)
            | Fault _ _ => False end) as Hsent by (vm_compute; tauto).
    rewrite Hex in Hsent. by apply list_elem_of_In.
Defined.
