(* ===== verification/PacketClientPoll.v ===== *)
(** * Polling a packet client

    One poll of a connected packet client, from the library's messages to the
    handlers: which datagrams run a handler, in which order, and with what. *)

From S2P Require Import Prelude Bytes NetworkTypes Packet Serde Runtime.
From S2P Require Import UdpClient UdpClientSpec Links UdpClientSafety Simulated UdpClientSystem.
From S2P Require Import Dispatch PacketClient PacketClientProps PacketClientSystem.
Import Strings.Byte.
Local Open Scope Z_scope.

Section polling.
Context {A payload_t : Type} `{SteamIPAddr A} `{SteamSockets A} `{!SteamLaws A}.
Context `{PacketDeserializerLaws payload_t}.
Local Abbreviation log := (list (nat * payload_t)).
Local Abbreviation W := (client_world A nat bool log).
Implicit Types (w : W) (p : positive) (s : UdpClient positive) (c : PacketClient nat bool).
#[local] Existing Instance log_client_handlers.

(** What one datagram leaves in the log; a pre-handler that takes every packet
    leaves nothing to the handlers. *)
Definition heard c (data : list byte) : log :=
  match m_pre_handler c, dispatch (m_handlers c) data with
  | Some true, _ => []
  | _, Some entry => [entry]
  | _, None => []
  end.

Definition hear (l : log) w : W := with_user (λ u, ClientHeap (pc_objs u) (pc_user u ++ l)) w.

Lemma hear_nil w : hear [] w = w.
Proof. destruct w as [o i t tr [objs u]]. unfold hear, with_user. simpl. by rewrite app_nil_r. Qed.

Lemma hear_app l l' cs w : hear l' (with_calls cs (hear l w)) = hear (l ++ l') (with_calls cs w).
Proof. unfold hear, with_user, with_calls. simpl. by rewrite app_assoc. Qed.

Lemma handle_message_log p msg w c :
  pc_objs (w_user w) !! p = Some c → m_handler_mutex c = false →
  view_size msg = length (view_data msg) → length (view_data msg) < 2 ^ 64 →
  ∃ b, handle_message p msg w = Done b (hear (heard c (view_data msg)) w).
Proof.
  intros Hc Hm Hsize Hlen. unfold handle_message, heard. rewrite Hsize.
  rewrite (bind_Done _ _ _ _ _ (unpack_Done (view_data msg) w)). unfold dispatch.
  destruct (parse_header (view_data msg)) as [header|] eqn:Hparse.
  2: { exists false. by destruct (m_pre_handler c) as [[]|]; rewrite hear_nil. }
  destruct (decide (m_serde_type header = SerdeT)) as [Hs|Hs].
  2: { rewrite decide_True by done. exists false. by destruct (m_pre_handler c) as [[]|]; rewrite hear_nil. }
  rewrite decide_False by (intros Hne; done). cbv zeta.
  erewrite (bind_Done (deref_pc p)); [|by apply deref_pc_Done].
  set (pre := match m_pre_handler c with Some callback => callback | None => false end).
  erewrite (bind_Done _ _ w pre w).
  2: { unfold pre. by destruct (m_pre_handler c). }
  assert ((match m_pre_handler c, match m_handlers c !! m_packet_type header, decode (drop 8 (view_data msg)) with
      | Some handler, Some payload => Some (handler, payload) | _, _ => None end with
      | Some true, _ => [] | _, Some entry => [entry] | _, None => [] end)
    = if pre then [] else match m_handlers c !! m_packet_type header, decode (drop 8 (view_data msg)) with
      | Some handler, Some payload => [(handler, payload)] | _, _ => [] end) as ->.
  { unfold pre. destruct (m_pre_handler c) as [[]|], (m_handlers c !! m_packet_type header); try done;
      by destruct (decode (drop 8 (view_data msg))). }
  destruct pre; [exists true; by rewrite hear_nil|].
  erewrite bind_Done; [|by eapply handler_lock_skip]. erewrite bind_Done; [|by apply deref_pc_Done].
  destruct (m_handlers c !! m_packet_type header) as [h|]; [|exists false; by rewrite hear_nil].
  destruct (deserialize_after_header (view_data msg) header w Hparse Hlen) as [Hdes _].
  rewrite (bind_Done _ _ _ _ _ Hdes).
  destruct (decode (drop 8 (view_data msg))) as [x|]; [by exists true|exists false; by rewrite hear_nil].
Qed.

(** The callback takes an owner, and gives it back. *)
Lemma packet_callback_log p msg w c :
  pc_objs (w_user w) !! p = Some c → m_handler_mutex c = false → pc_use_count c ≠ 0%nat →
  view_size msg = length (view_data msg) → length (view_data msg) < 2 ^ 64 →
  run_on_data_received p msg w = Done tt (hear (heard c (view_data msg)) w).
Proof.
  intros Hc Hm Hn Hsize Hlen. unfold run_on_data_received, packet_client_callbacks.
  rewrite (bind_Done _ _ _ _ _ (pc_weak_lock_Done p w c Hc Hn)). cbv iota.
  set (c1 := set_pc_use_count (S (pc_use_count c)) c). set (w1 := with_pc <[p := c1]> w).
  assert (pc_objs (w_user w1) !! p = Some c1) as Hc1 by apply lookup_with_pc.
  destruct (handle_message_log p msg w1 c1 Hc1) as [b Hb]; [by destruct c|done..|].
  rewrite (bind_Done _ _ _ _ _ Hb).
  assert (heard c1 = heard c) as -> by by destruct c.
  rewrite (pc_release_shared p _ c1); [|done|destruct c; simpl in *; lia]. f_equal.
  unfold hear, with_pc, with_user, w1. simpl. destruct w as [o i t tr [objs u]]. simpl in *.
  rewrite insert_insert_eq. do 2 f_equal. apply insert_id. by destruct c.
Qed.

Lemma packet_deliver_log p (msgs : list steam_message) w s c :
  w_objs w !! p = Some s → m_on_data_received s = Some p →
  pc_objs (w_user w) !! p = Some c → m_handler_mutex c = false → pc_use_count c ≠ 0%nat →
  Forall (λ m, m_cbSize m = length (m_pData m) ∧ m_cbSize m < 2 ^ 31) msgs →
  for_each msgs (deliver_message p) w = Done tt (hear (msgs ≫= λ m, heard c (m_pData m)) w).
Proof.
  intros Hs Hcb Hc Hm Hn Hall. revert w Hs Hc.
  induction Hall as [|m msgs [Hsz Hmax] _ IH]; intros w Hs Hc; [by rewrite hear_nil|]. cbn [for_each].
  assert (deliver_message p m w = Done tt (hear (heard c (m_pData m)) w)) as Hstep.
  { unfold deliver_message. erewrite bind_Done; [|by apply deref_Done]. rewrite Hcb.
    unfold u32. rewrite Hsz, wrap_small by (unfold fits; lia).
    apply packet_callback_log; [done..|simpl; lia]. }
  rewrite (bind_Done _ _ _ _ _ Hstep), IH by done. f_equal. cbn [mbind list_bind].
  pose proof (hear_app (heard c (m_pData m)) (msgs ≫= λ m, heard c (m_pData m)) [] w) as Happ.
  by rewrite !with_calls_nil in Happ.
Qed.

(** C19: one poll of a connected packet client, when the library reports no
    status change, runs the handlers of exactly the received datagrams that carry
    a header of the client's serialization type and a bound packet type, and
    decode, unless the pre-handler takes them: each once, in the order received,
    with its payload; the messages are released afterwards, and the poll changes
    nothing else. *)
Theorem packet_client_poll_dispatches p w s c :
  client_world_ok p w → w_objs w !! p = Some s → m_running s = true → m_on_data_received s = Some p →
  pc_objs (w_user w) !! p = Some c → m_handler_mutex c = false → pc_use_count c ≠ 0%nat →
  let receive := ReceiveMessagesOnConnection (m_client_conn s) 16 in
  let msgs : list steam_message := (steam_answer (w_trace w) receive).2 in
  let calls := receive :: (ReleaseMessage <$> msgs) in
  steam_answer (w_trace w ++ calls) RunCallbacks = [] →
  poll p w = Done tt (hear (msgs ≫= λ m, heard c (m_pData m)) (with_calls (calls ++ [RunCallbacks]) w)).
Proof.
  intros Hw Hs Hr Hcb Hc Hm Hn receive msgs calls Hno. destruct (cw_client _ _ _ Hw p s Hs) as [_ Hok].
  pose proof (cok_conn _ _ Hok Hr) as Hlive. pose proof (cok_interface _ _ Hok Hr) as Hi.
  assert (receive_ok 16 (steam_answer (w_trace w) receive)) as Hrecv by by apply receive_live_conn.
  unfold poll. erewrite bind_Done; [|by apply deref_Done]. rewrite Hr. cbn [negb].
  erewrite bind_Done.
  2: { rewrite (poll_messages_Done p w s Hs Hi (proj1 Hlive) Hrecv). fold receive msgs. rewrite Hcb.
       erewrite bind_Done; [apply release_all_Done|].
       apply (packet_deliver_log p msgs _ s c); [done..|apply Hrecv]. }
  erewrite bind_Done; [|by apply deref_Done]. rewrite Hi. unfold call, mbind, M_bind.
  match goal with |- context [steam_answer ?tr RunCallbacks] =>
    replace tr with (w_trace w ++ calls) by (simpl; by rewrite <- app_assoc) end.
  rewrite Hno. unfold for_each, skip, mret, M_ret. f_equal.
  unfold hear, with_user, with_calls. simpl. by rewrite <- !app_assoc.
Qed.
End polling.

(** ** A simulated client *)

#[local] Existing Instance log_client_handlers.

(** A msgpack client at address 1, with a handler tagged 3 for packets of type
    128 and a pre-handler that declines; its connection is 2. *)
Definition sim_poll_setup (ss : SteamSockets sim_addr)
    : client_world sim_addr nat bool (list (nat * list byte)) :=
  match (create 1 ;; bind_packet_handler 1 128 3%nat ;;
         register_on_data_received_pre_handler_callback 1 (Some false) ;; connect 1 "10.0.0.1" 80)
          (World ∅ None None [] (ClientHeap ∅ [])) with
  | Done _ w => w
  | Fault _ w => w
  end.

(** Two packets of type 128 around one that is none. *)
Definition sim_poll_inbox : list (kb_connection_t * list byte) :=
  let packet b := (2, header_bytes (header_create serde_msgpack 128) ++ [x91; b]) in
  [packet x2a; (2, [x4b]); packet x2c].

Lemma packet_client_poll_dispatches_witness :
  let ss := sim_steam sim_poll_inbox [] in
  let w := sim_poll_setup ss in
  ∃ w', poll 1 w = Done tt w' ∧ pc_user (w_user w') = [(3%nat, [x2a]); (3%nat, [x2c])].
Proof.
  intros ss w.
  assert (SteamLaws sim_addr) as Hlaws by (apply sim_laws; by repeat constructor).
  pose (s := default client_init (w_objs w !! 1%positive)).
  pose (c := default (MkPacketClient ∅ false None 0) (pc_objs (w_user w) !! 1%positive)).
  assert (w_objs w = {[1%positive := s]}) as Hobjs by by vm_compute.
  assert (client_world_ok 1 w) as Hw.
  { split.
    - rewrite Hobjs. intros q t [<- <-]%lookup_singleton_Some. split; [done|].
      split; [by vm_compute| |by vm_compute].
      intros _. split; [by vm_compute|]. by apply (sim_conn_live sim_poll_inbox []); vm_compute.
    - intros q Hq. assert (q = 1%positive) as -> by (vm_compute in Hq; congruence).
      exists s. rewrite Hobjs. split; [apply lookup_singleton_eq|by vm_compute]. }
  eexists. split.
  - apply (packet_client_poll_dispatches (payload_t:=list byte) 1 w s c Hw); by vm_compute.
  - by vm_compute.
Defined.
