(* ===== verification/PacketThreads.v ===== *)
(** * The packet client, interleaved with its network thread

    [PacketClientSystem.v] with the network thread of [ClientThreads.v]: handlers
    run at the grain of one message, and the application binds, sends, stops and
    lets go in between. *)

From S2P Require Import Prelude Bytes NetworkTypes Packet Serde Runtime Ledger.
From S2P Require Import UdpClient UdpClientSpec Links UdpClientSafety Simulated UdpClientSystem.
From S2P Require Import ClientThreads ClientThreadsProps ClientThreadsSystem.
From S2P Require Import Dispatch PacketClient PacketClientProps PacketClientSystem.
Import Strings.Byte.
Local Open Scope Z_scope.

(** What the threads do: a step of the network thread; an operation of the
    application; [stop] up to its [join]; the last owner goes, and with it the
    client, up to the [join] of its destructor; the [join] returns. *)
Inductive packet_thread_op (H P U T : Type) :=
| PtNetwork
| PtApp (op : packet_client_op H P U T)
| PtStop
| PtLastRelease
| PtJoined.
Arguments PtNetwork {H P U T}.
Arguments PtApp {H P U T}.
Arguments PtStop {H P U T}.
Arguments PtLastRelease {H P U T}.
Arguments PtJoined {H P U T}.

Section system.
Context {A H P U B T payload_t : Type} `{SteamIPAddr A} `{SteamSockets A}.
Context `{PacketSerializerLaws B T payload_t} `{ClientPacketHandlers A H P U payload_t} `{CallbackContract U}.
Local Abbreviation W := (client_world A H P U).
Local Abbreviation CT := (cthreads A positive (client_heap H P U)).
Implicit Types (w : W) (t : CT) (p : positive) (op : packet_client_op H P U T).

Definition exec_packet_thread p (top : packet_thread_op H P U T) : M CT unit :=
  match top with
  | PtNetwork => exec_client_thread p CNetwork
  | PtApp op => on_cworld (exec_packet_client_op (B:=B) p op) ;; modify (client_spawned p)
  | PtStop => exec_client_thread p (CStop false)
  | PtLastRelease => on_cworld (modify (with_pc (delete p))) ;; exec_client_thread p (CStop true)
  | PtJoined => exec_client_thread p CJoined
  end.

(** The operations the application calls in one piece: not those that wait for
    the network thread, or are it. *)
Definition packet_in_one_piece p op w : Prop :=
  match op with
  | PcStop | PcNetworkRound => False
  | PcRelease => ∀ c, pc_objs (w_user w) !! p = Some c → (1 < pc_use_count c)%nat
  | _ => True
  end.

(** An event of another thread reaches the client where its thread has tested the
    connection. *)
Definition packet_exposed op (pc : client_pc) : bool :=
  match pc, op with CChecked, PcStatusChanged _ => true | _, _ => false end.

Definition packet_thread_allowed p (top : packet_thread_op H P U T) t : Prop :=
  let w := ct_world t in
  match top with
  | PtNetwork => client_handlers_ready w ∧ ∃ pc, ct_net t = Some pc ∧ pc ≠ CReturned
  | PtApp op =>
      ct_app t = CFree ∧ packet_client_op_allowed p op w ∧ packet_in_one_piece p op w ∧
      (∀ pc, ct_net t = Some pc → packet_exposed op pc = false)
  | PtStop => ct_app t = CFree ∧ is_Some (pc_objs (w_user w) !! p)
  | PtLastRelease => ct_app t = CFree ∧ usable p w ∧
      ∃ c, pc_objs (w_user w) !! p = Some c ∧ pc_use_count c = 1%nat
  | PtJoined => (∃ d, ct_app t = CJoining d) ∧ ct_net t = Some CReturned
  end.

Definition packet_thread_step p t t' : Prop :=
  ∃ top, packet_thread_allowed p top t ∧ exec_packet_thread p top t = Done tt t'.

Definition packet_thread_initial (u : U) : CT := CThreads (packet_client_initial u) None CFree.

(** ** The invariant *)

(** A client and its thread in order; every packet client has an owner and a free
    mutex; it is there with its client, but for the wait of its destructor. *)
Record packet_threads_ok p t : Prop := {
  pto_client : client_threads_ok p t;
  pto_held : map_Forall (λ _ x, x.1 ≠ 0%nat ∧ x.2 = false) (holdings (w_user (ct_world t)));
  pto_dom : dom (pc_objs (w_user (ct_world t))) =
    match ct_app t with CJoining true => ∅ | _ => dom (w_objs (ct_world t)) end;
}.

Lemma packet_free_ok p t : packet_threads_ok p t → ct_app t = CFree → packet_client_ok p (ct_world t).
Proof.
  intros [Hc Hheld Hdom] Hfree. destruct (client_free_ok p t Hc Hfree) as [Hw Hth].
  rewrite Hfree in Hdom. by split.
Qed.

Lemma packet_threads_ready p t :
  packet_threads_ok p t → client_handlers_ready (ct_world t) → ready (ct_world t).
Proof.
  intros Hok Hr. split; [done|]. eapply map_Forall_impl; [apply (pto_held _ _ Hok)|]. by intros q x [_ Hx].
Qed.

(** Steps that leave the packet clients alone. *)
Lemma packet_threads_kept p t t' :
  packet_threads_ok p t → client_threads_ok p t' →
  holdings (w_user (ct_world t')) = holdings (w_user (ct_world t)) →
  ct_app t' = ct_app t → dom (w_objs (ct_world t')) = dom (w_objs (ct_world t)) → packet_threads_ok p t'.
Proof.
  intros [_ Hheld Hdom] Hok' Hh Happ Hd. split; [done|by rewrite Hh|].
  by rewrite <- dom_holdings, Hh, dom_holdings, Hdom, Happ, Hd.
Qed.
End system.

Section system_ok.
Context {A H P U B T payload_t : Type} `{SteamIPAddr A} `{SteamSockets A} `{!SteamLaws A}.
Context `{!PacketDeserializer payload_t, !PacketDeserializerLaws payload_t}.
Context `{!OwningBuffer B, !PacketSerializer B T payload_t, !PacketSerializerLaws B T payload_t}.
Context `{ClientPacketHandlers A H P U payload_t} `{CallbackContract U} `{!ClientPacketHandlersLaws Interleaved}.
Local Abbreviation W := (client_world A H P U).
Local Abbreviation CT := (cthreads A positive (client_heap H P U)).
Implicit Types (w : W) (t : CT) (p : positive) (op : packet_client_op H P U T).

(** Handlers fit for interleaving are fit for one operation at a time. *)
Lemma client_handlers_sequential : ClientPacketHandlersLaws (A:=A) (H:=H) (P:=P) (U:=U) Sequential.
Proof.
  assert (∀ {R} (m : M W R) p w, client_good Sequential p w →
    wp m (λ _, behaves Interleaved p w) w → wp m (λ _, behaves Sequential p w) w) as Hseq.
  { intros R m p w [Hw _] Hm. eapply wp_mono; [exact Hm|]. intros r v [Hv Hd].
    split; [by apply client_goes_on_sequential|done]. }
  assert (∀ p w, client_good Sequential p w → client_good Interleaved p w) as Hgood
    by (intros p w [Hw Hr]; split; [by apply client_world_weaken|done]).
  split; intros; apply Hseq; auto using run_client_handler_ok, run_pre_handler_ok.
Qed.
#[local] Existing Instance client_handlers_sequential.

(** An operation of the packet client in one piece leaves its thread alone. *)
Lemma exec_packet_client_op_undisturbed p op w :
  packet_client_ok p w → packet_client_op_allowed p op w → packet_in_one_piece p op w →
  client_threaded p w = true →
  wp (exec_packet_client_op (B:=B) p op) (λ _, undisturbed p (packet_exposed op) w) w.
Proof.
  intros Hok Hop Hone Ht. pose proof (pcl_world _ _ Hok) as Hw.
  assert (∀ {R} (m : M W R), wp m (λ _ w', w_objs w' = w_objs w) w →
    wp m (λ _, undisturbed p (packet_exposed op) w) w) as Hsame.
  { intros R m Hm. eapply wp_mono; [exact Hm|]. intros r w' Ho. by apply undisturbed_same. }
  assert (∀ cop, in_one_piece cop = true → client_op_allowed p cop w →
    (∀ pc, packet_exposed op pc = exposed pc cop) →
    wp (exec_client_op p cop) (λ _, undisturbed p (packet_exposed op) w) w) as Hclient.
  { intros cop Hone' Hop' Hexp. eapply wp_mono.
    - apply (exec_client_op_undisturbed p cop w); [by split; [|apply Hok]|done..].
    - intros [] w' (Hu1 & Hu2 & Hu3). split_and!; [done| |done]. intros pc Hpc. apply Hu2. by rewrite <- Hexp. }
  destruct op; simpl in Hop, Hone |- *; try done.
  - exfalso. unfold client_threaded in Ht. destruct Hop as [Hempty _]. by rewrite Hempty in Ht.
  - destruct Hop as [c Hc]. apply Hsame, wp_discard. eapply wp_of_Done;
      [by apply pc_weak_lock_Done; [|eapply packet_client_ok_lookup]|done].
  - destruct Hop as (c & Hc & _). apply Hsame. eapply wp_of_Done; [by apply pc_release_shared; [|apply Hone]|done].
  - apply (Hclient (ClConnect address port)); [done..|]. by intros [].
  - destruct Hop as [c Hc]. apply Hsame, wp_discard.
    eapply wp_mono; [by eapply bind_client_handler_ok|]. by intros b v [_ Hv].
  - destruct Hop as [c Hc]. apply Hsame. eapply wp_mono; [by eapply unbind_client_handler_ok|]. by intros b v [_ Hv].
  - destruct Hop as [c Hc]. apply Hsame. by eapply wp_of_Done; [by apply update_pc_Done|].
  - destruct Hop as [Hp Hty]. destruct (packet_client_ok_object p w Hok Hp) as [s Hs]. apply Hsame, wp_discard.
    eapply wp_mono; [by eapply packet_client_send_keeps|]. by intros r v (_ & Hv & _).
  - apply (Hclient (ClStatusChanged info)); [done..|]. by intros [].
  - by apply Hsame, wp_modify.
Qed.

(** ** A lost link *)

Lemma lost_release p t :
  client_world_ok p (ct_world t) → broken (links p (ct_world t)) →
  terminates (exec_packet_thread (B:=B) (T:=T) p PtLastRelease) t.
Proof.
  intros Hw Hb. eapply terminates_after; [done|]. apply lost_destroy; [|done]. by apply client_ok_with_user.
Qed.

Lemma lost_packet_connect p a pt t :
  client_world_ok p (ct_world t) → broken (links p (ct_world t)) →
  steam_answer (w_trace (ct_world t)) SteamNetworkingSockets = true →
  terminates (exec_packet_thread (B:=B) (T:=T) p (PtApp (PcConnect a pt))) t.
Proof. intros Hw Hb Hlib. by apply terminates_bind, terminates_on_cworld, terminates_bind, lost_connect. Qed.

(** ** Every step keeps the invariant *)

Definition packet_threads_go p t t' : Prop :=
  packet_threads_ok p t' ∧ rtc link_step (links p (ct_world t)) (links p (ct_world t')).

Lemma packet_network_ok p t :
  packet_threads_ok p t → packet_thread_allowed (T:=T) p PtNetwork t →
  wp (exec_client_thread p CNetwork) (λ _ t', packet_threads_go p t t' ∧
    user_frame (pc_user (w_user (ct_world t))) (pc_user (w_user (ct_world t'))) ∧
    dom (pc_objs (w_user (ct_world t'))) = dom (pc_objs (w_user (ct_world t)))) t.
Proof.
  intros Hok [Hrd Hpc]. pose proof (packet_threads_ready p t Hok Hrd) as Hready.
  eapply wp_mono; [by apply (client_network_ok p t); [apply Hok|split]|].
  intros [] t' (Hok' & Happ & Hl & [Hd _] & Hh & Hu).
  split; [|split; [done|by rewrite <- !dom_holdings, Hh]]. split; [|done].
  by eapply packet_threads_kept.
Qed.

(** An operation in one piece, of the packet client or of one built on it. *)
Lemma packet_atomic_ok p exp (m : M W unit) t :
  packet_threads_ok p t → ct_app t = CFree → (∀ pc, ct_net t = Some pc → exp pc = false) →
  wp m (λ _ w', packet_client_keeps p (ct_world t) w' ∧
    (client_threaded p (ct_world t) = true → undisturbed p exp (ct_world t) w')) (ct_world t) →
  wp (on_cworld m ;; modify (client_spawned p)) (λ _ t', packet_threads_go p t t' ∧ ct_app t' = CFree) t.
Proof.
  intros Hok Hfree Hexp Hwp.
  assert (wp (on_cworld m ;; modify (client_spawned p)) (λ _ t', packet_client_ok p (ct_world t')) t) as Hpc.
  { apply wp_bind. unfold wp, on_cworld in *. destruct (m (ct_world t)) as [[] w'|]; [|done].
    cbn. rewrite client_spawned_world. apply Hwp. }
  eapply wp_mono; [apply wp_and; [exact Hpc|apply (client_atomic_step_ok p exp); [apply Hok|done..|]]|].
  - eapply wp_mono; [exact Hwp|]. intros [] w' [[Hok' Hp] Hu]. split; [|done]. by split; apply Hok'.
  - intros [] t' (Hok' & Hthr & Happ' & Hl). split; [|done]. split; [|done].
    split; [done|apply Hok'|]. rewrite Happ'. symmetry. apply Hok'.
Qed.

Lemma packet_app_ok p op t :
  packet_threads_ok p t → packet_thread_allowed p (PtApp op) t →
  wp (exec_packet_thread (B:=B) p (PtApp op)) (λ _ t', packet_threads_go p t t' ∧ ct_app t' = CFree) t.
Proof.
  intros Hok (Hfree & Hop & Hone & Hexp). pose proof (packet_free_ok p t Hok Hfree) as Hfok.
  apply (packet_atomic_ok p (packet_exposed op)); [done..|].
  pose proof (exec_packet_client_op_ok p op (ct_world t) Hfok Hop) as Hwp.
  apply wp_Done in Hwp as ([] & w' & Hex & Hk). eapply wp_of_Done; [done|]. split; [done|]. intros Ht.
  pose proof (exec_packet_client_op_undisturbed p op _ Hfok Hop Hone Ht) as Hu. unfold wp in Hu. by rewrite Hex in Hu.
Qed.

Lemma packet_stop_ok p t :
  packet_threads_ok p t → packet_thread_allowed (T:=T) p PtStop t →
  wp (exec_client_thread p (CStop false)) (λ _ t', packet_threads_go p t t' ∧
    w_user (ct_world t') = w_user (ct_world t)) t.
Proof.
  intros Hok [Hfree Hp]. pose proof (packet_free_ok p t Hok Hfree) as Hfok.
  destruct (packet_client_ok_object p _ Hfok Hp) as [s Hs].
  eapply wp_mono; [apply (client_stop_ok_threads p false t); [apply Hok|]|].
  - split; [done|]. by exists s.
  - intros [] t' (Hok' & Hl & Hu & Hcase). split; [|done]. split; [|done].
    split; [done|rewrite Hu; apply Hok|].
    rewrite Hu, (pto_dom _ _ Hok), Hfree. by destruct Hcase as [[-> ->]|[-> ->]].
Qed.

(** The packet client is gone at once, the client when its thread has returned. *)
Lemma packet_last_release_ok p t :
  packet_threads_ok p t → packet_thread_allowed (T:=T) p PtLastRelease t →
  wp (exec_packet_thread (B:=B) (T:=T) p PtLastRelease) (λ _ t', packet_threads_go p t t' ∧
    pc_user (w_user (ct_world t')) = pc_user (w_user (ct_world t))) t.
Proof.
  intros Hok (Hfree & (s & Hs & Hz) & c & Hc & Hn). pose proof (packet_free_ok p t Hok Hfree) as Hfok.
  set (f := λ h : client_heap H P U, ClientHeap (delete p (pc_objs h)) (pc_user h)).
  assert (dom (w_objs (ct_world t)) = {[p]}) as Hdom.
  { apply set_eq. intros q. rewrite elem_of_singleton, elem_of_dom. split; [|intros ->; by exists s].
    intros [s' Hq]. by destruct (cw_client _ _ _ (pcl_world _ _ Hfok) q s' Hq). }
  assert (pc_objs (f (w_user (ct_world t))) = ∅) as Hgone.
  { apply dom_empty_inv_L. simpl. rewrite dom_delete_L, <- (pcl_dom _ _ Hfok), Hdom. by apply difference_diag_L. }
  cbn [exec_packet_thread]. apply wp_bind. unfold wp at 1, on_cworld, modify.
  set (t1 := CThreads (with_user f (ct_world t)) (ct_net t) (ct_app t)).
  change (wp (exec_client_thread p (CStop true)) (λ _ t', packet_threads_go p t t' ∧
    pc_user (w_user (ct_world t')) = pc_user (w_user (ct_world t))) t1).
  eapply wp_mono; [apply (client_stop_ok_threads p true t1); [by apply client_user_ok, Hok|split; [done|by exists s]]|].
  intros [] t' (Hok' & Hl & Hu & Hcase). split; [|by rewrite Hu]. split; [|done].
  assert (w_user (ct_world t1) = f (w_user (ct_world t))) as Hu1 by done.
  split; [done| |].
  - rewrite Hu, Hu1. unfold holdings. rewrite Hgone, fmap_empty. apply map_Forall_empty.
  - rewrite Hu, Hu1, Hgone, dom_empty_L. by destruct Hcase as [[-> _]|[-> ->]].
Qed.

Lemma packet_joined_ok p t :
  packet_threads_ok p t → packet_thread_allowed (T:=T) p PtJoined t →
  wp (exec_client_thread p CJoined) (λ _ t', packet_threads_go p t t' ∧ ct_app t' = CFree ∧
    w_user (ct_world t') = w_user (ct_world t)) t.
Proof.
  intros Hok [[d Happ] Hret].
  eapply wp_mono; [apply (client_joined_ok p d); [apply Hok|done..]|].
  intros [] t' (Hok' & Happ' & _ & Hl & Hu & s & Hs & _ & _ & Hobjs). split_and!; [|done..]. split; [|done].
  split; [done|rewrite Hu; apply Hok|]. rewrite Hu, (pto_dom _ _ Hok), Happ, Happ', Hobjs.
  destruct d; [by rewrite dom_empty_L|]. rewrite dom_singleton_L.
  apply set_eq. intros q. rewrite elem_of_singleton, elem_of_dom. split; [|intros ->; by exists s].
  intros [s' Hq]. by destruct (cw_client _ _ _ (cto_inv _ _ (pto_client _ _ Hok)) q s' Hq).
Qed.

Lemma packet_thread_op_ok p top t :
  packet_threads_ok p t → packet_thread_allowed p top t →
  wp (exec_packet_thread (B:=B) (T:=T) p top) (λ _, packet_threads_go p t) t.
Proof.
  intros Hok Hop. destruct top.
  - eapply wp_mono; [by apply packet_network_ok|]. by intros [] t' [? _].
  - eapply wp_mono; [by apply packet_app_ok|]. by intros [] t' [? _].
  - eapply wp_mono; [by apply packet_stop_ok|]. by intros [] t' [? _].
  - eapply wp_mono; [by apply packet_last_release_ok|]. by intros [] t' [? _].
  - eapply wp_mono; [by apply packet_joined_ok|]. by intros [] t' [? _].
Qed.

Lemma packet_thread_initial_ok p (u : U) : packet_threads_ok p (packet_thread_initial u : CT).
Proof.
  pose proof (packet_client_initial_ok p u : packet_client_ok p (packet_client_initial u : W)) as [Hw Hth Hdom Hheld].
  split; [|done|done]. by apply client_threads_initial_ok; [split| |apply ledger_nil].
Qed.

Lemma packet_threads_reachable_ok p (u : U) t :
  rtc (packet_thread_step (B:=B) (T:=T) p) (packet_thread_initial u) t → packet_threads_ok p t.
Proof.
  intros Hr. pose proof (packet_thread_initial_ok p u) as Hok. revert Hok.
  induction Hr as [|t1 t2 t3 (op & Hop & Hex) _ IH]; [done|]. intros Hok. apply IH.
  pose proof (packet_thread_op_ok p op t1 Hok Hop) as Hwp. unfold wp in Hwp. rewrite Hex in Hwp. apply Hwp.
Qed.

(** C7: the one packet client of a process, its network thread, whose handlers
    run between two of its steps, and an application that creates, shares,
    connects, binds, unbinds, sends, stops, and lets go of the last owner,
    interleaved in every way but one: no other thread has a status change handled
    just between the thread's test of the connection and its receiving on it.  As
    long as handlers keep their contract, packet types have 32 bits, the library is
    initialised before the client connects, and a client whose link is lost is
    neither connected again nor let go of, no step faults, whatever bytes the
    server sends: the client below stays well-formed and follows its link; a
    packet client is there with its client, with an owner and a free mutex, but
    for the time the destructor waits for the thread, when it is already gone; and
    every message received has been released once, or is held by the thread.  Once
    the server has ended the connection, or it was never made, letting go of the
    client or connecting it again terminates the process. *)
Theorem packet_threads_safe p (u : U) t :
  rtc (packet_thread_step (B:=B) (T:=T) p) (packet_thread_initial u) t →
  (∀ top, packet_thread_allowed p top t →
     ∃ t', exec_packet_thread (B:=B) p top t = Done tt t' ∧
       client_world_inv Interleaved p (ct_world t') ∧
       (ct_app t' = CFree → client_world_ok p (ct_world t')) ∧
       rtc link_step (links p (ct_world t)) (links p (ct_world t')) ∧
       (∀ q c, pc_objs (w_user (ct_world t')) !! q = Some c → pc_use_count c ≠ 0%nat ∧ m_handler_mutex c = false) ∧
       dom (pc_objs (w_user (ct_world t'))) =
         (match ct_app t' with CJoining true => ∅ | _ => dom (w_objs (ct_world t')) end) ∧
       received (w_trace (ct_world t')) ≡ₚ released (w_trace (ct_world t')) ++ client_owed (ct_net t')) ∧
  (ct_app t = CFree → broken (links p (ct_world t)) →
     terminates (exec_packet_thread (B:=B) (T:=T) p PtLastRelease) t ∧
     (∀ a pt, steam_answer (w_trace (ct_world t)) SteamNetworkingSockets = true →
        terminates (exec_packet_thread (B:=B) (T:=T) p (PtApp (PcConnect a pt))) t)).
Proof.
  intros Hr. pose proof (packet_threads_reachable_ok p u t Hr) as Hok. split.
  - intros top Hop. pose proof (packet_thread_op_ok p top t Hok Hop) as Hwp.
    apply wp_Done in Hwp as ([] & t' & Hex & Hok' & Hl).
    exists t'. split_and!; [done|apply Hok'| |done| |apply Hok'|apply Hok'].
    + intros Hfree. apply client_free_ok; [apply Hok'|done].
    + intros q c Hc. pose proof (lookup_holdings (w_user (ct_world t')) q) as Hh. rewrite Hc in Hh.
      exact (pto_held _ _ Hok' q _ Hh).
  - intros Hfree Hb. pose proof (pcl_world _ _ (packet_free_ok p t Hok Hfree)) as Hw.
    split; [by apply lost_release|]. intros a pt Hlib. by apply lost_packet_connect.
Qed.
End system_ok.

(** ** A simulated run *)

#[local] Existing Instance reply_client_handlers.
#[local] Existing Instance reply_client_contract.
#[local] Existing Instance reply_client_handlers_laws.

Section simulation.
Context (ss : SteamSockets sim_addr).
Local Abbreviation CT := (cthreads sim_addr positive (client_heap packet_type_t bool unit)).
Local Abbreviation top := (packet_thread_op packet_type_t bool unit byte).
Implicit Types t : CT.

Definition sim_packet_threads (ops : list top) : CT :=
  foldl (λ t op, match exec_packet_thread (B:=list byte) (payload_t:=list byte) 1 op t with
                 | Done _ t' => t' | Fault _ t' => t' end)
    (packet_thread_initial tt) ops.

(** The boolean form of [packet_thread_allowed], for the operations used below. *)
Definition packet_thread_allowed_b (op : top) t : bool :=
  let w := ct_world t in
  let usable := match w_objs w !! 1%positive with
                | Some s => m_running s || negb (m_client_thread s) | None => false end in
  match op, ct_app t with
  | PtNetwork, _ =>
      bool_decide (1%positive ∈ dom (w_objs w)) &&
      match ct_net t with Some CReturned | None => false | Some _ => true end
  | PtApp PcCreate, CFree => bool_decide (w_objs w = ∅) && bool_decide (dom (pc_objs (w_user w)) = ∅)
  | PtApp (PcBind _ _), CFree => bool_decide (1%positive ∈ dom (pc_objs (w_user w)))
  | PtApp (PcConnect _ _), CFree => usable && steam_answer (w_trace w) SteamNetworkingSockets
  | PtLastRelease, CFree =>
      usable && match pc_objs (w_user w) !! 1%positive with Some c => pc_use_count c =? 1 | None => false end%nat
  | _, _ => false
  end.

Lemma packet_thread_allowed_b_sound op t :
  packet_thread_allowed_b op t = true → packet_thread_allowed 1 op t.
Proof.
  assert (∀ w : client_world sim_addr packet_type_t bool unit,
    (match w_objs w !! 1%positive with Some s => m_running s || negb (m_client_thread s) | None => false end) = true →
    usable 1 w) as Husable.
  { intros w. unfold usable, zombie. destruct (w_objs w !! 1%positive) as [s|]; [|done].
    intros Hb. exists s. split; [done|]. intros [Hr Ht]. by rewrite Hr, Ht in Hb. }
  unfold packet_thread_allowed_b. destruct op as [|op| | |]; simpl.
  - rewrite andb_true_iff, bool_decide_eq_true. intros [Hp Hpc]. split; [exact Hp|].
    destruct (ct_net t) as [[]|]; try done; by eexists.
  - destruct op, (ct_app t); try done.
    + rewrite andb_true_iff, !bool_decide_eq_true. intros [Ho Hp]. split_and!; [done| |done|by intros []].
      by split; [|apply dom_empty_inv_L].
    + rewrite andb_true_iff. intros [Hu Hl]. split_and!; [done|by split; [apply Husable|]|done|by intros []].
    + rewrite bool_decide_eq_true, elem_of_dom. intros Hp. split_and!; [done|done|done|by intros []].
  - by destruct (ct_app t).
  - destruct (ct_app t); [|done]. rewrite andb_true_iff. intros [Hu Hc]. split_and!; [done|by apply Husable|].
    destruct (pc_objs _ !! _) as [c|]; [|done]. exists c. split; [done|]. by apply Nat.eqb_eq.
  - by destruct (ct_app t).
Qed.

Fixpoint packet_threads_run_ok t (ops : list top) : bool :=
  match ops with
  | [] => true
  | op :: ops =>
      packet_thread_allowed_b op t &&
      match exec_packet_thread (B:=list byte) (payload_t:=list byte) 1 op t with
      | Done _ t' => packet_threads_run_ok t' ops | Fault _ _ => false end
  end.

Lemma sim_packet_threads_reachable ops :
  packet_threads_run_ok (packet_thread_initial tt) ops = true →
  rtc (packet_thread_step (B:=list byte) (T:=byte) (payload_t:=list byte) 1) (packet_thread_initial tt)
    (sim_packet_threads ops).
Proof.
  unfold sim_packet_threads. generalize (packet_thread_initial tt : CT).
  induction ops as [|op ops IH]; intros t Hok; [apply rtc_refl|]. simpl in Hok |- *.
  apply andb_true_iff in Hok as [Hop Hok]. apply packet_thread_allowed_b_sound in Hop.
  destruct (exec_packet_thread 1 op t) as [[] t'|] eqn:Hex; [|done].
  eapply rtc_l; [by exists op|]. by apply IH.
Qed.
End simulation.

(** Two packets of type 128 have arrived; the first has been answered when the
    last owner lets go of the client. *)
Definition sim_packet_inbox : list (kb_connection_t * list byte) :=
  let packet := (2, header_bytes (header_create serde_msgpack 128) ++ [x91; x2b]) in [packet; packet].
Definition sim_packet_released : list (packet_thread_op packet_type_t bool unit byte) :=
  [PtApp PcCreate; PtApp (PcBind 128 7); PtApp (PcConnect "10.0.0.1" 80);
   PtNetwork; PtNetwork; PtNetwork; PtNetwork; PtNetwork; PtLastRelease].

Lemma packet_threads_safe_witness :
  let ss := sim_steam sim_packet_inbox [] in
  let t := sim_packet_threads ss sim_packet_released in
  let answers t := List.filter (λ c, match c with SendMessageToConnection _ _ _ => true | _ => false end)
                     (w_trace (A:=sim_addr) (ct_world t)) in
  ct_app t = CJoining true ∧ length (client_owed (ct_net t)) = 2%nat ∧ length (answers t) = 1%nat ∧
  ∃ t', exec_packet_thread (B:=list byte) (payload_t:=list byte) 1 PtNetwork t = Done tt t' ∧
    client_world_inv Interleaved 1 (ct_world t') ∧ length (answers t') = 1%nat.
Proof.
  intros ss t answers.
  assert (SteamLaws sim_addr) as Hlaws by (apply sim_laws; by repeat constructor).
  split; [by vm_compute|]. split; [by vm_compute|]. split; [by vm_compute|].
  destruct (packet_threads_safe (B:=list byte) (T:=byte) (payload_t:=list byte) 1 tt t) as [Hops _];
    [apply sim_packet_threads_reachable; by vm_compute|].
  destruct (Hops PtNetwork) as (t' & Hex & Hinv & _).
  - apply (packet_thread_allowed_b_sound ss). by vm_compute.
  - exists t'. split; [exact Hex|]. split; [exact Hinv|].
    assert (match exec_packet_thread (B:=list byte) (payload_t:=list byte) 1 PtNetwork t with
            | Done _ v => length (answers v) | Fault _ _ => 0%nat end = 1%nat) as Hlen by by vm_compute.
    by rewrite Hex in Hlen.
Defined.
