(* ===== verification/EndToEnd.v ===== *)
(** * From a client's [send_packet] to a server's handler

    The bytes a packet client hands the library, given unchanged to the packet
    server, run the right handler with the object sent; and what the binary
    serializer's header makes of it. *)

From S2P Require Import Prelude Bytes NetworkTypes Packet Serde Runtime.
From S2P Require Import Simulated Dispatch.
From S2P Require Import UdpServer UdpServerSpec PacketServer PacketServerProps.
From S2P Require Import UdpClient UdpClientSpec PacketClient PacketClientProps.
Import Strings.Byte.
Local Open Scope Z_scope.

(** ** Any serializer *)

Section transfer.
Context {A HS HC P US UC B T payload_t : Type} `{SteamIPAddr A} `{SteamSockets A}.
Context `{PacketSerializerLaws B T payload_t} `{!PacketDeserializerLaws payload_t}.
Context `{PacketHandlers A HS US payload_t}.
Local Abbreviation CW := (client_world A HC P UC).
Local Abbreviation SW := (packet_world A HS US).

(** The bytes sent for [x] under type [t] match the handlers bound to the type
    on the wire. *)
Lemma sent_bytes_match (t : packet_type_t) (bytes body : list byte) (payload : payload_t)
    (handlers : gmap packet_type_t HS) :
  fits 32 t → bytes = header_bytes (header_create SerdeT (wire_packet_type t)) ++ body →
  deserialize_packet body (length body) tt = Done (Some payload) tt →
  ∀ handler, handlers !! wire_packet_type t = Some handler →
    dispatch handlers bytes = Some (handler, payload).
Proof.
  intros Ht -> Hdes handler Hh. apply dispatch_matches. exists (wire_packet_type t). split_and!.
  - by apply wire_packet_type_fits.
  - apply SerdeT_fits.
  - done.
  - exists body. split; [done|]. rewrite deserialize_law in Hdes. by injection Hdes.
Qed.

(** C9: an object sent by a connected packet client under a type [t] of 32 bits is
    serialized, whatever the object; when its bytes count in 32 bits the client hands
    exactly these to the library, once, on its connection, and answers whether the
    library took them; they are a header with the serialization type and the type on
    the wire, and a body; and a packet server with the same serializer, given these
    bytes from any client, runs the handler bound to the type on the wire, with the
    sender's connection and the payload in the body, which converts back to the
    object. *)
Theorem sent_packet_is_handled p t (x : T) reliable (w : CW) (c : UdpClient positive) :
  w_objs w !! p = Some c → fits 32 t →
  m_client_interface c = true → m_client_conn c ≠ 0 →
  ∃ pkt body payload,
    serialize_packet (payload_t:=payload_t) k_invalid_connection t x w = Done pkt w ∧
    let bytes := ob_data (B:=B) (m_buffer pkt) in
    let sending := SendMessageToConnection (m_client_conn c) bytes (flags_of reliable) in
    bytes = header_bytes (header_create SerdeT (wire_packet_type t)) ++ body ∧
    (length bytes < 2 ^ 32 →
       PacketClient.send_packet (B:=B) p t x reliable w
       = Done (bool_decide (steam_answer (w_trace w) sending = k_EResultOK)) (with_calls [sending] w) ∧
       (∀ W (v : W), deserialize_packet body (length body) v = Done (Some payload) v) ∧
       (∀ W (v : W), payload_as (B:=B) payload v = Done (Some x) v) ∧
       (∀ q ci (v : SW) ps handler,
          ps_objs (w_user v) !! q = Some ps →
          m_packet_handlers ps !! wire_packet_type t = Some handler →
          handle_packet q ci bytes (length bytes) v
          = (run_handler handler (m_conn ci) payload ;; mret true) v)).
Proof.
  intros Hc Ht Hi Hconn.
  destruct (serialize_packet_law CW k_invalid_connection t x w Ht)
    as (pkt & body & payload & Hser & _ & _ & Hdata & Hsize & Hdes & Has).
  exists pkt, body, payload. split; [done|]. intros bytes sending. split; [exact Hdata|]. intros Hlen.
  split; [|split; [exact Hdes|split; [exact Has|]]].
  - rewrite (send_packet_Done p t x reliable w c pkt Hc Hser Hsize Hlen).
    by rewrite Hi, bool_decide_eq_false_2 by done.
  - intros q ci v ps handler Hps Hh.
    rewrite (handle_packet_Done q ci bytes v ps Hps) by (unfold bytes in *; lia).
    by rewrite (sent_bytes_match t bytes body payload (m_packet_handlers ps) Ht Hdata (Hdes unit tt) handler Hh).
Qed.
End transfer.

(** ** The binary serializer *)

Section binary.
Context {A HS US B T : Type} `{SteamIPAddr A} `{SteamSockets A}.
Context `{OwningBufferLaws B, AllocatorLaws, TriviallyCopyableLaws T}.
Context `{PacketHandlers A HS US span}.
Local Abbreviation SW := (packet_world A HS US).

(** A binary packet server never runs a handler bound to the type its
    client asked for: whatever type a binary packet is sent under, the handler
    that runs is the one bound to type 0, and without one the packet is
    dropped. *)
Theorem binary_packets_lose_their_type conn t (x : T) (v : SW) q ci ps :
  fits 32 t → ps_objs (w_user v) !! q = Some ps →
  ∃ pkt : internal_packet_t B,
    serialize_packet (payload_t:=span) conn t x v = Done pkt v ∧ m_packet_type (m_header pkt) = t ∧
    let bytes := ob_data (m_buffer pkt) in
    length bytes < 2 ^ 64 →
    match m_packet_handlers ps !! (0 : packet_type_t) with
    | None => handle_packet q ci bytes (length bytes) v = Done false v
    | Some handler => ∃ payload,
        handle_packet q ci bytes (length bytes) v
        = (run_handler handler (m_conn ci) payload ;; mret true) v
    end.
Proof.
  intros Ht Hps.
  destruct (serialize_packet_law (payload_t:=span) SW conn t x v Ht)
    as (pkt & body & payload & Hser & _ & Hh & Hdata & Hsize & Hdes & Has).
  exists pkt. split; [done|]. split; [by rewrite Hh|]. intros bytes Hlen.
  rewrite (handle_packet_Done q ci bytes v ps Hps Hlen).
  destruct (m_packet_handlers ps !! (0 : packet_type_t)) as [handler|] eqn:H0'.
  - exists payload.
    by rewrite (sent_bytes_match t bytes body payload (m_packet_handlers ps) Ht Hdata (Hdes unit tt) handler H0').
  - unfold dispatch, bytes. rewrite Hdata, parse_header_bytes by by vm_compute.
    cbn [header_create m_serde_type m_packet_type]. rewrite decide_True by done.
    change (wire_packet_type t) with (0 : packet_type_t). by rewrite H0'.
Qed.
End binary.

(** ** Simulated transfers *)

#[local] Existing Instance log_handlers.

(** A client on connection 2 sends an object of type 128; a server that knows the
    sender as its connection 5 runs handler 3. *)
Lemma sent_packet_is_handled_witness :
  let ss := sim_client_steam in
  let bytes := header_bytes (header_create serde_msgpack 128) ++ [x91; x2a] in
  PacketClient.send_packet (B:=list byte) (payload_t:=list byte) 1 128 x2a true sim_packet_client_world
  = Done true (with_calls [SendMessageToConnection 2 bytes SendReliable] sim_packet_client_world) ∧
  handle_packet 1 (new_client 5 (5 : sim_addr)) bytes (length bytes) (sim_packet_world [])
  = (run_handler 3%nat 5 [x2a] ;; mret true) (sim_packet_world []).
Proof.
  intros ss bytes.
  destruct (sent_packet_is_handled (B:=list byte) (payload_t:=list byte) (US:=list (nat * kb_connection_t * list byte))
    1 128 x2a true sim_packet_client_world sim_packet_client)
    as (pkt & body & payload & Hser & Hdata & Hrun); [by vm_compute..|].
  assert (ob_data (m_buffer pkt) = bytes) as Hbytes
    by (revert Hser; vm_compute; by intros [= <-]).
  rewrite Hbytes in Hdata, Hrun. destruct Hrun as (Hsend & Hdes & _ & Hhandle); [by vm_compute|].
  assert (body = [x91; x2a]) as -> by (by apply app_inv_head in Hdata).
  assert (payload = [x2a]) as ->.
  { specialize (Hdes unit tt). revert Hdes. vm_compute. by intros [= <-]. }
  split; [exact Hsend|]. by apply (Hhandle 1%positive (new_client 5 (5 : sim_addr)) (sim_packet_world []) (sim_packet_part []) 3%nat).
Defined.

Lemma binary_packets_lose_their_type_witness :
  let v : packet_world sim_addr nat (list (nat * kb_connection_t * span)) :=
    World ∅ None None [] (PacketHeap {[1%positive := MkPacketServer {[128 := 3%nat]} 1]} []) in
  ∃ pkt : internal_packet_t (list byte),
    serialize_packet (payload_t:=span) 5 128 (x01, x02) v = Done pkt v ∧
    handle_packet 1 (new_client 5 (5 : sim_addr)) (ob_data (m_buffer pkt))
      (length (ob_data (m_buffer pkt))) v = Done false v.
Proof.
  intros v.
  destruct (binary_packets_lose_their_type (B:=list byte) 5 128 (x01, x02) v 1
    (new_client 5 (5 : sim_addr)) (MkPacketServer {[128 := 3%nat]} 1))
    as (pkt & Hser & _ & Hrun); [by vm_compute..|].
  exists pkt. split; [exact Hser|]. apply Hrun.
  assert (serialize_packet (B:=list byte) (payload_t:=span) 5 128 (x01, x02) v
    = Done (Packet (header_create serde_bin 128)
        (header_bytes (header_create serde_bin 0) ++ [x01; x02]) 5) v) as Hser' by by vm_compute.
  rewrite Hser' in Hser. injection Hser as <-. by vm_compute.
Defined.
