(* ===== verification/Channel.v ===== *)
(** * A first-in first-out channel

    What a stream of packets from one sender to one receiver promises: what has
    arrived is, in order and once each, the first of what was sent. *)

From S2P Require Import Prelude.

Section channel.
Context {X : Type}.
Implicit Types (x : X) (q d sent : list X).

Record channel := Channel { in_flight : list X; arrived : list X }.
Implicit Types c : channel.

Inductive channel_step : relation channel :=
| ChSend x q d : channel_step (Channel q d) (Channel (q ++ [x]) d)
| ChArrive x q d : channel_step (Channel (x :: q) d) (Channel q (d ++ [x])).

(** What was sent, in order. *)
Definition everything c : list X := arrived c ++ in_flight c.

(** Nothing is lost, repeated or overtaken. *)
Lemma channel_steps_keep c c' :
  rtc channel_step c c' →
  everything c `prefix_of` everything c' ∧ arrived c `prefix_of` arrived c'.
Proof.
  induction 1 as [c|c1 c2 c3 Hstep _ [IHe IHa]]; [done|].
  split; (etrans; [|eassumption]); destruct Hstep; unfold everything; simpl.
  - rewrite app_assoc. by apply prefix_app_r.
  - by rewrite <- app_assoc.
  - done.
  - by apply prefix_app_r.
Qed.

(** The channel in which [sent] was sent and the first [n] have arrived. *)
Definition channel_of sent (n : nat) : channel := Channel (drop n sent) (take n sent).

Lemma channel_of_send sent n x :
  (n ≤ length sent)%nat → channel_step (channel_of sent n) (channel_of (sent ++ [x]) n).
Proof.
  intros Hn. unfold channel_of. rewrite drop_app_le, take_app_le by done. constructor.
Qed.

Lemma channel_of_arrive sent n :
  (n < length sent)%nat → channel_step (channel_of sent n) (channel_of sent (S n)).
Proof.
  intros [x Hx]%lookup_lt_is_Some. unfold channel_of.
  rewrite (drop_S sent x n), (take_S_r sent n x) by done. constructor.
Qed.

Lemma channel_of_arrivals sent n m :
  (n ≤ m ≤ length sent)%nat → rtc channel_step (channel_of sent n) (channel_of sent m).
Proof.
  intros [Hnm Hm]. induction Hnm as [|m Hnm IH]; [done|].
  eapply rtc_r; [apply IH; lia|]. apply channel_of_arrive. lia.
Qed.
End channel.
Arguments Channel {X}.
Arguments in_flight {X}.
Arguments arrived {X}.
Arguments channel_step {X}.
Arguments channel : clear implicits.
