(* ===== verification/StreamServer.v ===== *)
(** * A packet server that is being streamed to

    One running packet server with its network thread, one of its connections,
    and handlers that record what they are given: what no step changes, and how
    each step moves the connection's datagrams from the library to the handlers. *)

From S2P Require Import Prelude Bytes NetworkTypes Packet Serde Runtime Ledger.
From S2P Require Import UdpServer Sessions UdpServerSpec UdpServerSafety UdpServerSystem.
From S2P Require Import Threads ThreadsProps ThreadsSystem.
From S2P Require Import Dispatch PacketServer PacketServerProps PacketServerSystem PacketServerThreads.
Import Strings.Byte.
Local Open Scope Z_scope.

Section datagrams.
Context {payload_t : Type}.

(** The datagrams of a connection, and the records of it. *)
Definition datagrams_of (conn : kb_connection_t) (msgs : list steam_message) : list (list byte) :=
  omap (λ m, if decide (msg_conn m = conn) then Some (m_pData m) else None) msgs.

Definition records_of (conn : kb_connection_t) (log : list (nat * kb_connection_t * payload_t))
    : list (nat * payload_t) :=
  omap (λ e, if decide (e.1.2 = conn) then Some (e.1.1, e.2) else None) log.

Lemma datagrams_of_app conn msgs msgs' :
  datagrams_of conn (msgs ++ msgs') = datagrams_of conn msgs ++ datagrams_of conn msgs'.
Proof. apply omap_app. Qed.

Lemma records_of_app conn log log' :
  records_of conn (log ++ log') = records_of conn log ++ records_of conn log'.
Proof. apply omap_app. Qed.
End datagrams.

(** ** Operations that leave the stream alone *)

Section calm.
Context {A payload_t : Type} `{SteamIPAddr A} `{SteamSockets A}.
Context (p : positive) (conn : kb_connection_t) (handlers : gmap packet_type_t nat).
Local Abbreviation log := (list (nat * kb_connection_t * payload_t)).
Local Abbreviation W := (packet_world A nat log).
Implicit Types (w : W) (s : UdpServer positive).

(** The server at [p] runs, knows the connection, and has these handlers. *)
Definition serves w : Prop :=
  (∃ s, w_objs w !! p = Some s ∧ m_is_running s = true ∧ m_data_received_callback s = Some p ∧
     is_Some (m_clients s !! conn)) ∧
  (∃ ps, ps_objs (w_user w) !! p = Some ps ∧ use_count ps ≠ 0%nat ∧ m_packet_handlers ps = handlers).

(** It goes on serving; no handler has run, and nothing was received. *)
Definition calmly w w' : Prop :=
  (serves w → serves w') ∧ ps_user (w_user w') = ps_user (w_user w) ∧
  Ledger.received (w_trace w') = Ledger.received (w_trace w).

#[global] Instance calmly_preorder : PreOrder calmly.
Proof. split; [done|]. intros w1 w2 w3 (Hs & Hu & Hr) (Hs' & Hu' & Hr'). split_and!; [auto|congruence..]. Qed.

Definition calm {R} (m : M W R) : Prop := ∀ w r w', m w = Done r w' → calmly w w'.

Lemma calm_pure {R} (m : M W R) : (∀ w r w', m w = Done r w' → w' = w) → calm m.
Proof. intros Hm w r w' Hex. by rewrite (Hm w r w' Hex). Qed.

Lemma calm_ret {R} (r : R) : calm (mret r).
Proof. apply calm_pure. by intros w r' w' [= _ <-]. Qed.
Lemma calm_fail {R} e : calm (fail (A:=R) e).
Proof. by intros w r w' [=]. Qed.
Lemma calm_gets {R} (f : W → R) : calm (gets f).
Proof. apply calm_pure. by intros w r' w' [= _ <-]. Qed.
Lemma calm_or_fault {R} e (o : option R) : calm (or_fault e o).
Proof. destruct o; [apply calm_ret|apply calm_fail]. Qed.

Lemma calm_bind {R S} (m : M W R) (k : R → M W S) : calm m → (∀ r, calm (k r)) → calm (m ≫= k).
Proof.
  intros Hm Hk w r w'. unfold mbind, M_bind. destruct (m w) as [x v|] eqn:Hx; [|done].
  intros Hr. etrans; [by eapply Hm|by eapply Hk].
Qed.

Lemma calm_deref q : calm (deref q).
Proof. apply calm_pure. intros w r w'. unfold deref. by destruct (w_objs w !! q); intros [= _ <-]. Qed.

Lemma calm_call c : idle c → calm (call c).
Proof.
  intros Hc w r w' [= _ <-]. split_and!; [done..|]. simpl. rewrite received_app.
  simpl. rewrite app_nil_r. destruct c; simpl in *; by rewrite ?app_nil_r.
Qed.

(** Changes of a server that goes on, and knows the connection. *)
Lemma calm_update q f :
  (∀ s, m_is_running (f s) = m_is_running s ∧ m_data_received_callback (f s) = m_data_received_callback s ∧
     (is_Some (m_clients s !! conn) → is_Some (m_clients (f s) !! conn))) → calm (update q f).
Proof.
  intros Hf w r w'. unfold update, mbind, M_bind, deref.
  destruct (w_objs w !! q) as [s|] eqn:Hq; [|done]. intros [= _ <-].
  destruct (Hf s) as (Hr & Hcb & Hcl). split; [|done]. intros [(t & Ht & Htr & Htcb & Htcl) Hps].
  split; [|done]. destruct (decide (q = p)) as [->|Hne].
  - exists (f s). rewrite lookup_with_obj. assert (t = s) as -> by congruence.
    split_and!; [done|congruence|congruence|auto].
  - exists t. by rewrite lookup_with_obj_ne.
Qed.

Lemma calm_for_each {X} (l : list X) (body : X → M W unit) : (∀ x, calm (body x)) → calm (for_each l body).
Proof. intros Hb. induction l; [apply calm_ret|]. by apply calm_bind. Qed.

Lemma calm_fold_each {X B} (l : list X) (acc : B) (body : B → X → M W B) :
  (∀ b x, calm (body b x)) → calm (fold_each l acc body).
Proof. intros Hb. revert acc. induction l; intros acc; [apply calm_ret|]. by apply calm_bind. Qed.

Lemma calm_modify_thread th : calm (modify (with_thread th)).
Proof. by intros w r w' [= _ <-]. Qed.
End calm.

Create HintDb calm.
#[export] Hint Resolve calm_ret calm_fail calm_gets calm_or_fault calm_deref calm_modify_thread : calm.
#[export] Hint Extern 1 (calm _ _ _ skip) => apply calm_ret : calm.
#[export] Hint Extern 1 (calm _ _ _ (call ?c)) => by apply (calm_call _ _ _ c) : calm.
#[export] Hint Extern 1 (calm _ _ _ (update _ _)) => by apply calm_update; intros [] : calm.

(** Goes through an operation's definition. *)
Ltac calm :=
  repeat first
    [ solve [eauto with calm]
    | apply calm_bind; [|intros ?]
    | progress intros
    | match goal with
      | |- calm _ _ _ (match ?x with _ => _ end) => destruct x
      | |- calm _ _ _ (if ?x then _ else _) => destruct x
      end
    | apply calm_for_each
    | apply calm_fold_each ].

(** ** The operations *)

Section operations.
Context {A payload_t : Type} `{SteamIPAddr A} `{SteamSockets A} `{PacketDeserializer payload_t}.
Context (p : positive) (conn : kb_connection_t) (handlers : gmap packet_type_t nat).
Local Abbreviation log := (list (nat * kb_connection_t * payload_t)).
Local Abbreviation W := (packet_world A nat log).
#[local] Existing Instance log_handlers.

Lemma iface_calm q c : idle c → calm p conn handlers (A:=A) (payload_t:=payload_t) (iface q c).
Proof. intros Hc. unfold iface. pose proof (calm_call (payload_t:=payload_t) p conn handlers c Hc). calm. Qed.
#[local] Hint Extern 1 (calm _ _ _ (iface _ _)) => by apply iface_calm : calm.

Lemma scoped_lock_calm {R} q (m : M W R) : calm p conn handlers m → calm p conn handlers (scoped_lock q m).
Proof. intros Hm. unfold scoped_lock. calm. Qed.

Lemma get_client_info_calm q c : calm p conn handlers (A:=A) (payload_t:=payload_t) (get_client_info q c).
Proof. apply scoped_lock_calm. calm. Qed.
#[local] Hint Resolve get_client_info_calm : calm.

(** A client entered in a table stays there. *)
Lemma calm_new_client q c client :
  calm p conn handlers (A:=A) (payload_t:=payload_t) (update q (set_clients <[c := client]>)).
Proof.
  apply calm_update. intros []. split_and!; [done..|]. simpl.
  rewrite lookup_insert_is_Some'. by right.
Qed.
#[local] Hint Resolve calm_new_client : calm.

Lemma copy_steam_calm addr (a : A) :
  calm p conn handlers (A:=A) (payload_t:=payload_t) (ip_address_assign addr a).
Proof.
  assert (∀ src mem off, calm p conn handlers (memcpy_to (W:=W) mem off src)) as Hcpy.
  { induction src as [|b src IH]; intros mem off; cbn [memcpy_to]; unfold write_byte; calm. }
  unfold ip_address_assign, copy_steam_to_ip_address, read_bytes. calm.
Qed.
#[local] Hint Resolve copy_steam_calm : calm.
#[local] Hint Extern 1 (calm _ _ _ (run_on_connected _ _)) => apply calm_ret : calm.
#[local] Hint Extern 1 (calm _ _ _ (run_on_disconnected _ _)) => apply calm_ret : calm.

Lemma status_callback_calm info :
  calm p conn handlers (A:=A) (payload_t:=payload_t) (connection_status_changed_callback info).
Proof. unfold connection_status_changed_callback, on_connection_status_changed. calm. Qed.
#[local] Hint Resolve status_callback_calm : calm.

Lemma send_calm q c data size reliable :
  calm p conn handlers (A:=A) (payload_t:=payload_t) (UdpServer.send q c data size reliable).
Proof. unfold UdpServer.send, read_bytes. calm. Qed.

Lemma broadcast_calm q data size reliable :
  calm p conn handlers (A:=A) (payload_t:=payload_t) (UdpServer.broadcast q data size reliable).
Proof. apply scoped_lock_calm. pose proof send_calm. calm. Qed.

(** The steps of a network thread that neither receive nor handle a message. *)
Lemma net_step_calm q pc :
  match pc with
  | AtTop => False
  | Dispatching i count _ => ¬ i < count
  | _ => True
  end → calm p conn handlers (A:=A) (payload_t:=payload_t) (on_thread q (net_step q pc)).
Proof.
  intros Hpc. unfold on_thread, net_step. destruct pc as [|i count slots|[|info infos]|]; [done|rewrite decide_False by done|..]; calm.
Qed.
End operations.

(** ** The stream at the server *)

Section streaming.
Context {A B T payload_t : Type} `{SteamIPAddr A} `{!SteamIPAddrLaws A} `{SteamSockets A} `{!SteamLaws A}.
Context `{!PacketDeserializer payload_t, !PacketDeserializerLaws payload_t}.
Context `{!OwningBuffer B, !PacketSerializer B T payload_t, !PacketSerializerLaws B T payload_t}.
Context (p : positive) (conn : kb_connection_t) (handlers : gmap packet_type_t nat).
Local Abbreviation log := (list (nat * kb_connection_t * payload_t)).
Local Abbreviation W := (packet_world A nat log).
Local Abbreviation TW := (tworld A positive (packet_heap nat log)).
Implicit Types (w : W) (t : TW) (op : packet_op nat T) (m : steam_message).
#[local] Existing Instance log_handlers.
#[local] Existing Instance log_packets_contract.
#[local] Existing Instance log_handlers_laws.

(** What the connection's datagrams make the handlers record. *)
Definition dispatched (datagrams : list (list byte)) : list (nat * payload_t) :=
  omap (dispatch handlers) datagrams.

Lemma dispatched_app l l' : dispatched (l ++ l') = dispatched l ++ dispatched l'.
Proof. apply omap_app. Qed.

(** The messages the network thread of the server holds. *)
Definition held t : list steam_message :=
  match tw_net t !! p with Some pc => pc_owed pc | None => [] end.

(** The records so far, and those of the messages held, are those of the
    datagrams received. *)
Definition streamed t : Prop :=
  records_of conn (ps_user (w_user (tw_world t))) ++ dispatched (datagrams_of conn (held t))
  = dispatched (datagrams_of conn (Ledger.received (w_trace (tw_world t)))).

(** The record of one message. *)
Lemma records_received s ps m :
  clients_ok s → is_Some (m_clients s !! conn) → m_packet_handlers ps = handlers →
  records_of conn (received s ps m) = dispatched (datagrams_of conn [m]).
Proof.
  intros Hcl Hc Hh. unfold received, dispatched, datagrams_of. simpl. rewrite Hh.
  destruct (decide (msg_conn m = conn)) as [<-|Hne]; simpl.
  - destruct Hc as [client Hc]. rewrite Hc. destruct (dispatch handlers (m_pData m)) as [[tag x]|]; [|done].
    simpl. by rewrite decide_True by apply (Hcl _ _ Hc).
  - destruct (m_clients s !! msg_conn m) as [client|] eqn:Hc'; [|done].
    destruct (dispatch handlers (m_pData m)) as [[tag x]|]; [|done].
    simpl. rewrite decide_False; [done|]. rewrite (proj1 (Hcl _ _ Hc')). done.
Qed.

(** Steps that leave the stream alone. *)
Lemma calm_streamed t w' pc pc' :
  calmly p conn handlers (tw_world t) w' → serves p conn handlers (tw_world t) → streamed t →
  tw_net t !! p = Some pc → pc_owed pc' = pc_owed pc →
  serves p conn handlers w' ∧ streamed (TWorld w' (<[p := pc']> (tw_net t)) (tw_app t)).
Proof.
  intros (Hs & Hu & Hr) Hserves Hst Hpc Howed. split; [by apply Hs|].
  unfold streamed, held in *. cbn [tw_world tw_net]. rewrite lookup_insert_eq, Hu, Hr, Howed. by rewrite Hpc in Hst.
Qed.

(** The library hands over messages. *)
Lemma receive_streamed t w' s pc' :
  w_objs (tw_world t) !! p = Some s → m_interface s = true → m_is_running s = true →
  tw_net t !! p = Some AtTop → serves p conn handlers (tw_world t) → streamed t →
  on_thread p (net_step p AtTop) (tw_world t) = Done pc' w' →
  serves p conn handlers w' ∧ streamed (TWorld w' (<[p := pc']> (tw_net t)) (tw_app t)).
Proof.
  intros Hs Hi Hr Hpc Hserves Hst Hex. destruct t as [w net ap]. cbn [tw_world tw_net tw_app] in *.
  set (c := ReceiveMessagesOnPollGroup (A:=A) (m_poll_group s) k_message_count).
  set (v := with_thread (Some p) w).
  assert (on_thread p (net_step p AtTop) w
    = Done (Dispatching 0 (u32 (steam_answer (w_trace w) c).1) (steam_answer (w_trace w) c).2)
        (with_calls [c] w)) as Heq.
  { erewrite on_thread_Done; [by instantiate (1 := with_calls [c] v)|]. cbn [net_step].
    unfold is_running. rewrite (bind_Done _ _ v true v) by (by rewrite (bind_Done _ _ _ _ _ (deref_Done p s v Hs)), Hr).
    rewrite (bind_Done _ _ _ _ _ (deref_Done p s v Hs)).
    by rewrite (bind_Done _ _ _ _ _ (iface_Done p c v s Hs Hi)). }
  rewrite Heq in Hex. injection Hex as <- <-. split; [exact Hserves|].
  unfold streamed, held in *. cbn [tw_world tw_net w_user w_trace with_calls] in *.
  rewrite lookup_insert_eq, received_app, datagrams_of_app, dispatched_app, <- Hst, Hpc. simpl.
  by rewrite !app_nil_r.
Qed.

(** A message is handled. *)
Lemma handled_streamed t w' s i count m slots pc' :
  w_objs (tw_world t) !! p = Some s → server_ok (w_trace (tw_world t)) s →
  pc_ok (Dispatching i count (m :: slots)) → tw_net t !! p = Some (Dispatching i count (m :: slots)) →
  serves p conn handlers (tw_world t) → streamed t →
  on_thread p (net_step p (Dispatching i count (m :: slots))) (tw_world t) = Done pc' w' →
  serves p conn handlers w' ∧ streamed (TWorld w' (<[p := pc']> (tw_net t)) (tw_app t)).
Proof.
  intros Hs Hok [Hcount Hslots] Hpc Hserves Hst Hex. destruct t as [w net ap]. cbn [tw_world tw_net tw_app] in *.
  destruct Hserves as [(s' & Hs' & Hr & Hcb & Hcl) (ps & Hps & Hn & Hh)].
  assert (s' = s) as -> by congruence. set (v := with_thread (Some p) w).
  assert (poll_message p m v = Done tt (log_all (received s ps m) (with_calls [ReleaseMessage m] v))) as Hm.
  { pose proof (packet_messages_log p [m] v s ps Hs (ok_mutex _ _ Hok) Hcb Hps Hn) as Hlog.
    specialize (Hlog ltac:(by inversion_clear Hslots; constructor)). cbn [for_each] in Hlog.
    simpl in Hlog. rewrite app_nil_r in Hlog. unfold mbind, M_bind, skip, mret, M_ret in Hlog.
    by destruct (poll_message p m v) as [[] ?|]. }
  set (w1 := log_all (received s ps m) (with_calls [ReleaseMessage m] w)).
  assert (on_thread p (net_step p (Dispatching i count (m :: slots))) w = Done (Dispatching (i + 1) count slots) w1) as Heq.
  { erewrite on_thread_Done; [by instantiate (1 := with_thread (Some p) w1); destruct w|]. cbn [net_step].
    rewrite decide_True by (simpl in Hcount; lia). by rewrite (bind_Done _ _ _ _ _ Hm). }
  rewrite Heq in Hex. injection Hex as <- <-. split; [split; [by exists s|by exists ps]|].
  unfold streamed, held in *. cbn [tw_world tw_net w1 log_all with_user with_calls w_user w_trace ps_user] in *.
  rewrite lookup_insert_eq, records_of_app, (records_received s ps m), <- app_assoc by (done || apply Hok).
  rewrite <- dispatched_app, <- datagrams_of_app. cbn [pc_owed app].
  rewrite Hpc in Hst. cbn [pc_owed] in Hst. rewrite Hst, received_app. simpl. by rewrite app_nil_r.
Qed.

Lemma network_streamed t :
  thread_ok t → thread_allowed (TNetwork p) t → serves p conn handlers (tw_world t) → streamed t →
  wp (exec_thread (TNetwork p)) (λ _ t', serves p conn handlers (tw_world t') ∧ streamed t') t.
Proof.
  intros Hok Hop Hserves Hst. pose proof (network_step_ok p t Hok Hop) as Hwp.
  destruct Hop as (Hrd & pc & Hpc & Hret). destruct (proj1 (to_net _ Hok p) ltac:(by eexists)) as (s & Hs & Ht).
  pose proof (thread_net_step_ok p pc _ s (conj (to_inv _ Hok) Hrd) Hs Ht (to_pcs _ Hok p pc Hpc) Hret) as Hnet.
  apply wp_Done in Hnet as (pc' & w' & Hex & _ & _ & Hnext). clear Hwp.
  assert (serves p conn handlers w' ∧ streamed (TWorld w' (<[p := pc']> (tw_net t)) (tw_app t))) as Hgoal.
  2: { cbn [exec_thread]. apply wp_bind, wp_gets. cbn [id]. rewrite Hpc. apply wp_bind.
       unfold on_world, wp at 1. rewrite Hex. by apply wp_modify. }
  pose proof (world_ok_lookup _ _ _ _ (to_inv _ Hok) Hs) as Hsok. pose proof (to_pcs _ Hok p pc Hpc) as Hpcok.
  destruct pc as [|i count [|m slots]|[|info infos]|]; try done.
  - pose proof Hserves as [(s' & Hs' & Hr & _) _]. assert (s' = s) as -> by congruence.
    eapply receive_streamed; eauto. apply Hsok.
  - assert (¬ i < count) as Hlt by (destruct Hpcok as [-> _]; simpl; lia).
    eapply calm_streamed; [exact (net_step_calm p conn handlers p (Dispatching i count []) Hlt _ _ _ Hex)|done..|]. by destruct Hnext as [? ->].
  - eapply handled_streamed; eauto.
  - eapply calm_streamed; [exact (net_step_calm p conn handlers p (Handling []) Logic.I _ _ _ Hex)|done..|]. by rewrite Hnext.
  - eapply calm_streamed; [exact (net_step_calm p conn handlers p (Handling (info :: infos)) Logic.I _ _ _ Hex)|done..|]. by rewrite Hnext.
Qed.

(** ** What the application may do meanwhile *)

(** Owners come and go, but not the last; packets are sent; connections change
    their state.  The table of handlers stays as it is, and the application does
    not poll beside the network thread. *)
Definition beside_stream op : Prop :=
  match op with
  | PkCopy | PkRelease | PkStart _ | PkSend _ _ _ _ | PkBroadcast _ _ _ | PkStatusChanged _ => True
  | _ => False
  end.

(** The owners of the packet server may change. *)
Lemma calm_owners w ps n :
  ps_objs (w_user w) !! p = Some ps → n ≠ 0%nat →
  calmly p conn handlers w (with_ps <[p := MkPacketServer (m_packet_handlers ps) n]> w).
Proof.
  intros Hps Hn. split; [|done]. intros [Hs (ps' & Hps' & _ & Hh)]. split; [exact Hs|].
  exists (MkPacketServer (m_packet_handlers ps) n). simpl. rewrite lookup_insert_eq. split_and!; [done|done|].
  simpl. congruence.
Qed.

Lemma beside_calm op w :
  packet_ok w → threaded w p → packet_op_allowed p op w → packet_server_in_one_piece p op w → beside_stream op →
  wp (exec_packet_op (B:=B) p op) (λ _, calmly p conn handlers w) w.
Proof.
  intros Hok Hthr Hop Hone Hbeside. pose proof (exec_packet_op_ok (B:=B) p op w Hok Hop) as Hsafe.
  assert (∀ m : M W unit, wp m (λ _ _, True) w → calm p conn handlers m → wp m (λ _, calmly p conn handlers w) w) as Hcalm.
  { intros m Hm Hc. unfold wp in *. destruct (m w) as [[] w'|] eqn:Hex; [by eapply Hc|done]. }
  assert (wp (exec_packet_op (B:=B) p op) (λ _ _, True) w) as Htrue by (eapply wp_mono; [exact Hsafe|done]).
  destruct op; simpl in Hop, Hone, Htrue |- *; try done.
  - destruct Hop as [ps Hps]. apply wp_discard. pose proof (pk_owned _ Hok p ps Hps) as Hn.
    eapply wp_of_Done; [by apply weak_lock_Done|]. by apply calm_owners.
  - destruct Hop as [ps Hps]. specialize (Hone Hthr ps Hps).
    eapply wp_of_Done; [by apply release_Done_shared|]. apply calm_owners; [done|lia].
  - destruct Hthr as (s & Hs & Ht). apply wp_discard. unfold start, start_async. apply wp_bind.
    eapply wp_of_Done; [eapply start_threaded; [apply Hok|done|by exists s]|]. by apply wp_ret.
  - destruct Hop as [_ Ht]. destruct (serialize_packet_law W conn0 t x w Ht) as (pkt & _ & _ & Hser & _).
    unfold send in Htrue |- *. unfold wp, mbind, M_bind in Htrue |- *. rewrite Hser in Htrue |- *.
    destruct (send_packet_internal p pkt reliable w) as [b v|] eqn:Hv; [|done].
    by eapply (send_calm p conn handlers).
  - destruct Hop as [_ Ht]. destruct (serialize_packet_law W k_invalid_connection t x w Ht) as (pkt & _ & _ & Hser & _).
    unfold broadcast in Htrue |- *. unfold wp, mbind, M_bind in Htrue |- *. rewrite Hser in Htrue |- *.
    destruct (broadcast_packet_internal p pkt reliable w) as [b v|] eqn:Hv; [|done].
    by eapply (broadcast_calm p conn handlers).
  - apply Hcalm; [exact Htrue|]. apply status_callback_calm.
Qed.

(** ** Every step *)

(** What the threads do while a stream goes on. *)
Definition stream_op (top : packet_server_thread_op nat T) : Prop :=
  match top with
  | PvNetwork q => q = p
  | PvApp q op => q = p ∧ beside_stream op
  | _ => False
  end.

Record stream_ok t : Prop := {
  so_threads : packet_server_threads_ok t;
  so_thread : is_Some (tw_net t !! p);
  so_serves : serves p conn handlers (tw_world t);
  so_streamed : streamed t;
}.

(** Records are only added. *)
Definition recorded t t' : Prop := ps_user (w_user (tw_world t)) `prefix_of` ps_user (w_user (tw_world t')).

Lemma stream_network_ok t :
  stream_ok t → packet_server_thread_allowed (T:=T) (PvNetwork p) t →
  wp (exec_packet_server_thread (B:=B) (T:=T) (PvNetwork p)) (λ _ t', stream_ok t' ∧ recorded t t') t.
Proof.
  intros [Hok Hnet Hserves Hst] Hop. pose proof (pvo_threads _ Hok) as Hthr.
  pose proof (network_step_ok p t Hthr Hop) as Hstep.
  pose proof (packet_server_network_ok p t Hok Hop) as Hpk.
  pose proof (network_streamed t Hthr Hop Hserves Hst) as Hs. cbn [exec_packet_server_thread].
  eapply wp_mono; [apply (wp_and _ _ _ _ Hstep (wp_and _ _ _ _ Hpk Hs))|].
  intros [] t' ((Hok' & _ & Hm & _ & [_ Hu]) & [Hpk' _] & Hserves' & Hst'). split; [|exact Hu]. split; [done| |done..].
  apply (to_net _ Hok'), (threaded_modest_iff (tw_world t)); [done|]. by apply (to_net _ Hthr).
Qed.

Lemma stream_app_ok op t :
  stream_ok t → packet_server_thread_allowed (PvApp p op) t → beside_stream op →
  wp (exec_packet_server_thread (B:=B) (PvApp p op)) (λ _ t', stream_ok t' ∧ recorded t t') t.
Proof.
  intros [Hok Hnet Hserves Hst] Hop Hbeside. pose proof Hop as (Hfree & Hop' & Hone).
  pose proof (proj1 (to_net _ (pvo_threads _ Hok) p) Hnet) as Hthr.
  pose proof (beside_calm op _ (packet_server_free_ok t Hok Hfree) Hthr Hop' Hone Hbeside) as Hcalm.
  assert (wp (exec_packet_server_thread (B:=B) (PvApp p op)) (λ _ t',
    calmly p conn handlers (tw_world t) (tw_world t') ∧ tw_net t' = tw_net t) t) as Hrest.
  { cbn [exec_packet_server_thread]. apply wp_bind. unfold wp at 1, on_world. unfold wp in Hcalm.
    destruct (exec_packet_op p op (tw_world t)) as [[] w'|]; [|done]. apply wp_modify.
    unfold spawned. cbn [tw_net]. destruct Hnet as [pc ->]. done. }
  eapply wp_mono; [apply (wp_and _ _ _ _ (packet_server_app_ok (B:=B) p op t Hok Hop) Hrest)|].
  intros [] t' ([Hok' _] & (Hgo & Hu & Hr) & Hn). split; [|unfold recorded; by rewrite Hu].
  split; [done|by rewrite Hn|by apply Hgo|]. unfold streamed, held. by rewrite Hu, Hr, Hn.
Qed.

Lemma stream_op_ok top t :
  stream_ok t → packet_server_thread_allowed top t → stream_op top →
  wp (exec_packet_server_thread (B:=B) top) (λ _ t', stream_ok t' ∧ recorded t t') t.
Proof.
  destruct top as [q|q op| | |]; simpl; try done.
  - intros Hok Hop ->. by apply stream_network_ok.
  - intros Hok Hop [-> Hb]. by apply stream_app_ok.
Qed.

(** What has been recorded is what the datagrams received ask for, but for those
    the thread holds. *)
Lemma records_prefix t :
  streamed t →
  records_of conn (ps_user (w_user (tw_world t)))
    `prefix_of` dispatched (datagrams_of conn (Ledger.received (w_trace (tw_world t)))).
Proof. intros <-. by apply prefix_app_r. Qed.
End streaming.
