(* ===== verification/Streams.v ===== *)
(** * Streams of packets

    A packet client sends objects, over a library that keeps the order of its
    reliable messages, to a packet server whose network thread runs among the
    calls of its application: the two processes together implement [Channel.v]. *)

From S2P Require Import Prelude Bytes NetworkTypes Packet Serde Runtime Ledger Simulated.
From S2P Require Import UdpServer UdpServerSpec UdpServerSystem Threads ThreadsProps ThreadsSystem.
From S2P Require Import Dispatch PacketServer PacketServerProps PacketServerSystem PacketServerThreads.
From S2P Require Import UdpClient UdpClientSpec PacketClient PacketClientProps EndToEnd Channel StreamServer.
Import Strings.Byte.
Local Open Scope Z_scope.

(** ** What the library took *)

Section taken.
Context {A : Type} `{SteamSockets A}.
Implicit Types (tr cs : list (steam_call A)) (conn : kb_connection_t).

(** The datagram of a call, if it is for the connection and was accepted. *)
Definition taken_by conn tr (c : steam_call A) : list (list byte) :=
  match c as c return answer c → list (list byte) with
  | SendMessageToConnection conn' data _ => λ r,
      if decide (conn' = conn ∧ r = k_EResultOK) then [data] else []
  | _ => λ _, []
  end (steam_answer tr c).

Fixpoint taken_from conn tr cs : list (list byte) :=
  match cs with
  | [] => []
  | c :: cs => taken_by conn tr c ++ taken_from conn (tr ++ [c]) cs
  end.

Definition taken conn tr : list (list byte) := taken_from conn [] tr.

Lemma taken_from_app conn tr cs cs' :
  taken_from conn tr (cs ++ cs') = taken_from conn tr cs ++ taken_from conn (tr ++ cs) cs'.
Proof.
  revert tr. induction cs as [|c cs IH]; intros tr; simpl; [by rewrite app_nil_r|].
  by rewrite IH, <- !app_assoc.
Qed.

Lemma taken_snoc conn tr c : taken conn (tr ++ [c]) = taken conn tr ++ taken_by conn tr c.
Proof. unfold taken. rewrite taken_from_app. simpl. by rewrite app_nil_r. Qed.
End taken.

(** ** The two processes *)

Section streams.
Context {A AC HC PC UC B T payload_t : Type} `{SteamIPAddr A} `{!SteamIPAddrLaws A}.
Context `{SteamSockets A} `{!SteamLaws A} (client_library : SteamSockets AC).
Context `{!PacketDeserializer payload_t, !PacketDeserializerLaws payload_t}.
Context `{!OwningBuffer B, !PacketSerializer B T payload_t, !PacketSerializerLaws B T payload_t}.
#[local] Existing Instance client_library.
#[local] Existing Instance log_handlers.
#[local] Existing Instance log_packets_contract.
#[local] Existing Instance log_handlers_laws.

(** The client and its connection as it knows it; the server, the connection as
    it knows it, and its handlers. *)
Context (q : positive) (conn_c : kb_connection_t).
Context (p : positive) (conn : kb_connection_t) (handlers : gmap packet_type_t nat).
Local Abbreviation log := (list (nat * kb_connection_t * payload_t)).
Local Abbreviation CW := (client_world AC HC PC UC).
Local Abbreviation TW := (tworld A positive (packet_heap nat log)).

(** Both processes, and the objects sent so far that the server has handlers for. *)
Record stream := Stream { st_client : CW; st_server : TW; st_sent : list (packet_type_t * T) }.
Implicit Types (st : stream) (w : CW) (t : TW) (x : T).

Definition connected w : Prop := ∃ c,
  w_objs w !! q = Some c ∧ m_client_interface c = true ∧ m_client_conn c = conn_c ∧ conn_c ≠ 0.

Definition bound (type : packet_type_t) : bool :=
  bool_decide (is_Some (handlers !! wire_packet_type type)).

(** An object is sent; the client's process does something else, but sends
    nothing else on the connection and stays connected; a thread of the server's
    process takes a step, in which its library hands over no more than the first
    of the datagrams the client's library took. *)
Inductive stream_step st : stream → Prop :=
| StSend type x b w :
    fits 32 type →
    (∀ pkt : internal_packet_t B, serialize_packet (payload_t:=payload_t) k_invalid_connection type x (st_client st)
       = Done pkt (st_client st) → length (ob_data (m_buffer pkt)) < 2 ^ 32) →
    PacketClient.send_packet (B:=B) q type x true (st_client st) = Done b w →
    stream_step st (Stream w (st_server st)
      (if b && bound type then st_sent st ++ [(type, x)] else st_sent st))
| StClient w :
    connected w → taken conn_c (w_trace w) = taken conn_c (w_trace (st_client st)) →
    stream_step st (Stream w (st_server st) (st_sent st))
| StServer top t :
    packet_server_thread_allowed top (st_server st) → stream_op p top →
    exec_packet_server_thread (B:=B) (T:=T) top (st_server st) = Done tt t →
    datagrams_of conn (Ledger.received (w_trace (tw_world t)))
      `prefix_of` taken conn_c (w_trace (st_client st)) →
    stream_step st (Stream (st_client st) t (st_sent st)).

(** The server serves the connection, the client is connected, and nothing has
    been sent or received on the connection. *)
Record stream_start st : Prop := {
  start_reachable : ∃ u, rtc (packet_server_thread_step (B:=B) (T:=T)) (packet_server_thread_initial u) (st_server st);
  start_thread : is_Some (tw_net (st_server st) !! p);
  start_serves : serves p conn handlers (tw_world (st_server st));
  start_connected : connected (st_client st);
  start_taken : taken conn_c (w_trace (st_client st)) = [];
  start_received : datagrams_of conn (Ledger.received (w_trace (tw_world (st_server st)))) = [];
  start_records : records_of conn (ps_user (w_user (tw_world (st_server st)))) = [];
  start_sent : st_sent st = [];
}.

(** The record of a handler that was given the object. *)
Definition delivers (record : nat * payload_t) (sent : packet_type_t * T) : Prop :=
  handlers !! wire_packet_type sent.1 = Some record.1 ∧
  ∀ V (v : V), payload_as (B:=B) record.2 v = Done (Some sent.2) v.

Definition records st : list (nat * payload_t) :=
  records_of conn (ps_user (w_user (tw_world (st_server st)))).

(** The abstract channel: what the handlers have been given has arrived. *)
Definition stream_channel st : channel (packet_type_t * T)%type :=
  channel_of (st_sent st) (length (records st)).

(** ** The invariant *)

Record stream_inv st : Prop := {
  si_server : stream_ok p conn handlers (st_server st);
  si_connected : connected (st_client st);
  si_network : datagrams_of conn (Ledger.received (w_trace (tw_world (st_server st))))
    `prefix_of` taken conn_c (w_trace (st_client st));
  si_sent : Forall2 delivers (dispatched handlers (taken conn_c (w_trace (st_client st)))) (st_sent st);
}.

(** The messages the threads hold have been received. *)
Lemma held_nothing t :
  thread_ok t → datagrams_of conn (Ledger.received (w_trace (tw_world t))) = [] →
  datagrams_of conn (held p t) = [].
Proof.
  intros Hok Hnone. pose proof (to_ledger _ Hok) as Hl. unfold ledger in Hl.
  assert (datagrams_of conn (Ledger.received (w_trace (tw_world t)))
    ≡ₚ datagrams_of conn (released (w_trace (tw_world t)) ++ owed (tw_net t))) as Hd
    by (unfold datagrams_of; by rewrite Hl).
  rewrite Hnone, datagrams_of_app in Hd. apply Permutation_nil, app_nil in Hd as [_ Hd].
  unfold held. destruct (tw_net t !! p) as [pc|] eqn:Hpc; [|done].
  assert (datagrams_of conn (owed (tw_net t)) ≡ₚ datagrams_of conn (pc_owed pc ++ owed (delete p (tw_net t)))) as Hp
    by (unfold datagrams_of; by rewrite (owed_delete _ p pc Hpc)).
  rewrite Hd, datagrams_of_app in Hp. by apply Permutation_nil, app_nil in Hp as [? _].
Qed.

Lemma start_inv st : stream_start st → stream_inv st.
Proof.
  intros [[u Hr] Hth Hserves Hconn Ht Hrec Hlog Hsent].
  pose proof (packet_server_threads_reachable_ok u _ Hr) as Hok. split; [split; [done..|]|done|by rewrite Hrec, Ht|].
  - unfold streamed. rewrite Hlog, Hrec. by rewrite (held_nothing _ (pvo_threads _ Hok) Hrec).
  - rewrite Ht, Hsent. constructor.
Qed.

(** What the server makes of an object that was sent. *)
Lemma dispatch_sent type x (pkt : internal_packet_t B) body payload :
  fits 32 type → ob_data (m_buffer pkt) = header_bytes (header_create SerdeT (wire_packet_type type)) ++ body →
  (∀ V (v : V), deserialize_packet body (length body) v = Done (Some payload) v) →
  dispatch handlers (ob_data (m_buffer pkt)) = (λ tag, (tag, payload)) <$> handlers !! wire_packet_type type.
Proof.
  intros Ht Hdata Hdes. destruct (handlers !! wire_packet_type type) as [tag|] eqn:Hh.
  - by apply (sent_bytes_match type _ body payload handlers Ht Hdata (Hdes unit tt)).
  - unfold dispatch. rewrite Hdata, parse_header_bytes.
    2: { apply header_wf_create; [apply SerdeT_fits|by apply wire_packet_type_fits]. }
    cbn [header_create m_serde_type m_packet_type]. rewrite decide_True by done. by rewrite Hh.
Qed.

Lemma send_inv st type x b w :
  stream_inv st → fits 32 type →
  (∀ pkt : internal_packet_t B, serialize_packet (payload_t:=payload_t) k_invalid_connection type x (st_client st)
     = Done pkt (st_client st) → length (ob_data (m_buffer pkt)) < 2 ^ 32) →
  PacketClient.send_packet (B:=B) q type x true (st_client st) = Done b w →
  stream_inv (Stream w (st_server st) (if b && bound type then st_sent st ++ [(type, x)] else st_sent st)).
Proof.
  intros [Hsrv (c & Hc & Hi & Hconn & Hne) Hnet Hsent] Ht Hlen Hex. destruct st as [cw sw sent]. simpl in *.
  destruct (serialize_packet_law CW k_invalid_connection type x cw Ht)
    as (pkt & body & payload & Hser & _ & _ & Hdata & Hsize & Hdes & Has). specialize (Hlen pkt Hser).
  rewrite (send_packet_Done q type x true cw c pkt Hc Hser Hsize Hlen), Hi, Hconn in Hex.
  rewrite bool_decide_eq_false_2 in Hex by done. injection Hex as <- <-.
  set (call := SendMessageToConnection conn_c (ob_data (m_buffer pkt)) SendReliable).
  assert (taken conn_c (w_trace cw ++ [call]) = taken conn_c (w_trace cw) ++
    if decide (steam_answer (w_trace cw) call = k_EResultOK) then [ob_data (m_buffer pkt)] else []) as Htk.
  { rewrite taken_snoc. f_equal. unfold taken_by, call. repeat case_decide; tauto. }
  split; simpl; [done|by exists c|rewrite Htk; by apply prefix_app_r|]. rewrite Htk, dispatched_app.
  destruct (decide (steam_answer (w_trace cw) call = k_EResultOK)) as [Hok|Hno].
  - rewrite (bool_decide_eq_true_2 _ Hok). simpl.
    change (dispatched handlers [ob_data (m_buffer pkt)])
      with (option_list (dispatch handlers (ob_data (m_buffer pkt)))).
    rewrite (dispatch_sent type x pkt body payload Ht Hdata Hdes). unfold bound.
    destruct (handlers !! wire_packet_type type) as [tag|] eqn:Hh; simpl.
    + apply Forall2_app; [done|]. by repeat constructor.
    + by rewrite app_nil_r.
  - rewrite (bool_decide_eq_false_2 _ Hno). simpl. by rewrite app_nil_r.
Qed.

Lemma stream_step_inv st st' : stream_inv st → stream_step st st' → stream_inv st' ∧ records st `prefix_of` records st'.
Proof.
  intros Hinv Hstep. destruct Hstep as [type x b w Ht Hlen Hex|w Hc Htk|top t Hop Htop Hex Hnet].
  - split; [|done]. by eapply send_inv.
  - split; [|done]. destruct Hinv as [Hsrv _ Hnet Hsent]. split; simpl; [done..|by rewrite Htk|by rewrite Htk].
  - destruct Hinv as [Hsrv Hc _ Hsent]. pose proof (stream_op_ok p conn handlers top _ Hsrv Hop Htop) as Hwp.
    unfold wp in Hwp. rewrite Hex in Hwp. destruct Hwp as [Hsrv' [l Hl]]. split; [by split|].
    unfold records. simpl. rewrite Hl, records_of_app. by apply prefix_app_r.
Qed.

(** The records are those of the first objects sent. *)
Lemma records_delivered st :
  stream_inv st → Forall2 delivers (records st) (take (length (records st)) (st_sent st)) ∧
  (length (records st) ≤ length (st_sent st))%nat.
Proof.
  intros [Hsrv _ [l Hl] Hsent]. destruct (records_prefix p conn handlers _ (so_streamed _ _ _ _ Hsrv)) as [l' Hl'].
  rewrite Hl, dispatched_app, Hl', <- app_assoc in Hsent. fold (records st) in Hsent.
  apply Forall2_app_inv_l in Hsent as (sent1 & sent2 & Hrec & _ & ->).
  rewrite (Forall2_length _ _ _ Hrec), take_app_length, length_app. split; [done|lia].
Qed.

Lemma stream_step_refines st st' :
  stream_inv st → stream_step st st' → rtc channel_step (stream_channel st) (stream_channel st').
Proof.
  intros Hinv Hstep. destruct (stream_step_inv st st' Hinv Hstep) as [Hinv' Hrec].
  destruct (records_delivered st Hinv) as [_ Hle]. destruct (records_delivered st' Hinv') as [_ Hle'].
  apply prefix_length in Hrec. unfold stream_channel.
  destruct Hstep as [type x b w Ht Hlen Hex|w Hc Htk|top t Hop Htop Hex Hnet].
  - change (records (Stream w (st_server st) _)) with (records st). simpl.
    destruct (b && bound type); [|done]. by apply rtc_once, channel_of_send.
  - done.
  - apply channel_of_arrivals. split; [exact Hrec|exact Hle'].
Qed.

Lemma stream_reachable_inv st0 st : stream_start st0 → rtc stream_step st0 st → stream_inv st.
Proof.
  intros Hstart%start_inv Hr. induction Hr as [|st1 st2 st3 Hstep _ IH]; [done|].
  by apply IH, (stream_step_inv st1).
Qed.

(** C11: in every interleaving of a client that sends objects over a connection,
    of the network thread of the packet server, message by message, and of the
    server's application, which shares the server, sends, broadcasts and has status
    changes handled, but does not stop, poll or bind, the two processes are a
    first-in first-out channel, provided that the libraries are one, the server's
    handing over the datagrams the client's took in order and once each, that the
    client stays connected and sends only these objects, and that packets are shorter
    than 4 GiB: the handlers have been given, in order and
    once each, the first of the objects sent, and every step is a run of the
    channel; no step of the server faults; and once the server's library has handed
    over everything and the thread holds nothing, everything has arrived. *)
Theorem streams_refine_channel st0 st :
  stream_start st0 → rtc stream_step st0 st →
  Forall2 delivers (records st) (arrived (stream_channel st)) ∧
  (∀ st', stream_step st st' → rtc channel_step (stream_channel st) (stream_channel st')) ∧
  (∀ top, packet_server_thread_allowed top (st_server st) → stream_op p top →
     ∃ t, exec_packet_server_thread (B:=B) (T:=T) top (st_server st) = Done tt t) ∧
  (datagrams_of conn (Ledger.received (w_trace (tw_world (st_server st)))) = taken conn_c (w_trace (st_client st)) →
   held p (st_server st) = [] → in_flight (stream_channel st) = []).
Proof.
  intros Hstart Hr. pose proof (stream_reachable_inv st0 st Hstart Hr) as Hinv.
  destruct (records_delivered st Hinv) as [Hdel Hle]. split_and!.
  - exact Hdel.
  - intros st'. by apply stream_step_refines.
  - intros top Hop Htop. pose proof (stream_op_ok p conn handlers top _ (si_server _ Hinv) Hop Htop) as Hwp.
    apply wp_Done in Hwp as ([] & t & Hex & _). by exists t.
  - intros Hall Hheld. unfold stream_channel, channel_of. simpl. apply drop_ge.
    pose proof (so_streamed _ _ _ _ (si_server _ Hinv)) as Hst. unfold streamed in Hst.
    rewrite Hheld, Hall in Hst. simpl in Hst. rewrite app_nil_r in Hst. unfold records. rewrite Hst.
    by rewrite (Forall2_length _ _ _ (si_sent _ Hinv)).
Qed.
End streams.

(** ** A simulated stream *)

Section simulation.
#[local] Existing Instance log_handlers.
#[local] Existing Instance log_packets_contract.
#[local] Existing Instance log_handlers_laws.

(** The server's library hands over two datagrams of its connection 5; they are
    those the client's library takes for its connection 2. *)
Definition sim_stream_inbox : list (kb_connection_t * list byte) := [(5, sim_datagram x2a); (5, sim_datagram x2b)].
#[local] Instance sim_stream_steam : SteamSockets sim_addr := sim_steam sim_stream_inbox [].
Local Abbreviation log := (list (nat * kb_connection_t * list byte)).
Local Abbreviation TW := (tworld sim_addr positive (packet_heap nat log)).
Local Abbreviation top := (packet_server_thread_op nat byte).
Local Abbreviation exec := (exec_packet_server_thread (A:=sim_addr) (B:=list byte) (T:=byte) (payload_t:=list byte) (U:=log)).
Local Abbreviation sim_stream := (@stream sim_addr sim_addr nat bool (list (nat * list byte)) byte (list byte)).

Definition sim_stream_run (ops : list top) (t : TW) : TW :=
  foldl (λ t op, match exec op t with Done _ t' | Fault _ t' => t' end) t ops.

(** A server with a handler for type 128, running, that knows connection 5. *)
Definition sim_stream_setup : list top :=
  [PvApp 1 PkCreate; PvApp 1 (PkBind 128 3%nat); PvApp 1 (PkStart 80);
   PvApp 1 (PkStatusChanged (StatusChanged 5 StateConnecting StateNone))].
Definition sim_stream_server : TW := sim_stream_run sim_stream_setup (packet_server_thread_initial []).

Definition sim_stream_client (xs : list byte) : client_world sim_addr nat bool (list (nat * list byte)) :=
  foldl (λ w x, match PacketClient.send_packet (H1:=sim_client_steam) (B:=list byte) (payload_t:=list byte) 1 128 x true w with
                | Done _ w' | Fault _ w' => w' end) sim_packet_client_world xs.

Definition sim_stream_start : sim_stream := Stream (sim_stream_client []) sim_stream_server [].

Definition sim_object (x : byte) : packet_type_t * byte := (128, x).

(** Two objects sent, two datagrams received, one handled. *)
Definition sim_stream_middle : sim_stream :=
  Stream (sim_stream_client [x2a; x2b]) (sim_stream_run [PvNetwork 1; PvNetwork 1] sim_stream_server)
    [sim_object x2a; sim_object x2b].

Lemma sim_stream_reach (ops : list top) t :
  (∀ n op, ops !! n = Some op → packet_server_thread_allowed op (sim_stream_run (take n ops) t) ∧
     ∃ t', exec op (sim_stream_run (take n ops) t) = Done tt t') →
  rtc (packet_server_thread_step (B:=list byte) (T:=byte) (payload_t:=list byte)) t (sim_stream_run ops t).
Proof.
  revert t. induction ops as [|op ops IH]; intros t Hops; [done|].
  destruct (Hops 0%nat op eq_refl) as [Hop [t' Hex]]. simpl in Hop, Hex.
  eapply rtc_l; [by exists op|]. simpl. rewrite Hex. apply IH. intros n op' Hn.
  specialize (Hops (S n) op' Hn). simpl in Hops. by rewrite Hex in Hops.
Qed.

Definition sim_stream_handlers : gmap packet_type_t nat := {[128 := 3%nat]}.
Local Abbreviation step := (stream_step (B:=list byte) (T:=byte) (payload_t:=list byte) sim_client_steam 1 2 1 5 sim_stream_handlers).

Lemma sim_stream_started :
  stream_start (B:=list byte) (T:=byte) (payload_t:=list byte) sim_client_steam 1 2 1 5 sim_stream_handlers sim_stream_start.
Proof.
  split; [|by vm_compute; eexists| | |by vm_compute..].
  - exists []. apply sim_stream_reach. intros [|[|[|[|n]]]] op [= <-]; 
      (split; [vm_compute; split_and!; first [done|by eexists]|by vm_compute; eexists]).
  - split; [|by eexists; split_and!; [by vm_compute|by vm_compute..]].
    eexists. split_and!; [by vm_compute|by vm_compute|by vm_compute|by vm_compute; eexists].
  - by eexists; split_and!; [by vm_compute|by vm_compute..].
Qed.

(** Steps to a state written out. *)
Lemma sim_stream_send xs x sent :
  (∃ pkt : internal_packet_t (list byte), serialize_packet (payload_t:=list byte) k_invalid_connection 128 x
     (sim_stream_client xs) = Done pkt (sim_stream_client xs) ∧ length (ob_data (m_buffer pkt)) = 10%nat) →
  PacketClient.send_packet (H1:=sim_client_steam) (B:=list byte) (payload_t:=list byte) 1 128 x true (sim_stream_client xs)
    = Done true (sim_stream_client (xs ++ [x])) →
  step (Stream (sim_stream_client xs) sim_stream_server sent)
    (Stream (sim_stream_client (xs ++ [x])) sim_stream_server (sent ++ [sim_object x])).
Proof.
  intros (pkt & Hser & Hlen) Hex. refine (StSend sim_client_steam 1 2 1 5 sim_stream_handlers
    (Stream (sim_stream_client xs) sim_stream_server sent) 128 x true _ ltac:(by vm_compute) _ Hex).
  intros pkt' Hser'. cbn [st_client] in Hser'. rewrite Hser in Hser'. injection Hser' as <-. rewrite Hlen. lia.
Qed.

Local Abbreviation sent_two t := (Stream (sim_stream_client [x2a; x2b]) t [sim_object x2a; sim_object x2b] : sim_stream).

Lemma sim_stream_serve ops op :
  let t := sim_stream_run ops sim_stream_server in
  let t' := sim_stream_run (ops ++ [op]) sim_stream_server in
  packet_server_thread_allowed op t → stream_op 1 op → exec op t = Done tt t' →
  datagrams_of 5 (Ledger.received (w_trace (tw_world t'))) `prefix_of` [sim_datagram x2a; sim_datagram x2b] →
  step (sent_two t) (sent_two t').
Proof.
  intros t t' Hop Htop Hex Hnet.
  assert (taken (H:=sim_client_steam) 2 (w_trace (sim_stream_client [x2a; x2b])) = [sim_datagram x2a; sim_datagram x2b])
    as Htk by by vm_compute.
  rewrite <- Htk in Hnet.
  exact (StServer sim_client_steam 1 2 1 5 sim_stream_handlers (sent_two t) op t' Hop Htop Hex Hnet).
Qed.

Lemma sim_stream_reached : rtc step sim_stream_start sim_stream_middle.
Proof.
  pose proof (sim_stream_send [] x2a [] ltac:(eexists; by vm_compute) ltac:(by vm_compute)) as H1.
  pose proof (sim_stream_send [x2a] x2b [sim_object x2a] ltac:(eexists; by vm_compute) ltac:(by vm_compute)) as H2.
  pose proof (sim_stream_serve [] (PvNetwork 1)) as H3.
  pose proof (sim_stream_serve [PvNetwork 1] (PvNetwork 1)) as H4. cbv zeta in H3, H4. cbn [app] in H1, H2, H3, H4.
  assert (sim_stream_run [] sim_stream_server = sim_stream_server) as Hnil by by vm_compute.
  rewrite Hnil in H3. unfold sim_stream_middle, sim_stream_start.
  eapply rtc_l; [exact H1|]. eapply rtc_l; [exact H2|]. clear H1 H2.
  eapply rtc_l; [apply H3|apply rtc_once, H4]; first [exists []; by vm_compute|idtac]; clear H3 H4.
  - split; [done|]. by eexists; split; [by vm_compute|].
  - done.
  - by vm_compute.
  - split; [done|]. by eexists; split; [by vm_compute|].
  - done.
  - by vm_compute.
Qed.

Lemma streams_refine_channel_witness :
  records 5 sim_stream_middle = [(3%nat, [x2a])] ∧
  Forall2 (delivers (B:=list byte) sim_stream_handlers) (records 5 sim_stream_middle)
    (arrived (stream_channel 5 sim_stream_middle)) ∧
  stream_channel 5 sim_stream_middle = Channel [sim_object x2b] [sim_object x2a].
Proof.
  split; [by vm_compute|]. split; [|by vm_compute].
  assert (SteamLaws sim_addr) as Hlaws by (apply sim_laws; by repeat constructor).
  destruct (streams_refine_channel (B:=list byte) (T:=byte) (payload_t:=list byte) sim_client_steam 1 2 1 5
    sim_stream_handlers sim_stream_start sim_stream_middle sim_stream_started sim_stream_reached) as [Hdel _].
  exact Hdel.
Defined.
End simulation.
