(* ===== verification/AsyncClient.v ===== *)
(** * The asynchronous packet client

    [src/kb/net/udp/client/async_udp_packet_client.hpp] and [.inl]: the class
    template [AsyncUdpPacketClient].  A coroutine of [async_wait_for_packet] is
    cut at its [co_await event]: what it does before, and what it does once its
    event is set; the scheduler decides when the second part runs.  An event
    lives in its coroutine's frame and is identified by a number. *)

From S2P Require Import Prelude Bytes NetworkTypes Packet Serde Runtime UdpClient PacketClient.
Import Strings.Byte.
Local Open Scope Z_scope.

(** ** State *)

Record awaiting_packet_t (payload_t : Type) := Awaiting {
  m_event : option nat;                          (** a [coro::event *] *)
  m_data : option payload_t;
}.
Arguments Awaiting {payload_t}.
Arguments m_event {payload_t}.
Arguments m_data {payload_t}.

(** The awaiters, their mutex, and the events of the coroutine frames alive,
    with whether they are set. *)
Record async_state (payload_t : Type) := AsyncState {
  m_awaiters : gmap packet_type_t (list (awaiting_packet_t payload_t));
  m_awaiters_mutex : bool;
  events : gmap nat bool;
}.
Arguments AsyncState {payload_t}.
Arguments m_awaiters {payload_t}.
Arguments m_awaiters_mutex {payload_t}.
Arguments events {payload_t}.

Definition with_awaiters {payload_t}
    (f : gmap packet_type_t (list (awaiting_packet_t payload_t)) →
         gmap packet_type_t (list (awaiting_packet_t payload_t)))
    (s : async_state payload_t) : async_state payload_t :=
  AsyncState (f (m_awaiters s)) (m_awaiters_mutex s) (events s).
Definition with_awaiters_mutex {payload_t} (b : bool) (s : async_state payload_t) : async_state payload_t :=
  AsyncState (m_awaiters s) b (events s).
Definition with_events {payload_t} (f : gmap nat bool → gmap nat bool) (s : async_state payload_t)
    : async_state payload_t :=
  AsyncState (m_awaiters s) (m_awaiters_mutex s) (f (events s)).

Definition async_init {payload_t} : async_state payload_t := AsyncState ∅ false ∅.

(** ** Awaiters *)

Section awaiters.
Context {payload_t : Type} `{PacketDeserializer payload_t}.
Local Abbreviation S := (async_state payload_t).

(** [std::scoped_lock lock{ m_awaiters_mutex }] around a block. *)
Definition awaiters_lock {R} (block : M S R) : M S R :=
  held ← gets m_awaiters_mutex;
  if (held : bool) then fail Deadlock
  else
    modify (with_awaiters_mutex true) ;;
    r ← block;
    modify (with_awaiters_mutex false) ;;
    mret r.

(** [event->set()] on an event of a live frame. *)
Definition set_event (e : nat) : M S unit :=
  es ← gets events;
  match es !! e with
  | Some _ => modify (with_events <[e := true]>)
  | None => fail NullDeref
  end.

Definition notify (awaiter : awaiting_packet_t payload_t) : M S unit :=
  match m_event awaiter with Some e => set_event e | None => skip end.

Definition register_packet_awaiter (p_packet_type : packet_type_t)
    (p_awaiting : awaiting_packet_t payload_t) : M S unit :=
  awaiters_lock (
    aws ← gets m_awaiters;
    match aws !! p_packet_type with
    | Some queue => modify (with_awaiters <[p_packet_type := queue ++ [p_awaiting]]>)
    | None => modify (with_awaiters <[p_packet_type := [p_awaiting]]>)
    end).

(** [m_awaiters[p_packet_type]] enters an empty queue when there is none. *)
Definition get_packet_awaiter (p_packet_type : packet_type_t)
    : M S (option (awaiting_packet_t payload_t)) :=
  awaiters_lock (
    aws ← gets m_awaiters;
    let queue := default [] (aws !! p_packet_type) in
    modify (with_awaiters <[p_packet_type := queue]>) ;;
    match queue with
    | [] => mret None
    | awaiting :: queue =>
        modify (with_awaiters <[p_packet_type := queue]>) ;;
        mret (Some awaiting)
    end).

(** [awaiter->m_data = ...] through the pointer to the front of a queue. *)
Definition set_front_data (p_packet_type : packet_type_t) (payload : payload_t) : M S unit :=
  aws ← gets m_awaiters;
  match aws !! p_packet_type with
  | Some (awaiter :: queue) =>
      modify (with_awaiters <[p_packet_type := Awaiting (m_event awaiter) (Some payload) :: queue]>)
  | _ => fail NullDeref
  end.

Definition on_data_received_pre_handler (p_message : incoming_view_message_t) : M S bool :=
  maybe_header ← unpack_internal_packet_header (view_data p_message) (view_size p_message);
  match maybe_header with
  | None => mret false
  | Some header =>
      if decide (m_serde_type header ≠ SerdeT) then mret false
      else
        let packet_type := m_packet_type header in
        awaiter ← awaiters_lock (
          aws ← gets m_awaiters;
          mret (match aws !! packet_type with Some (awaiter :: _) => Some awaiter | _ => None end));
        match awaiter with
        | None => mret false
        | Some awaiter =>
            let payload_ptr := drop (Z.to_nat sizeof_header) (view_data p_message) in
            let payload_size := u64 (view_size p_message - sizeof_header) in
            maybe_payload ← deserialize_packet payload_ptr payload_size;
            match maybe_payload with
            | None => notify awaiter ;; mret true
            | Some payload =>
                set_front_data packet_type payload ;;
                notify awaiter ;;
                mret true
            end
        end
  end.

(** [async_wait_for_packet] up to [co_await event], with the event [e] of its
    new frame. *)
Definition async_wait_begin (e : nat) (p_packet_type : packet_type_t) : M S unit :=
  modify (with_events <[e := false]>) ;;
  register_packet_awaiter p_packet_type (Awaiting (Some e) None).

Context {B T : Type} `{!PacketSerializer B T payload_t}.

(** The rest of [async_wait_for_packet], up to the end of its frame. *)
Definition async_wait_end (e : nat) (p_packet_type : packet_type_t) : M S (option T) :=
  awaiter ← get_packet_awaiter p_packet_type;
  r ← match awaiter with
      | Some awaiter =>
          match m_data awaiter with
          | Some payload => payload_as (B:=B) payload
          | None => mret None
          end
      | None => mret None
      end;
  modify (with_events (delete e)) ;;
  mret r.
End awaiters.

(** ** On top of the packet client *)

Section client.
Context {A H payload_t : Type} `{SteamIPAddr A} `{SteamSockets A} `{PacketDeserializer payload_t}.

(** The state of the asynchronous client beside what the user's handlers act
    on; [None] once it has been destroyed. *)
Record async_heap (U : Type) := AsyncHeap {
  ah_async : option (async_state payload_t);
  ah_user : U;
}.

Context {U : Type}.
Local Abbreviation W := (client_world A H unit (async_heap U)).

(** Runs an operation of the asynchronous client. *)
Definition on_async {R} (s : async_state payload_t) (m : M (async_state payload_t) R) : M W R :=
  λ w,
    let put s' := with_user (λ u, ClientHeap (pc_objs u) (AsyncHeap U (Some s') (ah_user U (pc_user u)))) w in
    match m s with
    | Done r s' => Done r (put s')
    | Fault e s' => Fault e (put s')
    end.

(** The pre-handler [create] registers, with a weak pointer to the client. *)
Definition async_pre_handler (_ : unit) (msg : incoming_view_message_t) : M W bool :=
  u ← gets (λ w : W, ah_async U (pc_user (w_user w)));
  match u with
  | Some s => on_async s (on_data_received_pre_handler msg)
  | None => mret false
  end.

(** [create]: the client, its packet client, and the pre-handler. *)
Definition create (this : positive) : M W unit :=
  modify (with_user (λ u, ClientHeap (pc_objs u) (AsyncHeap U (Some async_init) (ah_user U (pc_user u))))) ;;
  PacketClient.create this ;;
  register_on_data_received_pre_handler_callback this (Some tt).

Definition stop (this : positive) : M W unit := PacketClient.stop this.

Definition get_connection_status (this : positive) : M W connection_status_t :=
  PacketClient.get_connection_status this.

Definition is_running (this : positive) : M W bool := PacketClient.is_running this.

Definition send_packet {B T} `{OwningBuffer B} `{!PacketSerializer B T payload_t} (this : positive)
    (p_packet_type : packet_type_t) (p_object : T) (p_reliable : bool) : M W bool :=
  PacketClient.send_packet (B:=B) this p_packet_type p_object p_reliable.

Definition k_max_wait_ms : Z := 1000.
Definition k_sleep_duration : Z := 50.
Definition max_iters : Z := k_max_wait_ms / k_sleep_duration.

(** What the other threads do during one [sleep_for]. *)
Context (sleep_for : Z → M W unit).

(** The [do ... while] loop of [connect]; [None] when the fuel runs out. *)
Fixpoint connect_loop (fuel : nat) (this : positive) (iter : Z) : M W (option connection_status_t) :=
  match fuel with
  | O => mret None
  | S fuel =>
      connection_status ← PacketClient.get_connection_status this;
      if decide (max_iters ≤ iter) then mret (Some connection_status)
      else
        sleep_for iter ;;
        if decide (connection_status = connecting)
        then connect_loop fuel this (u32 (iter + 1))
        else mret (Some connection_status)
  end.

Definition connect (this : positive) (p_address : string) (p_port : Z) : M W (option bool) :=
  running ← PacketClient.is_running this;
  if (running : bool) then mret (Some false)
  else
    res ← PacketClient.connect this p_address p_port;
    if negb res then mret (Some false)
    else
      status ← connect_loop (S (Z.to_nat max_iters)) this 0;
      mret ((λ s, bool_decide (s = connected)) <$> status).
End client.
