(* ===== verification/AsyncClientProps.v ===== *)
(** * The properties of the asynchronous client

    The coroutines, the packets and the scheduler as a transition system; its
    invariant; what two packets in a row do to a waiting coroutine; the bounded
    wait of [connect].  Who is woken by a packet is in [AsyncOrder.v]. *)

From S2P Require Import Prelude Bytes NetworkTypes Packet Serde Runtime.
From S2P Require Import Simulated Dispatch UdpClient PacketClient AsyncClient.
Import Strings.Byte.
Local Open Scope Z_scope.

(** ** Exact results *)

Section operations.
Context {payload_t : Type} `{PacketDeserializerLaws payload_t}.
Local Abbreviation S := (async_state payload_t).
Implicit Types (s : S) (t : packet_type_t) (e : nat).

Definition queue_of s t : list (awaiting_packet_t payload_t) := default [] (m_awaiters s !! t).

(** The awaiters of one type replaced. *)
Definition set_queue t (q : list (awaiting_packet_t payload_t)) s : S := with_awaiters <[t := q]> s.

Lemma queue_of_set_queue t q s : queue_of (set_queue t q s) t = q.
Proof. unfold queue_of. simpl. by rewrite lookup_insert_eq. Qed.

Lemma queue_of_set_queue_ne t t' q s : t ≠ t' → queue_of (set_queue t q s) t' = queue_of s t'.
Proof. intros Hne. unfold queue_of. simpl. by rewrite lookup_insert_ne. Qed.

Lemma awaiters_lock_Done {R} (block : M S R) s r s' :
  m_awaiters_mutex s = false → block (with_awaiters_mutex true s) = Done r s' →
  awaiters_lock block s = Done r (with_awaiters_mutex false s').
Proof.
  intros Hm Hb. unfold awaiters_lock, gets. erewrite bind_Done; [|done]. rewrite Hm.
  erewrite bind_Done; [|done]. by rewrite (bind_Done _ _ _ _ _ Hb).
Qed.

Lemma register_Done t aw s :
  m_awaiters_mutex s = false →
  register_packet_awaiter t aw s = Done tt (set_queue t (queue_of s t ++ [aw]) s).
Proof.
  intros Hm. unfold register_packet_awaiter. erewrite awaiters_lock_Done; [|done|].
  2: { unfold gets. erewrite bind_Done; [|done]. instantiate (1 := with_awaiters_mutex true (set_queue t (queue_of s t ++ [aw]) s)).
       instantiate (1 := tt). unfold queue_of. simpl. by destruct (m_awaiters s !! t). }
  f_equal. unfold set_queue. destruct s. simpl in *. by subst.
Qed.

Lemma get_Done t s :
  m_awaiters_mutex s = false →
  get_packet_awaiter t s = Done (head (queue_of s t)) (set_queue t (tail (queue_of s t)) s).
Proof.
  intros Hm. unfold get_packet_awaiter. erewrite awaiters_lock_Done; [|done|].
  2: { unfold gets. erewrite bind_Done; [|done]. erewrite bind_Done; [|done].
       change (default [] (m_awaiters (with_awaiters_mutex true s) !! t)) with (queue_of s t).
       instantiate (1 := with_awaiters_mutex true (set_queue t (tail (queue_of s t)) s)).
       instantiate (1 := head (queue_of s t)).
       destruct (queue_of s t) as [|aw q]; [done|].
       erewrite bind_Done; [|done]. unfold mret, M_ret. f_equal.
       unfold set_queue, with_awaiters, with_awaiters_mutex. simpl. by rewrite insert_insert_eq. }
  f_equal. unfold set_queue. destruct s. simpl in *. by subst.
Qed.

Lemma set_event_Done e s : is_Some (events s !! e) → set_event e s = Done tt (with_events <[e := true]> s).
Proof. intros [b Hb]. unfold set_event, gets. erewrite bind_Done; [|done]. by rewrite Hb. Qed.

(** What a packet for the front awaiter leaves. *)
Definition noted (e : nat) t (q : list (awaiting_packet_t payload_t)) (data : option payload_t) s : S :=
  with_events <[e := true]>
    (match data with Some x => set_queue t (Awaiting (Some e) (Some x) :: q) s | None => s end).

(** The packet type of a message addressed to this client. *)
Definition message_type (msg : incoming_view_message_t) : option packet_type_t :=
  match parse_header (view_data msg) with
  | Some header => if decide (m_serde_type header = SerdeT) then Some (m_packet_type header) else None
  | None => None
  end.

Definition message_payload (msg : incoming_view_message_t) : option payload_t :=
  decode (drop 8 (view_data msg)).

Lemma pre_handler_Done msg s :
  m_awaiters_mutex s = false → view_size msg = length (view_data msg) → length (view_data msg) < 2 ^ 64 →
  (∀ t aw, head (queue_of s t) = Some aw → ∃ e, m_event aw = Some e ∧ is_Some (events s !! e)) →
  on_data_received_pre_handler msg s
  = match message_type msg with
    | Some t =>
        match queue_of s t with
        | Awaiting (Some e) data :: q => Done true (noted e t q (message_payload msg) s)
        | _ => Done false s
        end
    | None => Done false s
    end.
Proof.
  intros Hm Hsize Hlen Hev. unfold on_data_received_pre_handler, message_type, message_payload. rewrite Hsize.
  rewrite (bind_Done _ _ _ _ _ (unpack_Done (view_data msg) s)).
  destruct (parse_header (view_data msg)) as [header|] eqn:Hparse; [|done].
  destruct (decide (m_serde_type header = SerdeT)) as [Hs|Hs].
  2: by rewrite decide_True.
  rewrite decide_False by (intros Hne; done).
  set (t := m_packet_type header).
  erewrite bind_Done.
  2: { erewrite awaiters_lock_Done; [|done|]; [|unfold gets; by erewrite bind_Done]. done. }
  replace (with_awaiters_mutex false (with_awaiters_mutex true s)) with s by (destruct s; simpl in *; by subst).
  change (m_awaiters (with_awaiters_mutex true s)) with (m_awaiters s).
  specialize (Hev t). unfold queue_of in *.
  destruct (m_awaiters s !! t) as [[|aw q]|] eqn:Hq; [done| |done].
  destruct (Hev aw eq_refl) as (e & He & Hlive). destruct aw as [ev data]. simpl in He. subst ev.
  destruct (deserialize_after_header (view_data msg) header s Hparse Hlen) as [Hdes _].
  rewrite (bind_Done _ _ _ _ _ Hdes). cbn [default].
  destruct (decode (drop 8 (view_data msg))) as [x|]; unfold notify; cbn [m_event].
  - unfold set_front_data, gets. erewrite bind_Done.
    2: { erewrite bind_Done; [|done]. by rewrite Hq. }
    by erewrite bind_Done; [|by apply set_event_Done].
  - by erewrite bind_Done; [|by apply set_event_Done].
Qed.
End operations.

(** ** The transition system *)

(** The client's state, the coroutines suspended at their event with the type
    they wait for, and the results of those that finished, in order. *)
Record async_sys (payload_t T : Type) := AsyncSys {
  as_state : async_state payload_t;
  as_waiting : gmap nat packet_type_t;
  as_results : list (nat * option T);
}.
Arguments AsyncSys {payload_t T}.
Arguments as_state {payload_t T}.
Arguments as_waiting {payload_t T}.
Arguments as_results {payload_t T}.

Section system.
Context {B T payload_t : Type}.
Context `{PacketSerializer B T payload_t, !PacketDeserializerLaws payload_t}.
Context `{OwningBuffer B} `{!PayloadConversionLaws B T payload_t}.
Implicit Types (a : async_sys payload_t T) (s : async_state payload_t) (t : packet_type_t) (e : nat).

(** A message as the udp client delivers it. *)
Definition view_wf (msg : incoming_view_message_t) : Prop :=
  view_size msg = length (view_data msg) ∧ length (view_data msg) < 2 ^ 64.

(** A coroutine starts to wait; a message arrives; the scheduler resumes a
    coroutine whose event is set. *)
Inductive async_step a : async_sys payload_t T → Prop :=
| step_wait e t s' :
    events (as_state a) !! e = None →
    async_wait_begin e t (as_state a) = Done tt s' →
    async_step a (AsyncSys s' (<[e := t]> (as_waiting a)) (as_results a))
| step_packet msg b s' :
    view_wf msg →
    on_data_received_pre_handler msg (as_state a) = Done b s' →
    async_step a (AsyncSys s' (as_waiting a) (as_results a))
| step_resume e t r s' :
    as_waiting a !! e = Some t → events (as_state a) !! e = Some true →
    async_wait_end (B:=B) e t (as_state a) = Done r s' →
    async_step a (AsyncSys s' (delete e (as_waiting a)) (as_results a ++ [(e, r)])).

Definition async_initial : async_sys payload_t T := AsyncSys async_init ∅ [].

(** The awaiter belongs to the coroutine [e], and its data, if any, decoded. *)
Definition awaiter_of (aw : awaiting_packet_t payload_t) e : Prop :=
  m_event aw = Some e ∧ ∀ x, m_data aw = Some x → ∃ bytes, decode bytes = Some x.

(** Every queue holds one awaiter for each coroutine that waits for its type, in
    a live frame; only the front one can have been notified. *)
Record async_ok a : Prop := {
  aok_mutex : m_awaiters_mutex (as_state a) = false;
  aok_events : dom (events (as_state a)) = dom (as_waiting a);
  aok_queue t aw : aw ∈ queue_of (as_state a) t →
    ∃ e, awaiter_of aw e ∧ as_waiting a !! e = Some t;
  aok_distinct t : NoDup (m_event <$> queue_of (as_state a) t);
  aok_waiting e t : as_waiting a !! e = Some t →
    Some e ∈ m_event <$> queue_of (as_state a) t;
  aok_front t aw : aw ∈ tail (queue_of (as_state a) t) →
    m_data aw = None ∧ ∀ e, m_event aw = Some e → events (as_state a) !! e = Some false;
}.

Lemma aok_live a e t : async_ok a → as_waiting a !! e = Some t → is_Some (events (as_state a) !! e).
Proof. intros Hok He. apply elem_of_dom. rewrite (aok_events _ Hok). by apply elem_of_dom. Qed.

Lemma aok_head a t aw q :
  async_ok a → queue_of (as_state a) t = aw :: q →
  ∃ e, awaiter_of aw e ∧ as_waiting a !! e = Some t ∧ is_Some (events (as_state a) !! e).
Proof.
  intros Hok Hq. destruct (aok_queue _ Hok t aw) as (e & Haw & He); [rewrite Hq; left|].
  exists e. split; [done|]. split; [done|]. by eapply aok_live.
Qed.

(** A coroutine whose event is set is the front of its queue. *)
Lemma set_is_front a e t :
  async_ok a → as_waiting a !! e = Some t → events (as_state a) !! e = Some true →
  ∃ aw q, queue_of (as_state a) t = aw :: q ∧ awaiter_of aw e.
Proof.
  intros Hok He Hset. pose proof (aok_waiting _ Hok e t He) as Hin.
  apply list_elem_of_fmap in Hin as (aw & Hev & Hin).
  destruct (queue_of (as_state a) t) as [|aw0 q] eqn:Hq; [by apply elem_of_nil in Hin|].
  apply elem_of_cons in Hin as [<-|Hin].
  - exists aw, q. split; [done|]. destruct (aok_head a t aw q Hok Hq) as (e' & Haw & _).
    destruct Haw as [He' Hd]. split; [congruence|done].
  - destruct (aok_front _ Hok t aw) as [_ Hno]; [by rewrite Hq|].
    specialize (Hno e (eq_sym Hev)). congruence.
Qed.

Lemma wait_exact s e t :
  m_awaiters_mutex s = false →
  async_wait_begin e t s
  = Done tt (set_queue t (queue_of s t ++ [Awaiting (Some e) None]) (with_events <[e := false]> s)).
Proof. intros Hm. unfold async_wait_begin. erewrite bind_Done; [|done]. by rewrite register_Done. Qed.

Lemma wait_Done a e t :
  async_ok a → events (as_state a) !! e = None →
  async_wait_begin e t (as_state a)
  = Done tt (set_queue t (queue_of (as_state a) t ++ [Awaiting (Some e) None])
               (with_events <[e := false]> (as_state a))).
Proof. intros Hok _. apply wait_exact, Hok. Qed.

Lemma packet_Done a msg :
  async_ok a → view_wf msg →
  on_data_received_pre_handler msg (as_state a)
  = match message_type msg with
    | Some t =>
        match queue_of (as_state a) t with
        | Awaiting (Some e) data :: q => Done true (noted e t q (message_payload msg) (as_state a))
        | _ => Done false (as_state a)
        end
    | None => Done false (as_state a)
    end.
Proof.
  intros Hok [Hsize Hlen]. apply pre_handler_Done; [apply Hok|done..|].
  intros t aw Haw. destruct (queue_of (as_state a) t) as [|aw0 q] eqn:Hq; [done|]. injection Haw as ->.
  destruct (aok_head a t aw q Hok Hq) as (e & [He _] & _ & Hlive). by exists e.
Qed.

(** What a notified coroutine gets. *)
Definition outcome_of (aw : awaiting_packet_t payload_t) : option T :=
  match m_data aw with Some x => convert (B:=B) x | None => None end.

Lemma resume_exact s e t aw q :
  m_awaiters_mutex s = false → queue_of s t = aw :: q → awaiter_of aw e →
  async_wait_end (B:=B) e t s = Done (outcome_of aw) (with_events (delete e) (set_queue t q s)).
Proof.
  intros Hm Hq [Hev Hdec]. unfold async_wait_end.
  rewrite (bind_Done _ _ _ _ _ (get_Done t _ Hm)), Hq. cbn [head tail]. unfold outcome_of.
  destruct (m_data aw) as [x|].
  - destruct (Hdec x eq_refl) as [bytes Hb].
    by rewrite (bind_Done _ _ _ _ _ (convert_law _ bytes x _ Hb)).
  - by erewrite bind_Done.
Qed.

Lemma resume_Done a e t aw q :
  async_ok a → queue_of (as_state a) t = aw :: q → awaiter_of aw e →
  async_wait_end (B:=B) e t (as_state a)
  = Done (outcome_of aw) (with_events (delete e) (set_queue t q (as_state a))).
Proof. intros Hok. apply resume_exact, Hok. Qed.

(** ** The invariant is kept *)

Lemma fresh_event a e : async_ok a → events (as_state a) !! e = None → as_waiting a !! e = None.
Proof. intros Hok He. apply not_elem_of_dom. rewrite <- (aok_events _ Hok). by apply not_elem_of_dom. Qed.

Lemma in_queue_event a t aw e :
  async_ok a → aw ∈ queue_of (as_state a) t → m_event aw = Some e → as_waiting a !! e = Some t.
Proof.
  intros Hok Hin He. destruct (aok_queue _ Hok t aw Hin) as (e' & [He' _] & Hw). congruence.
Qed.

Lemma wait_ok a e t :
  async_ok a → events (as_state a) !! e = None →
  async_ok (AsyncSys (set_queue t (queue_of (as_state a) t ++ [Awaiting (Some e) None])
                        (with_events <[e := false]> (as_state a)))
              (<[e := t]> (as_waiting a)) (as_results a)).
Proof.
  intros Hok He. pose proof (fresh_event a e Hok He) as Hfresh.
  set (q := queue_of (as_state a) t).
  assert (∀ t' aw e', aw ∈ queue_of (as_state a) t' → m_event aw = Some e' → e' ≠ e) as Hne.
  { intros t' aw e' Hin He' ->. rewrite (in_queue_event a t' aw e Hok Hin He') in Hfresh. done. }
  assert (∀ t', queue_of (set_queue t (q ++ [Awaiting (Some e) None]) (with_events <[e := false]> (as_state a))) t'
    = if decide (t = t') then q ++ [Awaiting (Some e) None] else queue_of (as_state a) t') as Hqueue.
  { intros t'. case_decide as Ht; [subst; apply queue_of_set_queue|by rewrite queue_of_set_queue_ne]. }
  split; cbn [as_state as_waiting].
  - apply Hok.
  - simpl. by rewrite !dom_insert_L, (aok_events _ Hok).
  - intros t' aw. rewrite Hqueue. case_decide as Ht; [subst t'|].
    + intros [Hin|Hin%list_elem_of_singleton]%elem_of_app.
      * destruct (aok_queue _ Hok t aw Hin) as (e' & Haw & Hw). exists e'. split; [done|].
        rewrite lookup_insert_ne; [done|]. intros <-. by apply (Hne t aw e Hin (proj1 Haw)).
      * subst aw. exists e. split; [by split|apply lookup_insert_eq].
    + intros Hin. destruct (aok_queue _ Hok t' aw Hin) as (e' & Haw & Hw). exists e'. split; [done|].
      rewrite lookup_insert_ne; [done|]. intros <-. by apply (Hne t' aw e Hin (proj1 Haw)).
  - intros t'. rewrite Hqueue. case_decide as Ht; [subst t'|apply Hok].
    rewrite fmap_app. apply NoDup_app. split_and!; [apply Hok| |apply NoDup_singleton].
    intros ev Hev%list_elem_of_fmap Hev'%list_elem_of_singleton.
    destruct Hev as (aw & -> & Hin). by eapply (Hne t aw e).
  - intros e' t' [[<- <-]|[Hee Hw]]%lookup_insert_Some; rewrite Hqueue.
    + rewrite decide_True by done. rewrite fmap_app. apply elem_of_app. right. by apply list_elem_of_singleton.
    + pose proof (aok_waiting _ Hok e' t' Hw) as Hin. case_decide as Ht; [subst t'|done].
      rewrite fmap_app. apply elem_of_app. by left.
  - intros t' aw. rewrite Hqueue. case_decide as Ht; [subst t'|].
    + intros Hin.
      assert (aw ∈ tail q ∨ aw = Awaiting (Some e) None) as [Hin'| ->].
      { destruct q as [|aw0 q0]; [by apply elem_of_nil in Hin|]. simpl in Hin.
        apply elem_of_app in Hin as [Hin|Hin%list_elem_of_singleton]; [by left|by right]. }
      * destruct (aok_front _ Hok t aw Hin') as [Hd Hev]. split; [done|]. intros e' He'. simpl.
        rewrite lookup_insert_ne; [by apply Hev|]. intros <-.
        eapply (Hne t aw e); [|done|done]. fold q. destruct q; [by apply elem_of_nil in Hin'|by right].
      * split; [done|]. intros e' [= <-]. simpl. apply lookup_insert_eq.
    + intros Hin. destruct (aok_front _ Hok t' aw Hin) as [Hd Hev]. split; [done|]. intros e' He'. simpl.
      rewrite lookup_insert_ne; [by apply Hev|]. intros <-.
      eapply (Hne t' aw e); [|done|done].
      destruct (queue_of (as_state a) t'); [by apply elem_of_nil in Hin|by right].
Qed.
(** The other awaiters of a queue are of other coroutines than its front. *)
Lemma tail_distinct a t aw0 q aw e :
  async_ok a → queue_of (as_state a) t = aw0 :: q → m_event aw0 = Some e →
  aw ∈ q → m_event aw ≠ Some e.
Proof.
  intros Hok Hq He Hin Heq. pose proof (aok_distinct _ Hok t) as Hnd. rewrite Hq in Hnd.
  simpl in Hnd. apply NoDup_cons in Hnd as [Hno _]. apply Hno. rewrite He, <- Heq.
  by apply list_elem_of_fmap_2.
Qed.

Lemma packet_ok a msg t e data q :
  async_ok a → queue_of (as_state a) t = Awaiting (Some e) data :: q →
  async_ok (AsyncSys (noted e t q (message_payload msg) (as_state a)) (as_waiting a) (as_results a)).
Proof.
  intros Hok Hq.
  destruct (aok_head a t _ q Hok Hq) as (e0 & [[= <-] Hdec] & Hw & [b Hb]).
  set (s' := noted e t q (message_payload msg) (as_state a)).
  assert (∃ data', queue_of s' t = Awaiting (Some e) data' :: q ∧
            ∀ x, data' = Some x → ∃ bytes, decode bytes = Some x) as (data' & Hq' & Hdec').
  { unfold s', noted, message_payload. destruct (decode (drop 8 (view_data msg))) as [x|] eqn:Hx.
    - exists (Some x). split; [apply queue_of_set_queue|]. intros y [= <-]. by eexists.
    - exists data. by split. }
  assert (∀ t', t' ≠ t → queue_of s' t' = queue_of (as_state a) t') as Hother.
  { intros t' Hne. unfold s', noted. destruct (message_payload msg); [|done].
    by apply queue_of_set_queue_ne. }
  assert (events s' = <[e := true]> (events (as_state a))) as Hevents
    by (unfold s', noted; by destruct (message_payload msg)).
  assert (∀ t', tail (queue_of s' t') = tail (queue_of (as_state a) t')) as Htail.
  { intros t'. destruct (decide (t' = t)) as [->|Hne]; [by rewrite Hq', Hq|by rewrite Hother]. }
  assert (∀ t', m_event <$> queue_of s' t' = m_event <$> queue_of (as_state a) t') as Hfmap.
  { intros t'. destruct (decide (t' = t)) as [->|Hne]; [by rewrite Hq', Hq|by rewrite Hother]. }
  split; cbn [as_state as_waiting].
  - unfold s', noted. by destruct (message_payload msg); apply Hok.
  - rewrite Hevents, dom_insert_L, (aok_events _ Hok).
    apply subseteq_union_1_L, singleton_subseteq_l. by apply elem_of_dom.
  - intros t' aw Hin. destruct (decide (t' = t)) as [->|Hne]; [|apply (aok_queue _ Hok); by rewrite <- Hother].
    rewrite Hq' in Hin. apply elem_of_cons in Hin as [->|Hin]; [by exists e|].
    apply (aok_queue _ Hok). rewrite Hq. by right.
  - intros t'. rewrite Hfmap. apply Hok.
  - intros e' t' He'. rewrite Hfmap. by apply Hok.
  - intros t' aw Hin. rewrite Htail in Hin. destruct (aok_front _ Hok t' aw Hin) as [Hd Hev].
    split; [done|]. intros e' He'. rewrite Hevents, lookup_insert_ne; [by apply Hev|]. intros <-.
    specialize (Hev e He'). assert (t' = t) as ->.
    { assert (aw ∈ queue_of (as_state a) t') as Hin'
        by (destruct (queue_of (as_state a) t'); [by apply elem_of_nil in Hin|by right]).
      pose proof (in_queue_event a t' aw e Hok Hin' He'). congruence. }
    rewrite Hq in Hin. by apply (tail_distinct a t _ q aw e Hok Hq eq_refl Hin).
Qed.

Lemma resume_ok a e t aw q rs :
  async_ok a → queue_of (as_state a) t = aw :: q → awaiter_of aw e →
  async_ok (AsyncSys (with_events (delete e) (set_queue t q (as_state a))) (delete e (as_waiting a)) rs).
Proof.
  intros Hok Hq [He Hdec].
  pose proof (in_queue_event a t aw e Hok ltac:(rewrite Hq; left) He) as Hw.
  set (s' := with_events (delete e) (set_queue t q (as_state a))).
  assert (queue_of s' t = q) as Hq' by apply queue_of_set_queue.
  assert (∀ t', t' ≠ t → queue_of s' t' = queue_of (as_state a) t') as Hother
    by (intros t' Hne; by apply queue_of_set_queue_ne).
  assert (∀ t' aw', aw' ∈ queue_of s' t' → aw' ∈ queue_of (as_state a) t' ∧ m_event aw' ≠ Some e) as Hin'.
  { intros t' aw' Hin. destruct (decide (t' = t)) as [->|Hne].
    - rewrite Hq' in Hin. split; [rewrite Hq; by right|]. by eapply tail_distinct.
    - rewrite Hother in Hin by done. split; [done|]. intros He'.
      pose proof (in_queue_event a t' aw' e Hok Hin He'). congruence. }
  split; cbn [as_state as_waiting].
  - apply Hok.
  - simpl. by rewrite !dom_delete_L, (aok_events _ Hok).
  - intros t' aw' Hin. destruct (Hin' t' aw' Hin) as [Hin0 Hne].
    destruct (aok_queue _ Hok t' aw' Hin0) as (e' & Haw & Hw'). exists e'. split; [done|].
    rewrite lookup_delete_ne; [done|]. intros <-. by apply Hne, Haw.
  - intros t'. destruct (decide (t' = t)) as [->|Hne]; [|rewrite Hother by done; apply Hok].
    pose proof (aok_distinct _ Hok t) as Hnd. rewrite Hq in Hnd. rewrite Hq'.
    by apply NoDup_cons in Hnd as [_ Hnd].
  - intros e' t' [Hne Hw']%lookup_delete_Some. pose proof (aok_waiting _ Hok e' t' Hw') as Hin.
    destruct (decide (t' = t)) as [->|Hne']; [|by rewrite Hother]. rewrite Hq'. rewrite Hq in Hin.
    simpl in Hin. apply elem_of_cons in Hin as [Hin|Hin]; [congruence|done].
  - intros t' aw' Hin.
    assert (aw' ∈ queue_of s' t') as Hin1 by (destruct (queue_of s' t'); [by apply elem_of_nil in Hin|by right]).
    destruct (Hin' t' aw' Hin1) as [_ Hne].
    assert (aw' ∈ tail (queue_of (as_state a) t')) as Hin2.
    { destruct (decide (t' = t)) as [->|Hne']; [rewrite Hq; simpl; by rewrite <- Hq'|by rewrite <- Hother]. }
    destruct (aok_front _ Hok t' aw' Hin2) as [Hd Hev]. split; [done|]. intros e' He'. simpl.
    rewrite lookup_delete_ne; [by apply Hev|]. intros <-. done.
Qed.

Lemma async_step_ok a a' : async_ok a → async_step a a' → async_ok a'.
Proof.
  intros Hok [e t s' He Hb | msg b s' Hmsg Hp | e t r s' Hw Hset Hr].
  - rewrite (wait_Done a e t Hok He) in Hb. injection Hb as <-. by apply wait_ok.
  - rewrite (packet_Done a msg Hok Hmsg) in Hp.
    assert (∀ b', Done b' (as_state a) = Done b s' → async_ok (AsyncSys s' (as_waiting a) (as_results a))) as Hsame.
    { intros b' [= _ <-]. by destruct a. }
    destruct (message_type msg) as [t|]; [|by eapply Hsame].
    destruct (queue_of (as_state a) t) as [|[[e|] data] q] eqn:Hq; [by eapply Hsame| |by eapply Hsame].
    injection Hp as _ <-. by eapply packet_ok.
  - destruct (set_is_front a e t Hok Hw Hset) as (aw & q & Hq & Haw).
    rewrite (resume_Done a e t aw q Hok Hq Haw) in Hr. injection Hr as _ <-. by eapply resume_ok.
Qed.

Lemma async_initial_ok : async_ok async_initial.
Proof.
  split; try done.
  - intros t aw Hin. unfold queue_of in Hin. simpl in Hin. rewrite lookup_empty in Hin. by apply elem_of_nil in Hin.
  - intros t. unfold queue_of. simpl. rewrite lookup_empty. apply NoDup_nil_2.
  - intros t aw Hin. unfold queue_of in Hin. simpl in Hin. rewrite lookup_empty in Hin. by apply elem_of_nil in Hin.
Qed.

Lemma async_reachable_ok a : rtc async_step async_initial a → async_ok a.
Proof.
  intros Hr. pose proof async_initial_ok as Hok. revert Hok.
  induction Hr as [|a1 a2 a3 Hstep _ IH]; [done|]. intros Hok. by eapply IH, async_step_ok.
Qed.
(** ** Properties *)

(** However coroutines, packets and the scheduler interleave, no step of the
    asynchronous client faults (no dangling event, no double lock, no empty
    queue): a wait can start, any message can arrive, and a coroutine resumed
    after its event was set takes exactly its own awaiter from its queue. *)
Theorem async_reachable_safe a :
  rtc async_step async_initial a →
  (∀ e t, events (as_state a) !! e = None →
     ∃ s', async_wait_begin e t (as_state a) = Done tt s') ∧
  (∀ msg, view_wf msg → ∃ b s', on_data_received_pre_handler msg (as_state a) = Done b s') ∧
  (∀ e t, as_waiting a !! e = Some t → events (as_state a) !! e = Some true →
     ∃ aw q r s', queue_of (as_state a) t = aw :: q ∧ m_event aw = Some e ∧
       async_wait_end (B:=B) e t (as_state a) = Done (r : option T) s' ∧ queue_of s' t = q).
Proof.
  intros Hr. pose proof (async_reachable_ok a Hr) as Hok. split_and!.
  - intros e t He. rewrite (wait_Done a e t Hok He). by eexists.
  - intros msg Hmsg. rewrite (packet_Done a msg Hok Hmsg).
    destruct (message_type msg) as [t|]; [|by do 2 eexists].
    destruct (queue_of (as_state a) t) as [|[[e|] data] q]; by do 2 eexists.
  - intros e t Hw Hset. destruct (set_is_front a e t Hok Hw Hset) as (aw & q & Hq & Haw).
    exists aw, q. do 2 eexists. split; [done|]. split; [by apply Haw|].
    split; [by apply resume_Done|]. apply queue_of_set_queue.
Qed.

(** Two packets of one type before the first waiting coroutine is resumed:
    the second overwrites the first, which is lost, and the next coroutine is
    not notified although both packets were taken from the handlers. *)
Theorem second_packet_overwrites a t aw1 aw2 q m1 m2 x1 x2 :
  rtc async_step async_initial a → view_wf m1 → view_wf m2 →
  queue_of (as_state a) t = aw1 :: aw2 :: q →
  message_type m1 = Some t → message_payload m1 = Some x1 →
  message_type m2 = Some t → message_payload m2 = Some x2 →
  ∃ e1 e2 s1 s2 s3,
    m_event aw1 = Some e1 ∧ m_event aw2 = Some e2 ∧
    on_data_received_pre_handler m1 (as_state a) = Done true s1 ∧
    on_data_received_pre_handler m2 s1 = Done true s2 ∧
    async_wait_end (B:=B) e1 t s2 = Done (convert (B:=B) (T:=T) x2) s3 ∧
    queue_of s3 t = aw2 :: q ∧ m_data aw2 = None ∧ events s3 !! e2 = Some false.
Proof.
  intros Hr Hm1 Hm2 Hq Ht1 Hx1 Ht2 Hx2. pose proof (async_reachable_ok a Hr) as Hok.
  destruct aw1 as [ev1 d1]. destruct (aok_head a t _ _ Hok Hq) as (e1 & [[= ->] _] & Hw1 & Hlive1).
  destruct (aok_queue _ Hok t aw2) as (e2 & [He2 _] & Hw2); [rewrite Hq; right; left|].
  destruct (aok_front _ Hok t aw2) as [Hd2 Hev2]; [rewrite Hq; left|]. specialize (Hev2 e2 He2).
  assert (e2 ≠ e1) as Hne.
  { intros ->. by apply (tail_distinct a t _ (aw2 :: q) aw2 e1 Hok Hq eq_refl ltac:(left)). }
  pose proof (packet_ok a m1 t e1 d1 (aw2 :: q) Hok Hq) as Hok1. rewrite Hx1 in Hok1.
  set (s1 := noted e1 t (aw2 :: q) (Some x1) (as_state a)) in *.
  set (a1 := AsyncSys s1 (as_waiting a) (as_results a)) in *.
  assert (queue_of (as_state a1) t = Awaiting (Some e1) (Some x1) :: aw2 :: q) as Hq1
    by apply queue_of_set_queue.
  pose proof (packet_ok a1 m2 t e1 (Some x1) (aw2 :: q) Hok1 Hq1) as Hok2. rewrite Hx2 in Hok2.
  set (s2 := noted e1 t (aw2 :: q) (Some x2) (as_state a1)) in *.
  set (a2 := AsyncSys s2 (as_waiting a1) (as_results a1)) in *.
  assert (queue_of (as_state a2) t = Awaiting (Some e1) (Some x2) :: aw2 :: q) as Hq2
    by apply queue_of_set_queue.
  exists e1, e2, s1, s2, (with_events (delete e1) (set_queue t (aw2 :: q) s2)).
  split; [done|]. split; [done|]. split_and!.
  - by rewrite (packet_Done a m1 Hok Hm1), Ht1, Hq, Hx1.
  - change s1 with (as_state a1). by rewrite (packet_Done a1 m2 Hok1 Hm2), Ht2, Hq1, Hx2.
  - change s2 with (as_state a2). rewrite (resume_Done a2 e1 t _ (aw2 :: q) Hok2 Hq2); [done|].
    destruct (aok_queue _ Hok2 t (Awaiting (Some e1) (Some x2))) as (e' & [[= <-] Hd] & _);
      [rewrite Hq2; left|by split].
  - apply queue_of_set_queue.
  - done.
  - simpl. rewrite lookup_delete_ne, !lookup_insert_ne by done. done.
Qed.
End system.

(** ** Waiting for the connection *)

Section waiting.
Context {A H payload_t U : Type} `{SteamIPAddr A} `{SteamSockets A} `{PacketDeserializer payload_t}.
Local Abbreviation W := (client_world A H unit (async_heap (payload_t:=payload_t) U)).
Implicit Types (w : W) (p : positive).
Context (sleep_for : Z → M W unit).

(** The status [PacketClient.get_connection_status] reads. *)
Definition status_at p w : connection_status_t :=
  match w_objs w !! p with Some s => m_connection_status s | None => disconnected end.

(** The first [k] sleeps from number [i]. *)
Definition sleeps (i : Z) (k : nat) : M W unit := for_each ((λ j : nat, i + j) <$> seq 0 k) sleep_for.

Lemma sleeps_S i k w w' :
  sleep_for i w = Done tt w' → sleeps i (S k) w = sleeps (i + 1) k w'.
Proof.
  intros Hs. unfold sleeps. cbn [seq fmap list_fmap for_each].
  rewrite Z.add_0_r, (bind_Done _ _ _ _ _ Hs). f_equal. rewrite <- seq_shift, <- list_fmap_compose.
  apply list_fmap_ext. intros _ j _. simpl. lia.
Qed.

Lemma get_status_Done p w :
  is_Some (w_objs w !! p) → PacketClient.get_connection_status p w = Done (status_at p w) w.
Proof.
  intros [s Hs]. unfold PacketClient.get_connection_status, UdpClient.get_connection_status, status_at. by rewrite (bind_Done _ _ _ _ _ (deref_Done p s w Hs)), Hs.
Qed.

(** The other threads never fault while [connect] sleeps, and leave the client
    in place. *)
Definition others_ok p : Prop :=
  ∀ i w, is_Some (w_objs w !! p) → wp (sleep_for i) (λ _ w', is_Some (w_objs w' !! p)) w.

(** What the loop answers, after how many sleeps. *)
Definition loop_answer p (i : Z) w (k : nat) (st : connection_status_t) w' : Prop :=
  i + k ≤ max_iters ∧
  ∃ w1, sleeps i k w = Done tt w1 ∧ status_at p w1 = st ∧
    (∀ j w2, (j < k)%nat → sleeps i j w = Done tt w2 → status_at p w2 = connecting) ∧
    if decide (i + k = max_iters) then w' = w1
    else st ≠ connecting ∧ sleep_for (i + k) w1 = Done tt w'.

Lemma connect_loop_answer p (n : nat) i w :
  others_ok p → is_Some (w_objs w !! p) → 0 ≤ i → i + n = max_iters →
  ∃ k st w', connect_loop sleep_for (S n) p i w = Done (Some st) w' ∧ loop_answer p i w k st w'.
Proof.
  intros Hok. revert i w. induction n as [|n IH]; intros i w Hp Hi Hn; cbn [connect_loop];
    rewrite (bind_Done _ _ _ _ _ (get_status_Done p w Hp)).
  - rewrite decide_True by lia. exists 0%nat, (status_at p w), w. split; [done|].
    split; [lia|]. exists w. split_and!; [done|done|intros; lia|]. by rewrite decide_True by lia.
  - rewrite decide_False by lia.
    destruct (proj1 (wp_Done _ _ _) (Hok i w Hp)) as ([] & w1 & Hsleep & Hp1).
    rewrite (bind_Done _ _ _ _ _ Hsleep). case_decide as Hst.
    + assert (u32 (i + 1) = i + 1) as ->.
      { apply wrap_small. unfold fits. change max_iters with 20 in Hn. lia. }
      destruct (IH (i + 1) w1 Hp1) as (k & st & w' & Hloop & Hk & w2 & Hs2 & Hst2 & Hall & Hend); [lia..|].
      exists (S k), st, w'. split; [done|]. split; [lia|]. exists w2.
      split_and!; [by rewrite (sleeps_S i k w w1 Hsleep)|done| |].
      * intros [|j] v Hj Hv; [by injection Hv as <-|].
        rewrite (sleeps_S i j w w1 Hsleep) in Hv. eapply Hall; [|done]. lia.
      * replace (i + S k) with (i + 1 + k) by lia. done.
    + exists 0%nat, (status_at p w), w1. split; [done|]. split; [lia|]. exists w.
      split_and!; [done|done|intros; lia|]. rewrite decide_False by lia. split; [done|].
      by rewrite Z.add_0_r.
Qed.

(** The wait of the asynchronous [connect] ends after at most twenty sleeps
    of 50 ms: it reads the status before each of them, stops one sleep after the
    first status other than [connecting], and otherwise reads it a last time; the
    answer is true exactly when the status read last is [connected]. *)
Theorem async_connect_terminates p a pt w w1 :
  others_ok p → is_Some (w_objs w1 !! p) →
  PacketClient.is_running p w = Done false w →
  PacketClient.connect p a pt w = Done true w1 →
  ∃ k st w2, connect sleep_for p a pt w = Done (Some (bool_decide (st = connected))) w2 ∧
    loop_answer p 0 w1 k st w2 ∧ (k ≤ 20)%nat.
Proof.
  intros Hok Hp Hrun Hconn.
  destruct (connect_loop_answer p (Z.to_nat max_iters) 0 w1 Hok Hp) as (k & st & w2 & Hloop & Hans); [done..|].
  exists k, st, w2. split_and!; [|done|].
  - unfold connect. rewrite (bind_Done _ _ _ _ _ Hrun), (bind_Done _ _ _ _ _ Hconn). cbn [negb].
    by rewrite (bind_Done _ _ _ _ _ Hloop).
  - destruct Hans as [Hk _]. change max_iters with 20 in Hk. lia.
Qed.
End waiting.

(** ** Simulated coroutines *)

(** Coroutines 1 and 2 wait for packets of type 128. *)
Definition sim_async_state : async_state (list byte) :=
  match (async_wait_begin 1 128 ;; async_wait_begin 2 128) async_init with
  | Done _ s => s
  | Fault _ s => s
  end.
Definition sim_async : async_sys (list byte) byte := AsyncSys sim_async_state {[2%nat := 128; 1%nat := 128]} [].

Definition sim_message_of (b : byte) : incoming_view_message_t :=
  ViewMessage 2 (header_bytes (header_create serde_msgpack 128) ++ [x91; b]) 10.

Lemma sim_async_reachable :
  rtc (async_step (B:=list byte)) async_initial sim_async.
Proof.
  eapply rtc_l; [by eapply (step_wait _ 1%nat 128)|].
  eapply rtc_l; [by eapply (step_wait _ 2%nat 128)|].
  cbn [as_waiting as_results async_initial]. apply rtc_refl.
Qed.

Lemma async_reachable_safe_witness :
  ∃ b s', on_data_received_pre_handler (sim_message_of x2a) (as_state sim_async) = Done b s'.
Proof.
  destruct (async_reachable_safe (B:=list byte) (T:=byte) sim_async sim_async_reachable) as (_ & Hmsg & _).
  apply Hmsg. split; by vm_compute.
Defined.

Lemma second_packet_overwrites_witness :
  ∃ s1 s2 s3,
    on_data_received_pre_handler (sim_message_of x2a) sim_async_state = Done true s1 ∧
    on_data_received_pre_handler (sim_message_of x2b) s1 = Done true s2 ∧
    async_wait_end (B:=list byte) (T:=byte) 1 128 s2 = Done (Some x2b) s3 ∧
    events s3 !! 2%nat = Some false.
Proof.
  destruct (second_packet_overwrites (B:=list byte) (T:=byte) sim_async 128
    (Awaiting (Some 1%nat) None) (Awaiting (Some 2%nat) None) [] (sim_message_of x2a) (sim_message_of x2b)
    [x2a] [x2b] sim_async_reachable) as (e1 & e2 & s1 & s2 & s3 & He1 & He2 & H1 & H2 & H3 & _ & _ & Hev);
    [split; by vm_compute..|by vm_compute|by vm_compute|by vm_compute|by vm_compute|by vm_compute|].
  injection He1 as <-. injection He2 as <-.
  exists s1, s2, s3. split; [exact H1|]. split; [exact H2|]. split; [exact H3|exact Hev].
Defined.

(** The peer answers during the third sleep. *)
Definition sim_async_world : client_world sim_addr nat unit (async_heap (payload_t:=list byte) unit) :=
  let ss := sim_steam [] [] in
  match create 1 (World ∅ None None [] (ClientHeap ∅ (AsyncHeap unit None tt))) with
  | Done _ w => w
  | Fault _ w => w
  end.

Definition sim_sleep (i : Z) : M (client_world sim_addr nat unit (async_heap (payload_t:=list byte) unit)) unit :=
  if decide (i = 2) then update 1 (set_status connected) else skip.

Lemma async_connect_terminates_witness :
  let ss := sim_steam [] [] in
  ∃ w2, connect sim_sleep 1 "10.0.0.1" 80 sim_async_world = Done (Some true) w2.
Proof.
  intros ss.
  pose (w1 := match PacketClient.connect 1 "10.0.0.1" 80 sim_async_world with
              | Done _ w1 => w1 | Fault _ w1 => w1 end).
  destruct (async_connect_terminates sim_sleep 1 "10.0.0.1" 80 sim_async_world w1)
    as (k & st & w2 & Hc & _).
  - intros i w [s Hs]. unfold sim_sleep. case_decide; [|by apply wp_skip; exists s].
    eapply wp_update; [done|]. eexists. apply lookup_with_obj.
  - by vm_compute; eexists.
  - by vm_compute.
  - by vm_compute.
  - assert (∃ v, connect sim_sleep 1 "10.0.0.1" 80 sim_async_world = Done (Some true) v) as [v Hv]
      by (eexists; by vm_compute).
    rewrite Hv in Hc. injection Hc as Hst _. exists v. exact Hv.
Defined.
