(* ===== verification/AsyncOrder.v ===== *)
(** * Who has waited longest

    The order in which coroutines started to wait, kept beside the system of
    [AsyncClientProps.v]: the queues of awaiters are in that order, so a message
    wakes the coroutine that has waited longest for its type; and what that
    coroutine gets, whatever happens before it is resumed. *)

From S2P Require Import Prelude Bytes NetworkTypes Packet Serde Runtime.
From S2P Require Import Simulated UdpClient PacketClient AsyncClient AsyncClientProps.
Import Strings.Byte.
Local Open Scope Z_scope.

Lemma dom_insert_new {A} (m : gmap nat A) i x : m !! i = None → dom (<[i := x]> m) ∖ dom m = {[i]}.
Proof.
  intros Hi. apply set_eq. intros j.
  rewrite elem_of_difference, !elem_of_dom, elem_of_singleton, lookup_insert_is_Some'.
  split; [by intros [[->|?] Hj]|]. intros ->. split; [by left|]. rewrite Hi. by intros [].
Qed.

Lemma dom_delete_none {A} (m : gmap nat A) i : dom (delete i m) ∖ dom m = ∅.
Proof.
  apply set_eq. intros j. rewrite dom_delete_L, elem_of_difference, elem_of_difference. split; [tauto|].
  by intros ?%elem_of_empty.
Qed.

Section order.
Context {B T payload_t : Type}.
Context `{PacketSerializer B T payload_t, !PacketDeserializerLaws payload_t}.
Context `{OwningBuffer B} `{!PayloadConversionLaws B T payload_t}.
Implicit Types (a : async_sys payload_t T) (s : async_state payload_t) (t : packet_type_t) (e : nat) (h : list nat).

(** ** The order of the waits *)

(** After a step, the coroutines that have gone are taken out, and one that has
    come is put at the end. *)
Definition update_order h a a' : list nat :=
  filter (λ e, is_Some (as_waiting a' !! e)) h ++ elements (dom (as_waiting a') ∖ dom (as_waiting a)).

(** A run of the system that ends in [a], where the coroutines that wait have
    started to in the order [h]. *)
Inductive waits_in_order : list nat → async_sys payload_t T → Prop :=
| order_initial : waits_in_order [] async_initial
| order_step h a a' : waits_in_order h a → async_step (B:=B) a a' → waits_in_order (update_order h a a') a'.

(** The coroutines that wait for packets of type [t], the first to start first. *)
Definition waiting_for t h a : list nat := filter (λ e, as_waiting a !! e = Some t) h.

Lemma waits_in_order_reachable h a : waits_in_order h a → rtc (async_step (B:=B)) async_initial a.
Proof. induction 1; [done|]. by eapply rtc_r. Qed.

Lemma reachable_waits_in_order a : rtc (async_step (B:=B)) async_initial a → ∃ h, waits_in_order h a.
Proof.
  revert a. apply rtc_ind_r; [by exists []; constructor|].
  intros a a' _ Hstep [h Hh]. eexists. by eapply order_step.
Qed.

(** ** The queues are in that order *)

Record in_order h a : Prop := {
  io_dom e : e ∈ h ↔ is_Some (as_waiting a !! e);
  io_queue t : m_event <$> queue_of (as_state a) t = Some <$> waiting_for t h a;
}.

Lemma update_order_same h a a' :
  (∀ e, e ∈ h ↔ is_Some (as_waiting a !! e)) → as_waiting a' = as_waiting a → update_order h a a' = h.
Proof.
  intros Hdom Hw. unfold update_order. rewrite Hw, difference_diag_L, elements_empty, app_nil_r.
  apply list_filter_all. intros e He. by apply Hdom.
Qed.

Lemma update_order_wait h a s' e t rs :
  (∀ e, e ∈ h ↔ is_Some (as_waiting a !! e)) → as_waiting a !! e = None →
  update_order h a (AsyncSys s' (<[e := t]> (as_waiting a)) rs) = h ++ [e].
Proof.
  intros Hdom Hfresh. unfold update_order. simpl. f_equal.
  - apply list_filter_all. intros e' He'. apply lookup_insert_is_Some'. right. by apply Hdom.
  - rewrite dom_insert_new by done. apply elements_singleton.
Qed.

Lemma update_order_resume h a s' e rs :
  update_order h a (AsyncSys s' (delete e (as_waiting a)) rs)
  = filter (λ e', is_Some (delete e (as_waiting a) !! e')) h.
Proof.
  unfold update_order. simpl. rewrite dom_delete_none, elements_empty. apply app_nil_r.
Qed.

Lemma in_order_initial : in_order [] async_initial.
Proof.
  split; [|intros t; by unfold queue_of; simpl; rewrite lookup_empty].
  intros e. simpl. rewrite lookup_empty. split; [by intros ?%elem_of_nil|by intros []].
Qed.

Lemma in_order_packet h a msg s' b rs :
  async_ok a → view_wf msg → on_data_received_pre_handler msg (as_state a) = Done b s' →
  in_order h a → in_order h (AsyncSys s' (as_waiting a) rs).
Proof.
  intros Hok Hmsg Hp [Hdom Hqueue]. split; [done|]. intros t. cbn [as_state].
  change (waiting_for t h _) with (waiting_for t h a). rewrite <- Hqueue.
  rewrite (packet_Done a msg Hok Hmsg) in Hp.
  destruct (message_type msg) as [t'|]; [|by injection Hp as _ <-].
  destruct (queue_of (as_state a) t') as [|[[e|] data] q] eqn:Hq; [by injection Hp as _ <-| |by injection Hp as _ <-].
  injection Hp as _ <-. unfold noted.
  destruct (message_payload msg) as [x|]; [|done]. destruct (decide (t = t')) as [->|Hne].
  - change (queue_of (with_events _ ?s) t') with (queue_of s t'). by rewrite queue_of_set_queue, Hq.
  - change (queue_of (with_events _ ?s) t) with (queue_of s t). by rewrite queue_of_set_queue_ne.
Qed.

Lemma in_order_wait h a e t rs :
  as_waiting a !! e = None → in_order h a →
  in_order (h ++ [e]) (AsyncSys (set_queue t (queue_of (as_state a) t ++ [Awaiting (Some e) None])
    (with_events <[e := false]> (as_state a))) (<[e := t]> (as_waiting a)) rs).
Proof.
  intros Hfresh [Hdom Hqueue]. split; simpl.
  - intros e'. rewrite elem_of_app, list_elem_of_singleton, Hdom, lookup_insert_is_Some'.
    split; intros [?|?]; auto.
  - intros t'. unfold waiting_for. rewrite filter_app, fmap_app. simpl.
    assert (filter (λ e', <[e := t]> (as_waiting a) !! e' = Some t') h = waiting_for t' h a) as ->.
    { apply list_filter_ext. intros e' He'%Hdom. rewrite lookup_insert_ne; [done|].
      intros <-. rewrite Hfresh in He'. by destruct He'. }
    rewrite <- Hqueue. destruct (decide (t = t')) as [<-|Hne].
    + rewrite (filter_singleton_True _ e []) by apply lookup_insert_eq. by rewrite queue_of_set_queue, fmap_app.
    + rewrite (filter_singleton_False _ e []) by (rewrite lookup_insert_eq; congruence).
      rewrite queue_of_set_queue_ne by done. by rewrite app_nil_r.
Qed.

Lemma in_order_resume h a e t aw q rs :
  async_ok a → as_waiting a !! e = Some t → queue_of (as_state a) t = aw :: q → m_event aw = Some e →
  in_order h a →
  in_order (filter (λ e', is_Some (delete e (as_waiting a) !! e')) h)
    (AsyncSys (with_events (delete e) (set_queue t q (as_state a))) (delete e (as_waiting a)) rs).
Proof.
  intros Hok Hw Hq He [Hdom Hqueue]. split; simpl.
  - intros e'. rewrite list_elem_of_filter, Hdom. split; [by intros []|]. intros Hd. split; [done|].
    destruct Hd as [t' [_ Ht']%lookup_delete_Some]. by exists t'.
  - intros t'. unfold waiting_for. cbn [as_waiting].
    rewrite list_filter_filter, (list_filter_iff _ (λ e', e' ≠ e ∧ as_waiting a !! e' = Some t')), <- list_filter_filter.
    2: { intros e'. rewrite lookup_delete_Some. split; [intros; destruct_and?; auto|]. intros [Hne Ht']. split_and!; [congruence|done|].
         exists t'. by rewrite lookup_delete_ne. }
    fold (waiting_for t' h a).
    change (queue_of (with_events _ ?s) t') with (queue_of s t'). destruct (decide (t' = t)) as [->|Hne].
    + rewrite queue_of_set_queue. pose proof (Hqueue t) as Ht. pose proof (aok_distinct _ Hok t) as Hnd.
      rewrite Hq, fmap_cons, He in Ht, Hnd.
      destruct (waiting_for t h a) as [|e0 rest]; [done|]. rewrite fmap_cons in Ht.
      injection Ht as <- Ht. change (m_event <$> q = Some <$> rest) in Ht. rewrite Ht in Hnd |- *.
      apply NoDup_cons in Hnd as [Hno _]. rewrite filter_cons_False by auto. f_equal. symmetry. apply list_filter_all.
      intros e' He' ->. apply Hno. by apply list_elem_of_fmap_2.
    + rewrite queue_of_set_queue_ne, Hqueue by congruence. f_equal. symmetry. apply list_filter_all.
      intros e' [He' _]%list_elem_of_filter ->. congruence.
Qed.

Lemma waits_in_order_ok h a : waits_in_order h a → async_ok a ∧ in_order h a.
Proof.
  intros Hh. split; [by eapply async_reachable_ok, waits_in_order_reachable|].
  induction Hh as [|h a a' Hh IH Hstep]; [apply in_order_initial|].
  assert (async_ok a) as Hok by by eapply async_reachable_ok, waits_in_order_reachable.
  destruct Hstep as [e t s' He Hb | msg b s' Hmsg Hp | e t r s' Hw Hset Hr].
  - rewrite (wait_Done a e t Hok He) in Hb. injection Hb as <-. pose proof (fresh_event a e Hok He) as Hfresh.
    rewrite (update_order_wait h a _ e t _ (io_dom _ _ IH) Hfresh). by apply in_order_wait.
  - rewrite update_order_same by (done || apply IH). by eapply in_order_packet.
  - destruct (set_is_front a e t Hok Hw Hset) as (aw & q & Hq & Haw).
    rewrite (resume_Done a e t aw q Hok Hq Haw) in Hr. injection Hr as _ <-.
    rewrite update_order_resume. by eapply in_order_resume; [..|apply Haw|].
Qed.

(** ** Until it is resumed *)

(** A step during which the coroutine [e] goes on waiting for packets of type [t]
    and no message of that type arrives: a coroutine starts to wait or is resumed,
    or a message of another type comes. *)
Definition beside e t a a' : Prop :=
  async_step (B:=B) a a' ∧ as_waiting a' !! e = Some t ∧
  (as_waiting a' = as_waiting a → ∃ msg b,
     view_wf msg ∧ message_type msg ≠ Some t ∧
     on_data_received_pre_handler msg (as_state a) = Done b (as_state a')).

(** The awaiter at the front of a queue, and its event, are left as they are. *)
Definition notified_front e t aw a : Prop :=
  async_ok a ∧ (∃ q, queue_of (as_state a) t = aw :: q) ∧ m_event aw = Some e ∧
  events (as_state a) !! e = Some true.

Lemma packet_beside e t aw a msg s' b :
  notified_front e t aw a → view_wf msg → message_type msg ≠ Some t →
  on_data_received_pre_handler msg (as_state a) = Done b s' →
  (∃ q, queue_of s' t = aw :: q) ∧ events s' !! e = Some true.
Proof.
  intros (Hok & Hq & _ & Hset) Hmsg Ht Hp. rewrite (packet_Done a msg Hok Hmsg) in Hp.
  destruct (message_type msg) as [t'|]; [|by injection Hp as _ <-].
  destruct (queue_of (as_state a) t') as [|[[e'|] data] q'] eqn:Hq'; [by injection Hp as _ <-| |by injection Hp as _ <-].
  injection Hp as _ <-. unfold noted.
  assert (∀ s, events s = events (as_state a) → (<[e' := true]> (events s) : gmap nat bool) !! e = Some true) as Hev.
  { intros s ->. destruct (decide (e' = e)) as [->|Hne]; [apply lookup_insert_eq|by rewrite lookup_insert_ne]. }
  destruct (message_payload msg) as [x|]; (split; [|by apply Hev]).
  - change (queue_of (with_events _ ?s) t) with (queue_of s t). rewrite queue_of_set_queue_ne by congruence. done.
  - done.
Qed.

Lemma beside_front e t aw a a' : notified_front e t aw a → beside e t a a' → notified_front e t aw a'.
Proof.
  intros Hfront (Hstep & Hwait & Hpacket). pose proof Hfront as (Hok & [q Hq] & He & Hset).
  cut ((∃ q, queue_of (as_state a') t = aw :: q) ∧ events (as_state a') !! e = Some true).
  { intros [? ?]. split; [by eapply async_step_ok|done]. }
  destruct Hstep as [e' t' s' Hfresh Hb | msg b s' Hmsg Hp | e' t' r s' Hw Hset' Hr]; cbn [as_state as_waiting] in *.
  - rewrite (wait_Done a e' t' Hok Hfresh) in Hb. injection Hb as <-. split.
    + destruct (decide (t' = t)) as [->|Hne]; [rewrite queue_of_set_queue, Hq; by eexists|].
      rewrite queue_of_set_queue_ne by done. by eexists.
    + simpl. rewrite lookup_insert_ne; [done|]. congruence.
  - destruct (Hpacket eq_refl) as (msg' & b' & Hmsg' & Ht & Hp'). by eapply packet_beside.
  - destruct (set_is_front a e' t' Hok Hw Hset') as (aw' & q' & Hq' & Haw').
    rewrite (resume_Done a e' t' aw' q' Hok Hq' Haw') in Hr. injection Hr as _ <-.
    apply lookup_delete_Some in Hwait as [Hne _].
    assert (t' ≠ t) as Hne' by (intros ->; destruct Haw' as [He' _]; congruence).
    change (queue_of (with_events _ ?s) t) with (queue_of s t). rewrite queue_of_set_queue_ne by done.
    split; [by eexists|]. simpl. by rewrite lookup_delete_ne.
Qed.

Lemma beside_fronts e t aw a a' : notified_front e t aw a → rtc (beside e t) a a' → notified_front e t aw a'.
Proof. intros Hfront Hr. induction Hr; [done|]. eauto using beside_front. Qed.

(** What the coroutine gets: the payload of the message, or, if that does not
    decode, what an earlier one left. *)
Definition delivered msg (aw : awaiting_packet_t payload_t) : option T :=
  match message_payload msg with Some x => convert (B:=B) x | None => outcome_of (B:=B) aw end.

(** C26: a message for which nobody waits is left to the ordinary handlers and
    changes nothing; any other is kept from them, and wakes, of the coroutines that
    wait for its type, the one that started to wait first, and no other.  That
    coroutine can be resumed from then on; if no second message of the type arrives
    before, then whatever other coroutines and messages of other types do in
    between, it gets the payload converted to its type, or, when the payload does
    not decode, what an earlier message left, and takes its awaiter out of the
    queue. *)
Theorem packet_reaches_longest_waiting h a msg t :
  waits_in_order h a → view_wf msg → message_type msg = Some t →
  match waiting_for t h a with
  | [] => on_data_received_pre_handler msg (as_state a) = Done false (as_state a)
  | e :: _ => ∃ aw q s1,
      queue_of (as_state a) t = aw :: q ∧ m_event aw = Some e ∧
      on_data_received_pre_handler msg (as_state a) = Done true s1 ∧
      events s1 = <[e := true]> (events (as_state a)) ∧ tail (queue_of s1 t) = q ∧
      ∀ a2, rtc (beside e t) (AsyncSys s1 (as_waiting a) (as_results a)) a2 →
        events (as_state a2) !! e = Some true ∧
        ∃ s2, async_wait_end (B:=B) e t (as_state a2) = Done (delivered msg aw) s2 ∧
          queue_of s2 t = tail (queue_of (as_state a2) t)
  end.
Proof.
  intros Hh Hmsg Ht. destruct (waits_in_order_ok h a Hh) as [Hok [_ Hqueue]]. specialize (Hqueue t).
  rewrite (packet_Done a msg Hok Hmsg), Ht.
  destruct (queue_of (as_state a) t) as [|[ev data] q] eqn:Hq;
    destruct (waiting_for t h a) as [|e rest]; try done.
  injection Hqueue as -> _. destruct (aok_head a t _ q Hok Hq) as (e' & [[= <-] Hdec] & _).
  pose proof (packet_ok a msg t e data q Hok Hq) as Hok1. set (s1 := noted e t q (message_payload msg) (as_state a)) in *.
  set (aw1 := Awaiting (Some e) (match message_payload msg with Some x => Some x | None => data end)).
  assert (queue_of s1 t = aw1 :: q ∧ events s1 = <[e := true]> (events (as_state a))) as [Hq1 Hev1].
  { unfold s1, noted, aw1. destruct (message_payload msg); [|by split]. by split; [apply queue_of_set_queue|]. }
  exists (Awaiting (Some e) data), q, s1. split_and!; [done|done|done|done|by rewrite Hq1|].
  intros a2 Hr. assert (notified_front e t aw1 a2) as (Hok2 & [q2 Hq2] & _ & Hset2).
  { eapply beside_fronts; [|exact Hr]. split; [done|]. split; [by exists q|]. split; [done|].
    cbn [as_state]. rewrite Hev1. apply lookup_insert_eq. }
  split; [done|]. exists (with_events (delete e) (set_queue t q2 (as_state a2))).
  split; [|rewrite Hq2; apply queue_of_set_queue].
  destruct (aok_head a2 t aw1 q2 Hok2 Hq2) as (e2 & Haw2 & _). pose proof (proj1 Haw2) as He2. injection He2 as <-.
  rewrite (resume_Done a2 e t aw1 q2 Hok2 Hq2 Haw2). f_equal.
  unfold delivered, outcome_of, aw1. simpl. by destruct (message_payload msg).
Qed.
End order.

(** ** Simulated coroutines *)

(** Coroutine 1 has waited longer than coroutine 2. *)
Lemma sim_async_in_order : waits_in_order (B:=list byte) [1%nat; 2%nat] sim_async.
Proof.
  set (s1 := match async_wait_begin (payload_t:=list byte) 1 128 async_init with Done _ s => s | Fault _ s => s end).
  set (a1 := AsyncSys s1 {[1%nat := 128]} [] : async_sys (list byte) byte).
  change [1%nat; 2%nat] with (update_order (update_order [] async_initial a1) a1 sim_async).
  eapply order_step; [eapply order_step; [constructor|]|].
  - exact (step_wait async_initial 1%nat 128 s1 eq_refl eq_refl).
  - exact (step_wait a1 2%nat 128 sim_async_state eq_refl eq_refl).
Qed.

(** A third starts to wait after the message, before the first is resumed. *)
Lemma packet_reaches_longest_waiting_witness :
  ∃ s1 s2 s3,
    on_data_received_pre_handler (sim_message_of x2a) sim_async_state = Done true s1 ∧
    async_wait_begin 3 128 s1 = Done tt s2 ∧
    async_wait_end (B:=list byte) (T:=byte) 1 128 s2 = Done (Some x2a) s3 ∧
    m_event <$> queue_of s3 128 = [Some 2%nat; Some 3%nat].
Proof.
  pose proof (packet_reaches_longest_waiting (B:=list byte) (T:=byte) [1%nat; 2%nat] sim_async (sim_message_of x2a) 128
    sim_async_in_order ltac:(split; by vm_compute) ltac:(by vm_compute)) as Hrun.
  change (waiting_for 128 [1%nat; 2%nat] sim_async) with [1%nat; 2%nat] in Hrun.
  destruct Hrun as (aw & q & s1 & Hq & _ & Hmsg & _ & _ & Hlater).
  assert (aw = Awaiting (Some 1%nat) None) as -> by (revert Hq; vm_compute; by intros [= <- _]).
  pose (s1' := match on_data_received_pre_handler (sim_message_of x2a) sim_async_state with Done _ s => s | Fault _ s => s end).
  change (as_state sim_async) with sim_async_state in Hmsg.
  assert (s1 = s1') as -> by (unfold s1'; by rewrite Hmsg).
  pose (s2 := match async_wait_begin 3 128 s1' with Done _ s => s | Fault _ s => s end).
  destruct (Hlater (AsyncSys s2 (<[3%nat := 128]> (as_waiting sim_async)) [])) as (_ & s3 & Hend & Hq3).
  - apply rtc_once. split; [|split; [by vm_compute|]].
    + exact (step_wait (AsyncSys s1' (as_waiting sim_async) []) 3%nat 128 s2 eq_refl eq_refl).
    + intros Hw%(f_equal (.!! 3%nat)). vm_compute in Hw. discriminate Hw.
  - exists s1', s2, s3. split; [exact Hmsg|]. split; [by vm_compute|]. split; [exact Hend|]. rewrite Hq3. by vm_compute.
Defined.
