(* ===== verification/AwaiterPointers.v ===== *)
(** * The pointer to an awaiter

    [on_data_received_pre_handler] takes a pointer to the front of a queue of
    awaiters, lets go of the mutex, and goes on using the pointer: it writes
    [m_data], reads [m_event], and sets the event.  Here these are steps of their
    own, between which coroutines start to wait and are resumed on other threads. *)

From S2P Require Import Prelude Bytes NetworkTypes Packet Serde Runtime.
From S2P Require Import Simulated Dispatch UdpClient PacketClient AsyncClient AsyncClientProps.
Import Strings.Byte.
Local Open Scope Z_scope.

(** ** The pieces of the pre-handler *)

Section pieces.
Context {payload_t : Type} `{PacketDeserializerLaws payload_t}.
Local Abbreviation S := (async_state payload_t).
Implicit Types (s : S) (t : packet_type_t) (i : nat).

(** Up to the end of the block that holds the mutex, and the payload, which
    depends on the message alone. *)
Definition pre_handler_find (p_message : incoming_view_message_t)
    : M S (option (packet_type_t * option payload_t)) :=
  maybe_header ← unpack_internal_packet_header (view_data p_message) (view_size p_message);
  match maybe_header with
  | None => mret None
  | Some header =>
      if decide (m_serde_type header ≠ SerdeT) then mret None
      else
        let packet_type := m_packet_type header in
        found ← awaiters_lock (
          aws ← gets m_awaiters;
          mret (match aws !! packet_type with Some (_ :: _) => true | _ => false end));
        if negb found then mret None
        else
          let payload_ptr := drop (Z.to_nat sizeof_header) (view_data p_message) in
          let payload_size := u64 (view_size p_message - sizeof_header) in
          maybe_payload ← deserialize_packet payload_ptr payload_size;
          mret (Some (packet_type, maybe_payload))
  end.

(** The element of a queue of awaiters. *)
Definition awaiter_at t i : M S (awaiting_packet_t payload_t) :=
  λ s, or_fault NullDeref (queue_of s t !! i) s.

(** [awaiter->m_data = ...]. *)
Definition store_data t i (payload : payload_t) : M S unit :=
  awaiter ← awaiter_at t i;
  modify (λ s, set_queue t (<[i := Awaiting (m_event awaiter) (Some payload)]> (queue_of s t)) s).

(** [awaiter->m_event]. *)
Definition load_event t i : M S (option nat) :=
  awaiter ← awaiter_at t i; mret (m_event awaiter).

(** [if (event) event->set()]. *)
Definition fire (event : option nat) : M S unit :=
  match event with Some e => set_event e | None => skip end.

Lemma pre_handler_find_Done msg s :
  m_awaiters_mutex s = false → view_wf msg →
  pre_handler_find msg s
  = match message_type msg with
    | Some t => match queue_of s t with
                | [] => Done None s
                | _ => Done (Some (t, message_payload msg)) s
                end
    | None => Done None s
    end.
Proof.
  intros Hm [Hsize Hlen]. unfold pre_handler_find, message_type, message_payload. rewrite Hsize.
  rewrite (bind_Done _ _ _ _ _ (unpack_Done (view_data msg) s)).
  destruct (parse_header (view_data msg)) as [header|] eqn:Hparse; [|done].
  destruct (decide (m_serde_type header = SerdeT)) as [Hs|Hs]; [|by rewrite decide_True].
  rewrite decide_False by (intros Hne; done).
  erewrite bind_Done.
  2: { erewrite awaiters_lock_Done; [|done|]; [|unfold gets; by erewrite bind_Done]. done. }
  replace (with_awaiters_mutex false (with_awaiters_mutex true s)) with s by (destruct s; simpl in *; by subst).
  unfold queue_of. simpl. destruct (m_awaiters s !! m_packet_type header) as [[|aw q]|]; [done| |done].
  destruct (deserialize_after_header (view_data msg) header s Hparse Hlen) as [Hdes _].
  cbn [negb]. by rewrite (bind_Done _ _ _ _ _ Hdes).
Qed.

(** The pieces put together are the pre-handler. *)
Lemma pre_handler_cut msg s :
  m_awaiters_mutex s = false → view_wf msg →
  (∀ t aw, head (queue_of s t) = Some aw → ∃ e, m_event aw = Some e ∧ is_Some (events s !! e)) →
  on_data_received_pre_handler msg s
  = (found ← pre_handler_find msg;
     match found with
     | None => mret false
     | Some (t, payload) =>
         match payload with Some x => store_data t 0 x | None => skip end ;;
         event ← load_event t 0;
         fire event ;;
         mret true
     end) s.
Proof.
  intros Hm Hmsg Hev. pose proof Hmsg as [Hsize Hlen].
  pose proof (pre_handler_find_Done msg s Hm Hmsg) as Hfind. rewrite (pre_handler_Done msg s Hm Hsize Hlen Hev).
  destruct (message_type msg) as [t|]; [|by rewrite (bind_Done _ _ _ _ _ Hfind)]. specialize (Hev t).
  destruct (queue_of s t) as [|[ev data] q] eqn:Hq; rewrite (bind_Done _ _ _ _ _ Hfind); [done|].
  destruct (Hev _ eq_refl) as (e & He & Hlive). simpl in He. subst ev.
  assert (∀ s', queue_of s' t !! 0%nat = Some (Awaiting (Some e) (message_payload msg)) ∨ queue_of s' t = queue_of s t →
    is_Some (events s' !! e) →
    (event ← load_event t 0; fire event ;; mret true) s' = Done true (with_events <[e := true]> s')) as Hrest.
  { intros s' Hs' Hlive'.
    assert (∃ aw, queue_of s' t !! 0%nat = Some aw ∧ m_event aw = Some e) as (aw & Haw & Hev').
    { destruct Hs' as [-> | ->]; [by eexists|]. rewrite Hq. by eexists. }
    unfold load_event, awaiter_at, mbind, M_bind. rewrite Haw. simpl. rewrite Hev'. cbn [fire].
    by rewrite set_event_Done. }
  unfold noted. destruct (message_payload msg) as [x|].
  - assert (store_data t 0 x s = Done tt (set_queue t (Awaiting (Some e) (Some x) :: q) s)) as Hstore.
    { unfold store_data, awaiter_at, modify, mbind, M_bind. rewrite Hq. simpl. by rewrite Hq. }
    rewrite (bind_Done _ _ _ _ _ Hstore). symmetry. apply Hrest; [left; by rewrite queue_of_set_queue|done].
  - rewrite (bind_Done skip _ s tt s) by done. symmetry. apply Hrest; [by right|done].
Qed.
End pieces.

(** ** The system *)

(** Where the pre-handler is: nowhere; with a pointer to the awaiter numbered [k]
    of the queue of type [t], about to write the payload, or about to read the
    event; about to set the event. *)
Inductive handler_pos (payload_t : Type) :=
| HIdle
| HFound (t : packet_type_t) (k : nat) (payload : option payload_t)
| HLoading (t : packet_type_t) (k : nat)
| HSetting (event : option nat).
Arguments HIdle {payload_t}.
Arguments HFound {payload_t}.
Arguments HLoading {payload_t}.
Arguments HSetting {payload_t}.

(** The coroutines, how many awaiters each queue has popped, and the handler.  A
    [std::deque] does not move its elements: the awaiter numbered [k] is where it
    was until it is popped. *)
Record fine (payload_t T : Type) := Fine {
  fi_sys : async_sys payload_t T;
  fi_popped : gmap packet_type_t nat;
  fi_handler : handler_pos payload_t;
}.
Arguments Fine {payload_t T}.
Arguments fi_sys {payload_t T}.
Arguments fi_popped {payload_t T}.
Arguments fi_handler {payload_t T}.

(** A coroutine starts to wait; a message arrives, and the pre-handler runs up to
    the end of its lock; its next step; a coroutine is resumed. *)
Inductive fine_op :=
| FWait (e : nat) (t : packet_type_t)
| FArrive (msg : incoming_view_message_t)
| FHandler
| FResume (e : nat).

Section fine.
Context {B T payload_t : Type}.
Context `{PacketSerializer B T payload_t, !PacketDeserializerLaws payload_t}.
Context `{OwningBuffer B} `{!PayloadConversionLaws B T payload_t}.
Local Abbreviation S := (async_state payload_t).
Local Abbreviation F := (fine payload_t T).
Implicit Types (x : F) (a : async_sys payload_t T) (s : S) (t : packet_type_t) (e k : nat).

Definition popped x t : nat := default 0%nat (fi_popped x !! t).

Definition put_state s x : F :=
  Fine (AsyncSys s (as_waiting (fi_sys x)) (as_results (fi_sys x))) (fi_popped x) (fi_handler x).

Definition on_state {R} (m : M S R) : M F R := λ x,
  match m (as_state (fi_sys x)) with
  | Done r s => Done r (put_state s x)
  | Fault f s => Fault f (put_state s x)
  end.

Definition set_handler (h : handler_pos payload_t) x : F := Fine (fi_sys x) (fi_popped x) h.

(** The place of the awaiter numbered [k] in its queue, unless it was popped. *)
Definition follow t k : M F nat := λ x,
  or_fault NullDeref (if decide (popped x t ≤ k)%nat then Some (k - popped x t)%nat else None) x.

Definition coroutine_waits e t x : F :=
  Fine (AsyncSys (as_state (fi_sys x)) (<[e := t]> (as_waiting (fi_sys x))) (as_results (fi_sys x)))
    (fi_popped x) (fi_handler x).

Definition coroutine_ends e t (r : option T) x : F :=
  Fine (AsyncSys (as_state (fi_sys x)) (delete e (as_waiting (fi_sys x))) (as_results (fi_sys x) ++ [(e, r)]))
    (<[t := Datatypes.S (popped x t)]> (fi_popped x)) (fi_handler x).

Definition handler_step (h : handler_pos payload_t) : M F unit :=
  match h with
  | HIdle => skip
  | HFound t k None => modify (set_handler (HLoading t k))
  | HFound t k (Some payload) =>
      i ← follow t k;
      on_state (store_data t i payload) ;;
      modify (set_handler (HLoading t k))
  | HLoading t k =>
      i ← follow t k;
      event ← on_state (load_event t i);
      modify (set_handler (HSetting event))
  | HSetting event => on_state (fire event) ;; modify (set_handler HIdle)
  end.

Definition exec_fine (op : fine_op) : M F unit :=
  match op with
  | FWait e t => on_state (async_wait_begin e t) ;; modify (coroutine_waits e t)
  | FArrive msg =>
      found ← on_state (pre_handler_find msg);
      match found with
      | Some (t, payload) =>
          k ← gets (λ x, popped x t);
          modify (set_handler (HFound t k payload))
      | None => skip
      end
  | FHandler => h ← gets fi_handler; handler_step h
  | FResume e =>
      t ← gets (λ x, as_waiting (fi_sys x) !! e);
      match t with
      | Some t => on_state (async_wait_end (B:=B) e t) ≫= λ r : option T, modify (coroutine_ends e t r)
      | None => skip
      end
  end.

Definition fine_allowed (op : fine_op) x : Prop :=
  let a := fi_sys x in
  match op with
  | FWait e _ => events (as_state a) !! e = None
  | FArrive msg => fi_handler x = HIdle ∧ view_wf msg
  | FHandler => fi_handler x ≠ HIdle
  | FResume e => is_Some (as_waiting a !! e) ∧ events (as_state a) !! e = Some true
  end.

(** No message arrives for a coroutine that has been notified and not resumed. *)
Definition one_at_a_time (op : fine_op) x : Prop :=
  match op with
  | FArrive msg => ∀ t aw e, message_type msg = Some t → head (queue_of (as_state (fi_sys x)) t) = Some aw →
      m_event aw = Some e → events (as_state (fi_sys x)) !! e = Some false
  | _ => True
  end.

Definition fine_step x x' : Prop :=
  ∃ op, fine_allowed op x ∧ one_at_a_time op x ∧ exec_fine op x = Done tt x'.

Definition fine_initial : F := Fine async_initial ∅ HIdle.

(** ** The atomic state behind it *)

(** The payload written, as far as the handler has come. *)
Definition written e t (q : list (awaiting_packet_t payload_t)) (payload : option payload_t) s : S :=
  match payload with Some y => set_queue t (Awaiting (Some e) (Some y) :: q) s | None => s end.

(** A message in hand for the coroutine [e], which has not been notified. *)
Definition in_hand msg e t data q a : Prop :=
  view_wf msg ∧ message_type msg = Some t ∧ queue_of (as_state a) t = Awaiting (Some e) data :: q ∧
  events (as_state a) !! e = Some false.

(** Until the event is set, the message has not arrived in the atomic system. *)
Definition handling (h : handler_pos payload_t) (pops : packet_type_t → nat) a s : Prop :=
  match h with
  | HIdle => s = as_state a
  | HFound t k payload => ∃ msg e data q, in_hand msg e t data q a ∧ payload = message_payload msg ∧
      pops t = k ∧ s = as_state a
  | HLoading t k => ∃ msg e data q, in_hand msg e t data q a ∧ pops t = k ∧
      s = written e t q (message_payload msg) (as_state a)
  | HSetting event => ∃ msg e t data q, in_hand msg e t data q a ∧ event = Some e ∧
      s = written e t q (message_payload msg) (as_state a)
  end.

Record behind x a : Prop := {
  be_waiting : as_waiting (fi_sys x) = as_waiting a;
  be_results : as_results (fi_sys x) = as_results a;
  be_state : handling (fi_handler x) (popped x) a (as_state (fi_sys x));
}.

(** ** Commuting *)

Definition wait_state e t s : S :=
  set_queue t (queue_of s t ++ [Awaiting (Some e) None]) (with_events <[e := false]> s).
Definition resume_state e t q s : S := with_events (delete e) (set_queue t q s).

Lemma events_written e t q d s : events (written e t q d s) = events s.
Proof. by destruct d. Qed.
Lemma mutex_written e t q d s : m_awaiters_mutex (written e t q d s) = m_awaiters_mutex s.
Proof. by destruct d. Qed.
Lemma queue_of_written_ne e t t' q d s : t ≠ t' → queue_of (written e t q d s) t' = queue_of s t'.
Proof. intros Hne. destruct d; [by apply queue_of_set_queue_ne|done]. Qed.

Lemma written_wait e t q d e' t' data s :
  queue_of s t = Awaiting (Some e) data :: q →
  wait_state e' t' (written e t q d s)
  = written e t (if decide (t' = t) then q ++ [Awaiting (Some e') None] else q) d (wait_state e' t' s).
Proof.
  intros Hq. destruct d as [y|]; [|done]. unfold written, wait_state. case_decide as Ht.
  - subst t'. rewrite queue_of_set_queue. unfold set_queue, with_awaiters, with_events. simpl.
    by rewrite !insert_insert_eq.
  - rewrite queue_of_set_queue_ne by done. unfold set_queue, with_awaiters, with_events. simpl.
    f_equal. by apply insert_insert_ne.
Qed.

Lemma written_resume e t q d e' t' q' s :
  t' ≠ t → resume_state e' t' q' (written e t q d s) = written e t q d (resume_state e' t' q' s).
Proof.
  intros Hne. destruct d as [y|]; [|done].
  unfold written, resume_state, set_queue, with_awaiters, with_events. simpl. f_equal. by apply insert_insert_ne.
Qed.

(** What a step on the atomic state leaves in hand. *)
Lemma in_hand_wait msg e t data q a e' t' ws rs :
  in_hand msg e t data q a → events (as_state a) !! e' = None →
  in_hand msg e t data (if decide (t' = t) then q ++ [Awaiting (Some e') None] else q)
    (AsyncSys (wait_state e' t' (as_state a)) ws rs).
Proof.
  intros (Hwf & Ht & Hq & He) Hfresh. split_and!; [done|done| |].
  - unfold wait_state. simpl. case_decide as Hd.
    + subst t'. rewrite queue_of_set_queue. by rewrite Hq.
    + by rewrite queue_of_set_queue_ne.
  - simpl. rewrite lookup_insert_ne; [done|]. congruence.
Qed.

Lemma in_hand_resume msg e t data q a e' t' q' ws rs :
  in_hand msg e t data q a → t' ≠ t → e' ≠ e →
  in_hand msg e t data q (AsyncSys (resume_state e' t' q' (as_state a)) ws rs).
Proof.
  intros (Hwf & Ht & Hq & He) Hne Hne'. split_and!; [done|done| |].
  - by rewrite <- Hq; apply queue_of_set_queue_ne.
  - simpl. by rewrite lookup_delete_ne.
Qed.

Lemma behind_state x a :
  async_ok a → behind x a →
  m_awaiters_mutex (as_state (fi_sys x)) = false ∧ events (as_state (fi_sys x)) = events (as_state a).
Proof.
  intros Hok [_ _ Hst]. pose proof (aok_mutex _ Hok) as Hm.
  destruct (fi_handler x) as [|t k d|t k|ev]; simpl in Hst.
  - by rewrite Hst.
  - by destruct Hst as (? & ? & ? & ? & _ & _ & _ & ->).
  - destruct Hst as (? & ? & ? & ? & _ & _ & ->). by rewrite mutex_written, events_written.
  - destruct Hst as (? & ? & ? & ? & ? & _ & _ & ->). by rewrite mutex_written, events_written.
Qed.

(** ** Each fine step is an atomic step, or none *)

Lemma on_state_Done {R} (m : M S R) x r s :
  m (as_state (fi_sys x)) = Done r s → on_state m x = Done r (put_state s x).
Proof. intros Hm. unfold on_state. by rewrite Hm. Qed.

Lemma handling_wait h pops a s e t ws rs :
  handling h pops a s → events (as_state a) !! e = None →
  handling h pops (AsyncSys (wait_state e t (as_state a)) ws rs) (wait_state e t s).
Proof.
  intros Hh Hfresh. destruct h as [|t' k d|t' k|ev]; simpl in *; [by subst| | |].
  - destruct Hh as (msg & e' & data & q & Hin & -> & Hk & ->). do 4 eexists.
    by split; [by eapply (in_hand_wait _ _ _ _ _ _ e t)|].
  - destruct Hh as (msg & e' & data & q & Hin & Hk & ->). do 4 eexists.
    split; [by eapply (in_hand_wait _ _ _ _ _ _ e t)|]. split; [done|]. by eapply written_wait, Hin.
  - destruct Hh as (msg & e' & t' & data & q & Hin & -> & ->). do 5 eexists.
    split; [by eapply (in_hand_wait _ _ _ _ _ _ e t)|]. split; [done|]. by eapply written_wait, Hin.
Qed.

(** A coroutine that can be resumed does not wait for the message in hand. *)
Lemma in_hand_apart msg e t data q a e' t' :
  async_ok a → in_hand msg e t data q a → as_waiting a !! e' = Some t' → events (as_state a) !! e' = Some true →
  t' ≠ t ∧ e' ≠ e.
Proof.
  intros Hok (_ & _ & Hq & He) Hw Hset. assert (e' ≠ e) by congruence. split; [|done]. intros ->.
  destruct (set_is_front a e' t Hok Hw Hset) as (aw & q' & Hq' & [Hev _]). rewrite Hq in Hq'.
  injection Hq' as <- _. simpl in Hev. congruence.
Qed.

Lemma handling_resume h pops pops' a s e t aw q ws rs :
  async_ok a → handling h pops a s → as_waiting a !! e = Some t → events (as_state a) !! e = Some true →
  (∀ t', t' ≠ t → pops' t' = pops t') → queue_of (as_state a) t = aw :: q →
  queue_of s t = aw :: q ∧
  handling h pops' (AsyncSys (resume_state e t q (as_state a)) ws rs) (resume_state e t q s).
Proof.
  intros Hok Hh Hw Hset Hpops Hq. destruct h as [|t' k d|t' k|ev]; simpl in *; [by subst| | |].
  - destruct Hh as (msg & e' & data & q' & Hin & -> & <- & ->).
    destruct (in_hand_apart _ _ _ _ _ _ e t Hok Hin Hw Hset) as [Ht He].
    split; [done|]. do 4 eexists. split; [by eapply (in_hand_resume _ _ _ _ _ _ e t q)|].
    split; [done|]. split; [by apply Hpops|done].
  - destruct Hh as (msg & e' & data & q' & Hin & <- & ->).
    destruct (in_hand_apart _ _ _ _ _ _ e t Hok Hin Hw Hset) as [Ht He].
    rewrite queue_of_written_ne by done. split; [done|].
    do 4 eexists. split; [by eapply (in_hand_resume _ _ _ _ _ _ e t q)|].
    split; [by apply Hpops|by apply written_resume].
  - destruct Hh as (msg & e' & t' & data & q' & Hin & -> & ->).
    destruct (in_hand_apart _ _ _ _ _ _ e t Hok Hin Hw Hset) as [Ht He].
    rewrite queue_of_written_ne by done. split; [done|].
    do 5 eexists. split; [by eapply (in_hand_resume _ _ _ _ _ _ e t q)|].
    split; [done|by apply written_resume].
Qed.

(** What a fine step comes to. *)
Definition simulated op x a : Prop :=
  ∃ x' a', exec_fine op x = Done tt x' ∧ rtc (async_step (B:=B)) a a' ∧ behind x' a'.

Lemma fine_wait_ok x a e t :
  async_ok a → behind x a → events (as_state a) !! e = None → simulated (FWait e t) x a.
Proof.
  intros Hok Hb Hfresh. destruct (behind_state x a Hok Hb) as [Hm _]. destruct Hb as [Hw Hr Hst].
  do 2 eexists. split_and!.
  - unfold exec_fine. by rewrite (bind_Done _ _ _ _ _ (on_state_Done _ x tt _ (wait_exact _ e t Hm))).
  - eapply rtc_once, (step_wait _ e t); [done|]. apply wait_exact, Hok.
  - split; [by simpl; rewrite Hw|done|]. by apply (handling_wait _ _ _ _ e t).
Qed.

Lemma fine_resume_ok x a e t :
  async_ok a → behind x a → as_waiting a !! e = Some t → events (as_state a) !! e = Some true →
  simulated (FResume e) x a.
Proof.
  intros Hok Hb Hwait Hset. destruct (behind_state x a Hok Hb) as [Hm _]. destruct Hb as [Hw Hr Hst].
  destruct (set_is_front a e t Hok Hwait Hset) as (aw & q & Hq & Haw).
  set (r := outcome_of (B:=B) (T:=T) aw).
  destruct (handling_resume (fi_handler x) (popped x) (popped (coroutine_ends e t r x)) a _ e t aw q
    (delete e (as_waiting a)) (as_results a ++ [(e, r)]) Hok Hst Hwait Hset) as [Hqx Hst']; [|done|].
  { intros t' Hne. unfold popped at 1. simpl. by rewrite lookup_insert_ne. }
  do 2 eexists. split_and!.
  - unfold exec_fine, gets. erewrite bind_Done; [|done]. rewrite Hw, Hwait.
    by rewrite (bind_Done _ _ _ _ _ (on_state_Done _ x _ _ (resume_exact _ e t aw q Hm Hqx Haw))).
  - eapply rtc_once, (step_resume _ e t); [done|done|]. by eapply resume_Done.
  - split; [by simpl; rewrite Hw|by simpl; rewrite Hr|]. done.
Qed.

Lemma fine_arrive_ok x a msg :
  async_ok a → behind x a → fi_handler x = HIdle → view_wf msg → one_at_a_time (FArrive msg) x →
  simulated (FArrive msg) x a.
Proof.
  intros Hok [Hw Hr Hst] Hidle Hmsg Hone. simpl in Hone. rewrite Hidle in Hst. simpl in Hst. rewrite Hst in Hone.
  pose proof (pre_handler_find_Done msg (as_state a) (aok_mutex _ Hok) Hmsg) as Hfind. rewrite <- Hst in Hfind.
  assert (behind (put_state (as_state (fi_sys x)) x) a) as Hstay.
  { split; [done|done|]. simpl. by rewrite Hidle. }
  unfold simulated, exec_fine. rewrite Hst in *.
  destruct (message_type msg) as [t|] eqn:Ht.
  2: { exists (put_state (as_state a) x), a. split_and!; [|done..]. rewrite <- Hst in Hfind.
       by rewrite (bind_Done _ _ _ _ _ (on_state_Done _ x _ _ Hfind)), Hst. }
  destruct (queue_of (as_state a) t) as [|aw q] eqn:Hq.
  { exists (put_state (as_state a) x), a. split_and!; [|done..]. rewrite <- Hst in Hfind.
    by rewrite (bind_Done _ _ _ _ _ (on_state_Done _ x _ _ Hfind)), Hst. }
  destruct (aok_head a t aw q Hok Hq) as (e & [He _] & _ & _). destruct aw as [ev data]. simpl in He. subst ev.
  rewrite <- Hst in Hfind. do 2 eexists. split_and!.
  - rewrite (bind_Done _ _ _ _ _ (on_state_Done _ x _ _ Hfind)). unfold gets. by erewrite bind_Done.
  - apply rtc_refl.
  - split; [done|done|]. simpl. exists msg, e, data, q. split_and!; [|done..].
    split_and!; [done|done|done|]. by eapply Hone; [|rewrite Hq|].
Qed.

Lemma follow_front x t : follow t (popped x t) x = Done 0%nat x.
Proof. unfold follow. rewrite decide_True by done. by rewrite Nat.sub_diag. Qed.

Lemma fine_handler_ok x a : async_ok a → behind x a → fi_handler x ≠ HIdle → simulated FHandler x a.
Proof.
  intros Hok [Hw Hr Hst] Hbusy. unfold simulated, exec_fine, gets. erewrite bind_Done; [|done].
  destruct (fi_handler x) as [|t k d|t k|ev] eqn:Hh; [done| | |]; simpl in Hst; unfold handler_step.
  - destruct Hst as (msg & e & data & q & Hin & -> & <- & Hst).
    exists (set_handler (HLoading t (popped x t)) (put_state (written e t q (message_payload msg) (as_state a)) x)), a.
    split_and!; [|done|by split; [done..|]; exists msg, e, data, q].
    destruct (message_payload msg) as [y|]; simpl.
    + rewrite (bind_Done _ _ _ _ _ (follow_front x t)).
      erewrite bind_Done; [done|]. apply on_state_Done. rewrite Hst.
      unfold store_data, awaiter_at, modify, mbind, M_bind. destruct Hin as (_ & _ & Hq & _). rewrite Hq. simpl. by rewrite Hq.
    + unfold modify. rewrite <- Hst. by destruct x as [[? ? ?] ? ?].
  - destruct Hst as (msg & e & data & q & Hin & <- & Hst).
    exists (set_handler (HSetting (Some e)) x), a.
    split_and!; [|done|by split; [done..|]; exists msg, e, t, data, q].
    rewrite (bind_Done _ _ _ _ _ (follow_front x t)).
    assert (load_event t 0 (as_state (fi_sys x)) = Done (Some e) (as_state (fi_sys x))) as Hload.
    { rewrite Hst. unfold load_event, awaiter_at, mbind, M_bind. destruct Hin as (_ & _ & Hq & _).
      destruct (message_payload msg); simpl; rewrite ?queue_of_set_queue, ?Hq; reflexivity. }
    rewrite (bind_Done _ _ _ _ _ (on_state_Done _ x _ _ Hload)). by destruct x as [[? ? ?] ? ?].
  - destruct Hst as (msg & e & t & data & q & Hin & -> & Hst). destruct Hin as (Hmsg & Ht & Hq & He).
    exists (set_handler HIdle (put_state (noted e t q (message_payload msg) (as_state a)) x)),
      (AsyncSys (noted e t q (message_payload msg) (as_state a)) (as_waiting a) (as_results a)).
    split_and!.
    + erewrite bind_Done; [done|]. apply on_state_Done. rewrite Hst.
      apply (set_event_Done e (written e t q (message_payload msg) (as_state a))).
      by rewrite events_written, He.
    + eapply rtc_once, (step_packet _ msg true); [done|]. by rewrite (packet_Done a msg Hok Hmsg), Ht, Hq.
    + by split.
Qed.

Lemma fine_op_ok op x a :
  async_ok a → behind x a → fine_allowed op x → one_at_a_time op x → simulated op x a.
Proof.
  intros Hok Hb Hall Hone. destruct (behind_state x a Hok Hb) as [_ Hev].
  destruct op as [e t|msg| |e]; simpl in Hall.
  - apply fine_wait_ok; [done|done|]. by rewrite <- Hev.
  - destruct Hall. by apply fine_arrive_ok.
  - by apply fine_handler_ok.
  - destruct Hall as [[t Ht] Hset]. rewrite Hev in Hset. rewrite (be_waiting _ _ Hb) in Ht.
    by eapply fine_resume_ok.
Qed.

Lemma fine_reachable_behind x :
  rtc fine_step fine_initial x → ∃ a, rtc (async_step (B:=B)) async_initial a ∧ async_ok a ∧ behind x a.
Proof.
  assert (∀ x0 a, rtc fine_step x0 x → behind x0 a → rtc (async_step (B:=B)) async_initial a →
    ∃ a, rtc (async_step (B:=B)) async_initial a ∧ async_ok a ∧ behind x a) as Hgen.
  2: { intros Hx. apply (Hgen fine_initial async_initial Hx); [by split|done]. }
  intros x0 a Hx. revert a. induction Hx as [x|x x1 x2 (op & Hall & Hone & Hrun) _ IH]; intros a Hb Ha.
  - exists a. split_and!; [done| |done]. by eapply async_reachable_ok.
  - destruct (fine_op_ok op x a (async_reachable_ok a Ha) Hb Hall Hone) as (x' & a' & Hrun' & Hsteps & Hb').
    rewrite Hrun in Hrun'. injection Hrun' as <-. apply (IH a'); [done|]. by etrans.
Qed.

(** A pointer to an awaiter that was popped. *)
Lemma popped_awaiter_faults t k payload x :
  fi_handler x = HFound t k payload → (k < popped x t)%nat →
  ∃ x', (exec_fine FHandler ;; exec_fine FHandler) x = Fault NullDeref x'.
Proof.
  intros Hh Hk.
  assert (∀ y, popped y t = popped x t → follow t k y = Fault NullDeref y) as Hgone.
  { intros y Hy. unfold follow. rewrite decide_False; [done|]. rewrite Hy. lia. }
  assert (∀ y, exec_fine FHandler y = handler_step (fi_handler y) y) as Hrun by done.
  unfold mbind at 1, M_bind at 1. rewrite Hrun, Hh. destruct payload as [y|]; cbn [handler_step].
  - exists x. by rewrite (bind_Fault _ _ _ _ _ (Hgone x eq_refl)).
  - exists (set_handler (HLoading t k) x). unfold modify. rewrite Hrun. cbn [fi_handler set_handler handler_step].
    by rewrite (bind_Fault _ _ _ _ _ (Hgone (set_handler (HLoading t k) x) eq_refl)).
Qed.

(** ** Properties *)

(** C13: the pre-handler lets go of its mutex before it uses the awaiter it found,
    and coroutines start to wait and are resumed between its steps; as long as no
    message arrives for a coroutine already notified, this cannot be told from
    handling each message at once: no step faults, the coroutines that wait and
    the results of those that ended are those of a run of the atomic system, and
    its state too whenever the pre-handler is not in the middle of a message. *)
Theorem one_at_a_time_refines op x :
  rtc fine_step fine_initial x → fine_allowed op x → one_at_a_time op x →
  ∃ x' a, exec_fine op x = Done tt x' ∧ rtc (async_step (B:=B)) async_initial a ∧
    as_waiting (fi_sys x') = as_waiting a ∧ as_results (fi_sys x') = as_results a ∧
    (fi_handler x' = HIdle → fi_sys x' = a).
Proof.
  intros Hx Hall Hone. destruct (fine_reachable_behind x Hx) as (a & Ha & Hok & Hb).
  destruct (fine_op_ok op x a Hok Hb Hall Hone) as (x' & a' & Hrun & Hsteps & [Hw Hr Hst]).
  exists x', a'. split_and!; [done|by etrans|done|done|].
  intros Hidle. rewrite Hidle in Hst. simpl in Hst.
  destruct (fi_sys x') as [s w r], a' as [s' w' r']. simpl in *. by subst.
Qed.

(** C33: a message that arrives for a coroutine already notified, which is resumed
    while the pre-handler is between its lock and its first use of the awaiter:
    the coroutine takes the awaiter out of the queue, and the pre-handler goes on
    through a pointer to an element that is gone. *)
Theorem awaiter_pointer_dangles x t e data q msg :
  rtc fine_step fine_initial x → fi_handler x = HIdle →
  queue_of (as_state (fi_sys x)) t = Awaiting (Some e) data :: q →
  events (as_state (fi_sys x)) !! e = Some true →
  view_wf msg → message_type msg = Some t →
  ∃ x1 x2 x3,
    exec_fine (FArrive msg) x = Done tt x1 ∧
    fine_allowed (FResume e) x1 ∧ exec_fine (FResume e) x1 = Done tt x2 ∧
    queue_of (as_state (fi_sys x2)) t = q ∧
    (exec_fine FHandler ;; exec_fine FHandler) x2 = Fault NullDeref x3.
Proof.
  intros Hx Hidle Hq Hset Hmsg Ht.
  destruct (fine_reachable_behind x Hx) as (a & Ha & Hok & [Hw Hr Hst]).
  rewrite Hidle in Hst. simpl in Hst. rewrite Hst in Hq, Hset.
  destruct (aok_head a t _ q Hok Hq) as (e' & Haw & Hwait & _). pose proof (proj1 Haw) as He. injection He as <-.
  pose proof (pre_handler_find_Done msg (as_state a) (aok_mutex _ Hok) Hmsg) as Hfind. rewrite Ht, Hq, <- Hst in Hfind.
  set (x1 := set_handler (HFound t (popped x t) (message_payload msg)) (put_state (as_state (fi_sys x)) x)).
  assert (as_state (fi_sys x1) = as_state a) as Hst1 by done.
  pose proof (resume_Done a e t _ q Hok Hq Haw) as Hend. rewrite <- Hst1 in Hend.
  set (r := outcome_of (B:=B) (T:=T) (Awaiting (Some e) data)) in Hend.
  set (x2 := coroutine_ends e t r (put_state (with_events (delete e) (set_queue t q (as_state (fi_sys x1)))) x1)).
  assert (popped x2 t = Datatypes.S (popped x t)) as Hpop
    by (unfold popped at 1; simpl; by rewrite lookup_insert_eq).
  destruct (popped_awaiter_faults t (popped x t) (message_payload msg) x2 eq_refl) as [x3 Hfault];
    [rewrite Hpop; lia|].
  exists x1, x2, x3. split_and!; [| | | |done].
  - unfold exec_fine. rewrite (bind_Done _ _ _ _ _ (on_state_Done _ x _ _ Hfind)). by unfold gets; erewrite bind_Done.
  - split; simpl; [by rewrite Hw; eexists|by rewrite Hst].
  - unfold exec_fine, gets. erewrite bind_Done; [|done]. simpl. rewrite Hw, Hwait.
    by rewrite (bind_Done _ _ _ _ _ (on_state_Done _ x1 _ _ Hend)).
  - apply queue_of_set_queue.
Qed.
End fine.

(** ** Simulated coroutines *)

Definition sim_fine_run (ops : list fine_op) : fine (list byte) byte :=
  match for_each ops (exec_fine (B:=list byte) (T:=byte)) fine_initial with
  | Done _ x => x
  | Fault _ x => x
  end.

(** Coroutine 1 waits, and a message has arrived for it. *)
Definition sim_fine : fine (list byte) byte :=
  sim_fine_run [FWait 1 128; FArrive (sim_message_of x2a); FHandler; FHandler; FHandler].

Lemma sim_fine_reachable : rtc (fine_step (B:=list byte)) fine_initial sim_fine.
Proof.
  apply (rtc_l _ _ (sim_fine_run [FWait 1 128])).
  { exists (FWait 1 128). by split_and!. }
  apply (rtc_l _ _ (sim_fine_run [FWait 1 128; FArrive (sim_message_of x2a)])).
  { exists (FArrive (sim_message_of x2a)). split_and!; [by vm_compute| |by vm_compute].
    intros t aw e [= <-]. intros [= <-]. by intros [= <-]. }
  apply (rtc_l _ _ (sim_fine_run [FWait 1 128; FArrive (sim_message_of x2a); FHandler])).
  { exists FHandler. split_and!; [by vm_compute|done|by vm_compute]. }
  apply (rtc_l _ _ (sim_fine_run [FWait 1 128; FArrive (sim_message_of x2a); FHandler; FHandler])).
  { exists FHandler. split_and!; [by vm_compute|done|by vm_compute]. }
  apply rtc_once. exists FHandler. split_and!; [by vm_compute|done|by vm_compute].
Qed.

(** The coroutine is resumed and gets the payload. *)
Lemma one_at_a_time_refines_witness :
  ∃ x', exec_fine (B:=list byte) (FResume 1) sim_fine = Done tt x' ∧
    ∃ a, rtc (async_step (B:=list byte)) async_initial a ∧ as_results a = [(1%nat, Some x2a)].
Proof.
  destruct (one_at_a_time_refines (B:=list byte) (FResume 1) sim_fine sim_fine_reachable)
    as (x' & a & Hrun & Ha & _ & Hr & _); [by vm_compute; eauto|done|].
  exists x'. split; [done|]. exists a. split; [done|]. rewrite <- Hr.
  revert Hrun. vm_compute. by intros [= <-].
Defined.

(** A second message arrives before the coroutine is resumed. *)
Lemma awaiter_pointer_dangles_witness :
  ∃ x1 x2 x3,
    exec_fine (B:=list byte) (FArrive (sim_message_of x2b)) sim_fine = Done tt x1 ∧
    exec_fine (B:=list byte) (FResume 1) x1 = Done tt x2 ∧
    (exec_fine (B:=list byte) FHandler ;; exec_fine (B:=list byte) FHandler) x2 = Fault NullDeref x3.
Proof.
  destruct (awaiter_pointer_dangles (B:=list byte) sim_fine 128 1 (Some [x2a]) [] (sim_message_of x2b) sim_fine_reachable)
    as (x1 & x2 & x3 & Ha & _ & Hb & _ & Hc); [by vm_compute..|split; by vm_compute|by vm_compute|].
  by exists x1, x2, x3.
Defined.
