(* ===== verification/AsyncClientSystem.v ===== *)
(** * The asynchronous client on top of the packet client

    The pre-handler of the asynchronous client, run by the network thread of the
    [UdpClient] below, is a step of the coroutine system: the two transition
    systems composed. *)

From S2P Require Import Prelude Bytes NetworkTypes Packet Serde Runtime Ledger.
From S2P Require Import UdpClient UdpClientSpec Links UdpClientSafety Simulated UdpClientSystem.
From S2P Require Import Dispatch PacketClient PacketClientProps PacketClientSystem.
From S2P Require Import AsyncClient AsyncClientProps.
Import Strings.Byte.
Local Open Scope Z_scope.

(** ** The contract of the user's handlers *)

Section contract.
Context {B T payload_t U : Type}.
Context `{PacketSerializer B T payload_t, !PacketDeserializerLaws payload_t}.
Context `{OwningBuffer B} `{!PayloadConversionLaws B T payload_t} `{CallbackContract U}.
Local Abbreviation heap := (async_heap (payload_t:=payload_t) U).
Implicit Types (h : heap) (s : async_state payload_t).

(** The awaiters and events are those of some run of coroutines and packets. *)
Definition coroutines_run s : Prop :=
  ∃ a : async_sys payload_t T, rtc (async_step (B:=B)) async_initial a ∧ as_state a = s.

Definition answers h : Prop := ∀ s, ah_async U h = Some s → coroutines_run s.

(** A message arrives. *)
Definition packet_arrives : relation (async_state payload_t) := λ s s',
  ∃ msg b, view_wf msg ∧ on_data_received_pre_handler msg s = Done b s'.

(** Messages arrive at the client, if it is there. *)
Definition messages_arrive (o o' : option (async_state payload_t)) : Prop :=
  match o, o' with
  | Some s, Some s' => rtc packet_arrives s s'
  | None, None => True
  | _, _ => False
  end.

Lemma packets_are_steps s s' (w : gmap nat packet_type_t) (r : list (nat * option T)) :
  rtc packet_arrives s s' → rtc (async_step (B:=B)) (AsyncSys s w r) (AsyncSys s' w r).
Proof.
  induction 1 as [|s1 s2 s3 (msg & b & Hmsg & Hp) _ IH]; [done|].
  eapply rtc_l; [by eapply (step_packet (AsyncSys s1 w r))|exact IH].
Qed.

Lemma coroutines_run_packets s s' : rtc packet_arrives s s' → coroutines_run s → coroutines_run s'.
Proof.
  intros Hs ([s0 w r] & Hr & <-). exists (AsyncSys s' w r). split; [|done].
  etrans; [exact Hr|]. by apply packets_are_steps.
Qed.

#[local] Instance messages_arrive_preorder : PreOrder messages_arrive.
Proof.
  split; [intros [s|]; [apply rtc_refl|done]|]. intros [s1|] [s2|] [s3|]; simpl; try done. intros Hs1 Hs2. by etrans.
Qed.

(** The network thread only lets messages arrive: coroutines start to wait and
    are resumed on other threads. *)
Definition async_contract : CallbackContract heap.
Proof.
  refine {|
    user_frame h h' := messages_arrive (ah_async U h) (ah_async U h') ∧ user_frame (ah_user U h) (ah_user U h');
    callback_pre D h := answers h ∧ callback_pre D (ah_user U h);
  |}.
  - split; [by intros h|]. intros h1 h2 h3 [Ha Hu] [Ha' Hu']. split; by etrans.
  - intros D h h' [Ha Hu] [Hpre HU]. split; [|by eapply callback_pre_frame].
    intros s' Hs'. unfold messages_arrive in Ha. rewrite Hs' in Ha.
    destruct (ah_async U h) as [s|] eqn:Hs; [|done]. by eapply coroutines_run_packets, Hpre.
Defined.
End contract.

(** ** The pre-handler *)

Section client.
Context {A H B T payload_t U : Type} `{SteamIPAddr A} `{SteamSockets A} `{!SteamLaws A}.
Context `{!PacketDeserializer payload_t, !PacketDeserializerLaws payload_t}.
Context `{!OwningBuffer B, !PacketSerializer B T payload_t, !PayloadConversionLaws B T payload_t}.
Context `{!PacketSerializerLaws B T payload_t} `{CallbackContract U}.
Local Abbreviation heap := (async_heap (payload_t:=payload_t) U).
Local Abbreviation W := (client_world A H unit heap).
Local Abbreviation async_step := (async_step (B:=B) (T:=T) (payload_t:=payload_t)).
Implicit Types (w : W) (p : positive).
#[local] Instance heap_contract : CallbackContract heap := async_contract (B:=B) (T:=T).

(** The user's handlers, beside the pre-handler [create] registers. *)
Context (run_handler : H → payload_t → M W unit).
#[local] Instance async_handlers : ClientPacketHandlers A H unit heap payload_t := {|
  run_client_handler := run_handler;
  run_pre_handler := async_pre_handler;
|}.

(** Replacing the state of the coroutines. *)
Definition put_async (s : async_state payload_t) w : W :=
  with_user (λ u, ClientHeap (pc_objs u) (AsyncHeap U (Some s) (ah_user U (pc_user u)))) w.

(** The pre-handler is the arrival of a message in the coroutine system. *)
Lemma async_pre_handler_step msg w s :
  ah_async U (pc_user (w_user w)) = Some s → coroutines_run (B:=B) (T:=T) s → view_wf msg →
  ∃ b s', async_pre_handler tt msg w = Done b (put_async s' w) ∧ packet_arrives s s'.
Proof.
  intros Hs (a & Hr & <-) Hmsg. pose proof (packet_Done a msg (async_reachable_ok a Hr) Hmsg) as Hp.
  assert (∃ b s', on_data_received_pre_handler msg (as_state a) = Done b s') as (b & s' & Hbs).
  { rewrite Hp. destruct (message_type msg) as [t|]; [|by do 2 eexists].
    destruct (queue_of (as_state a) t) as [|[[e|] data] q]; by do 2 eexists. }
  exists b, s'. split; [|by exists msg, b].
  unfold async_pre_handler, gets. erewrite bind_Done; [|done]. rewrite Hs. unfold on_async. by rewrite Hbs.
Qed.

Lemma async_handlers_laws k :
  (∀ p h payload w, client_good k p w → has_data p w → wp (run_handler h payload) (λ _, behaves k p w) w) →
  ClientPacketHandlersLaws k (A:=A) (H:=H) (P:=unit) (U:=heap) (payload_t:=payload_t).
Proof.
  intros Hrun. split; [exact Hrun|]. intros p [] msg w Hgood Hd Hsize Hlen.
  pose proof Hgood as [Hw [[Hans _] _]]. cbn [run_pre_handler async_handlers].
  destruct (ah_async U (pc_user (w_user w))) as [s|] eqn:Hs.
  - destruct (async_pre_handler_step msg w s Hs (Hans s Hs)) as (b & s' & Hex & Hs'); [split; [done|lia]|].
    eapply wp_of_Done; [exact Hex|]. split; [|done]. apply client_goes_on_user; [done|]. split; [done|].
    split; [|done]. simpl. rewrite Hs. by apply rtc_once.
  - unfold async_pre_handler. apply wp_bind, wp_gets. rewrite Hs. by apply wp_ret, behaves_refl.
Qed.

(** [create] is three steps of the packet client's system. *)
Lemma async_create_steps p w w1 w2 w3 :
  exec_packet_client_op (B:=B) p (PcUser (λ u, AsyncHeap U (Some async_init) (ah_user U u))) w = Done tt w1 →
  exec_packet_client_op (B:=B) p PcCreate w1 = Done tt w2 →
  exec_packet_client_op (B:=B) p (PcPreHandler (Some tt)) w2 = Done tt w3 →
  AsyncClient.create p w = Done tt w3.
Proof.
  intros Hw1 Hw2 Hw3. unfold AsyncClient.create. rewrite (bind_Done _ _ _ _ _ Hw1).
  by rewrite (bind_Done _ _ _ _ _ Hw2).
Qed.

(** However an asynchronous client is created, connected, stopped, polled
    and sent through, and however its coroutines wait and are resumed between
    the rounds of its network thread, a round does not fault, whatever the
    server sends; it keeps the client well-formed, releases every message, and
    leaves the awaiters and events as some run of coroutines and packets would,
    as long as the user's handlers keep the contract. *)
Theorem async_round_safe (u : heap) w p :
  (∀ q h payload v, client_good Sequential q v → has_data q v → wp (run_handler h payload) (λ _, behaves Sequential q v) v) →
  rtc (packet_client_step (B:=B) (T:=T) p) (packet_client_initial u) w →
  answers (B:=B) (T:=T) (pc_user (w_user w)) →
  callback_pre (dom (w_objs w)) (ah_user U (pc_user (w_user w))) →
  is_Some (w_objs w !! p) →
  ∃ w', exec_packet_client_op (B:=B) (T:=T) p PcNetworkRound w = Done tt w' ∧ client_world_ok p w' ∧
    ledger [] (w_trace w') ∧ answers (B:=B) (T:=T) (pc_user (w_user w')).
Proof.
  intros Hrun Hr Hans Hpre Hp. pose proof (async_handlers_laws Sequential Hrun) as Hlaws.
  destruct (packet_client_reachable_ok p u w Hr) as [Hok Hl].
  assert (client_good Sequential p w) as Hgood by (apply packet_client_ok_good; [done|]; by split).
  assert (wp (client_iteration p) (λ _ w', client_goes_on Sequential p w w') w) as Hwp by (apply (client_iteration_ok Sequential); [apply _|done..]).
  apply wp_Done in Hwp as ([] & w' & Hex & Hgo). exists w'.
  destruct (packet_client_ok_steady p w w' Hok Hgo) as [Hok' [_ Hl']].
  split_and!; [done|apply Hok'|by apply (Hl' [])|].
  pose proof (client_goes_on_good _ _ _ _ _ _ Hgood Hgo) as [_ [[Hans' _] _]]. exact Hans'.
Qed.
End client.

(** ** A simulated client *)

(** A msgpack client at address 1 whose coroutine 1 waits for a packet of type
    128; the user's handlers do nothing. *)
Section simulation.
Local Abbreviation heap := (async_heap (payload_t:=list byte) unit).
#[local] Instance sim_unit_contract : CallbackContract unit := free_contract unit.
#[local] Instance sim_heap_contract : CallbackContract heap :=
  heap_contract (B:=list byte) (T:=byte) (payload_t:=list byte).
#[local] Instance sim_async_handlers : ClientPacketHandlers sim_addr nat unit heap (list byte) :=
  async_handlers (λ _ _, skip).

Definition sim_waiting : async_state (list byte) :=
  match async_wait_begin 1 128 async_init with Done _ s | Fault _ s => s end.

Definition sim_async_ops : list (packet_client_op nat unit heap byte) :=
  [PcUser (λ u, AsyncHeap unit (Some async_init) (ah_user unit u)); PcCreate; PcPreHandler (Some tt);
   PcConnect "10.0.0.1" 80; PcUser (λ u, AsyncHeap unit (Some sim_waiting) (ah_user unit u))].

Definition sim_async_run (ss : SteamSockets sim_addr) (ops : list (packet_client_op nat unit heap byte))
    : client_world sim_addr nat unit heap :=
  foldl (λ w op, match exec_packet_client_op (B:=list byte) (payload_t:=list byte) 1 op w with
                 | Done _ w' => w' | Fault _ w' => w' end)
    (packet_client_initial (AsyncHeap unit None tt)) ops.

Lemma sim_async_run_reachable inbox :
  let ss := sim_steam inbox [] in
  rtc (packet_client_step (B:=list byte) (T:=byte) (payload_t:=list byte) 1)
    (packet_client_initial (AsyncHeap unit None tt)) (sim_async_run ss sim_async_ops).
Proof.
  intros ss.
  assert (∀ op ops w, packet_client_op_allowed 1 op w →
    exec_packet_client_op (B:=list byte) (payload_t:=list byte) 1 op w = Done tt (sim_async_run ss ops) →
    packet_client_step (B:=list byte) (T:=byte) (payload_t:=list byte) 1 w (sim_async_run ss ops)) as Hstep.
  { intros op ops w Hop Hex. by exists op. }
  eapply rtc_l; [apply (Hstep (PcUser (λ u, AsyncHeap unit (Some async_init) (ah_user unit u))) (take 1 sim_async_ops));
    by vm_compute|].
  eapply rtc_l; [apply (Hstep PcCreate (take 2 sim_async_ops)); by vm_compute|].
  eapply rtc_l; [apply (Hstep (PcPreHandler (Some tt)) (take 3 sim_async_ops)); [by vm_compute; eexists|by vm_compute]|].
  eapply rtc_l; [apply (Hstep (PcConnect "10.0.0.1" 80) (take 4 sim_async_ops)); [|by vm_compute]|].
  { split; [|by vm_compute]. eexists. split; [by vm_compute|]. by intros [_ [=]]. }
  apply rtc_once, (Hstep (PcUser (λ u, AsyncHeap unit (Some sim_waiting) (ah_user unit u))) sim_async_ops); by vm_compute.
Qed.

(** The packet of type 128 sets the event of the coroutine. *)
Lemma async_round_safe_witness :
  let ss := sim_steam [(2, header_bytes (header_create serde_msgpack 128) ++ [x91; x2a])] [] in
  let w := sim_async_run ss sim_async_ops in
  ∃ w', exec_packet_client_op (B:=list byte) (T:=byte) (payload_t:=list byte) 1 PcNetworkRound w = Done tt w' ∧
    answers (B:=list byte) (T:=byte) (pc_user (w_user w')) ∧
    (events <$> ah_async unit (pc_user (w_user w'))) = Some {[1%nat := true]}.
Proof.
  intros ss w.
  assert (SteamLaws sim_addr) as Hlaws by (apply sim_laws; by repeat constructor).
  destruct (async_round_safe (B:=list byte) (T:=byte) (payload_t:=list byte) (H:=nat)
    (λ _ _, skip) (AsyncHeap unit None tt) w 1) as (w' & Hex & _ & _ & Hans).
  - intros q h payload v Hgood Hd. by apply wp_skip, behaves_refl.
  - apply (sim_async_run_reachable [(2, header_bytes (header_create serde_msgpack 128) ++ [x91; x2a])]).
  - intros s [= <-]. exists (AsyncSys sim_waiting {[1%nat := 128]} []). split; [|done].
    apply rtc_once. by apply (step_wait async_initial 1%nat 128).
  - done.
  - by vm_compute; eexists.
  - exists w'. split; [exact Hex|]. split; [exact Hans|].
    assert (Done tt w' = Done tt (sim_async_run ss (sim_async_ops ++ [PcNetworkRound]))) as Hrun
      by (rewrite <- Hex; by vm_compute).
    injection Hrun as ->. by vm_compute.
Defined.
End simulation.
