(* ===== verification/AsyncThreads.v ===== *)
(** * The asynchronous client: coroutines, network thread and application

    The whole asynchronous client as one transition system: its network thread
    at the grain of a message, the application, and the coroutines that the
    scheduler runs on other threads, between any two steps.  What happens to its
    awaiters is a run of the coroutine system of [AsyncClientProps.v]. *)

From S2P Require Import Prelude Bytes NetworkTypes Packet Serde Runtime Ledger.
From S2P Require Import UdpClient UdpClientSpec Links UdpClientSafety Simulated UdpClientSystem.
From S2P Require Import ClientThreads ClientThreadsProps ClientThreadsSystem.
From S2P Require Import Dispatch PacketClient PacketClientProps PacketClientSystem PacketThreads.
From S2P Require Import AsyncClient AsyncClientProps AsyncClientSystem.
Import Strings.Byte.
Local Open Scope Z_scope.

(** What the threads do. *)
Inductive async_op (U T : Type) :=
| AnCreate
| AnConnect (address : string) (port : Z)
| AnSend (t : packet_type_t) (x : T) (reliable : bool)
| AnStatusChanged (info : status_changed)         (** an event another thread receives *)
| AnStop                                          (** [stop] up to its [join] *)
| AnDestroy                                       (** the last owner goes, up to the [join] *)
| AnJoined
| AnNetwork                                       (** a step of the network thread *)
| AnWait (e : nat) (t : packet_type_t)            (** a coroutine, up to [co_await event] *)
| AnResume (e : nat)                              (** and from there to its end *)
| AnUser (f : U → U).
Arguments AnCreate {U T}.
Arguments AnConnect {U T}.
Arguments AnSend {U T}.
Arguments AnStatusChanged {U T}.
Arguments AnStop {U T}.
Arguments AnDestroy {U T}.
Arguments AnJoined {U T}.
Arguments AnNetwork {U T}.
Arguments AnWait {U T}.
Arguments AnResume {U T}.
Arguments AnUser {U T}.

(** The threads, the coroutines suspended at their event with the type they wait
    for, and the results of those that finished. *)
Record async_threads (A H U T payload_t : Type) := AsyncThreads {
  an_threads : cthreads A positive (client_heap H unit (async_heap (payload_t:=payload_t) U));
  an_waiting : gmap nat packet_type_t;
  an_results : list (nat * option T);
}.
Arguments AsyncThreads {A H U T payload_t}.
Arguments an_threads {A H U T payload_t}.
Arguments an_waiting {A H U T payload_t}.
Arguments an_results {A H U T payload_t}.

Section steps.
Context {A H B T payload_t U : Type} `{SteamIPAddr A} `{SteamSockets A}.
Context `{!PacketDeserializer payload_t, !PacketDeserializerLaws payload_t}.
Context `{!OwningBuffer B, !PacketSerializer B T payload_t, !PayloadConversionLaws B T payload_t}.
Context `{!PacketSerializerLaws B T payload_t}.
Local Abbreviation heap := (async_heap (payload_t:=payload_t) U).
Local Abbreviation W := (client_world A H unit heap).
Local Abbreviation CT := (cthreads A positive (client_heap H unit heap)).
Local Abbreviation AN := (async_threads A H U T payload_t).
Context (run_handler : H → payload_t → M W unit).
#[local] Instance client_handlers : ClientPacketHandlers A H unit heap payload_t := async_handlers run_handler.
Implicit Types (w : W) (t : CT) (x : AN) (p : positive).

Definition with_heap (f : heap → heap) : W → W := with_user (λ u, ClientHeap (pc_objs u) (f (pc_user u))).
Definition with_async (o : option (async_state payload_t)) : heap → heap := λ h, AsyncHeap U o (ah_user U h).

(** A member function runs on the state of the asynchronous client, which has to be
    alive: a coroutine resumed after its client is gone uses a dangling [this]. *)
Definition in_async {R} (m : M (async_state payload_t) R) : M W R :=
  o ← gets (λ w : W, ah_async U (pc_user (w_user w)));
  match o with Some s => on_async s m | None => fail NullDeref end.

(** Threads and coroutines together. *)
Definition on_threads {R} (m : M CT R) : M AN R := λ x,
  match m (an_threads x) with
  | Done r t => Done r (AsyncThreads t (an_waiting x) (an_results x))
  | Fault e t => Fault e (AsyncThreads t (an_waiting x) (an_results x))
  end.

Definition with_coroutines f g x : AN := AsyncThreads (an_threads x) (f (an_waiting x)) (g (an_results x)).

(** [async_wait_for_packet], from [co_await event] to its end. *)
Definition resume_wait (e : nat) (ty : packet_type_t) : M AN unit :=
  on_threads (on_cworld (in_async (async_wait_end (B:=B) e ty))) ≫= λ r : option T,
  modify (with_coroutines (delete e) (λ rs, rs ++ [(e, r)])).

Definition exec_async p (op : async_op U T) : M AN unit :=
  let packet_op := exec_packet_thread (B:=B) (T:=T) (payload_t:=payload_t) p in
  match op with
  | AnCreate => on_threads (on_cworld (AsyncClient.create p) ;; modify (client_spawned p))
  | AnConnect address port => on_threads (packet_op (PtApp (PcConnect address port)))
  | AnSend t x reliable => on_threads (packet_op (PtApp (PcSend t x reliable)))
  | AnStatusChanged info => on_threads (packet_op (PtApp (PcStatusChanged info)))
  | AnStop => on_threads (packet_op PtStop)
  | AnDestroy =>
      on_threads (on_cworld (modify (with_heap (with_async None))) ;; packet_op PtLastRelease) ;;
      modify (with_coroutines id (λ _, []))
  | AnJoined => on_threads (packet_op PtJoined)
  | AnNetwork => on_threads (packet_op PtNetwork)
  | AnWait e ty =>
      on_threads (on_cworld (in_async (async_wait_begin e ty))) ;;
      modify (with_coroutines <[e := ty]> id)
  | AnResume e =>
      ty ← gets (λ x : AN, an_waiting x !! e);
      match ty with Some ty => resume_wait e ty | None => skip end
  | AnUser f => on_threads (on_cworld (modify (with_heap (λ h, AsyncHeap U (ah_async U h) (f (ah_user U h))))))
  end.

(** The awaiters, events and coroutines of the client, if it is there. *)
Definition coroutines x : option (async_sys payload_t T) :=
  (λ s, AsyncSys s (an_waiting x) (an_results x)) <$> ah_async U (pc_user (w_user (ct_world (an_threads x)))).

Context `{CallbackContract U}.
#[local] Instance heap_frame : CallbackContract heap := async_contract (B:=B) (T:=T).

(** The correct uses: one client, its members as [packet_thread_allowed] says; it
    is let go of when no coroutine waits in it; an event is new to the frame that
    holds it, and a coroutine is resumed once its event is set. *)
Definition async_allowed p (op : async_op U T) x : Prop :=
  let t := an_threads x in
  let w := ct_world t in
  let packet_allowed := packet_thread_allowed (H:=H) (P:=unit) (U:=heap) (T:=T) p in
  match op with
  | AnCreate => ct_app t = CFree ∧ w_objs w = ∅ ∧ coroutines x = None
  | AnConnect address port => packet_allowed (PtApp (PcConnect address port)) t
  | AnSend ty y reliable => packet_allowed (PtApp (PcSend ty y reliable)) t
  | AnStatusChanged info => packet_allowed (PtApp (PcStatusChanged info)) t
  | AnStop => packet_allowed PtStop t
  | AnDestroy => packet_allowed PtLastRelease t ∧ an_waiting x = ∅
  | AnJoined => packet_allowed PtJoined t
  | AnNetwork => callback_pre (dom (w_objs w)) (ah_user U (pc_user (w_user w))) ∧
      ∃ pc, ct_net t = Some pc ∧ pc ≠ CReturned
  | AnWait e ty => ∃ a, coroutines x = Some a ∧ events (as_state a) !! e = None
  | AnResume e => ∃ a ty, coroutines x = Some a ∧ as_waiting a !! e = Some ty ∧
      events (as_state a) !! e = Some true
  | AnUser f => True
  end.

Definition async_threads_step p x x' : Prop :=
  ∃ op, async_allowed p op x ∧ exec_async p op x = Done tt x'.

Definition async_threads_initial (u : U) : AN :=
  AsyncThreads (packet_thread_initial (AsyncHeap U None u)) ∅ [].

(** ** The abstract client: coroutines and packets, while it lives *)

Inductive async_life : relation (option (async_sys payload_t T)) :=
| life_begins : async_life None (Some async_initial)
| life_goes_on a a' : async_step (B:=B) a a' → async_life (Some a) (Some a')
| life_ends a : as_waiting a = ∅ → async_life (Some a) None.

Lemma async_life_steps a a' : rtc (async_step (B:=B)) a a' → rtc async_life (Some a) (Some a').
Proof. induction 1; [done|]. eapply rtc_l; [by apply life_goes_on|done]. Qed.

Lemma async_life_reachable o o' :
  rtc async_life o o' → (∀ a, o = Some a → rtc (async_step (B:=B)) async_initial a) →
  ∀ a, o' = Some a → rtc (async_step (B:=B)) async_initial a.
Proof.
  induction 1 as [|o1 o2 o3 Hstep _ IH]; [done|]. intros Ho. apply IH. intros a Ha.
  destruct Hstep as [|a1 a2 Hstep|]; simplify_eq; [done|]. eapply rtc_r; [by apply Ho|done].
Qed.
End steps.

(** ** The invariant *)

Section system.
Context {A H B T payload_t U : Type} `{SteamIPAddr A} `{SteamSockets A} `{!SteamLaws A}.
Context `{!PacketDeserializer payload_t, !PacketDeserializerLaws payload_t}.
Context `{!OwningBuffer B, !PacketSerializer B T payload_t, !PayloadConversionLaws B T payload_t}.
Context `{!PacketSerializerLaws B T payload_t} `{CallbackContract U}.
Local Abbreviation heap := (async_heap (payload_t:=payload_t) U).
Local Abbreviation W := (client_world A H unit heap).
Local Abbreviation CT := (cthreads A positive (client_heap H unit heap)).
Local Abbreviation AN := (async_threads A H U T payload_t).
Context (run_handler : H → payload_t → M W unit).
#[local] Instance system_handlers : ClientPacketHandlers A H unit heap payload_t := async_handlers run_handler.
#[local] Instance system_frame : CallbackContract heap := async_contract (B:=B) (T:=T).
Implicit Types (w : W) (t : CT) (x : AN) (p : positive).

(** The threads are in order, and the coroutines a run of their system. *)
Record async_threads_ok p x : Prop := {
  ato_threads : packet_threads_ok p (an_threads x);
  ato_life a : coroutines x = Some a → rtc (async_step (B:=B)) async_initial a;
  ato_gone : coroutines x = None → an_waiting x = ∅ ∧ an_results x = [];
  ato_alive : is_Some (coroutines x) → is_Some (pc_objs (w_user (ct_world (an_threads x))) !! p);
}.

(** What a step of the whole does to its parts. *)
Definition async_goes p x x' : Prop :=
  packet_threads_go p (an_threads x) (an_threads x') ∧
  rtc (async_life (B:=B)) (coroutines x) (coroutines x') ∧
  (coroutines x' = None → an_waiting x' = ∅ ∧ an_results x' = []) ∧
  (is_Some (coroutines x') → is_Some (pc_objs (w_user (ct_world (an_threads x'))) !! p)).

(** Every step but the one that lets go of the client leaves it there. *)
Definition async_goes_on p x x' : Prop :=
  async_goes p x x' ∧ (is_Some (coroutines x) → is_Some (coroutines x')).

Lemma async_goes_ok p x x' : async_threads_ok p x → async_goes p x x' → async_threads_ok p x'.
Proof.
  intros Hok ([Hthr _] & Hlife & Hgone & Halive). split; [done| |done..].
  intros a Ha. by eapply (async_life_reachable (B:=B)); [exact Hlife|apply (ato_life _ _ Hok)|].
Qed.

Lemma coroutines_answer p x :
  async_threads_ok p x → answers (B:=B) (T:=T) (pc_user (w_user (ct_world (an_threads x)))).
Proof.
  intros Hok s Hs. exists (AsyncSys s (an_waiting x) (an_results x)). split; [|done].
  apply (ato_life _ _ Hok). unfold coroutines. by rewrite Hs.
Qed.

Lemma wp_on_threads {R} (m : M CT R) Q x :
  wp m (λ r t, Q r (AsyncThreads t (an_waiting x) (an_results x))) (an_threads x) → wp (on_threads m) Q x.
Proof. unfold wp, on_threads. by destruct (m (an_threads x)). Qed.

(** Steps that leave the coroutines alone. *)
Lemma async_goes_quiet p x t' :
  async_threads_ok p x → packet_threads_go p (an_threads x) t' →
  w_user (ct_world t') = w_user (ct_world (an_threads x)) →
  async_goes_on p x (AsyncThreads t' (an_waiting x) (an_results x)).
Proof.
  intros Hok Hgo Hu. unfold async_goes_on, async_goes.
  assert (coroutines (AsyncThreads t' (an_waiting x) (an_results x)) = coroutines x) as ->
    by (unfold coroutines; simpl; by rewrite Hu).
  split; [|done]. split; [done|]. split; [done|]. split; [apply Hok|]. simpl. rewrite Hu. apply Hok.
Qed.

(** Changes of the user's state, or of the awaiters, and of the coroutines. *)
Lemma packet_heap_ok p (f : heap → heap) t :
  packet_threads_ok p t → packet_threads_go p t (CThreads (with_heap f (ct_world t)) (ct_net t) (ct_app t)).
Proof.
  intros Hok. split; [|apply rtc_refl]. eapply packet_threads_kept; [exact Hok| |done..].
  apply client_user_ok, Hok.
Qed.

Lemma async_heap_goes p (f : heap → heap) g h x (a : async_sys payload_t T) :
  async_threads_ok p x → coroutines x = Some a →
  let t' := CThreads (with_heap f (ct_world (an_threads x))) (ct_net (an_threads x)) (ct_app (an_threads x)) in
  let x' := AsyncThreads t' (g (an_waiting x)) (h (an_results x)) in
  (∃ a', coroutines x' = Some a' ∧ async_step (B:=B) a a') → async_goes_on p x x'.
Proof.
  intros Hok Ha t' x' (a' & Ha' & Hstep). split; [|by rewrite Ha'].
  split; [by apply packet_heap_ok, Hok|]. rewrite Ha, Ha'.
  split; [by apply rtc_once, life_goes_on|]. split; [done|]. intros _. apply (ato_alive _ _ Hok). by rewrite Ha.
Qed.

(** ** The steps *)

Context (Hhandlers : ∀ q h payload (v : W), client_good Interleaved q v → has_data q v →
  wp (run_handler h payload) (λ _, behaves Interleaved q v) v).

#[local] Instance system_laws : ClientPacketHandlersLaws Interleaved (A:=A) (H:=H) (P:=unit) (U:=heap) :=
  async_handlers_laws run_handler Interleaved Hhandlers.
#[local] Instance system_sequential_laws : ClientPacketHandlersLaws Sequential (A:=A) (H:=H) (P:=unit) (U:=heap) :=
  client_handlers_sequential.

Lemma an_network_ok p x :
  async_threads_ok p x → async_allowed p AnNetwork x →
  wp (exec_async (B:=B) run_handler p AnNetwork) (λ _, async_goes_on p x) x.
Proof.
  intros Hok [Hpre Hpc]. apply wp_on_threads.
  eapply wp_mono; [apply (packet_network_ok (T:=T) p (an_threads x)); [apply Hok|]|].
  - split; [|done]. split; [by eapply coroutines_answer|done].
  - intros [] t' (Hgo & [Harr _] & Hdom). pose proof (ato_alive _ _ Hok) as Halive.
    rewrite <- elem_of_dom, <- Hdom, elem_of_dom in Halive. revert Halive.
    unfold async_goes_on, async_goes, coroutines. simpl.
    unfold messages_arrive in Harr. pose proof (ato_gone _ _ Hok) as Hgone. unfold coroutines in Hgone.
    destruct (ah_async U (pc_user (w_user (ct_world (an_threads x))))) as [s|],
      (ah_async U (pc_user (w_user (ct_world t')))) as [s'|]; try done; simpl; intros Halive.
    split; [|by eexists]. split; [done|]. split; [by apply async_life_steps, packets_are_steps|].
    split; [done|]. intros _. by apply Halive.
Qed.

(** An operation of the packet client that runs no handler. *)
Lemma an_packet_ok p (op : packet_client_op H unit heap T) x :
  async_threads_ok p x → packet_thread_allowed p (PtApp op) (an_threads x) →
  wp (exec_packet_client_op (B:=B) (payload_t:=payload_t) p op)
    (λ _ w', w_user w' = w_user (ct_world (an_threads x))) (ct_world (an_threads x)) →
  wp (on_threads (exec_packet_thread (B:=B) (payload_t:=payload_t) p (PtApp op))) (λ _, async_goes_on p x) x.
Proof.
  intros Hok Hop Hu. apply wp_on_threads.
  assert (wp (exec_packet_thread (B:=B) (payload_t:=payload_t) p (PtApp op)) (λ _ t',
    w_user (ct_world t') = w_user (ct_world (an_threads x))) (an_threads x)) as Hut.
  { cbn [exec_packet_thread]. apply wp_bind. unfold wp, on_cworld in *.
    destruct (exec_packet_client_op p op (ct_world (an_threads x))) as [[] w'|]; [|done].
    cbn. by rewrite client_spawned_world. }
  eapply wp_mono; [apply wp_and; [exact Hut|by apply packet_app_ok, Hop; apply Hok]|].
  intros [] t' (Hut' & Hgo & _). by apply async_goes_quiet.
Qed.

Lemma packet_create_Done p w :
  PacketClient.create p w
  = Done tt (with_obj p (set_on_data_received (Some p) client_init)
      (with_pc <[p := MkPacketClient ∅ false None 1]> (with_obj p client_init w))).
Proof.
  unfold PacketClient.create. erewrite bind_Done; [|done]. erewrite bind_Done; [|done].
  by apply update_Done, lookup_with_obj.
Qed.

Lemma async_create_ok p w :
  packet_client_ok p w → w_objs w = ∅ →
  wp (AsyncClient.create p) (λ _ w', packet_client_keeps p w w' ∧
    pc_user (w_user w') = with_async (Some async_init) (pc_user (w_user w)) ∧
    is_Some (pc_objs (w_user w') !! p)) w.
Proof.
  intros Hok Hempty. set (w1 := with_heap (with_async (Some async_init)) w).
  assert (packet_client_keeps p w w1) as [Hok1 Hp1] by (apply packet_client_ok_quiet; apply Hok).
  pose proof (create_packet_client_ok p w1 Hok1 Hempty) as Hwp. unfold wp in Hwp.
  rewrite packet_create_Done in Hwp. set (w2 := with_obj p _ _) in Hwp. destruct Hwp as [Hok2 Hp2].
  unfold AsyncClient.create. apply wp_bind, wp_modify. fold w1. apply wp_bind.
  eapply wp_of_Done; [apply packet_create_Done|]. fold w2.
  set (c := MkPacketClient ∅ false None 1 : PacketClient H unit).
  assert (pc_objs (w_user w2) !! p = Some c) as Hc by apply lookup_insert_eq.
  eapply wp_of_Done; [by apply update_pc_Done|].
  split; [|split; [done|apply lookup_insert_is_Some; by left]].
  destruct (packet_client_ok_with_pc p p w2 c (set_pre_handler (Some tt) c) Hok2 Hc) as [Hok3 Hp3]; [done..|].
  split; [done|]. do 2 (eapply client_progress_trans; [done|]). done.
Qed.

Lemma an_create_ok p x :
  async_threads_ok p x → async_allowed p AnCreate x →
  wp (exec_async (B:=B) run_handler p AnCreate) (λ _, async_goes_on p x) x.
Proof.
  intros Hok (Hfree & Hempty & Hnone). pose proof (packet_free_ok p _ (ato_threads _ _ Hok) Hfree) as Hpok.
  pose proof (async_create_ok p _ Hpok Hempty) as Hcreate. apply wp_on_threads.
  assert (wp (on_cworld (AsyncClient.create p) ;; modify (client_spawned p)) (λ _ t',
    pc_user (w_user (ct_world t')) = with_async (Some async_init) (pc_user (w_user (ct_world (an_threads x)))) ∧
    is_Some (pc_objs (w_user (ct_world t')) !! p)) (an_threads x)) as Hut.
  { apply wp_bind. unfold wp, on_cworld in *.
    destruct (AsyncClient.create p (ct_world (an_threads x))) as [[] w'|]; [|done].
    cbn. rewrite client_spawned_world. apply Hcreate. }
  eapply wp_mono; [apply wp_and; [exact Hut|apply (packet_atomic_ok p (λ _, false)); [apply Hok|done|done|]]|].
  - eapply wp_mono; [exact Hcreate|]. intros [] w' [Hk _]. split; [done|].
    unfold client_threaded. by rewrite Hempty.
  - intros [] t' ([Hut' Hp'] & Hgo & _). unfold async_goes_on, async_goes. rewrite Hnone. split; [|by intros []].
    split; [done|].
    destruct (ato_gone _ _ Hok Hnone) as [Hw Hr]. unfold coroutines. cbn [an_threads an_waiting an_results].
    rewrite Hut', Hw, Hr. split; [apply rtc_once, life_begins|]. split; [done|]. intros _. exact Hp'.
Qed.

Lemma an_destroy_ok p x :
  async_threads_ok p x → async_allowed p AnDestroy x →
  wp (exec_async (B:=B) run_handler p AnDestroy) (λ _, async_goes p x) x.
Proof.
  intros Hok [Hop Hw]. cbn [exec_async]. apply wp_bind, wp_on_threads, wp_bind. unfold on_cworld at 1, modify at 1, wp at 1.
  set (t1 := CThreads _ _ _).
  destruct (packet_heap_ok p (with_async None) (an_threads x) (ato_threads _ _ Hok)) as [Hok1 Hl1]. fold t1 in Hok1, Hl1.
  eapply wp_mono; [by apply (packet_last_release_ok (T:=T) p t1)|].
  intros [] t' ([Hok' Hl'] & Hu). apply wp_modify.
  assert (coroutines (with_coroutines id (λ _, []) (AsyncThreads t' (an_waiting x) (an_results x))) = None) as Hnone.
  { unfold coroutines. cbn [an_threads with_coroutines]. by rewrite Hu. }
  split; [split; [done|by etrans]|]. rewrite Hnone. split; [|split; [by rewrite <- Hw|by intros []]].
  destruct (coroutines x) as [a|] eqn:Ha; [|done]. apply rtc_once, life_ends.
  unfold coroutines in Ha. destruct (ah_async _ _); [|done]. by injection Ha as <-.
Qed.

(** A member function of the asynchronous client that answers. *)
Lemma in_async_Done {R} (m : M (async_state payload_t) R) (w : W) s r s' :
  ah_async U (pc_user (w_user w)) = Some s → m s = Done r s' →
  in_async m w = Done r (with_heap (with_async (Some s')) w).
Proof. intros Hs Hm. unfold in_async, gets. erewrite bind_Done; [|done]. rewrite Hs. unfold on_async. by rewrite Hm. Qed.

Lemma on_async_threads_Done {R} (m : M (async_state payload_t) R) x s r s' :
  ah_async U (pc_user (w_user (ct_world (an_threads x)))) = Some s → m s = Done r s' →
  on_threads (on_cworld (in_async m)) x
  = Done r (AsyncThreads (CThreads (with_heap (with_async (Some s')) (ct_world (an_threads x)))
      (ct_net (an_threads x)) (ct_app (an_threads x))) (an_waiting x) (an_results x)).
Proof. intros Hs Hm. unfold on_threads, on_cworld. by rewrite (in_async_Done m _ s r s' Hs Hm). Qed.

Lemma an_wait_ok p e ty x :
  async_threads_ok p x → async_allowed p (AnWait e ty) x →
  wp (exec_async (B:=B) run_handler p (AnWait e ty)) (λ _, async_goes_on p x) x.
Proof.
  intros Hok (a & Ha & He). pose proof (async_reachable_ok a (ato_life _ _ Hok a Ha)) as Haok.
  pose proof (wait_Done a e ty Haok He) as Hwait. set (s' := set_queue _ _ _) in Hwait. clearbody s'.
  unfold coroutines in Ha. destruct (ah_async U _) as [s|] eqn:Hs; [|done]. injection Ha as <-. simpl in *.
  cbn [exec_async]. apply wp_bind. eapply wp_of_Done; [by eapply on_async_threads_Done|]. apply wp_modify.
  eapply (async_heap_goes p _ <[e := ty]> id x); [done|unfold coroutines; by rewrite Hs|].
  eexists. split; [done|]. by apply (step_wait (AsyncSys s (an_waiting x) (an_results x)) e ty s').
Qed.

Lemma an_resume_ok p e x :
  async_threads_ok p x → async_allowed p (AnResume e) x →
  wp (exec_async (B:=B) run_handler p (AnResume e)) (λ _, async_goes_on p x) x.
Proof.
  intros Hok (a & ty & Ha & Hty & He). pose proof (async_reachable_ok a (ato_life _ _ Hok a Ha)) as Haok.
  destruct (set_is_front a e ty Haok Hty He) as (aw & q & Hq & Haw).
  pose proof (resume_Done a e ty aw q Haok Hq Haw) as Hres. set (s' := with_events _ _) in Hres.
  set (r := outcome_of aw) in Hres. clearbody s' r.
  unfold coroutines in Ha. destruct (ah_async U _) as [s|] eqn:Hs; [|done]. injection Ha as <-. simpl in *.
  cbn [exec_async]. apply wp_bind, wp_gets. rewrite Hty. unfold resume_wait.
  apply wp_bind. eapply wp_of_Done; [by eapply on_async_threads_Done|]. apply wp_modify.
  eapply (async_heap_goes p _ (delete e) (λ rs, rs ++ [(e, r)]) x); [done|unfold coroutines; by rewrite Hs|].
  eexists. split; [done|]. by apply (step_resume (AsyncSys s (an_waiting x) (an_results x)) e ty r s').
Qed.

Lemma async_op_ok p op x :
  async_threads_ok p x → async_allowed p op x →
  wp (exec_async (B:=B) run_handler p op) (λ _ x', async_goes p x x' ∧
    (op = AnDestroy ∨ (is_Some (coroutines x) → is_Some (coroutines x')))) x.
Proof.
  intros Hok Hop. pose proof (ato_threads _ _ Hok) as Hthr.
  assert (∀ op : packet_client_op H unit heap T, private (exec_packet_client_op (B:=B) (payload_t:=payload_t) p op) →
    packet_thread_allowed p (PtApp op) (an_threads x) →
    wp (on_threads (exec_packet_thread (B:=B) (payload_t:=payload_t) p (PtApp op))) (λ _, async_goes_on p x) x) as Hpriv.
  { intros pop Hp Hpop. apply an_packet_ok; [done..|]. pose proof Hpop as (Hfree & Hallow & _).
    eapply wp_mono; [apply wp_private; [exact Hp|]; apply exec_packet_client_op_ok; [by apply packet_free_ok|done]|].
    by intros [] w' [_ Hu]. }
  assert (op = AnDestroy ∨ wp (exec_async (B:=B) run_handler p op) (λ _, async_goes_on p x) x) as [->|Hwp].
  2: by eapply wp_mono; [by apply an_destroy_ok|]; intros [] x' ?; split; [|left].
  2: by eapply wp_mono; [exact Hwp|]; intros [] x' []; split; [|right].
  destruct op as [|a pt|ty y reliable|info| | | | |e ty|e|f]; [right..|by left|right|right|right|right|right].
  - by apply an_create_ok.
  - apply Hpriv; [|done]. pose proof (@client_connect_private). cbn [exec_packet_client_op]. private.
  - apply an_packet_ok; [done..|]. destruct Hop as (Hfree & [Hp Hty] & _).
    pose proof (packet_free_ok p _ Hthr Hfree) as Hpok. destruct (packet_client_ok_object p _ Hpok Hp) as [s Hs].
    cbn [exec_packet_client_op]. apply wp_discard.
    eapply wp_mono; [by eapply packet_client_send_keeps, Hty; [apply Hpok|]|]. by intros r v (_ & _ & ->).
  - apply Hpriv; [|done]. apply client_callback_private.
  - apply wp_on_threads. eapply wp_mono; [by apply (packet_stop_ok (T:=T))|].
    intros [] t' [Hgo Hu]. by apply async_goes_quiet.
  - apply wp_on_threads. eapply wp_mono; [by apply (packet_joined_ok (T:=T))|].
    intros [] t' (Hgo & _ & Hu). by apply async_goes_quiet.
  - by apply an_network_ok.
  - by apply an_wait_ok.
  - by apply an_resume_ok.
  - apply wp_on_threads. unfold wp, on_cworld, modify. split; [|done]. split; [by apply packet_heap_ok|].
    split; [done|]. split; apply Hok.
Qed.

(** ** A lost link *)

Lemma terminates_on_threads {R} (m : M CT R) x : terminates m (an_threads x) → terminates (on_threads m) x.
Proof. intros [t' Hm]. eexists. unfold on_threads. by rewrite Hm. Qed.

Lemma lost_async_destroy p x :
  client_world_ok p (ct_world (an_threads x)) → broken (links p (ct_world (an_threads x))) →
  terminates (exec_async (B:=B) run_handler p AnDestroy) x.
Proof.
  intros Hw Hb. apply terminates_bind, terminates_on_threads. eapply terminates_after; [done|].
  apply lost_release; [|done]. by apply client_ok_with_user.
Qed.

(** ** What holds in every interleaving *)

Lemma async_threads_reachable_ok p (u : U) x :
  rtc (async_threads_step (B:=B) run_handler p) (async_threads_initial u) x → async_threads_ok p x.
Proof.
  intros Hr. assert (async_threads_ok p (async_threads_initial u : AN)) as Hok
    by (split; [apply packet_thread_initial_ok|done|done|by intros []]).
  revert Hok. induction Hr as [|x1 x2 x3 (op & Hop & Hex) _ IH]; [done|]. intros Hok. apply IH.
  pose proof (async_op_ok p op x1 Hok Hop) as Hwp. unfold wp in Hwp. rewrite Hex in Hwp.
  by eapply async_goes_ok; [|apply Hwp].
Qed.

(** C2: the one asynchronous client of a process is created, connected, sent
    through, stopped and let go of, its coroutines start to wait and are resumed on
    the threads of the scheduler, and its network thread, one step per test, message
    (the pre-handler and the handler included; [AwaiterPointers.v] cuts the
    pre-handler itself) and status change, comes in between,
    in every way but one: no other thread has a status change handled just between
    the network thread's test of the connection and its receiving on it.  As long as
    other handlers keep their contract, packet types have 32 bits, the library is
    initialised before the client connects, each wait has an event of its own and
    goes on once that is set, the client is let go of when nobody waits in it, and a
    client whose link is lost is neither connected again nor let go of, no step
    faults, whatever the server sends; the client below stays well-formed and follows
    its link; every message received has been released once, or is held by the
    network thread; and the awaiters, events and coroutines go the steps of the
    abstract coroutine system: messages arrive, waits start, and coroutines whose
    event is set take their own awaiter.  Once the server has ended the connection,
    or it was never made, letting go of the client or connecting it again terminates
    the process. *)
Theorem async_threads_refine p (u : U) x :
  rtc (async_threads_step (B:=B) run_handler p) (async_threads_initial u) x →
  (∀ op, async_allowed p op x →
     ∃ x', exec_async (B:=B) run_handler p op x = Done tt x' ∧
       client_world_inv Interleaved p (ct_world (an_threads x')) ∧
       rtc link_step (links p (ct_world (an_threads x))) (links p (ct_world (an_threads x'))) ∧
       received (w_trace (ct_world (an_threads x')))
         ≡ₚ released (w_trace (ct_world (an_threads x'))) ++ client_owed (ct_net (an_threads x')) ∧
       rtc (async_life (B:=B)) (coroutines x) (coroutines x') ∧
       (∀ a, coroutines x' = Some a → rtc (async_step (B:=B)) async_initial a ∧ async_ok a)) ∧
  (ct_app (an_threads x) = CFree → broken (links p (ct_world (an_threads x))) →
     terminates (exec_async (B:=B) run_handler p AnDestroy) x ∧
     (∀ a pt, steam_answer (w_trace (ct_world (an_threads x))) SteamNetworkingSockets = true →
        terminates (exec_async (B:=B) run_handler p (AnConnect a pt)) x)).
Proof.
  intros Hr. pose proof (async_threads_reachable_ok p u x Hr) as Hok. split.
  - intros op Hop. pose proof (async_op_ok p op x Hok Hop) as Hwp. apply wp_Done in Hwp as ([] & x' & Hex & Hgo & _).
    pose proof (async_goes_ok p x x' Hok Hgo) as Hok'. destruct Hgo as ([Hthr Hlinks] & Hlife & _).
    pose proof (pto_client _ _ Hthr) as Hclient.
    exists x'. split_and!; [done|apply Hclient|done|apply Hclient|done|].
    intros a Ha. pose proof (ato_life _ _ Hok' a Ha) as Hra. split; [done|]. by apply async_reachable_ok.
  - intros Hfree Hb. pose proof (pcl_world _ _ (packet_free_ok p _ (ato_threads _ _ Hok) Hfree)) as Hw.
    split; [by apply lost_async_destroy|]. intros a pt Hlib. by apply terminates_on_threads, lost_packet_connect.
Qed.
End system.

(** ** A simulated run *)

#[local] Instance sim_threads_contract : CallbackContract unit := free_contract unit.

Section simulation.
Context (ss : SteamSockets sim_addr).
Local Abbreviation heap := (async_heap (payload_t:=list byte) unit).
Local Abbreviation AN := (async_threads sim_addr nat unit byte (list byte)).
Local Abbreviation op := (async_op unit byte).
Implicit Types x : AN.

(** No other handlers. *)
Definition no_handler : nat → list byte → M (client_world sim_addr nat unit heap) unit := λ _ _, skip.

Definition exec_sim (o : op) : M AN unit := exec_async (B:=list byte) no_handler 1 o.

Definition sim_async_threads (ops : list op) : AN :=
  foldl (λ x o, match exec_sim o x with Done _ x' => x' | Fault _ x' => x' end) (async_threads_initial tt) ops.

(** The boolean form of [async_allowed], for the operations used below. *)
Definition async_allowed_b (o : op) x : bool :=
  let t := an_threads x in
  let w := ct_world t in
  match o, ct_app t with
  | AnCreate, CFree => bool_decide (w_objs w = ∅) && match coroutines x with None => true | _ => false end
  | AnConnect _ _, CFree =>
      match w_objs w !! 1%positive with Some s => m_running s || negb (m_client_thread s) | None => false end &&
      steam_answer (w_trace w) SteamNetworkingSockets
  | AnNetwork, _ => match ct_net t with Some CReturned | None => false | Some _ => true end
  | AnWait e _, _ =>
      match coroutines x with
      | Some a => match events (as_state a) !! e with None => true | _ => false end
      | None => false
      end
  | AnResume e, _ =>
      match coroutines x with
      | Some a => match as_waiting a !! e, events (as_state a) !! e with Some _, Some b => b | _, _ => false end
      | None => false
      end
  | _, _ => false
  end.

Lemma async_allowed_b_sound o x :
  async_allowed_b o x = true → async_allowed (B:=list byte) 1 o x.
Proof.
  unfold async_allowed_b. destruct o as [|a pt|ty y r|info| | | | |e ty|e|f]; simpl; destruct (ct_app (an_threads x)) eqn:Happ;
    rewrite ?andb_true_iff; try done.
  - rewrite bool_decide_eq_true. intros [Ho Hn]. split_and!; [done..|]. by destruct (coroutines x).
  - intros [Hu Hl]. destruct (w_objs _ !! _) as [s|] eqn:Hs; [|done].
    assert (usable 1 (ct_world (an_threads x))) as Husable.
    { exists s. split; [done|]. intros [Hr Ht]. by rewrite Hr, Ht in Hu. }
    split_and!; try done; by intros [].
  - destruct (ct_net _) as [[]|]; try done; intros _; (split; [done|]); by eexists.
  - destruct (ct_net _) as [[]|]; try done; intros _; (split; [done|]); by eexists.
  - destruct (coroutines x) as [a|]; [|done]. destruct (events _ !! e) eqn:He; [done|]. intros _. by exists a.
  - destruct (coroutines x) as [a|]; [|done]. destruct (events _ !! e) eqn:He; [done|]. intros _. by exists a.
  - destruct (coroutines x) as [a|]; [|done]. destruct (as_waiting a !! e) as [ty|] eqn:Hw; [|done].
    destruct (events _ !! e) as [[]|] eqn:He; try done. intros _. by exists a, ty.
  - destruct (coroutines x) as [a|]; [|done]. destruct (as_waiting a !! e) as [ty|] eqn:Hw; [|done].
    destruct (events _ !! e) as [[]|] eqn:He; try done. intros _. by exists a, ty.
Qed.

Fixpoint async_run_ok x (ops : list op) : bool :=
  match ops with
  | [] => true
  | o :: ops =>
      async_allowed_b o x && match exec_sim o x with Done _ x' => async_run_ok x' ops | Fault _ _ => false end
  end.

Lemma sim_async_threads_reachable ops :
  async_run_ok (async_threads_initial tt) ops = true →
  rtc (async_threads_step (B:=list byte) no_handler 1) (async_threads_initial tt) (sim_async_threads ops).
Proof.
  unfold sim_async_threads. generalize (async_threads_initial tt : AN).
  induction ops as [|o ops IH]; intros x Hok; [apply rtc_refl|]. simpl in Hok |- *.
  apply andb_true_iff in Hok as [Hop Hok]. apply async_allowed_b_sound in Hop.
  destruct (exec_sim o x) as [[] x'|] eqn:Hex; [|done].
  eapply rtc_l; [by exists o|]. by apply IH.
Qed.
End simulation.

(** Coroutine 1 waits for a packet of type 128; the network thread has handed it
    one, and still has another to deliver. *)
Definition sim_async_inbox : list (kb_connection_t * list byte) :=
  let packet := (2, header_bytes (header_create serde_msgpack 128) ++ [x91; x2a]) in [packet; packet].
Definition sim_async_notified : list (async_op unit byte) :=
  [AnCreate; AnConnect "10.0.0.1" 80; AnNetwork; AnNetwork; AnNetwork; AnWait 1 128; AnNetwork; AnNetwork].

Lemma async_threads_refine_witness :
  let ss := sim_steam sim_async_inbox [] in
  let x := sim_async_threads ss sim_async_notified in
  length (client_owed (ct_net (an_threads x))) = 2%nat ∧
  ∃ x', exec_async (B:=list byte) no_handler 1 (AnResume 1) x = Done tt x' ∧
    an_results x' = [(1%nat, Some x2a)] ∧ rtc (async_life (B:=list byte)) (coroutines x) (coroutines x').
Proof.
  intros ss x. assert (SteamLaws sim_addr) as Hlaws by (apply sim_laws; by repeat constructor).
  split; [by vm_compute|].
  destruct (async_threads_refine (B:=list byte) no_handler (λ q h payload v Hgood Hd,
    wp_skip _ v (behaves_refl Interleaved q v Hgood Hd)) 1 tt x) as [Hops _];
    [apply sim_async_threads_reachable; by vm_compute|].
  destruct (Hops (AnResume 1)) as (x' & Hex & _ & _ & _ & Hlife & _).
  - apply (async_allowed_b_sound ss). by vm_compute.
  - exists x'. split; [exact Hex|]. split; [|exact Hlife].
    assert (match exec_async (B:=list byte) no_handler 1 (AnResume 1) x with
            | Done _ v => an_results v | Fault _ _ => [] end = [(1%nat, Some x2a)]) as Hres by by vm_compute.
    by rewrite Hex in Hres.
Defined.
