(* ===== verification/AsyncConnect.v ===== *)
(** * The asynchronous [connect], interleaved

    The coroutine of [connect] on top of the system of [AsyncThreads.v]: it starts
    the connection, then reads the status, sleeps and looks again, while the
    network thread, the application and other coroutines go on. *)

From S2P Require Import Prelude Bytes NetworkTypes Packet Serde Runtime Ledger.
From S2P Require Import UdpClient UdpClientSpec Links UdpClientSafety Simulated UdpClientSystem.
From S2P Require Import ClientThreads ClientThreadsProps ClientThreadsSystem.
From S2P Require Import Dispatch PacketClient PacketClientProps PacketClientSystem PacketThreads.
From S2P Require Import AsyncClient AsyncClientProps AsyncClientSystem AsyncThreads.
Import Strings.Byte.
Local Open Scope Z_scope.

(** Where a coroutine is in the loop of [connect]: about to read the status in
    round [iter], or asleep after having read it. *)
Inductive connect_pc :=
| ConnReading (iter : Z)
| ConnSleeping (iter : Z) (status : connection_status_t).

(** What the threads do: what they do in [AsyncThreads.v]; a coroutine calls
    [connect], up to its loop; it takes a step in the loop. *)
Inductive connects_op (U T : Type) :=
| CsOther (op : async_op U T)
| CsConnect (c : nat) (address : string) (port : Z)
| CsStep (c : nat).
Arguments CsOther {U T}.
Arguments CsConnect {U T}.
Arguments CsStep {U T}.

(** Besides the threads, the coroutines in the loop of [connect], and the answers
    of those that finished. *)
Record connects (A H U T payload_t : Type) := Connects {
  cs_threads : async_threads A H U T payload_t;
  cs_pending : gmap nat connect_pc;
  cs_answers : list (nat * bool);
}.
Arguments Connects {A H U T payload_t}.
Arguments cs_threads {A H U T payload_t}.
Arguments cs_pending {A H U T payload_t}.
Arguments cs_answers {A H U T payload_t}.

Section steps.
Context {A H B T payload_t U : Type} `{SteamIPAddr A} `{SteamSockets A}.
Context `{!PacketDeserializer payload_t, !PacketDeserializerLaws payload_t}.
Context `{!OwningBuffer B, !PacketSerializer B T payload_t, !PayloadConversionLaws B T payload_t}.
Context `{!PacketSerializerLaws B T payload_t}.
Local Abbreviation heap := (async_heap (payload_t:=payload_t) U).
Local Abbreviation W := (client_world A H unit heap).
Local Abbreviation CT := (cthreads A positive (client_heap H unit heap)).
Local Abbreviation AN := (async_threads A H U T payload_t).
Local Abbreviation CN := (connects A H U T payload_t).
Context (run_handler : H → payload_t → M W unit).
#[local] Instance connect_handlers : ClientPacketHandlers A H unit heap payload_t := async_handlers run_handler.
Implicit Types (w : W) (t : CT) (x : CN) (p : positive).

(** One round of the loop, cut at its [sleep_for]; [inr] leaves the loop. *)
Definition connect_step p (pc : connect_pc) : M W (connect_pc + connection_status_t) :=
  match pc with
  | ConnReading iter =>
      connection_status ← PacketClient.get_connection_status p;
      mret (if decide (max_iters ≤ iter) then inr connection_status
            else inl (ConnSleeping iter connection_status))
  | ConnSleeping iter connection_status =>
      mret (if decide (connection_status = connecting) then inl (ConnReading (u32 (iter + 1)))
            else inr connection_status)
  end.

(** [connect] up to its loop; [None] when it goes there. *)
Definition begin_connect p (address : string) (port : Z) : M CT (option bool) :=
  running ← on_cworld (PacketClient.is_running p);
  if (running : bool) then mret (Some false)
  else
    res ← on_cworld (PacketClient.connect p address port);
    modify (client_spawned p) ;;
    mret (if negb (res : bool) then Some false else None).

Definition on_async_threads {R} (m : M AN R) : M CN R := λ x,
  match m (cs_threads x) with
  | Done r t => Done r (Connects t (cs_pending x) (cs_answers x))
  | Fault e t => Fault e (Connects t (cs_pending x) (cs_answers x))
  end.

Definition set_pending f x : CN := Connects (cs_threads x) (f (cs_pending x)) (cs_answers x).
Definition answer_connect (c : nat) (b : bool) x : CN :=
  Connects (cs_threads x) (delete c (cs_pending x)) (cs_answers x ++ [(c, b)]).

Definition exec_connects p (op : connects_op U T) : M CN unit :=
  match op with
  | CsOther op => on_async_threads (exec_async (B:=B) run_handler p op)
  | CsConnect c address port =>
      on_async_threads (on_threads (begin_connect p address port)) ≫= λ answer : option bool,
      modify (match answer with
              | Some b => answer_connect c b
              | None => set_pending <[c := ConnReading 0]>
              end)
  | CsStep c =>
      pc ← gets (λ x : CN, cs_pending x !! c);
      match pc with
      | Some pc =>
          on_async_threads (on_threads (on_cworld (connect_step p pc))) ≫= λ r : connect_pc + connection_status_t,
          modify (match r with
                  | inl pc => set_pending <[c := pc]>
                  | inr status => answer_connect c (bool_decide (status = connected))
                  end)
      | None => skip
      end
  end.

Context `{CallbackContract U}.

(** The correct uses: those of [AsyncThreads.v], where connecting is left to the
    coroutines here, and the client is not let go of while one is in its loop. *)
Definition connects_allowed p (op : connects_op U T) x : Prop :=
  match op with
  | CsOther (AnConnect _ _) => False
  | CsOther AnDestroy => async_allowed (B:=B) p AnDestroy (cs_threads x) ∧ cs_pending x = ∅
  | CsOther op => async_allowed (B:=B) p op (cs_threads x)
  | CsConnect c address port =>
      async_allowed (B:=B) p (AnConnect address port) (cs_threads x) ∧
      is_Some (coroutines (cs_threads x)) ∧ cs_pending x !! c = None
  | CsStep c => is_Some (cs_pending x !! c)
  end.

Definition connects_step p x x' : Prop :=
  ∃ op, connects_allowed p op x ∧ exec_connects p op x = Done tt x'.

(** A run of given operations. *)
Fixpoint connects_run p (ops : list (connects_op U T)) x x' : Prop :=
  match ops with
  | [] => x' = x
  | op :: ops => ∃ y, connects_allowed p op x ∧ exec_connects p op x = Done tt y ∧ connects_run p ops y x'
  end.

Definition connects_initial (u : U) : CN := Connects (async_threads_initial u) ∅ [].

(** The steps of coroutine [c] among some operations. *)
Definition turns (c : nat) (ops : list (connects_op U T)) : nat :=
  length (List.filter (λ op, match op with CsStep c' => Nat.eqb c' c | _ => false end) ops).

(** The steps a coroutine has left at most. *)
Definition turns_left (pc : connect_pc) : nat :=
  match pc with
  | ConnReading iter => Z.to_nat (2 * (max_iters - iter) + 1)
  | ConnSleeping iter _ => Z.to_nat (2 * (max_iters - iter))
  end.

Definition connect_pc_ok (pc : connect_pc) : Prop :=
  match pc with
  | ConnReading iter => 0 ≤ iter ≤ max_iters
  | ConnSleeping iter _ => 0 ≤ iter < max_iters
  end.
End steps.

(** ** The loop and its steps *)

Section cut.
Context {A H payload_t U : Type} `{SteamIPAddr A} `{SteamSockets A}.
Local Abbreviation W := (client_world A H unit (async_heap (payload_t:=payload_t) U)).
Context (sleep_for : Z → M W unit).

(** A round of [connect_loop] is a step, the sleep, and a step. *)
Lemma connect_loop_cut fuel p iter (w : W) :
  connect_loop sleep_for (S fuel) p iter w =
  (connect_step p (ConnReading iter) ≫= λ r,
   match r with
   | inr status => mret (Some status)
   | inl pc =>
       sleep_for iter ;;
       connect_step p pc ≫= λ r,
       match r with
       | inl (ConnReading iter) => connect_loop sleep_for fuel p iter
       | inl (ConnSleeping _ _) => mret None
       | inr status => mret (Some status)
       end
   end) w.
Proof.
  cbn [connect_loop connect_step]. unfold mbind, M_bind, mret, M_ret.
  destruct (PacketClient.get_connection_status p w) as [st v|]; [|done].
  case_decide; [done|]. destruct (sleep_for iter v) as [[] v'|]; [|done].
  cbn. by case_decide.
Qed.
End cut.

(** ** What holds in every interleaving *)

Section system.
Context {A H B T payload_t U : Type} `{SteamIPAddr A} `{SteamSockets A} `{!SteamLaws A}.
Context `{!PacketDeserializer payload_t, !PacketDeserializerLaws payload_t}.
Context `{!OwningBuffer B, !PacketSerializer B T payload_t, !PayloadConversionLaws B T payload_t}.
Context `{!PacketSerializerLaws B T payload_t} `{CallbackContract U}.
Local Abbreviation heap := (async_heap (payload_t:=payload_t) U).
Local Abbreviation W := (client_world A H unit heap).
Local Abbreviation AN := (async_threads A H U T payload_t).
Local Abbreviation CN := (connects A H U T payload_t).
Context (run_handler : H → payload_t → M W unit).
#[local] Instance coroutine_handlers : ClientPacketHandlers A H unit heap payload_t := async_handlers run_handler.
#[local] Instance coroutine_frame : CallbackContract heap := async_contract (B:=B) (T:=T).
Context (Hhandlers : ∀ q h payload (v : W), client_good Interleaved q v → has_data q v →
  wp (run_handler h payload) (λ _, behaves Interleaved q v) v).
Implicit Types (w : W) (y : AN) (x : CN) (p : positive).

Local Abbreviation world_of x := (ct_world (an_threads (cs_threads x))).

(** The asynchronous client keeps the client below it. *)
Lemma async_object p y :
  async_threads_ok (B:=B) p y → is_Some (coroutines y) → is_Some (w_objs (ct_world (an_threads y)) !! p).
Proof.
  intros Hok Ha. pose proof (ato_alive _ _ Hok Ha) as Hp. apply elem_of_dom in Hp. apply elem_of_dom.
  rewrite (pto_dom _ _ (ato_threads _ _ Hok)) in Hp. by destruct (ct_app _) as [|[]].
Qed.

(** What a step of the loop does where the client has a status. *)
Definition connect_next (status : connection_status_t) (pc : connect_pc) : connect_pc + connection_status_t :=
  match pc with
  | ConnReading iter => if decide (max_iters ≤ iter) then inr status else inl (ConnSleeping iter status)
  | ConnSleeping iter st => if decide (st = connecting) then inl (ConnReading (u32 (iter + 1))) else inr st
  end.

Lemma connect_step_Done p pc w s :
  w_objs w !! p = Some s → connect_step p pc w = Done (connect_next (m_connection_status s) pc) w.
Proof.
  intros Hs. destruct pc as [iter|iter st]; cbn [connect_step connect_next]; [|done].
  erewrite bind_Done; [done|]. unfold PacketClient.get_connection_status, UdpClient.get_connection_status.
  by rewrite (bind_Done _ _ _ _ _ (deref_Done p s w Hs)).
Qed.

(** Every step is a turn fewer, until the last. *)
Lemma connect_next_ok status pc pc' :
  connect_pc_ok pc → connect_next status pc = inl pc' →
  connect_pc_ok pc' ∧ (turns_left pc' < turns_left pc)%nat.
Proof.
  unfold connect_next. change max_iters with 20.
  destruct pc as [iter|iter st]; simpl; case_decide; intros Hpc [= <-]; simpl; change max_iters with 20 in *; [lia|].
  unfold u32. rewrite wrap_small by (unfold fits; lia). lia.
Qed.

Lemma turns_left_max pc : connect_pc_ok pc → (0 < turns_left pc ≤ 41)%nat.
Proof. destruct pc; simpl; change max_iters with 20; lia. Qed.

(** Threads and coroutines in order; the client is there while a coroutine is in
    its loop, whose rounds are counted. *)
Record connects_ok p x : Prop := {
  cso_threads : async_threads_ok (B:=B) p (cs_threads x);
  cso_alive : cs_pending x = ∅ ∨ is_Some (coroutines (cs_threads x));
  cso_rounds : map_Forall (λ _, connect_pc_ok) (cs_pending x);
}.

Lemma connects_object p x c pc :
  connects_ok p x → cs_pending x !! c = Some pc →
  is_Some (coroutines (cs_threads x)) ∧ ∃ s, w_objs (world_of x) !! p = Some s.
Proof.
  intros Hok Hc. destruct (cso_alive _ _ Hok) as [He|Ha]; [by rewrite He in Hc|].
  split; [done|]. by apply async_object; [apply Hok|].
Qed.

Lemma wp_on_async_threads {R} (m : M AN R) Q x :
  wp m (λ r y, Q r (Connects y (cs_pending x) (cs_answers x))) (cs_threads x) → wp (on_async_threads m) Q x.
Proof. unfold wp, on_async_threads. by destruct (m (cs_threads x)). Qed.

(** A step of a coroutine in the loop changes nothing else. *)
Lemma step_Done p c x pc s :
  cs_pending x !! c = Some pc → w_objs (world_of x) !! p = Some s →
  exec_connects (B:=B) run_handler p (CsStep c) x
  = Done tt (match connect_next (m_connection_status s) pc with
             | inl pc => set_pending <[c := pc]> x
             | inr status => answer_connect c (bool_decide (status = connected)) x
             end).
Proof.
  intros Hc Hs. cbn [exec_connects]. erewrite bind_Done; [|done]. cbv beta iota. rewrite Hc.
  erewrite bind_Done.
  2: { unfold on_async_threads, on_threads, on_cworld. rewrite (connect_step_Done p pc _ s Hs). done. }
  destruct x as [[t wt rs] pd ans]. by destruct (connect_next _ pc), t.
Qed.

Lemma async_goes_on_refl p y : async_threads_ok (B:=B) p y → async_goes_on (B:=B) p y y.
Proof. intros Hok. split; [|done]. split; [split; [apply Hok|done]|]. split; [done|]. split; apply Hok. Qed.

Lemma begin_connect_ok p address port y :
  async_threads_ok (B:=B) p y → async_allowed (B:=B) p (AnConnect address port) y →
  wp (on_threads (begin_connect p address port))
    (λ r y', async_goes_on (B:=B) p y y' ∧ (r = Some false ∨ r = None)) y.
Proof.
  intros Hok Hop. pose proof Hop as (_ & [(s & Hs & _) _] & _).
  pose proof (async_op_ok (B:=B) (T:=T) run_handler Hhandlers p (AnConnect address port) y Hok Hop) as Hwp.
  apply wp_on_threads. unfold begin_connect. apply wp_bind. unfold on_cworld at 1, wp at 1.
  unfold PacketClient.is_running, UdpClient.is_running. rewrite (bind_Done _ _ _ _ _ (deref_Done p s _ Hs)). cbn.
  destruct y as [[w net app] wt rs]. simpl in *. destruct (m_running s); [by split; [apply async_goes_on_refl|left]|].
  revert Hwp. unfold wp. cbn [exec_async]. unfold on_threads. cbn [exec_packet_thread exec_packet_client_op].
  unfold on_cworld, modify, mret, M_ret, mbind, M_bind, PacketClient.connect, skip. cbn.
  destruct (UdpClient.connect p address port w) as [b w'|]; [|done]. cbn.
  intros [Hgo [?|Halive]]; [done|]. split; [by split|]. destruct b; auto.
Qed.

(** ** Every step keeps the invariant *)

Lemma connects_goes_ok p x y' f :
  connects_ok p x → async_goes_on (B:=B) p (cs_threads x) y' →
  (cs_pending x = ∅ ∨ is_Some (coroutines (cs_threads x)) → f (cs_pending x) = ∅ ∨ is_Some (coroutines (cs_threads x))) →
  map_Forall (λ _, connect_pc_ok) (f (cs_pending x)) → ∀ ans, connects_ok p (Connects y' (f (cs_pending x)) ans).
Proof.
  intros Hok [Hgo Halive] Hf Hrounds ans. split; [by eapply async_goes_ok; [apply Hok|]| |done].
  destruct (Hf (cso_alive _ _ Hok)); [by left|right; by apply Halive].
Qed.

Lemma connects_op_ok p op x :
  connects_ok p x → connects_allowed (B:=B) p op x →
  wp (exec_connects (B:=B) run_handler p op) (λ _, connects_ok p) x.
Proof.
  intros Hok Hop. pose proof (cso_threads _ _ Hok) as Hthr. destruct op as [op|c address port|c].
  - assert (async_allowed (B:=B) p op (cs_threads x) ∧ (op = AnDestroy → cs_pending x = ∅)) as [Hall Hgone]
      by (destruct op; first [done|exact (conj (proj1 Hop) (λ _, proj2 Hop))|by split]).
    apply wp_on_async_threads. eapply wp_mono; [by apply (async_op_ok (B:=B) (T:=T) run_handler Hhandlers p op)|].
    intros [] y' [Hgo Halive]. split; [by eapply async_goes_ok| |apply Hok]. simpl.
    destruct (cso_alive _ _ Hok) as [?|Ha]; [by left|].
    destruct Halive as [->|Halive]; [left; by apply Hgone|right; by apply Halive].
  - destruct Hop as (Hop & Ha & Hc). cbn [exec_connects]. apply wp_bind, wp_on_async_threads.
    eapply wp_mono; [by apply begin_connect_ok|]. intros r y' [Hgo Hr]. apply wp_modify.
    destruct Hr as [-> | ->]; unfold answer_connect, set_pending; cbn [cs_threads cs_pending cs_answers].
    + apply (connects_goes_ok p x y' (delete c)); [done..|by right|by apply map_Forall_delete, Hok].
    + apply (connects_goes_ok p x y' <[c := ConnReading 0]>); [done..|by right|].
      by apply map_Forall_insert_2; [|apply Hok].
  - destruct Hop as [pc Hc]. destruct (connects_object p x c pc Hok Hc) as [Ha [s Hs]].
    eapply wp_of_Done; [by eapply step_Done|].
    pose proof (cso_rounds _ _ Hok c pc Hc) as Hpc. pose proof (async_goes_on_refl p _ Hthr) as Hrefl.
    destruct (connect_next (m_connection_status s) pc) as [pc'|st] eqn:Hnext.
    + apply (connects_goes_ok p x _ <[c := pc']>); [done..|by right|].
      apply map_Forall_insert_2; [by eapply connect_next_ok|apply Hok].
    + apply (connects_goes_ok p x _ (delete c)); [done..|by right|by apply map_Forall_delete, Hok].
Qed.

Lemma connects_initial_ok p (u : U) : connects_ok p (connects_initial u : CN).
Proof.
  split; [|by left|done]. by apply (async_threads_reachable_ok (B:=B) run_handler Hhandlers p u), rtc_refl.
Qed.

Lemma connects_reachable_ok p (u : U) x :
  rtc (connects_step (B:=B) run_handler p) (connects_initial u) x → connects_ok p x.
Proof.
  intros Hr. pose proof (connects_initial_ok p u) as Hok. revert Hok.
  induction Hr as [|x1 x2 x3 (op & Hop & Hex) _ IH]; [done|]. intros Hok. apply IH.
  pose proof (connects_op_ok p op x1 Hok Hop) as Hwp. unfold wp in Hwp. by rewrite Hex in Hwp.
Qed.

(** ** Answers *)

Lemma on_async_threads_effect {R} (m : M AN R) x r x' :
  on_async_threads m x = Done r x' → cs_pending x' = cs_pending x ∧ cs_answers x' = cs_answers x.
Proof. unfold on_async_threads. by destruct (m (cs_threads x)); intros [= _ <-]. Qed.

(** Answers stay; a coroutine in the loop moves by its own steps only. *)
Lemma exec_connects_effect p op x x' c pc :
  connects_ok p x → connects_allowed (B:=B) p op x → exec_connects (B:=B) run_handler p op x = Done tt x' →
  cs_pending x !! c = Some pc → op ≠ CsStep c → cs_pending x' !! c = Some pc.
Proof.
  intros Hok Hop Hex Hc Hne. destruct op as [op|c' address port|c'].
  - apply on_async_threads_effect in Hex as [-> _]. done.
  - assert (c' ≠ c) as Hcc by (intros ->; destruct Hop as (_ & _ & Hn); congruence).
    cbn [exec_connects] in Hex. unfold mbind, M_bind in Hex. destruct (on_async_threads _ x) as [r v|] eqn:Hv; [|done].
    apply on_async_threads_effect in Hv as [Hp _]. rewrite <- Hp in Hc.
    destruct r; injection Hex as <-; simpl; [by rewrite lookup_delete_ne|by rewrite lookup_insert_ne].
  - assert (c' ≠ c) as Hcc by congruence. destruct Hop as [pc' Hc'].
    destruct (connects_object p x c' pc' Hok Hc') as [_ [s Hs]]. rewrite (step_Done p c' x pc' s Hc' Hs) in Hex.
    destruct (connect_next _ pc'); injection Hex as <-; simpl; [by rewrite lookup_insert_ne|by rewrite lookup_delete_ne].
Qed.

Lemma exec_connects_answers p op x x' :
  exec_connects (B:=B) run_handler p op x = Done tt x' → cs_answers x `prefix_of` cs_answers x'.
Proof.
  destruct op as [op|c address port|c]; cbn [exec_connects]; unfold mbind, M_bind, gets, modify.
  - by intros [_ ->]%on_async_threads_effect.
  - destruct (on_async_threads _ x) as [r v|] eqn:Hv; [|done]. apply on_async_threads_effect in Hv as [_ <-].
    intros [= <-]. destruct r; simpl; [by apply prefix_app_r|done].
  - destruct (cs_pending x !! c) as [pc|]; [|by intros [= <-]].
    destruct (on_async_threads _ x) as [r v|] eqn:Hv; [|done]. apply on_async_threads_effect in Hv as [_ <-].
    intros [= <-]. destruct r; simpl; [done|by apply prefix_app_r].
Qed.

Lemma connects_run_answers p ops x x' :
  connects_run (B:=B) run_handler p ops x x' → cs_answers x `prefix_of` cs_answers x'.
Proof.
  revert x. induction ops as [|op ops IH]; intros x; simpl; [by intros ->|].
  intros (y & _ & Hex & Hrun). etrans; [by eapply exec_connects_answers|by apply IH].
Qed.

Lemma connects_step_ok p op x x' :
  connects_ok p x → connects_allowed (B:=B) p op x → exec_connects (B:=B) run_handler p op x = Done tt x' →
  connects_ok p x'.
Proof.
  intros Hok Hop Hex. pose proof (connects_op_ok p op x Hok Hop) as Hwp. unfold wp in Hwp. by rewrite Hex in Hwp.
Qed.

(** Every turn of a coroutine brings its answer nearer. *)
Lemma connects_run_ends p ops x x' c pc :
  connects_ok p x → connects_run (B:=B) run_handler p ops x x' → cs_pending x !! c = Some pc →
  (∃ b, (c, b) ∈ cs_answers x') ∨
  ∃ pc', cs_pending x' !! c = Some pc' ∧ connect_pc_ok pc' ∧ (turns c ops + turns_left pc' ≤ turns_left pc)%nat.
Proof.
  revert x pc. induction ops as [|op ops IH]; intros x pc Hok Hrun Hc.
  { simpl in Hrun. subst x'. right. exists pc. split; [done|]. split; [by apply (cso_rounds _ _ Hok c)|done]. }
  destruct Hrun as (y & Hop & Hex & Hrun). pose proof (connects_step_ok p op x y Hok Hop Hex) as Hoky.
  assert (op = CsStep c ∧ turns c (op :: ops) = S (turns c ops) ∨
    op ≠ CsStep c ∧ turns c (op :: ops) = turns c ops) as [[-> ->]|[Hne ->]].
  { unfold turns. destruct op as [| |c']; cbn; [by right..|].
    destruct (Nat.eqb_spec c' c) as [->|Hne]; [by left|right; split; [congruence|done]]. }
  - destruct (connects_object p x c pc Hok Hc) as [_ [s Hs]]. rewrite (step_Done p c x pc s Hc Hs) in Hex.
    destruct (connect_next (m_connection_status s) pc) as [pc'|st] eqn:Hnext; injection Hex as <-.
    + destruct (connect_next_ok _ pc pc' (cso_rounds _ _ Hok c pc Hc) Hnext) as [_ Hlt].
      destruct (IH _ pc' Hoky Hrun (lookup_insert_eq _ _ _)) as [?|(pc2 & ? & ? & Hle)]; [by left|].
      right. exists pc2. split_and!; [done..|lia].
    + left. eexists. eapply elem_of_prefix; [|exact (connects_run_answers p ops _ x' Hrun)].
      apply elem_of_app. right. by rewrite list_elem_of_singleton.
  - pose proof (exec_connects_effect p op x y c pc Hok Hop Hex Hc Hne) as Hc'.
    by apply (IH y pc).
Qed.

(** A moment before [x] at which the client had this status. *)
Definition had_status p (u : U) x (st : connection_status_t) : Prop :=
  ∃ x0 s, rtc (connects_step (B:=B) run_handler p) (connects_initial u) x0 ∧
    rtc (connects_step (B:=B) run_handler p) x0 x ∧
    w_objs (world_of x0) !! p = Some s ∧ m_connection_status s = st.

(** The statuses the coroutines go on with are those they read. *)
Definition statuses_read p (u : U) x : Prop :=
  (∀ c iter st, cs_pending x !! c = Some (ConnSleeping iter st) → had_status p u x st) ∧
  (∀ c, (c, true) ∈ cs_answers x → had_status p u x connected).

Lemma statuses_read_step p u x x' op :
  rtc (connects_step (B:=B) run_handler p) (connects_initial u) x → statuses_read p u x →
  connects_allowed (B:=B) p op x → exec_connects (B:=B) run_handler p op x = Done tt x' → statuses_read p u x'.
Proof.
  intros Hr [Hsleep Hans] Hop Hex. pose proof (connects_reachable_ok p u x Hr) as Hok.
  assert (connects_step (B:=B) run_handler p x x') as Hstep by by exists op.
  assert (∀ st, had_status p u x st → had_status p u x' st) as Hold.
  { intros st (x0 & s & Hx0 & Hx & Hs). exists x0, s. split; [done|]. split; [by eapply rtc_r|done]. }
  destruct op as [op|c' address port|c'].
  - apply on_async_threads_effect in Hex as [Hp Ha]. split; rewrite ?Hp, ?Ha; eauto.
  - destruct Hop as (Hop & _ & _). cbn [exec_connects] in Hex.
    assert (wp (on_async_threads (on_threads (begin_connect p address port))) (λ r v,
      r ≠ Some true ∧ cs_pending v = cs_pending x ∧ cs_answers v = cs_answers x) x) as Hwp.
    { apply wp_on_async_threads. eapply wp_mono; [by apply begin_connect_ok; [apply Hok|]|].
      intros r y' [_ [-> | ->]]; by split_and!. }
    apply wp_Done in Hwp as (r & v & Hv & Hfalse & Hp & Ha). rewrite (bind_Done _ _ _ _ _ Hv) in Hex.
    destruct r as [[]|]; [done|..]; injection Hex as <-; split; simpl; rewrite ?Hp, ?Ha; try by eauto.
    + intros c iter st [_ Hc]%lookup_delete_Some. eauto.
    + intros c [Hc|[=]%list_elem_of_singleton]%elem_of_app. eauto.
    + intros c iter st [[_ [=]]|[_ Hc]]%lookup_insert_Some. eauto.
  - destruct Hop as [pc Hc']. destruct (connects_object p x c' pc Hok Hc') as [_ [s Hs]].
    rewrite (step_Done p c' x pc s Hc' Hs) in Hex.
    assert (∀ st, connect_next (m_connection_status s) pc = inr st → had_status p u x st) as Hend.
    { intros st. destruct pc as [iter|iter st']; simpl; case_decide; intros [= <-]; [by exists x, s|by eapply Hsleep]. }
    destruct (connect_next (m_connection_status s) pc) as [pc'|st] eqn:Hnext; injection Hex as <-; split; simpl; try by eauto.
    + intros c iter st [[<- ->]|[_ Hc]]%lookup_insert_Some; [|by eauto]. apply Hold.
      destruct pc; simpl in Hnext; case_decide; try done. injection Hnext as _ <-. by exists x, s.
    + intros c iter st0 [_ Hc]%lookup_delete_Some. eauto.
    + intros c [Hc|[= _ Htrue]%list_elem_of_singleton]%elem_of_app; [by eauto|]. apply Hold, Hend.
      symmetry in Htrue. by apply bool_decide_eq_true in Htrue as ->.
Qed.

Lemma statuses_read_reachable p u x :
  rtc (connects_step (B:=B) run_handler p) (connects_initial u) x → statuses_read p u x.
Proof.
  revert x. apply rtc_ind_r; [split; [by intros c iter st Hc|by intros c Hc%elem_of_nil]|].
  intros x x' Hr (op & Hop & Hex) IH. by eapply statuses_read_step.
Qed.

(** ** A lost link *)

Lemma terminates_on_async_threads {R} (m : M AN R) x :
  terminates m (cs_threads x) → terminates (on_async_threads m) x.
Proof. intros [y' Hm]. eexists. unfold on_async_threads. by rewrite Hm. Qed.

Lemma lost_begin_connect p a pt (t : cthreads A positive (client_heap H unit heap)) :
  client_world_ok p (ct_world t) → broken (links p (ct_world t)) →
  steam_answer (w_trace (ct_world t)) SteamNetworkingSockets = true →
  terminates (begin_connect p a pt) t.
Proof.
  intros Hw Hb Hlib. destruct (broken_zombie p _ Hw Hb) as (s & Hs & Hr & _).
  apply (terminates_after _ _ _ false t).
  - unfold on_cworld, PacketClient.is_running, UdpClient.is_running.
    erewrite bind_Done by by apply deref_Done. rewrite Hr. by destruct t.
  - by apply terminates_bind, terminates_on_cworld, lost_connect.
Qed.

(** C27: the asynchronous [connect], interleaved with the network thread, the
    application, and coroutines that wait for packets or connect, in every way but
    one: no other thread has a status change handled just between the network
    thread's test of the connection and its receiving on it.  As long as the
    conditions of [async_allowed] on the other uses hold, coroutines connect while
    the library is initialised and the link is not lost, and the client is not let
    go of while one is in its loop, nor once its link is lost, no step faults;
    whatever else runs in between, a coroutine in the waiting loop has answered, or
    it can go on and has taken fewer than 41 steps, two for each of the twenty
    sleeps and the last look; and when it answers true the client was connected at
    some moment before.  Once the link is lost, a coroutine that connects, and
    letting go of the client, terminate the process. *)
Theorem async_connect_interleaved p (u : U) x :
  rtc (connects_step (B:=B) run_handler p) (connects_initial u) x →
  (∀ op, connects_allowed (B:=B) p op x → ∃ x', exec_connects (B:=B) run_handler p op x = Done tt x' ∧
     client_world_inv Interleaved p (world_of x')) ∧
  (∀ c pc ops x', cs_pending x !! c = Some pc → connects_run (B:=B) run_handler p ops x x' →
     (∃ b, (c, b) ∈ cs_answers x') ∨ (is_Some (cs_pending x' !! c) ∧ (turns c ops < 41)%nat)) ∧
  (∀ c, (c, true) ∈ cs_answers x → had_status p u x connected) ∧
  (ct_app (an_threads (cs_threads x)) = CFree → broken (links p (world_of x)) →
     terminates (exec_connects (B:=B) run_handler p (CsOther AnDestroy)) x ∧
     (∀ c a pt, steam_answer (w_trace (world_of x)) SteamNetworkingSockets = true →
        terminates (exec_connects (B:=B) run_handler p (CsConnect c a pt)) x)).
Proof.
  intros Hr. pose proof (connects_reachable_ok p u x Hr) as Hok. split_and!.
  - intros op Hop. pose proof (connects_op_ok p op x Hok Hop) as Hwp.
    apply wp_Done in Hwp as ([] & x' & Hex & Hok'). exists x'. split; [done|]. apply Hok'.
  - intros c pc ops x' Hc Hrun. pose proof (turns_left_max pc (cso_rounds _ _ Hok c pc Hc)).
    destruct (connects_run_ends p ops x x' c pc Hok Hrun Hc) as [?|(pc' & Hc' & Hpc' & Hle)]; [by left|].
    right. split; [by exists pc'|]. pose proof (turns_left_max pc' Hpc'). lia.
  - apply (statuses_read_reachable p u x Hr).
  - intros Hfree Hb. pose proof (ato_threads _ _ (cso_threads _ _ Hok)) as Hthr.
    pose proof (pcl_world _ _ (packet_free_ok p _ Hthr Hfree)) as Hw.
    split; [by apply terminates_on_async_threads, lost_async_destroy|]. intros c a pt Hlib.
    by apply terminates_bind, terminates_on_async_threads, terminates_on_threads, lost_begin_connect.
Qed.
End system.

(** ** A simulated run *)

#[local] Existing Instance sim_threads_contract.

Section simulation.
Context (ss : SteamSockets sim_addr).
Local Abbreviation CN := (connects sim_addr nat unit byte (list byte)).
Local Abbreviation op := (connects_op unit byte).
Implicit Types x : CN.

Definition exec_sim_connect (o : op) : M CN unit := exec_connects (B:=list byte) no_handler 1 o.

Definition sim_connects (ops : list op) : CN :=
  foldl (λ x o, match exec_sim_connect o x with Done _ x' => x' | Fault _ x' => x' end) (connects_initial tt) ops.

(** The boolean form of [connects_allowed], for the operations used below. *)
Definition connects_allowed_b (o : op) x : bool :=
  match o with
  | CsOther (AnConnect _ _) | CsOther AnDestroy => false
  | CsOther o => async_allowed_b ss o (cs_threads x)
  | CsConnect c a pt =>
      async_allowed_b ss (AnConnect a pt) (cs_threads x) &&
      match coroutines (cs_threads x), cs_pending x !! c with Some _, None => true | _, _ => false end
  | CsStep c => match cs_pending x !! c with Some _ => true | None => false end
  end.

Lemma connects_allowed_b_sound o x : connects_allowed_b o x = true → connects_allowed (B:=list byte) 1 o x.
Proof.
  destruct o as [o|c a pt|c]; cbn [connects_allowed_b connects_allowed].
  - intros Ho. assert (async_allowed_b ss o (cs_threads x) = true) as Hall by by destruct o.
    apply (async_allowed_b_sound ss) in Hall. by destruct o.
  - intros [Ho Hc]%andb_true_iff. apply (async_allowed_b_sound ss) in Ho.
    by destruct (coroutines (cs_threads x)), (cs_pending x !! c).
  - destruct (cs_pending x !! c); [|done]. by eexists.
Qed.

Fixpoint connects_run_ok x (ops : list op) : bool :=
  match ops with
  | [] => true
  | o :: ops =>
      connects_allowed_b o x && match exec_sim_connect o x with Done _ x' => connects_run_ok x' ops | Fault _ _ => false end
  end.

Lemma sim_connects_reachable ops :
  connects_run_ok (connects_initial tt) ops = true →
  rtc (connects_step (B:=list byte) no_handler 1) (connects_initial tt) (sim_connects ops).
Proof.
  unfold sim_connects. generalize (connects_initial tt : CN).
  induction ops as [|o ops IH]; intros x Hok; [apply rtc_refl|]. simpl in Hok |- *.
  apply andb_true_iff in Hok as [Hop Hok]. apply connects_allowed_b_sound in Hop.
  destruct (exec_sim_connect o x) as [[] x'|] eqn:Hex; [|done].
  eapply rtc_l; [by exists o|]. by apply IH.
Qed.
End simulation.

(** Coroutine 1 connects; its first look comes before the server has answered, the
    second after. *)
Definition sim_connecting : list (connects_op unit byte) :=
  [CsOther AnCreate; CsConnect 1 "10.0.0.1" 80; CsStep 1] ++
  (CsOther <$> replicate 8 AnNetwork) ++
  [CsStep 1; CsStep 1; CsStep 1].

Lemma async_connect_interleaved_witness :
  let ss := sim_steam [] [StatusChanged 2 StateConnected StateConnecting] in
  let x := sim_connects ss sim_connecting in
  cs_answers x = [(1%nat, true)] ∧
  had_status (B:=list byte) no_handler 1 tt x connected.
Proof.
  intros ss x. assert (SteamLaws sim_addr) as Hlaws by (apply sim_laws; by repeat constructor).
  assert (cs_answers x = [(1%nat, true)]) as Hans by by vm_compute. split; [exact Hans|].
  destruct (async_connect_interleaved (B:=list byte) no_handler (λ q h payload v Hgood Hd,
    wp_skip _ v (behaves_refl Interleaved q v Hgood Hd)) 1 tt x) as (_ & _ & Htrue & _).
  - apply sim_connects_reachable. by vm_compute.
  - apply (Htrue 1%nat). rewrite Hans. by apply list_elem_of_singleton.
Defined.
