(* ===== verification/Factories.v ===== *)
(** * The factories

    [src/kb/net/udp/udp.hpp]: the functions that make packet servers, packet
    clients and asynchronous clients of each serialization type, and that
    objects of different types keep their packets apart. *)

From S2P Require Import Prelude Bytes NetworkTypes Packet Serde Runtime UdpServer UdpClient Simulated.
From S2P Require Import Dispatch PacketServer PacketServerProps PacketClient PacketClientProps.
From S2P Require Import PacketClientSystem AsyncClient AsyncClientProps AsyncClientSystem.
Import Strings.Byte.
Local Open Scope Z_scope.

(** ** Pointers to instantiated templates *)

(** [std::shared_ptr<X<SerdeT>>] for a class template [X]: the traits of the
    serialization type are part of the pointer's type. *)
Record shared_ptr {payload_t : Type} (traits : PacketDeserializer payload_t) := SharedPtr {
  get : positive;
}.
Arguments SharedPtr {payload_t traits}.
Arguments get {payload_t traits}.

Section factories.
Context {A H P U obj : Type} `{SteamIPAddr A} `{SteamSockets A} `{MsgpackUnpack obj}.

Definition create_binary_server (this : positive) : M (packet_world A H U) (shared_ptr binary_deserializer) :=
  PacketServer.create this ;; mret (SharedPtr this).

Definition create_msgpack_server (this : positive)
    : M (packet_world A H U) (shared_ptr (msgpack_deserializer (obj:=obj))) :=
  PacketServer.create this ;; mret (SharedPtr this).

Definition create_binary_client (this : positive) : M (client_world A H P U) (shared_ptr binary_deserializer) :=
  PacketClient.create this ;; mret (SharedPtr this).

Definition create_msgpack_client (this : positive)
    : M (client_world A H P U) (shared_ptr (msgpack_deserializer (obj:=obj))) :=
  PacketClient.create this ;; mret (SharedPtr this).

Definition create_async_binary_client (this : positive)
    : M (client_world A H unit (async_heap (payload_t:=span) U)) (shared_ptr binary_deserializer) :=
  AsyncClient.create this ;; mret (SharedPtr this).

Definition create_async_msgpack_client (this : positive)
    : M (client_world A H unit (async_heap (payload_t:=obj) U)) (shared_ptr (msgpack_deserializer (obj:=obj))) :=
  AsyncClient.create this ;; mret (SharedPtr this).
End factories.

(** ** What they make *)

Section made.
Context {A H P U payload_t : Type} `{SteamIPAddr A} `{SteamSockets A} `{PacketDeserializerLaws payload_t}.

(** The serialization type is an enumerator of one byte. *)
Context (SerdeT_byte : fits 8 (SerdeT (payload_t:=payload_t))).

(** A datagram of the serialization type [serde]. *)
Definition packet_of (serde : serialization_type_t) (t : packet_type_t) (body : list byte) : list byte :=
  header_bytes (header_create serde t) ++ body.

(** The server at [p] can be given a handler for [t]; it then runs it with the
    payload of every packet of its own serialization type, and drops every
    packet of another one. *)
Definition server_speaks `{PacketHandlers A H U payload_t} (p : positive) (w : packet_world A H U) : Prop :=
  ∀ t h, fits 32 t → ∃ w2,
    PacketServer.bind_packet_handler p t h w = Done true w2 ∧
    (∀ ci body payload, length body < 2 ^ 63 → decode body = Some payload →
       let data := packet_of SerdeT t body in
       handle_packet p ci data (length data) w2 = (run_handler h (m_conn ci) payload ;; mret true) w2) ∧
    (∀ ci serde body, fits 8 serde → serde ≠ SerdeT →
       let data := packet_of serde t body in
       handle_packet p ci data (length data) w2 = Done false w2).

Definition client_speaks `{ClientPacketHandlers A H P U payload_t} (p : positive) (w : client_world A H P U) : Prop :=
  ∀ t h, fits 32 t → ∃ w2,
    bind_packet_handler p t h w = Done true w2 ∧
    (∀ conn body payload, length body < 2 ^ 63 → decode body = Some payload →
       let data := packet_of SerdeT t body in
       handle_message p (ViewMessage conn data (length data)) w2 = (run_client_handler h payload ;; mret true) w2) ∧
    (∀ conn serde body, fits 8 serde → serde ≠ SerdeT →
       let data := packet_of serde t body in
       handle_message p (ViewMessage conn data (length data)) w2 = Done false w2).

Lemma length_packet_of serde t body : length (packet_of serde t body) = (8 + length body)%nat.
Proof. unfold packet_of. by rewrite length_app, length_header_bytes. Qed.

Lemma parse_packet_of serde t body :
  fits 8 serde → fits 32 t → parse_header (packet_of serde t body) = Some (header_create serde t).
Proof. intros. apply parse_header_bytes. by apply header_wf_create. Qed.

Lemma dispatch_packet_of (handlers : gmap packet_type_t H) t body :
  fits 32 t →
  dispatch handlers (packet_of SerdeT t body)
  = match handlers !! t, decode body with Some h, Some x => Some (h, x) | _, _ => None end.
Proof.
  intros Ht. unfold dispatch. rewrite parse_packet_of by done.
  rewrite decide_True by done. unfold packet_of. by rewrite drop_app_length' by by rewrite length_header_bytes.
Qed.

Lemma new_server_speaks `{PacketHandlers A H U payload_t} p (w : packet_world A H U) :
  ps_objs (w_user w) !! p = Some (MkPacketServer ∅ 1) → server_speaks p w.
Proof.
  intros Hps t h Ht. set (ps := MkPacketServer {[t := h]} 1). set (w2 := with_ps <[p := ps]> w).
  assert (ps_objs (w_user w2) !! p = Some ps) as Hps2 by apply lookup_insert_eq.
  exists w2. split_and!.
  - unfold PacketServer.bind_packet_handler. by erewrite bind_Done; [|by apply deref_ps_Done].
  - intros ci body payload Hlen Hx data. rewrite (handle_packet_Done p ci data w2 ps Hps2).
    2: { unfold data. rewrite length_packet_of. lia. }
    unfold data. rewrite dispatch_packet_of by done. cbn [ps m_packet_handlers].
    by rewrite lookup_singleton_eq, Hx.
  - intros ci serde body Hs Hne data. unfold handle_packet. rewrite (bind_Done _ _ _ _ _ (unpack_Done _ w2)).
    unfold data. rewrite parse_packet_of by done. by rewrite decide_True.
Qed.

(** A client whose pre-handler, if any, declines. *)
Lemma new_client_speaks `{ClientPacketHandlers A H P U payload_t} p (w : client_world A H P U) pre :
  pc_objs (w_user w) !! p = Some (MkPacketClient ∅ false pre 1) →
  (∀ msg c, view_size msg = length (view_data msg) → length (view_data msg) < 2 ^ 64 →
     pre_handle msg (MkPacketClient ∅ false pre 1) (with_pc <[p := c]> w) = Done false (with_pc <[p := c]> w)) →
  client_speaks p w.
Proof.
  intros Hc Hpre t h Ht. set (c := MkPacketClient {[t := h]} false pre 1). set (w2 := with_pc <[p := c]> w).
  assert (pc_objs (w_user w2) !! p = Some c) as Hc2 by apply lookup_with_pc.
  exists w2. split_and!.
  - unfold bind_packet_handler. eapply (handler_lock_Done p _ w _ true c); [done..| |done].
    erewrite bind_Done; [|apply deref_pc_Done, lookup_with_pc].
    cbn [set_handler_mutex m_handlers]. rewrite lookup_empty.
    erewrite bind_Done; [|apply update_pc_Done, lookup_with_pc]. by rewrite with_pc_with_pc.
  - intros conn body payload Hlen Hx data.
    assert (length data < 2 ^ 64) as Hdata by (unfold data; rewrite length_packet_of; lia).
    unfold handle_message. cbn [view_data view_size]. rewrite (bind_Done _ _ _ _ _ (unpack_Done _ w2)).
    pose proof (parse_packet_of SerdeT t body SerdeT_byte Ht) as Hparse. unfold data at 1. rewrite Hparse.
    cbn [m_serde_type header_create]. rewrite decide_False by (intros Hne; done).
    erewrite bind_Done; [|by apply deref_pc_Done].
    rewrite (bind_Done _ _ _ _ _ (Hpre (ViewMessage conn data (length data)) c eq_refl Hdata)).
    erewrite bind_Done; [|by eapply handler_lock_skip]. erewrite bind_Done; [|by apply deref_pc_Done].
    cbn [m_handlers c m_packet_type]. rewrite lookup_singleton_eq.
    destruct (deserialize_after_header data _ w2 Hparse Hdata) as [Hdes _].
    rewrite (bind_Done _ _ _ _ _ Hdes). unfold data, packet_of.
    by rewrite drop_app_length', Hx by by rewrite length_header_bytes.
  - intros conn serde body Hs Hne data. unfold handle_message. cbn [view_data view_size].
    rewrite (bind_Done _ _ _ _ _ (unpack_Done _ w2)). unfold data. rewrite parse_packet_of by done.
    by rewrite decide_True.
Qed.
End made.

(** ** The factories deliver *)

Section factories_make.
Context {A H P U obj : Type} `{SteamIPAddr A} `{SteamSockets A} `{MsgpackUnpack obj}.
Context `{!PacketHandlers A H U span} `{!PacketHandlers A H U obj}.
Context `{!ClientPacketHandlers A H P U span} `{!ClientPacketHandlers A H P U obj}.

(** The object below hands its messages to the object at the same address. *)
Definition server_wired (p : positive) (w : packet_world A H U) : Prop :=
  m_data_received_callback <$> w_objs w !! p = Some (Some p).
Definition client_wired {P' U'} (p : positive) (w : client_world A H P' U') : Prop :=
  m_on_data_received <$> w_objs w !! p = Some (Some p).

Lemma create_server_makes {payload_t} `{PacketDeserializerLaws payload_t, !PacketHandlers A H U payload_t}
    (SerdeT_byte : fits 8 (SerdeT (payload_t:=payload_t))) p (w : packet_world A H U) :
  ∃ w1, PacketServer.create p w = Done tt w1 ∧ server_wired p w1 ∧ server_speaks (payload_t:=payload_t) p w1.
Proof.
  unfold PacketServer.create. erewrite bind_Done; [|done]. erewrite bind_Done; [|done].
  unfold UdpServer.set_on_data_callback. erewrite update_Done by apply lookup_insert_eq.
  eexists. split; [done|]. split.
  - unfold server_wired. by rewrite lookup_with_obj.
  - apply new_server_speaks; [done|]. apply lookup_insert_eq.
Qed.

Lemma create_client_makes {P' U'} p (w : client_world A H P' U') :
  ∃ w1, PacketClient.create p w = Done tt w1 ∧ client_wired p w1 ∧ pc_user (w_user w1) = pc_user (w_user w) ∧
    pc_objs (w_user w1) !! p = Some (MkPacketClient ∅ false None 1).
Proof.
  unfold PacketClient.create. erewrite bind_Done; [|done]. erewrite bind_Done; [|done].
  unfold set_on_data_callback. erewrite update_Done by apply lookup_insert_eq.
  eexists. split; [done|]. split_and!; [unfold client_wired; by rewrite lookup_with_obj|done|].
  apply lookup_insert_eq.
Qed.

Lemma binary_byte : fits 8 (SerdeT (payload_t:=span)).
Proof. by split. Qed.
Lemma msgpack_byte : fits 8 (SerdeT (payload_t:=obj)).
Proof. by split. Qed.

(** Without awaiters the pre-handler declines. *)
Lemma async_init_declines {payload_t} `{PacketDeserializerLaws payload_t} msg
    (v : client_world A H unit (async_heap (payload_t:=payload_t) U)) :
  ah_async U (pc_user (w_user v)) = Some async_init →
  view_size msg = length (view_data msg) → length (view_data msg) < 2 ^ 64 →
  async_pre_handler tt msg v = Done false v.
Proof.
  intros Hs Hsize Hlen. assert (on_data_received_pre_handler msg async_init = Done false async_init) as Hp.
  { rewrite (pre_handler_Done (payload_t:=payload_t) msg async_init eq_refl Hsize Hlen).
    - destruct (message_type msg) as [t|]; [|done]. unfold queue_of. simpl. by rewrite lookup_empty.
    - intros t aw. unfold queue_of. simpl. by rewrite lookup_empty. }
  unfold async_pre_handler, gets. erewrite bind_Done; [|done]. rewrite Hs. unfold on_async. rewrite Hp.
  destruct v as [o i th tr [objs [as_ u]]]. unfold with_user. simpl in *. by subst.
Qed.

Lemma create_async_makes {payload_t} `{PacketDeserializerLaws payload_t}
    (run_handler : H → payload_t → M (client_world A H unit (async_heap (payload_t:=payload_t) U)) unit)
    (SerdeT_byte : fits 8 (SerdeT (payload_t:=payload_t))) p
    (w : client_world A H unit (async_heap (payload_t:=payload_t) U)) :
  ∃ w1, AsyncClient.create p w = Done tt w1 ∧ client_wired p w1 ∧
    client_speaks (H4:=async_handlers run_handler) p w1.
Proof.
  unfold AsyncClient.create. erewrite bind_Done; [|done].
  set (w0 := with_user _ w). destruct (create_client_makes p w0) as (w1 & Hw1 & Hwired & Huser & Hpc).
  rewrite (bind_Done _ _ _ _ _ Hw1). unfold register_on_data_received_pre_handler_callback.
  rewrite (update_pc_Done p _ _ _ Hpc). eexists. split; [done|]. split; [done|].
  eapply new_client_speaks; [done|apply lookup_with_pc|].
  intros msg c Hsize Hlen. apply async_init_declines; [|done..]. simpl. by rewrite Huser.
Qed.

(** C31: what each factory makes is alive, wired to the object below it, and
    speaks its serialization type: a handler can be bound to any packet type, and
    is then run with the payload of every packet of that type and serialization
    type whose payload decodes, while a packet of the other serialization type is
    answered false and changes nothing. *)
Theorem factories_speak (p : positive)
    (run_binary : H → span → M (client_world A H unit (async_heap U)) unit)
    (run_msgpack : H → obj → M (client_world A H unit (async_heap U)) unit) :
  (∀ w : packet_world A H U, ∃ w1, create_binary_server p w = Done (SharedPtr p) w1 ∧ server_wired p w1 ∧
     server_speaks (payload_t:=span) p w1) ∧
  (∀ w : packet_world A H U, ∃ w1, create_msgpack_server (obj:=obj) p w = Done (SharedPtr p) w1 ∧
     server_wired p w1 ∧ server_speaks (payload_t:=obj) p w1) ∧
  (∀ w : client_world A H P U, ∃ w1, create_binary_client p w = Done (SharedPtr p) w1 ∧ client_wired p w1 ∧
     client_speaks (payload_t:=span) p w1) ∧
  (∀ w : client_world A H P U, ∃ w1, create_msgpack_client (obj:=obj) p w = Done (SharedPtr p) w1 ∧
     client_wired p w1 ∧ client_speaks (payload_t:=obj) p w1) ∧
  (∀ w, ∃ w1, create_async_binary_client p w = Done (SharedPtr p) w1 ∧ client_wired p w1 ∧
     client_speaks (H4:=async_handlers run_binary) p w1) ∧
  (∀ w, ∃ w1, create_async_msgpack_client p w = Done (SharedPtr p) w1 ∧ client_wired p w1 ∧
     client_speaks (H4:=async_handlers run_msgpack) p w1).
Proof.
  split_and!; intros w.
  - destruct (create_server_makes (payload_t:=span) binary_byte p w) as (w1 & Hw1 & Hs).
    exists w1. unfold create_binary_server. by rewrite (bind_Done _ _ _ _ _ Hw1).
  - destruct (create_server_makes (payload_t:=obj) msgpack_byte p w) as (w1 & Hw1 & Hs).
    exists w1. unfold create_msgpack_server. by rewrite (bind_Done _ _ _ _ _ Hw1).
  - destruct (create_client_makes p w) as (w1 & Hw1 & Hwired & _ & Hpc).
    exists w1. unfold create_binary_client. rewrite (bind_Done _ _ _ _ _ Hw1). split_and!; [done..|].
    by eapply new_client_speaks; [apply binary_byte|..].
  - destruct (create_client_makes p w) as (w1 & Hw1 & Hwired & _ & Hpc).
    exists w1. unfold create_msgpack_client. rewrite (bind_Done _ _ _ _ _ Hw1). split_and!; [done..|].
    by eapply new_client_speaks; [apply msgpack_byte|..].
  - destruct (create_async_makes run_binary binary_byte p w) as (w1 & Hw1 & Hs).
    exists w1. unfold create_async_binary_client. by rewrite (bind_Done _ _ _ _ _ Hw1).
  - destruct (create_async_makes run_msgpack msgpack_byte p w) as (w1 & Hw1 & Hs).
    exists w1. unfold create_async_msgpack_client. by rewrite (bind_Done _ _ _ _ _ Hw1).
Qed.
End factories_make.
