(* ===== verification/Silence.v ===== *)
(** * Servers without callbacks

    While no callback is set, what the callbacks would do does not matter: two
    processes that differ in it do the same, and stay without callbacks. *)

From S2P Require Import Prelude Bytes NetworkTypes Packet Serde Runtime.
From S2P Require Import Ledger UdpServer Sessions UdpServerSpec UdpServerSafety UdpServerSystem Threads.
Local Open Scope Z_scope.

Section alike.
Context {A CB U : Type} `{SteamIPAddr A} `{SteamSockets A}.
Local Abbreviation W := (world A (UdpServer CB) U).
Implicit Types (w : W) (s : UdpServer CB) (p : positive).

Definition silent s : Prop :=
  m_data_received_callback s = None ∧ m_client_connected_callback s = None ∧
  m_client_disconnected_callback s = None.

Definition silents w : Prop := map_Forall (λ _, silent) (w_objs w).

(** From worlds without callbacks both do the same, to one without callbacks. *)
Definition alike {R} (m1 m2 : M W R) : Prop :=
  ∀ w, silents w → m1 w = m2 w ∧ ∀ r w', m1 w = Done r w' → silents w'.

(** Operations that leave the servers alone. *)
Lemma alike_same {R} (m : M W R) : (∀ w r w', m w = Done r w' → w_objs w' = w_objs w) → alike m m.
Proof. intros Hm w Hw. split; [done|]. intros r w' Hex. unfold silents. by rewrite (Hm w r w' Hex). Qed.

Lemma alike_ret {R} (r : R) : alike (mret r) (mret r).
Proof. apply alike_same. by intros w r' w' [= _ <-]. Qed.
Lemma alike_skip : alike skip skip.
Proof. apply alike_same. by intros w r' w' [= _ <-]. Qed.
Lemma alike_fail {R} e : alike (fail (A:=R) e) (fail e).
Proof. by apply alike_same. Qed.
Lemma alike_gets {R} (f : W → R) : alike (gets f) (gets f).
Proof. apply alike_same. by intros w r' w' [= _ <-]. Qed.
Lemma alike_call c : alike (call c) (call c).
Proof. apply alike_same. by intros w r' w' [= _ <-]. Qed.
Lemma alike_or_fault {R} e (o : option R) : alike (or_fault e o) (or_fault e o).
Proof. destruct o; [apply alike_ret|apply alike_fail]. Qed.
Lemma alike_modify f : (∀ w, silents w → silents (f w)) → alike (modify f) (modify f).
Proof. intros Hf w Hw. split; [done|]. intros r w' [= _ <-]. by apply Hf. Qed.

Lemma alike_with_obj p s : silent s → alike (modify (with_obj p s)) (modify (with_obj p s)).
Proof. intros Hs. apply alike_modify. intros w Hw. by apply map_Forall_insert_2. Qed.
Lemma alike_delete p : alike (modify (with_objs (delete p))) (modify (with_objs (delete p))).
Proof. apply alike_modify. intros w Hw. by apply map_Forall_delete. Qed.

Lemma alike_bind {R S} (m1 m2 : M W R) (k1 k2 : R → M W S) :
  alike m1 m2 → (∀ r, alike (k1 r) (k2 r)) → alike (m1 ≫= k1) (m2 ≫= k2).
Proof.
  intros Hm Hk w Hw. destruct (Hm w Hw) as [Heq Hs]. unfold mbind, M_bind. rewrite <- Heq.
  destruct (m1 w) as [r v|]; [|done]. apply Hk. by eapply Hs.
Qed.

(** A server that is looked at has no callbacks. *)
Lemma alike_deref {R} p (k1 k2 : UdpServer CB → M W R) :
  (∀ s, silent s → alike (k1 s) (k2 s)) → alike (deref p ≫= k1) (deref p ≫= k2).
Proof.
  intros Hk w Hw. unfold mbind, M_bind, deref. destruct (w_objs w !! p) as [s|] eqn:Hs; [|done].
  by apply Hk; [apply (Hw p)|].
Qed.

Lemma alike_update p f : (∀ s, silent s → silent (f s)) → alike (update p f) (update p f).
Proof.
  intros Hf. apply alike_deref. intros s Hs. apply alike_modify. intros w Hw.
  by apply map_Forall_insert_2; [apply Hf|].
Qed.

Lemma alike_for_each {X} (l : list X) (b1 b2 : X → M W unit) :
  (∀ x, alike (b1 x) (b2 x)) → alike (for_each l b1) (for_each l b2).
Proof. intros Hb. induction l; [apply alike_skip|]. by apply alike_bind. Qed.

Lemma alike_fold_each {X B} (l : list X) (acc : B) (b1 b2 : B → X → M W B) :
  (∀ b x, alike (b1 b x) (b2 b x)) → alike (fold_each l acc b1) (fold_each l acc b2).
Proof. intros Hb. revert acc. induction l; intros acc; [apply alike_ret|]. by apply alike_bind. Qed.
End alike.

Create HintDb alike.
#[export] Hint Resolve alike_ret alike_skip alike_fail alike_gets alike_or_fault alike_delete : alike.
#[export] Hint Extern 1 (alike (call ?c) _) => exact (alike_call c) : alike.
#[export] Hint Extern 1 (alike (modify (with_obj _ _)) _) => by apply alike_with_obj : alike.
#[export] Hint Extern 1 (alike (update _ _) _) => by apply alike_update; intros [] : alike.
#[export] Hint Extern 1 (alike (modify _) _) => by apply alike_modify : alike.

(** Goes through two operations at once. *)
Ltac alike :=
  repeat first
    [ solve [eauto with alike]
    | match goal with Hs : silent ?s |- context [m_data_received_callback ?s] => rewrite (proj1 Hs) end
    | match goal with Hs : silent ?s |- context [m_client_connected_callback ?s] => rewrite (proj1 (proj2 Hs)) end
    | match goal with Hs : silent ?s |- context [m_client_disconnected_callback ?s] => rewrite (proj2 (proj2 Hs)) end
    | apply alike_deref; intros ? ?
    | apply alike_bind; [|intros ?]
    | progress intros
    | match goal with
      | |- alike (match ?x with _ => _ end) _ => destruct x
      | |- alike (if ?x then _ else _) _ => destruct x
      end
    | apply alike_for_each
    | apply alike_fold_each ].

(** ** The operations *)

Section operations.
Context {A CB U : Type} `{SteamIPAddr A} `{SteamSockets A} (I J : ServerCallbacks A CB U).
Local Abbreviation W := (world A (UdpServer CB) U).
Implicit Types (w : W) (s : UdpServer CB) (p : positive).

Lemma iface_alike p c : alike (iface (CB:=CB) (U:=U) p c) (iface p c).
Proof. unfold iface. alike. Qed.
#[local] Hint Resolve iface_alike : alike.
Lemma scoped_lock_alike {R} p (m1 m2 : M W R) : alike m1 m2 → alike (scoped_lock p m1) (scoped_lock p m2).
Proof. intros Hm. unfold scoped_lock. alike. Qed.
#[local] Hint Resolve scoped_lock_alike : alike.

Lemma construct_alike p : alike (construct (CB:=CB) (U:=U) p) (construct p).
Proof. unfold construct. alike. Qed.
Lemma start_manual_alike p pt : alike (start_manual (CB:=CB) (U:=U) p pt) (start_manual p pt).
Proof. unfold start_manual, on_fatal_message. alike. Qed.
Lemma start_async_alike p pt : alike (start_async (CB:=CB) (U:=U) p pt) (start_async p pt).
Proof. unfold start_async, spawn_network_thread. pose proof start_manual_alike. alike. Qed.
Lemma close_all_alike p : alike (close_all (CB:=CB) (U:=U) p) (close_all p).
Proof. unfold close_all, close_listen_socket, destroy_poll_group, close_client. apply scoped_lock_alike. alike. Qed.
Lemma join_alike p : alike (join_network_thread (CB:=CB) (A:=A) (U:=U) p) (join_network_thread p).
Proof. unfold join_network_thread. alike. Qed.
#[local] Hint Resolve start_manual_alike start_async_alike close_all_alike join_alike : alike.
Lemma stop_alike p : alike (stop (CB:=CB) (U:=U) p) (stop p).
Proof. unfold stop. alike. Qed.
#[local] Hint Resolve stop_alike : alike.
Lemma destruct_alike p : alike (destruct_server (CB:=CB) (U:=U) p) (destruct_server p).
Proof. unfold destruct_server. alike. Qed.
Lemma send_alike p conn data size reliable :
  alike (send (CB:=CB) (U:=U) p conn data size reliable) (send p conn data size reliable).
Proof. unfold send, read_bytes. alike. Qed.
#[local] Hint Resolve send_alike : alike.
Lemma broadcast_alike p data size reliable :
  alike (broadcast (CB:=CB) (U:=U) p data size reliable) (broadcast p data size reliable).
Proof. unfold broadcast. apply scoped_lock_alike. alike. Qed.
Lemma disconnect_alike p conn reason :
  alike (disconnect (CB:=CB) (U:=U) p conn reason) (disconnect p conn reason).
Proof. unfold disconnect. alike. Qed.
Lemma get_client_info_alike p conn :
  alike (get_client_info (CB:=CB) (A:=A) (U:=U) p conn) (get_client_info p conn).
Proof. unfold get_client_info. apply scoped_lock_alike. alike. Qed.
#[local] Hint Resolve get_client_info_alike : alike.

Lemma poll_message_alike p m : alike (poll_message (H1:=I) p m) (poll_message (H1:=J) p m).
Proof. unfold poll_message. alike. Qed.
#[local] Hint Resolve poll_message_alike : alike.

Lemma memcpy_to_alike mem off src :
  alike (memcpy_to (W:=world A (UdpServer CB) U) mem off src) (memcpy_to mem off src).
Proof. revert mem off. induction src as [|b src IH]; intros mem off; cbn [memcpy_to]; unfold write_byte; alike. Qed.
#[local] Hint Resolve memcpy_to_alike : alike.

Lemma status_callback_alike info :
  alike (connection_status_changed_callback (H1:=I) info) (connection_status_changed_callback (H1:=J) info).
Proof.
  unfold connection_status_changed_callback, on_connection_status_changed, ip_address_assign,
    copy_steam_to_ip_address, read_bytes. alike.
Qed.
#[local] Hint Resolve status_callback_alike : alike.

Lemma poll_alike p : alike (poll (H1:=I) p) (poll (H1:=J) p).
Proof.
  assert (∀ slots i count, alike (poll_loop (H1:=I) p i count slots) (poll_loop (H1:=J) p i count slots)) as Hloop
    by (induction slots as [|m slots IH]; intros i count; cbn [poll_loop]; alike).
  unfold poll. alike.
Qed.
#[local] Hint Resolve poll_alike : alike.

Lemma network_iteration_alike p : alike (network_iteration (H1:=I) p) (network_iteration (H1:=J) p).
Proof. unfold network_iteration, on_thread, is_running. alike. Qed.

(** ** The threads *)

Lemma net_step_alike p pc :
  alike (on_thread p (net_step (H1:=I) p pc)) (on_thread p (net_step (H1:=J) p pc)).
Proof. unfold on_thread, net_step, is_running. alike. Qed.

Lemma stop_begin_alike p : alike (stop_begin (CB:=CB) (A:=A) (U:=U) p) (stop_begin p).
Proof. unfold stop_begin. alike. Qed.

Lemma stop_end_alike p : alike (stop_end (CB:=CB) (U:=U) p) (stop_end p).
Proof. unfold stop_end. alike. Qed.
End operations.

#[export] Hint Resolve iface_alike construct_alike start_manual_alike start_async_alike stop_alike destruct_alike
  send_alike broadcast_alike disconnect_alike poll_alike network_iteration_alike : alike.

(** ** Callbacks that do nothing *)

Section no_callbacks.
Context {A CB U : Type} `{SteamIPAddr A} `{SteamSockets A}.
Local Abbreviation W := (world A (UdpServer CB) U).

Definition no_callbacks : ServerCallbacks A CB U := {|
  run_on_data _ _ _ _ := skip;
  run_on_connected _ _ := skip;
  run_on_disconnected _ _ := skip;
|}.

#[local] Existing Instance no_callbacks.

Lemma no_callbacks_laws `{CallbackContract U} k : ServerCallbacksLaws k A CB U.
Proof. split; intros; by apply wp_skip, goes_on_refl; match goal with Hg : good _ _ |- _ => apply Hg end. Qed.

Lemma memcpy_to_private mem off src : private (memcpy_to (W:=W) mem off src).
Proof. revert mem off. induction src as [|b src IH]; intros mem off; cbn [memcpy_to]; unfold write_byte; private. Qed.
#[local] Hint Resolve memcpy_to_private : private.

Lemma poll_private p : private (poll (CB:=CB) (U:=U) p).
Proof.
  assert (∀ info, private (connection_status_changed_callback (CB:=CB) (U:=U) info)) as Hinfo.
  { intros info. unfold connection_status_changed_callback, on_connection_status_changed, get_client_info,
      ip_address_assign, copy_steam_to_ip_address, read_bytes. private. }
  assert (∀ slots i count, private (poll_loop (CB:=CB) (U:=U) p i count slots)) as Hloop.
  { induction slots as [|m slots IH]; intros i count; cbn [poll_loop]; unfold poll_message, get_client_info; private. }
  unfold poll. private.
Qed.

Lemma net_step_private p pc : private (on_thread p (net_step (CB:=CB) (U:=U) p pc)).
Proof.
  unfold on_thread, net_step, is_running, poll_message, get_client_info, connection_status_changed_callback,
    on_connection_status_changed, get_client_info, ip_address_assign, copy_steam_to_ip_address, read_bytes.
  private.
Qed.

Lemma network_iteration_private p : private (network_iteration (CB:=CB) (U:=U) p).
Proof. pose proof poll_private. unfold network_iteration, on_thread, is_running. private. Qed.
End no_callbacks.
