(* ===== verification/KbServer.v ===== *)
(** * The C interface of the server

    [src/kb/net/udp/kb_server.cpp]: the [kb_server_*] functions over a nullable
    handle.  The struct [kb_server] and its [UdpServer] are heap objects. *)

From S2P Require Import Prelude Bytes NetworkTypes Runtime UdpServer.
Import Strings.Byte.
Local Open Scope Z_scope.

(** [struct kb_server]; the three function pointers have type [F]. *)
Record kb_server (F : Type) := KbServer {
  m_impl : positive;
  m_on_data : option F;
  m_on_connect : option F;
  m_on_disconnect : option F;
  m_async : bool;
}.
Arguments KbServer {F}.
Arguments m_impl {F}.
Arguments m_on_data {F}.
Arguments m_on_connect {F}.
Arguments m_on_disconnect {F}.
Arguments m_async {F}.

(** The structs alive, and what user code acts on. *)
Record kb_heap (F U : Type) := KbHeap { kb_objs : gmap positive (kb_server F); kb_user : U }.
Arguments KbHeap {F U}.
Arguments kb_objs {F U}.
Arguments kb_user {F U}.

Section operations.
Context {A CB F U : Type} `{SteamIPAddr A} `{SteamSockets A} `{ServerCallbacks A CB (kb_heap F U)}.
Local Abbreviation W := (world A (UdpServer CB) (kb_heap F U)).

Definition with_kb (f : gmap positive (kb_server F) → gmap positive (kb_server F)) (w : W) : W :=
  with_user (λ u, KbHeap (f (kb_objs u)) (kb_user u)) w.

Definition deref_kb (p : positive) : M W (kb_server F) :=
  λ w, or_fault NullDeref (kb_objs (w_user w) !! p) w.

(** The two allocations, at the addresses the allocator gives. *)
Definition kb_server_create (impl self : positive) : M W (option positive) :=
  construct impl ;;
  modify (with_kb <[self := KbServer impl None None None false]>) ;;
  mret (Some self).

Definition kb_server_stop (p_server : option positive) : M W unit :=
  match p_server with
  | None => skip
  | Some p => self ← deref_kb p; stop (m_impl self)
  end.

Definition kb_server_destroy (p_server : option positive) : M W unit :=
  match p_server with
  | None => skip
  | Some p =>
      kb_server_stop p_server ;;
      self ← deref_kb p;
      destruct_server (m_impl self) ;;
      modify (with_kb (delete p))
  end.

Definition kb_server_start_async (p_server : option positive) (p_port : Z) : M W bool :=
  match p_server with
  | None => mret false
  | Some p =>
      self ← deref_kb p;
      modify (with_kb <[p := KbServer (m_impl self) (m_on_data self) (m_on_connect self)
                               (m_on_disconnect self) true]>) ;;
      start_async (m_impl self) p_port
  end.

Definition kb_server_start_manual (p_server : option positive) (p_port : Z) : M W bool :=
  match p_server with
  | None => mret false
  | Some p => self ← deref_kb p; start_manual (m_impl self) p_port
  end.

Definition kb_server_poll (p_server : option positive) : M W unit :=
  match p_server with
  | None => skip
  | Some p => self ← deref_kb p; poll (m_impl self)
  end.

Definition kb_server_send_raw (p_server : option positive) (p_conn : kb_connection_t)
    (p_data : list byte) (p_len : Z) (p_reliable : bool) : M W bool :=
  match p_server with
  | None => mret false
  | Some p => self ← deref_kb p; send (m_impl self) p_conn p_data p_len p_reliable
  end.

Definition kb_server_broadcast_raw (p_server : option positive) (p_data : list byte) (p_len : Z)
    (p_reliable : bool) : M W bool :=
  match p_server with
  | None => mret false
  | Some p => self ← deref_kb p; broadcast (m_impl self) p_data p_len p_reliable
  end.

Definition kb_server_disconnect (p_server : option positive) (p_conn : kb_connection_t)
    (p_reason_code : Z) : M W unit :=
  match p_server with
  | None => skip
  | Some p => self ← deref_kb p; disconnect (m_impl self) p_conn p_reason_code
  end.

Definition kb_server_is_running (p_server : option positive) : M W bool :=
  match p_server with
  | None => mret false
  | Some p => self ← deref_kb p; is_running (m_impl self)
  end.

Definition kb_server_port (p_server : option positive) : M W Z :=
  match p_server with
  | None => mret 0
  | Some p => self ← deref_kb p; port (m_impl self)
  end.
End operations.
