(* ===== verification/KbServerProps.v ===== *)
(** * The properties of the C interface

    Null handles; the C functions and the network threads as a transition system;
    and that no data can reach the user, since nothing ever sets a callback. *)

From S2P Require Import Prelude Bytes NetworkTypes Packet Serde Runtime.
From S2P Require Import Ledger UdpServer Sessions UdpServerSpec UdpServerSafety Simulated UdpServerSystem.
From S2P Require Import Threads Silence KbServer.
Import Strings.Byte.
Local Open Scope Z_scope.

(** ** Null handles *)

Section null.
Context {A CB F U : Type} `{SteamIPAddr A} `{SteamSockets A} `{ServerCallbacks A CB (kb_heap F U)}.
Implicit Types (w : world A (UdpServer CB) (kb_heap F U)).

(** Every function of the C interface accepts a null handle: it answers
    false, or port 0, and does nothing. *)
Theorem null_handle_is_inert w pt conn data len reliable reason :
  kb_server_destroy None w = Done tt w ∧ kb_server_stop None w = Done tt w ∧
  kb_server_poll None w = Done tt w ∧ kb_server_disconnect None conn reason w = Done tt w ∧
  kb_server_start_async None pt w = Done false w ∧ kb_server_start_manual None pt w = Done false w ∧
  kb_server_send_raw None conn data len reliable w = Done false w ∧
  kb_server_broadcast_raw None data len reliable w = Done false w ∧
  kb_server_is_running None w = Done false w ∧ kb_server_port None w = Done 0 w.
Proof. done. Qed.
End null.

(** ** The C interface as a transition system *)

Inductive kb_op :=
| KbCreate (impl self : positive)
| KbDestroy (h : option positive)
| KbStartAsync (h : option positive) (port : Z)
| KbStartManual (h : option positive) (port : Z)
| KbStop (h : option positive)
| KbPoll (h : option positive)
| KbSendRaw (h : option positive) (conn : kb_connection_t) (data : list byte) (reliable : bool)
| KbBroadcastRaw (h : option positive) (data : list byte) (reliable : bool)
| KbDisconnect (h : option positive) (conn : kb_connection_t) (reason : Z)
| KbNetworkRound (impl : positive).              (** the network thread of a server *)

Section kb_system.
Context {A CB F U : Type} `{SteamIPAddr A} `{!SteamIPAddrLaws A}.
Context `{SteamSockets A} `{!SteamLaws A} `{ServerCallbacks A CB (kb_heap F U)}.
Local Abbreviation W := (world A (UdpServer CB) (kb_heap F U)).
Implicit Types (w : W) (s : UdpServer CB) (p k : positive).

Definition exec_kb (op : kb_op) : M W unit :=
  match op with
  | KbCreate impl self => kb_server_create impl self ;; skip
  | KbDestroy h => kb_server_destroy h
  | KbStartAsync h pt => kb_server_start_async h pt ;; skip
  | KbStartManual h pt => kb_server_start_manual h pt ;; skip
  | KbStop h => kb_server_stop h
  | KbPoll h => kb_server_poll h
  | KbSendRaw h conn data reliable => kb_server_send_raw h conn data (length data) reliable ;; skip
  | KbBroadcastRaw h data reliable => kb_server_broadcast_raw h data (length data) reliable ;; skip
  | KbDisconnect h conn reason => kb_server_disconnect h conn reason
  | KbNetworkRound impl => network_iteration impl
  end.

(** A handle is null or live. *)
Definition handle_ok (h : option positive) w : Prop :=
  match h with None => True | Some k => is_Some (kb_objs (w_user w) !! k) end.

Definition kb_allowed (op : kb_op) w : Prop :=
  match op with
  | KbCreate impl self => w_objs w !! impl = None ∧ kb_objs (w_user w) !! self = None ∧
      steam_answer (w_trace w) SteamNetworkingSockets = true
  | KbPoll h => handle_ok h w ∧ (∀ k o s, h = Some k → kb_objs (w_user w) !! k = Some o →
      w_objs w !! m_impl o = Some s → m_is_running s = true)
  | KbDestroy h | KbStartAsync h _ | KbStartManual h _ | KbStop h | KbSendRaw h _ _ _
  | KbBroadcastRaw h _ _ | KbDisconnect h _ _ => handle_ok h w
  | KbNetworkRound impl => is_Some (w_objs w !! impl)
  end.

Definition kb_step w w' : Prop := ∃ op, kb_allowed op w ∧ exec_kb op w = Done tt w'.

Definition kb_initial (u : U) : W := World ∅ None None [] (KbHeap ∅ u).

(** Well-formed servers without callbacks, one for each struct. *)
Record kb_ok w : Prop := {
  kb_world : world_ok w;
  kb_silent : silents w;
  kb_thread : w_thread w = None;
  kb_impl k o : kb_objs (w_user w) !! k = Some o → is_Some (w_objs w !! m_impl o);
  kb_distinct k1 k2 o1 o2 : kb_objs (w_user w) !! k1 = Some o1 → kb_objs (w_user w) !! k2 = Some o2 →
    m_impl o1 = m_impl o2 → k1 = k2;
}.

(** The C interface goes on well, and user code has not run. *)
Definition kb_goes_on w w' : Prop :=
  kb_ok w' ∧ kb_user (w_user w') = kb_user (w_user w) ∧ progress [] [] w w'.

Lemma kb_goes_on_refl w : kb_ok w → kb_goes_on w w.
Proof. intros Hok. split; [done|]. split; [done|]. by apply (progress_calls []); rewrite ?app_nil_r. Qed.

Lemma kb_goes_on_trans w1 w2 w3 : kb_goes_on w1 w2 → kb_goes_on w2 w3 → kb_goes_on w1 w3.
Proof.
  intros (_ & Hu & Hp) (Hok & Hu' & Hp'). split; [done|]. split; [congruence|by eapply progress_trans].
Qed.

Lemma wp_kb_goes_on {R} (m : M W R) w v :
  kb_goes_on w v → wp m (λ _, kb_goes_on v) v → wp m (λ _, kb_goes_on w) v.
Proof. intros Hv Hm. eapply wp_mono; [exact Hm|]. intros r v'. by apply kb_goes_on_trans. Qed.

Lemma deref_kb_Done k o w : kb_objs (w_user w) !! k = Some o → deref_kb k w = Done o w.
Proof. intros Ho. unfold deref_kb. by rewrite Ho. Qed.

Lemma wp_deref_kb k o (Q : kb_server F → W → Prop) w :
  kb_objs (w_user w) !! k = Some o → Q o w → wp (deref_kb k) Q w.
Proof. intros Ho HQ. eapply wp_of_Done; [by apply deref_kb_Done|done]. Qed.

(** Operations of the server below that run no callback. *)
Lemma kb_forwarded {R} (m : M W R) w :
  kb_ok w → private m → alike m m → wp m (keeps Sequential w) w → wp m (λ _, kb_goes_on w) w.
Proof.
  intros [Hw Hs Hth Himpl Hdist] Hm Ha Hk. destruct (Ha w Hs) as [_ Hsil].
  pose proof (wp_private _ _ _ Hm Hk) as Hwp. unfold wp in *. destruct (m w) as [r v|]; [|done].
  destruct Hwp as [[Hv [Hdom Hth'] Hp _] Hu]. split; [|by rewrite Hu]. split; [done|by eapply Hsil|congruence|..].
  - intros k o. rewrite Hu, <- elem_of_dom, Hdom, elem_of_dom. apply Himpl.
  - intros k1 k2 o1 o2. rewrite Hu. apply Hdist.
Qed.

(** A call forwarded to the server of a live handle. *)
Lemma forwarded_ok {R} k w (m : kb_server F → M W R) :
  kb_ok w → is_Some (kb_objs (w_user w) !! k) →
  (∀ o s, kb_objs (w_user w) !! k = Some o → w_objs w !! m_impl o = Some s →
     wp (m o) (λ _, kb_goes_on w) w) →
  wp (self ← deref_kb k; m self) (λ _, kb_goes_on w) w.
Proof.
  intros Hok [o Ho] Hm. destruct (kb_impl _ Hok k o Ho) as [s Hs].
  apply wp_bind. eapply wp_deref_kb; [done|]. by eapply Hm.
Qed.

(** Handles to null do nothing; others forward. *)
Lemma handle_cases {R} (h : option positive) w (r : R) (m : positive → M W R) :
  kb_ok w → handle_ok h w →
  (∀ k, is_Some (kb_objs (w_user w) !! k) → wp (m k) (λ _, kb_goes_on w) w) →
  wp (match h with None => mret r | Some k => m k end) (λ _, kb_goes_on w) w.
Proof. intros Hok Hh Hm. destruct h as [k|]; [by apply Hm|apply wp_ret; by apply kb_goes_on_refl]. Qed.

(** Changing the structs alone. *)
Lemma with_kb_ok (f : gmap positive (kb_server F) → gmap positive (kb_server F)) w :
  world_ok w → world_ok (with_kb f w) ∧ progress [] [] w (with_kb f w).
Proof. intros Hw. split; [by apply world_inv_user|]. by apply (progress_calls []); rewrite ?app_nil_r. Qed.

Lemma create_ok impl self w :
  kb_ok w → kb_allowed (KbCreate impl self) w → wp (kb_server_create impl self) (λ _, kb_goes_on w) w.
Proof.
  intros [Hw Hsil Hth Himpl Hdist] (Hfresh & Hself & Hlib). unfold kb_server_create. apply wp_bind.
  destruct (construct_alike (U:=kb_heap F U) impl w Hsil) as [_ Hsil'].
  pose proof (wp_private _ _ _ (construct_private impl) (construct_ok impl w Hw Hfresh Hlib)) as Hwp.
  unfold wp in Hwp. unfold wp at 1. destruct (construct impl w) as [[] v|]; [|done].
  destruct Hwp as [(Hv & Hth' & Hdom & Hp & _) Hu]. apply wp_bind, wp_modify, wp_ret.
  destruct (with_kb_ok <[self := KbServer impl None None None false]> v Hv) as [Hv' Hp'].
  split; [|split; [simpl; by rewrite Hu|by eapply progress_trans]].
  split; [done|exact (Hsil' tt v eq_refl)|simpl; congruence|..]; simpl; rewrite Hu.
  - intros k o. rewrite <- elem_of_dom, Hdom, elem_of_union, elem_of_singleton, elem_of_dom.
    intros [[_ <-]|[_ Ho]]%lookup_insert_Some; [by left|right; by eapply Himpl].
  - assert (∀ k o, kb_objs (w_user w) !! k = Some o → m_impl o ≠ impl) as Hne.
    { intros k o Ho Heq. destruct (Himpl k o Ho) as [s Hs]. congruence. }
    intros k1 k2 o1 o2 [[<- <-]|[_ Ho1]]%lookup_insert_Some [[<- <-]|[_ Ho2]]%lookup_insert_Some;
      [done|..|by eapply Hdist]; intros Heq.
    + by destruct (Hne k2 o2 Ho2).
    + by destruct (Hne k1 o1 Ho1).
Qed.

Lemma kb_stop_ok h w : kb_ok w → handle_ok h w → wp (kb_server_stop h) (λ _, kb_goes_on w) w.
Proof.
  intros Hok Hh. apply (handle_cases _ _ tt); [done..|]. intros k Hk. apply forwarded_ok; [done..|].
  intros o s Ho Hs. apply kb_forwarded; [done|apply stop_private|apply stop_alike|].
  eapply wp_mono; [apply (stop_ok _ _ s); [apply Hok|done|by rewrite (kb_thread _ Hok)]|]. by intros [] v [Hv _].
Qed.

Lemma destroy_ok h w :
  kb_ok w → handle_ok h w → wp (kb_server_destroy h) (λ _, kb_goes_on w) w.
Proof.
  intros Hok0 Hh. destruct h as [k|]; [|apply wp_ret; by apply kb_goes_on_refl].
  apply wp_bind. assert (wp (kb_server_stop (Some k)) (λ _ v, w_user v = w_user w) w) as Hu.
  { eapply wp_mono; [apply wp_private; [|by apply kb_stop_ok]|by intros [] v []].
    simpl. unfold deref_kb. apply private_bind; [|intros o; apply stop_private].
    intros v. by destruct (kb_objs (w_user v) !! k). }
  eapply wp_mono; [apply (wp_and _ _ _ _ Hu (kb_stop_ok (Some k) w Hok0 Hh))|].
  intros [] v [Huv Hv]. destruct Hh as [o Ho]. rewrite <- Huv in Ho. clear Hu Huv.
  eapply wp_kb_goes_on; [done|]. destruct Hv as [Hok _]. pose proof Hok as [Hw Hsil Hth Himpl Hdist].
  apply wp_bind. eapply wp_deref_kb; [done|]. destruct (Himpl k o Ho) as [s Hs].
  destruct (destruct_alike (m_impl o) v Hsil) as [_ Hsil'].
  assert (w_thread v ≠ Some (m_impl o)) as Hnth by by rewrite Hth.
  pose proof (wp_private _ _ _ (destruct_private (m_impl o)) (destruct_server_ok _ v s Hw Hs Hnth)) as Hwp.
  apply wp_bind. unfold wp in Hwp. unfold wp at 1. destruct (destruct_server (m_impl o) v) as [[] v'|]; [|done].
  destruct Hwp as [(Hv' & Hdom & Hth' & Hp & _) Hu]. apply wp_modify.
  destruct (with_kb_ok (delete k) v' Hv') as [Hv2 Hp2].
  split; [|split; [simpl; by rewrite Hu|by eapply progress_trans]].
  split; [done|exact (Hsil' tt v' eq_refl)|simpl; congruence|..]; simpl; rewrite Hu.
  - intros k' o' [Hne Ho']%lookup_delete_Some. rewrite <- elem_of_dom, Hdom, elem_of_difference, elem_of_singleton.
    split; [apply elem_of_dom; by eapply Himpl|]. intros Heq. by destruct Hne; eapply Hdist.
  - intros k1 k2 o1 o2 [_ Ho1]%lookup_delete_Some [_ Ho2]%lookup_delete_Some. by apply Hdist.
Qed.

(** [m_async] is set before the server starts. *)
Lemma set_async_ok k o w :
  kb_ok w → kb_objs (w_user w) !! k = Some o →
  let o' := KbServer (m_impl o) (m_on_data o) (m_on_connect o) (m_on_disconnect o) true in
  kb_goes_on w (with_kb <[k := o']> w).
Proof.
  intros [Hw Hsil Hth Himpl Hdist] Ho o'. destruct (with_kb_ok <[k := o']> w Hw) as [Hw' Hp].
  split; [|by split]. assert (∀ j u, <[k := o']> (kb_objs (w_user w)) !! j = Some u →
    ∃ u', kb_objs (w_user w) !! j = Some u' ∧ m_impl u = m_impl u') as Hback.
  { intros j u [[<- <-]|[_ Hj]]%lookup_insert_Some; by eexists. }
  split; [done..| |].
  - intros j u Hj. destruct (Hback j u Hj) as (u' & Hu' & ->). by apply (Himpl j).
  - intros k1 k2 o1 o2 Ho1 Ho2. destruct (Hback k1 o1 Ho1) as (u1 & Hu1 & ->).
    destruct (Hback k2 o2 Ho2) as (u2 & Hu2 & ->). by apply Hdist.
Qed.

Lemma kb_start_async_ok h pt w :
  kb_ok w → handle_ok h w → wp (kb_server_start_async h pt) (λ _, kb_goes_on w) w.
Proof.
  intros Hok Hh. apply handle_cases; [done..|]. intros k [o Ho]. clear Hh.
  apply wp_bind. eapply wp_deref_kb; [done|]. apply wp_bind, wp_modify.
  pose proof (set_async_ok k o w Hok Ho) as Hset. cbv zeta in Hset. eapply wp_kb_goes_on; [done|].
  destruct Hset as [Hok' _]. destruct (kb_impl _ Hok k o Ho) as [s Hs].
  apply kb_forwarded; [done|apply start_async_private|apply start_async_alike|].
  eapply wp_mono; [by eapply start_async_ok; [apply Hok'|]|]. by intros b v [Hv _].
Qed.


(** What callbacks there might be does not matter. *)
Lemma kb_poll_ok p w s :
  kb_ok w → w_objs w !! p = Some s → m_is_running s = true → wp (poll p) (λ _, kb_goes_on w) w.
Proof.
  intros Hok Hs Hr. unfold wp. destruct (poll_alike _ no_callbacks p w (kb_silent _ Hok)) as [-> _].
  apply (kb_forwarded (poll (H1:=no_callbacks) p)); [done|apply poll_private|apply poll_alike|].
  pose proof (@no_callbacks_laws A CB (kb_heap F U) _ (free_contract _) Sequential) as Hlaws.
  pose proof (poll_ok (k:=Sequential) (H1:=no_callbacks) (H2:=free_contract _) p w s
    (conj (kb_world _ Hok) I) Hs (running_active s Hr)) as Hpoll.
  eapply wp_mono; [exact Hpoll|]. by intros [] v [Hv _].
Qed.

Lemma network_round_ok impl w :
  kb_ok w → is_Some (w_objs w !! impl) → wp (network_iteration impl) (λ _, kb_goes_on w) w.
Proof.
  intros Hok Hp. unfold wp. destruct (network_iteration_alike _ no_callbacks impl w (kb_silent _ Hok)) as [-> _].
  apply (kb_forwarded (network_iteration (H1:=no_callbacks) impl));
    [done|apply network_iteration_private|apply network_iteration_alike|].
  pose proof (@no_callbacks_laws A CB (kb_heap F U) _ (free_contract _) Sequential) as Hlaws.
  pose proof (network_iteration_ok (H1:=no_callbacks) (H2:=free_contract _) impl w
    (conj (kb_world _ Hok) I) Hp) as Hround.
  eapply wp_mono; [exact Hround|]. by intros [] v [Hv _].
Qed.

Lemma exec_kb_ok op w : kb_ok w → kb_allowed op w → wp (exec_kb op) (λ _, kb_goes_on w) w.
Proof.
  intros Hok Hop. pose proof (kb_world _ Hok) as Hw.
  destruct op; simpl in Hop |- *; try apply (wp_discard _ (λ _, kb_goes_on w)).
  - by apply create_ok.
  - by apply destroy_ok.
  - by apply kb_start_async_ok.
  - apply handle_cases; [done..|]. intros k Hk. apply forwarded_ok; [done..|]. intros o s Ho Hs.
    apply kb_forwarded; [done|unfold start_manual, on_fatal_message; private|apply start_manual_alike|].
    eapply wp_mono; [by eapply start_manual_ok|]. by intros b v [Hv _].
  - by apply kb_stop_ok.
  - destruct Hop as [Hh Hrun]. destruct h as [k|]; [|apply wp_ret; by apply kb_goes_on_refl].
    apply forwarded_ok; [done..|]. intros o s Ho Hs. by eapply kb_poll_ok, Hrun.
  - apply handle_cases; [done..|]. intros k Hk. apply forwarded_ok; [done..|]. intros o s Ho Hs.
    apply kb_forwarded; [done|apply send_private|apply send_alike|]. eapply send_ok; [done..|lia].
  - apply handle_cases; [done..|]. intros k Hk. apply forwarded_ok; [done..|]. intros o s Ho Hs.
    apply kb_forwarded; [done|apply broadcast_private|apply broadcast_alike|]. eapply broadcast_ok; [done..|lia].
  - apply (handle_cases _ _ tt); [done..|]. intros k Hk. apply forwarded_ok; [done..|]. intros o s Ho Hs.
    apply kb_forwarded; [done|unfold disconnect; private|apply disconnect_alike|]. by eapply disconnect_ok.
  - by apply network_round_ok.
Qed.

Lemma kb_initial_ok (u : U) : kb_ok (kb_initial u).
Proof. split; [by split|by apply map_Forall_empty|done|by intros k o Ho|by intros k1 k2 o1 o2 Ho]. Qed.

Lemma kb_reachable_ok (u : U) w : rtc kb_step (kb_initial u) w → kb_goes_on (kb_initial u) w.
Proof.
  revert w. apply rtc_ind_r; [apply kb_goes_on_refl, kb_initial_ok|].
  intros w w' _ (op & Hop & Hex) Hw. pose proof (exec_kb_ok op w (proj1 Hw) Hop) as Hwp.
  unfold wp in Hwp. rewrite Hex in Hwp. by eapply kb_goes_on_trans.
Qed.

(** Whatever an application does through the C interface, with any number
    of servers, correct handles and running servers when it polls, no call
    faults; but no function sets a callback, so that user code is never run
    and every message received is dropped. *)
Theorem c_api_never_delivers (u : U) w op :
  rtc kb_step (kb_initial u) w → kb_allowed op w →
  ∃ w', exec_kb op w = Done tt w' ∧ kb_user (w_user w') = u ∧
    map_Forall (λ _, silent) (w_objs w').
Proof.
  intros Hr Hop. destruct (kb_reachable_ok u w Hr) as (Hok & Hu & _).
  destruct (proj1 (wp_Done _ _ _) (exec_kb_ok op w Hok Hop)) as ([] & w' & Hex & Hok' & Hu' & _).
  exists w'. split; [done|]. split; [by rewrite Hu', Hu|apply Hok'].
Qed.
End kb_system.

(** Callbacks that record what they are given, next to the structs. *)
Definition log_kb_callbacks : ServerCallbacks sim_addr unit (kb_heap unit (list server_event)) :=
  let log e := modify (with_user (λ u : kb_heap unit (list server_event),
                 KbHeap (kb_objs u) (kb_user u ++ [e]))) in {|
  run_on_data _ ci data size := log (EvData ci data size);
  run_on_connected _ ci := log (EvConnected ci);
  run_on_disconnected _ ci := log (EvDisconnected ci);
|}.

(** A run of the C interface. *)
Definition sim_kb_run (ss : SteamSockets sim_addr) (ops : list kb_op)
    : world sim_addr (UdpServer unit) (kb_heap unit (list server_event)) :=
  foldl (λ w op, match exec_kb (H1:=log_kb_callbacks) op w with Done _ w' => w' | Fault _ w' => w' end)
    (kb_initial []) ops.

(** A server is created and started on its thread, a client connects, and a
    round of the thread receives two messages. *)
Lemma c_api_never_delivers_witness :
  let ss := sim_steam sim_inbox [StatusChanged 5 StateConnecting StateNone] in
  let w := sim_kb_run ss [KbCreate 1 2; KbStartAsync (Some 2%positive) 80; KbNetworkRound 1] in
  ∃ w', exec_kb (H1:=log_kb_callbacks) (KbNetworkRound 1) w = Done tt w' ∧ kb_user (w_user w') = [] ∧
    map_Forall (λ _, silent) (w_objs w').
Proof.
  intros ss w.
  assert (SteamLaws sim_addr) as Hlaws by (apply sim_laws; by repeat constructor).
  apply (c_api_never_delivers (H1:=log_kb_callbacks) []).
  - eapply rtc_l; [exists (KbCreate 1 2); split; [by vm_compute|]|].
    { instantiate (1 := sim_kb_run ss [KbCreate 1 2]). by vm_compute. }
    eapply rtc_l; [exists (KbStartAsync (Some 2%positive) 80); split; [by vm_compute; eexists|]|].
    { instantiate (1 := sim_kb_run ss [KbCreate 1 2; KbStartAsync (Some 2%positive) 80]). by vm_compute. }
    apply rtc_once. exists (KbNetworkRound 1). split; by vm_compute; try eexists.
  - by vm_compute; eexists.
Defined.
