(* ===== verification/KbServerThreads.v ===== *)
(** * The C interface, interleaved with its network threads

    [KbServerProps.v] with the network threads of [Threads.v]: [kb_server_stop]
    waits in a [join] while the thread goes on.  Nothing is asked of callbacks,
    since none is ever set. *)

From S2P Require Import Prelude Bytes NetworkTypes Packet Serde Runtime.
From S2P Require Import Ledger UdpServer Sessions UdpServerSpec UdpServerSafety Simulated UdpServerSystem.
From S2P Require Import Threads ThreadsProps ThreadsSystem Silence KbServer KbServerProps.
Import Strings.Byte.
Local Open Scope Z_scope.

(** What the threads do: a step of a network thread; a call of the C interface;
    [kb_server_stop] up to its [join]; the [join] returns. *)
Inductive kb_thread_op :=
| KtNetwork (impl : positive)
| KtCall (op : kb_op)
| KtStop (k : positive)
| KtJoined.

Section system.
Context {A CB F U : Type} `{SteamIPAddr A} `{SteamSockets A} `{ServerCallbacks A CB (kb_heap F U)}.
Local Abbreviation W := (world A (UdpServer CB) (kb_heap F U)).
Local Abbreviation TW := (tworld A CB (kb_heap F U)).
Implicit Types (w : W) (t : TW) (p k : positive) (op : kb_op).

(** The server a call is for, if its handle is not null. *)
Definition kb_target op w : option positive :=
  let impl (h : option positive) := h ≫= λ k, m_impl <$> kb_objs (w_user w) !! k in
  match op with
  | KbCreate impl _ | KbNetworkRound impl => Some impl
  | KbDestroy h | KbStartAsync h _ | KbStartManual h _ | KbStop h | KbPoll h | KbSendRaw h _ _ _
  | KbBroadcastRaw h _ _ | KbDisconnect h _ _ => impl h
  end.

Definition exec_kb_thread (top : kb_thread_op) : M TW unit :=
  match top with
  | KtNetwork impl => exec_thread (TNetwork impl)
  | KtCall op =>
      target ← gets (λ t : TW, kb_target op (tw_world t));
      on_world (exec_kb op) ;;
      match target with Some p => modify (spawned p) | None => skip end
  | KtStop k => self ← on_world (deref_kb k); exec_thread (TStop (m_impl self) false)
  | KtJoined => exec_thread TJoined
  end.

(** The calls made in one piece: not those that wait for a network thread, or are
    a round of one. *)
Definition kb_in_one_piece op w : Prop :=
  match op with
  | KbStop _ | KbDestroy _ => ∀ p, kb_target op w = Some p → ¬ threaded w p
  | KbNetworkRound _ => False
  | _ => True
  end.

(** The correct uses.  A server with a thread is destroyed by [KtStop], [KtJoined]
    and [KbDestroy]: [kb_server_destroy] calls [stop] first, and stopping a second
    time does nothing ([destroy_cut]). *)
Definition kb_thread_allowed (top : kb_thread_op) t : Prop :=
  let w := tw_world t in
  match top with
  | KtNetwork impl => ∃ pc, tw_net t !! impl = Some pc ∧ pc ≠ Returned
  | KtCall op => tw_app t = Free ∧ kb_allowed op w ∧ kb_in_one_piece op w
  | KtStop k => tw_app t = Free ∧ ∃ o, kb_objs (w_user w) !! k = Some o ∧ threaded w (m_impl o)
  | KtJoined => ∃ p d, tw_app t = Joining p d ∧ tw_net t !! p = Some Returned
  end.

Definition kb_thread_step t t' : Prop :=
  ∃ top, kb_thread_allowed top t ∧ exec_kb_thread top t = Done tt t'.

Definition kb_thread_initial (u : U) : TW := TWorld (kb_initial u) ∅ Free.

(** ** The invariant *)

(** Servers and threads in order, no callback, a server for each struct; nobody
    waits in a destructor. *)
Record kb_threads_ok t : Prop := {
  kto_threads : thread_ok t;
  kto_silent : silents (tw_world t);
  kto_app p : tw_app t ≠ Joining p true;
  kto_impl k o : kb_objs (w_user (tw_world t)) !! k = Some o → is_Some (w_objs (tw_world t) !! m_impl o);
  kto_distinct k1 k2 o1 o2 : kb_objs (w_user (tw_world t)) !! k1 = Some o1 →
    kb_objs (w_user (tw_world t)) !! k2 = Some o2 → m_impl o1 = m_impl o2 → k1 = k2;
}.

Lemma kb_free_ok t : kb_threads_ok t → tw_app t = Free → kb_ok (tw_world t).
Proof. intros [Hok Hsil _ Himpl Hdist] Hfree. by destruct (free_ok t Hok Hfree). Qed.

(** Steps that leave the structs and the servers in place. *)
Lemma kb_threads_kept t t' :
  kb_threads_ok t → thread_ok t' → silents (tw_world t') → (∀ p, tw_app t' ≠ Joining p true) →
  w_user (tw_world t') = w_user (tw_world t) → dom (w_objs (tw_world t')) = dom (w_objs (tw_world t)) →
  kb_threads_ok t'.
Proof.
  intros [_ _ _ Himpl Hdist] Hok' Hsil' Happ' Hu Hd. split; [done..| |]; rewrite Hu; [|done].
  intros k o. rewrite <- elem_of_dom, Hd, elem_of_dom. apply Himpl.
Qed.
End system.

(** ** Every step *)

Section system_ok.
Context {A CB F U : Type} `{SteamIPAddr A} `{!SteamIPAddrLaws A} `{SteamSockets A} `{!SteamLaws A}.
Context (I : ServerCallbacks A CB (kb_heap F U)).
Local Abbreviation W := (world A (UdpServer CB) (kb_heap F U)).
Local Abbreviation TW := (tworld A CB (kb_heap F U)).
Local Abbreviation quiet := (no_callbacks (A:=A) (CB:=CB) (U:=kb_heap F U)).
Implicit Types (w : W) (t : TW) (p k : positive) (op : kb_op).
#[local] Instance kb_contract : CallbackContract (kb_heap F U) := free_contract _.
#[local] Instance kb_laws (th : threading) :
  @ServerCallbacksLaws th A CB (kb_heap F U) _ quiet kb_contract := no_callbacks_laws th.

(** Stopping a second time does nothing. *)
Lemma stop_again p w s :
  w_objs w !! p = Some s → m_interface s = true → m_client_mutex s = false →
  (m_network_thread s = true → w_thread w ≠ Some p) →
  ∃ v, stop p w = Done tt v ∧ w_user v = w_user w ∧ stop p v = Done tt v.
Proof.
  intros Hs Hi Hm Hth. pose proof (stop_Done p w s Hs Hi Hm Hth) as Hex.
  unfold stop_result in Hex. destruct (m_is_running s) eqn:Hr; eexists; (split; [exact Hex|]); split; try done.
  erewrite (stop_Done p _ (stopped s)); [|apply lookup_with_obj|by destruct s..].
  unfold stop_result. by destruct s.
Qed.

Lemma kb_stop_again k o w :
  kb_ok w → kb_objs (w_user w) !! k = Some o →
  ∃ v, stop (m_impl o) w = Done tt v ∧ stop (m_impl o) v = Done tt v ∧ w_user v = w_user w ∧
    kb_server_stop (Some k) w = Done tt v ∧ kb_server_stop (Some k) v = Done tt v.
Proof.
  intros Hok Ho. destruct (kb_impl _ Hok k o Ho) as [s Hs].
  pose proof (world_ok_lookup _ _ _ _ (kb_world _ Hok) Hs) as Hsok.
  destruct (stop_again (m_impl o) w s Hs) as (v & Hex & Hu & Hagain); [apply Hsok..|by rewrite (kb_thread _ Hok)|].
  assert (∀ u : W, kb_objs (w_user u) !! k = Some o → kb_server_stop (Some k) u = stop (m_impl o) u) as Hst.
  { intros u Hou. simpl. by rewrite (bind_Done _ _ _ _ _ (deref_kb_Done k o u Hou)). }
  exists v. by rewrite !Hst, Hex, Hagain by (by rewrite ?Hu).
Qed.

(** So a server may be stopped before it is destroyed, whose destructor then
    stops it for the third time. *)
Lemma destroy_Done k o w :
  kb_ok w → kb_objs (w_user w) !! k = Some o →
  kb_server_destroy (Some k) w = (destruct_server (m_impl o) ;; modify (with_kb (delete k))) w.
Proof.
  intros Hok Ho. destruct (kb_stop_again k o w Hok Ho) as (v & Hex & Hagain & Hu & Hst & _).
  unfold kb_server_destroy. rewrite (bind_Done _ _ _ _ _ Hst).
  rewrite (bind_Done _ _ _ _ _ (deref_kb_Done k o v ltac:(by rewrite Hu))).
  unfold destruct_server, mbind, M_bind. by rewrite Hex, Hagain.
Qed.

Lemma destroy_cut k w :
  kb_ok w → is_Some (kb_objs (w_user w) !! k) →
  kb_server_destroy (Some k) w = (kb_server_stop (Some k) ;; kb_server_destroy (Some k)) w.
Proof.
  intros Hok [o Ho]. destruct (kb_stop_again k o w Hok Ho) as (v & _ & _ & _ & Hst & Hagain).
  rewrite (bind_Done _ _ _ _ _ Hst). unfold kb_server_destroy.
  by rewrite (bind_Done _ _ _ _ _ Hst), (bind_Done _ _ _ _ _ Hagain).
Qed.

(** ** Calls *)

Lemma null_target op w :
  kb_allowed op w → kb_target op w = None → exec_kb op w = Done tt w.
Proof.
  assert (∀ h, handle_ok h w → (h ≫= λ k, m_impl <$> kb_objs (w_user w) !! k) = None → h = None) as Hnull.
  { intros [k|] Hh Ht; [|done]. destruct Hh as [o Ho]. simpl in Ht. by rewrite Ho in Ht. }
  destruct op; simpl; intros Hop Ht; try done; try destruct Hop as [Hop _]; by rewrite (Hnull _ Hop Ht).
Qed.

(** Calls that answer. *)
Lemma wp_forwarded {R} k o w (m : kb_server F → M W R) Q :
  kb_objs (w_user w) !! k = Some o → wp (m o ;; skip) Q w → wp ((self ← deref_kb k; m self) ;; skip) Q w.
Proof. intros Ho. unfold wp, mbind, M_bind. by rewrite (deref_kb_Done k o w Ho). Qed.

(** Which servers have a thread after an operation of a server below. *)
Lemma below_threads p (op : server_op CB) w :
  kb_ok w → op_allowed p op w → is_round op = false → (waits op = true → ¬ threaded w p) →
  wp (exec_op (H1:=quiet) p op) (λ _, same_threads p w) w.
Proof.
  intros Hok. apply (exec_op_threads (H1:=quiet) (H2:=kb_contract)).
  split; [apply kb_world|apply kb_thread]; exact Hok.
Qed.

Lemma kb_op_threads op p w :
  kb_ok w → kb_allowed op w → kb_in_one_piece op w → kb_target op w = Some p →
  wp (exec_kb op) (λ _, same_threads p w) w.
Proof.
  intros Hok Hop Hpiece Ht. pose proof (λ op' : server_op CB, below_threads p op' w Hok) as Hex.
  assert (∀ h, (h ≫= λ k, m_impl <$> kb_objs (w_user w) !! k) = Some p →
    ∃ k o s, h = Some k ∧ p = m_impl o ∧ kb_objs (w_user w) !! k = Some o ∧ w_objs w !! p = Some s) as Hh.
  { intros [k|] Hp; [|done]. simpl in Hp. destruct (kb_objs (w_user w) !! k) as [o|] eqn:Ho; [|done].
    injection Hp as <-. destruct (kb_impl _ Hok k o Ho) as [s Hs]. by exists k, o, s. }
  destruct op; unfold kb_target in Ht; simpl in Hop, Hpiece; try done;
    try (destruct (Hh _ Ht) as (k & o & s & -> & -> & Ho & Hs); simpl; unfold kb_target in Hpiece; simpl in Hpiece;
      rewrite ?Ho in Hpiece; assert (is_Some (w_objs w !! m_impl o)) as Hsome by (by exists s)); clear Hh.
  - injection Ht as <-. apply wp_discard, wp_bind. destruct Hop as (Hfresh & _ & Hlib).
    eapply wp_mono; [by apply (Hex OpConstruct)|]. intros [] v Hv. by apply wp_bind, wp_modify, wp_ret.
  - change (wp (kb_server_destroy (Some k)) (λ _, same_threads (m_impl o) w) w).
    unfold wp. rewrite (destroy_Done k o w Hok Ho). apply wp_bind.
    eapply wp_mono; [apply (Hex OpDestruct); eauto|]. intros [] v Hv. by apply wp_modify.
  - apply (wp_forwarded k o); [done|].
    destruct (set_async_ok k o w Hok Ho) as [Hok' _].
    exact (below_threads (m_impl o) (OpStartAsync port) _ Hok' Hsome eq_refl ltac:(done)).
  - apply (wp_forwarded k o); [done|]. by apply (Hex (OpStartManual port)).
  - apply wp_bind, (wp_deref_kb k o); [done|]. apply (Hex OpStop); eauto.
  - apply wp_bind, (wp_deref_kb k o); [done|]. unfold wp.
    destruct (poll_alike I quiet (m_impl o) w (kb_silent _ Hok)) as [-> _].
    apply (Hex OpPoll); [|done..]. split; [|done]. exists s. split; [done|]. by eapply (proj2 Hop).
  - apply (wp_forwarded k o); [done|]. by apply (Hex (OpSend conn data reliable)).
  - apply (wp_forwarded k o); [done|]. by apply (Hex (OpBroadcast data reliable)).
  - apply wp_bind, (wp_deref_kb k o); [done|]. by apply (Hex (OpDisconnect conn reason)).
Qed.

Definition kb_threads_go_on t t' : Prop :=
  kb_threads_ok t' ∧ kb_user (w_user (tw_world t')) = kb_user (w_user (tw_world t)) ∧
  rtc session_step (sessions (tw_world t)) (sessions (tw_world t')).

Lemma kb_call_ok op t :
  kb_threads_ok t → kb_thread_allowed (KtCall op) t →
  wp (exec_kb_thread (KtCall op)) (λ _, kb_threads_go_on t) t.
Proof.
  intros Hok (Hfree & Hop & Hpiece). pose proof (kb_free_ok t Hok Hfree) as Hw.
  cbn [exec_kb_thread]. apply wp_bind, wp_gets.
  destruct (kb_target op (tw_world t)) as [p|] eqn:Ht.
  - pose proof (exec_kb_ok op _ Hw Hop) as Hgo. pose proof (kb_op_threads op p _ Hw Hop Hpiece Ht) as Hthr.
    eapply wp_mono; [apply (atomic_step_ok p (exec_kb op)); [apply Hok|done|]|].
    { eapply wp_mono; [apply (wp_and _ _ _ _ Hgo Hthr)|]. intros [] w' [([] & _ & Hp) Hs]. by split. }
    intros [] t' (Hok' & Hfree' & Hex & Hsess). unfold wp in Hgo. rewrite Hex in Hgo.
    destruct Hgo as ([_ Hsil _ Himpl Hdist] & Hu & _). split; [|done]. split; [done..|congruence|done|done].
  - apply wp_bind. unfold on_world, wp. rewrite (null_target op _ Hop Ht). cbn.
    assert (TWorld (tw_world t) (tw_net t) (tw_app t) = t) as -> by by destruct t.
    split; [done|]. split; [done|]. apply rtc_refl.
Qed.

Lemma kb_network_ok p t :
  kb_threads_ok t → kb_thread_allowed (KtNetwork p) t →
  wp (exec_kb_thread (KtNetwork p)) (λ _, kb_threads_go_on t) t.
Proof.
  intros Hok (pc & Hpc & Hret). cbn [exec_kb_thread].
  destruct (net_step_alike I quiet p pc (tw_world t) (kto_silent _ Hok)) as [Heq _].
  destruct (net_step_alike quiet quiet p pc (tw_world t) (kto_silent _ Hok)) as [_ Hsil].
  assert (exec_thread (H1:=I) (TNetwork p) t = exec_thread (H1:=quiet) (TNetwork p) t) as Hex.
  { cbn [exec_thread]. unfold mbind, M_bind, gets. cbn [id]. rewrite Hpc. unfold on_world. by rewrite Heq. }
  unfold wp. rewrite Hex. clear Heq Hex.
  pose proof (network_step_ok (H1:=quiet) (H2:=kb_contract) p t (kto_threads _ Hok)
    (conj Logic.I (ex_intro _ pc (conj Hpc Hret)))) as Hwp.
  pose proof (net_step_private p pc (tw_world t)) as Hu. revert Hwp.
  cbn [exec_thread]. unfold wp, mbind, M_bind, gets. cbn [id]. rewrite Hpc. unfold on_world.
  destruct (on_thread p (net_step p pc) (tw_world t)) as [pc' w'|]; [|done]. cbn.
  intros (Hok' & _ & [_ Hcore] & [Hsess _] & _). simpl in Hu. split; [|split; [simpl; by rewrite Hu|exact Hsess]].
  apply (kb_threads_kept t); [done|done|by eapply Hsil|apply Hok|done|].
  simpl in Hcore |- *. by rewrite <- (dom_fmap_L core), Hcore, dom_fmap_L.
Qed.

Lemma kb_stop_begin_ok k t :
  kb_threads_ok t → kb_thread_allowed (KtStop k) t →
  wp (exec_kb_thread (KtStop k)) (λ _, kb_threads_go_on t) t.
Proof.
  intros Hok (Hfree & o & Ho & Ht). cbn [exec_kb_thread]. apply wp_bind.
  unfold on_world at 1, wp at 1. rewrite (deref_kb_Done k o _ Ho). cbn iota beta.
  assert (TWorld (tw_world t) (tw_net t) (tw_app t) = t) as -> by by destruct t.
  pose proof (stop_begin_ok (H1:=quiet) (m_impl o) false t (kto_threads _ Hok) (conj Hfree Ht)) as Hwp.
  destruct (stop_begin_alike (m_impl o) (tw_world t) (kto_silent _ Hok)) as [_ Hsil]. revert Hwp.
  cbn [exec_thread]. unfold wp, mbind, M_bind, on_world.
  destruct (stop_begin (m_impl o) (tw_world t)) as [[] w'|]; [|done]. cbn.
  intros (Hok' & Happ & Hu & Hdom & Hsess). simpl in *. split; [|split; [simpl; by rewrite Hu|exact Hsess]].
  by apply (kb_threads_kept t); [done|done|by eapply Hsil|..].
Qed.

Lemma kb_joined_ok t :
  kb_threads_ok t → kb_thread_allowed KtJoined t →
  wp (exec_kb_thread KtJoined) (λ _, kb_threads_go_on t) t.
Proof.
  intros Hok (p & d & Happ & Hret). assert (d = false) as ->.
  { destruct d; [|done]. by destruct (kto_app _ Hok p). }
  eapply wp_mono; [by apply (joined_ok (H1:=quiet) t p false); [apply Hok|..]|].
  intros [] t' (Hok' & Hfree & _ & Hothers & (s & Hs & Hs') & Hu & Hsess). split; [|by rewrite Hu].
  assert (silents (tw_world t')) as Hsil.
  { intros q u Hq. destruct (decide (q = p)) as [->|Hne].
    - rewrite Hs' in Hq. injection Hq as <-. pose proof (kto_silent _ Hok p s Hs) as Hss. by destruct s.
    - rewrite Hothers in Hq by done. by apply (kto_silent _ Hok q). }
  apply (kb_threads_kept t); [done|done|done|by intros; rewrite Hfree|done|].
  apply set_eq. intros q. rewrite !elem_of_dom. destruct (decide (q = p)) as [->|Hne].
  - rewrite Hs, Hs'. by split; eexists.
  - by rewrite Hothers.
Qed.

Lemma kb_thread_op_ok top t :
  kb_threads_ok t → kb_thread_allowed top t → wp (exec_kb_thread top) (λ _, kb_threads_go_on t) t.
Proof.
  destruct top; [apply kb_network_ok|apply kb_call_ok|apply kb_stop_begin_ok|apply kb_joined_ok].
Qed.

Lemma kb_thread_initial_ok (u : U) : kb_threads_ok (kb_thread_initial u : TW).
Proof.
  destruct (kb_initial_ok (A:=A) (CB:=CB) (F:=F) u) as [_ Hsil _ Himpl Hdist].
  split; [exact (thread_initial_ok (KbHeap ∅ u))|done|done|done|done].
Qed.

Lemma kb_threads_reachable_ok (u : U) t :
  rtc kb_thread_step (kb_thread_initial u) t → kb_threads_ok t ∧ kb_user (w_user (tw_world t)) = u.
Proof.
  revert t. apply rtc_ind_r; [split; [apply kb_thread_initial_ok|done]|].
  intros t t' _ (top & Hop & Hex) [Hok Hu]. pose proof (kb_thread_op_ok top t Hok Hop) as Hwp.
  unfold wp in Hwp. rewrite Hex in Hwp. destruct Hwp as (Hok' & Hu' & _). split; [done|congruence].
Qed.

(** C37: in every interleaving of the C interface with the network threads of its
    servers, message by message and also while [kb_server_stop] waits, with handles
    that are live or null and polls by hand only of running servers, no call and no
    thread faults: the servers stay well-formed and their sessions go
    steps of their machine, every message received has been released once or is
    held by a thread; but no function sets a callback, so that user code is never
    run, and every message is dropped. *)
Theorem c_api_threads_silent (u : U) t top :
  rtc kb_thread_step (kb_thread_initial u) t → kb_thread_allowed top t →
  ∃ t', exec_kb_thread top t = Done tt t' ∧
    kb_user (w_user (tw_world t')) = u ∧ map_Forall (λ _, silent) (w_objs (tw_world t')) ∧
    world_inv Interleaved (tw_world t') ∧ (tw_app t' = Free → world_ok (tw_world t')) ∧
    rtc session_step (sessions (tw_world t)) (sessions (tw_world t')) ∧
    Ledger.received (w_trace (tw_world t')) ≡ₚ released (w_trace (tw_world t')) ++ owed (tw_net t').
Proof.
  intros Hr Hop. destruct (kb_threads_reachable_ok u t Hr) as [Hok Hu].
  destruct (proj1 (wp_Done _ _ _) (kb_thread_op_ok top t Hok Hop)) as ([] & t' & Hex & Hok' & Hu' & Hsess).
  pose proof (kto_threads _ Hok') as Hthr. exists t'.
  split_and!; [done|congruence|apply Hok'|apply Hthr|by intros; apply free_ok|done|apply Hthr].
Qed.
End system_ok.

(** ** A simulated run *)

Section simulation.
Context (ss : SteamSockets sim_addr).
#[local] Existing Instance log_kb_callbacks.
Local Abbreviation TW := (tworld sim_addr unit (kb_heap unit (list server_event))).
Implicit Types t : TW.

Definition sim_kb_threads (ops : list kb_thread_op) : TW :=
  foldl (λ t top, match exec_kb_thread top t with Done _ t' => t' | Fault _ t' => t' end)
    (kb_thread_initial []) ops.

(** The boolean form of [kb_thread_allowed], for the calls used below. *)
Definition kb_thread_allowed_b (top : kb_thread_op) t : bool :=
  let w := tw_world t in
  match top, tw_app t with
  | KtNetwork p, _ => match tw_net t !! p with Some Returned | None => false | Some _ => true end
  | KtCall (KbCreate impl self), Free =>
      bool_decide (w_objs w !! impl = None) && bool_decide (kb_objs (w_user w) !! self = None) &&
      steam_answer (w_trace w) SteamNetworkingSockets
  | KtCall (KbStartAsync h _), Free => match h with None => true | Some k => bool_decide (is_Some (kb_objs (w_user w) !! k)) end
  | KtStop k, Free => match kb_objs (w_user w) !! k with Some o => bool_decide (threaded w (m_impl o)) | None => false end
  | KtJoined, Joining p _ => match tw_net t !! p with Some Returned => true | _ => false end
  | _, _ => false
  end.

Lemma kb_thread_allowed_b_sound top t : kb_thread_allowed_b top t = true → kb_thread_allowed top t.
Proof.
  destruct top as [p|op|k|]; simpl.
  - destruct (tw_net t !! p) as [[]|]; intros Hb; try done; by eexists.
  - destruct op as [impl self| |h pt| | | | | | |], (tw_app t); try done.
    + rewrite !andb_true_iff, !bool_decide_eq_true. intros [[Himpl Hself] Hlib]. by split_and!.
    + destruct h as [k|]; [rewrite bool_decide_eq_true|]; intros Hh; by split_and!.
  - destruct (tw_app t); [|done]. destruct (kb_objs _ !! k) as [o|]; [|done].
    rewrite bool_decide_eq_true. intros Ht. split; [done|by exists o].
  - destruct (tw_app t) as [|p d]; [done|]. destruct (tw_net t !! p) as [[]|] eqn:Hp; try done.
    intros _. by exists p, d.
Qed.

Fixpoint kb_threads_run_ok t (ops : list kb_thread_op) : bool :=
  match ops with
  | [] => true
  | top :: ops =>
      kb_thread_allowed_b top t &&
      match exec_kb_thread top t with Done _ t' => kb_threads_run_ok t' ops | Fault _ _ => false end
  end.

Lemma sim_kb_threads_reachable ops :
  kb_threads_run_ok (kb_thread_initial []) ops = true →
  rtc kb_thread_step (kb_thread_initial []) (sim_kb_threads ops).
Proof.
  unfold sim_kb_threads. generalize (kb_thread_initial ([] : list server_event) : TW).
  induction ops as [|top ops IH]; intros t Hok; [apply rtc_refl|]. simpl in Hok |- *.
  apply andb_true_iff in Hok as [Hop Hok]. apply kb_thread_allowed_b_sound in Hop.
  destruct (exec_kb_thread top t) as [[] t'|] eqn:Hex; [|done].
  eapply rtc_l; [by exists top|]. by apply IH.
Qed.
End simulation.

(** A client connects during the first round, two messages arrive in the second,
    and the server is stopped while one of them is still to be handled. *)
Definition sim_kb_stopping : list kb_thread_op :=
  [KtCall (KbCreate 1 2); KtCall (KbStartAsync (Some 2%positive) 80)] ++
  replicate 8 (KtNetwork 1) ++ [KtStop 2].

Lemma c_api_threads_silent_witness :
  let ss := sim_steam sim_inbox [StatusChanged 5 StateConnecting StateNone] in
  let t := sim_kb_threads ss sim_kb_stopping in
  tw_app t = Joining 1 false ∧ length (owed (tw_net t)) = 1%nat ∧
  length (Ledger.received (w_trace (tw_world t))) = 4%nat ∧
  ∃ t', exec_kb_thread (H1:=log_kb_callbacks) (KtNetwork 1) t = Done tt t' ∧ kb_user (w_user (tw_world t')) = [] ∧
    map_Forall (λ _, silent) (w_objs (tw_world t')).
Proof.
  intros ss t. assert (SteamLaws sim_addr) as Hlaws by (apply sim_laws; by repeat constructor).
  split; [by vm_compute|]. split; [by vm_compute|]. split; [by vm_compute|].
  destruct (c_api_threads_silent (CB:=unit) (F:=unit) log_kb_callbacks [] t (KtNetwork 1))
    as (t' & Hex & Hu & Hs & _).
  - apply sim_kb_threads_reachable. by vm_compute.
  - apply (kb_thread_allowed_b_sound ss). by vm_compute.
  - exists t'. split; [exact Hex|]. split; [exact Hu|exact Hs].
Defined.
