(* ===== verification/Networking.v ===== *)
(** * Initialising and shutting down the library

    [src/kb/kb_networking.cpp].  The logger and GameNetworkingSockets are not in
    the repository: their calls are recorded, and whether initialising the
    sockets succeeds is a parameter. *)

From S2P Require Import Prelude.

Inductive lib_call := LoggerInit | SocketsInit | SocketsKill | LoggerShutdown.

#[export] Instance lib_call_eq_decision : EqDecision lib_call.
Proof. solve_decision. Defined.

(** The static [s_initialized] and the calls made. *)
Record lib_state := LibState { s_initialized : bool; lib_calls : list lib_call }.

Section operations.
(** [GameNetworkingSockets_Init] succeeds after these calls. *)
Context (init_succeeds : list lib_call → bool).

Definition lib_do (c : lib_call) : M lib_state unit :=
  modify (λ s, LibState (s_initialized s) (lib_calls s ++ [c])).

Definition kb_networking_init : M lib_state unit :=
  initialized ← gets s_initialized;
  if (initialized : bool) then skip
  else
    lib_do LoggerInit ;;
    calls ← gets lib_calls;
    lib_do SocketsInit ;;
    if negb (init_succeeds calls) then fail Aborted
    else modify (λ s, LibState true (lib_calls s)).

Definition kb_networking_shutdown : M lib_state unit :=
  initialized ← gets s_initialized;
  if negb initialized then skip
  else
    lib_do SocketsKill ;;
    lib_do LoggerShutdown.
End operations.

(** ** Properties *)

Section properties.
Context (init_succeeds : list lib_call → bool).

(** Any number of calls of [kb_networking_init]. *)
Definition inits (n : nat) : M lib_state unit :=
  for_each (replicate n tt) (λ _, kb_networking_init init_succeeds).
Definition shutdowns (n : nat) : M lib_state unit := for_each (replicate n tt) (λ _, kb_networking_shutdown).

Lemma inits_initialized n cs : inits n (LibState true cs) = Done tt (LibState true cs).
Proof. unfold inits. induction n as [|n IH]; [done|]. simpl. by erewrite bind_Done. Qed.

(** Initialising is idempotent: however often it is called, the logger and
    the sockets are initialised once; when the sockets fail, the process
    aborts. *)
Theorem init_once n :
  inits (S n) (LibState false [])
  = if init_succeeds [LoggerInit]
    then Done tt (LibState true [LoggerInit; SocketsInit])
    else Fault Aborted (LibState false [LoggerInit; SocketsInit]).
Proof.
  unfold inits. cbn [replicate for_each].
  assert (kb_networking_init init_succeeds (LibState false [])
    = if init_succeeds [LoggerInit]
      then Done tt (LibState true [LoggerInit; SocketsInit])
      else Fault Aborted (LibState false [LoggerInit; SocketsInit])) as Hinit.
  { unfold kb_networking_init, lib_do, gets, modify, mbind, M_bind. simpl.
    by destruct (init_succeeds [LoggerInit]). }
  destruct (init_succeeds [LoggerInit]).
  - rewrite (bind_Done _ _ _ _ _ Hinit). apply inits_initialized.
  - by rewrite (bind_Fault _ _ _ _ _ Hinit).
Qed.

Lemma shutdowns_initialized n cs :
  shutdowns n (LibState true cs)
  = Done tt (LibState true (cs ++ mjoin (replicate n [SocketsKill; LoggerShutdown]))).
Proof.
  revert cs. induction n as [|n IH]; intros cs; [by rewrite app_nil_r|].
  unfold shutdowns in *. cbn [replicate for_each].
  erewrite bind_Done; [|done]. rewrite IH. do 2 f_equal. simpl. by rewrite <- !app_assoc.
Qed.

(** Shutting down does not clear [s_initialized]: every further shutdown
    kills the sockets library and the logger again, and initialising after a
    shutdown does nothing, so that the library stays dead. *)
Theorem shutdown_is_not_undone cs n m :
  ∃ s, (shutdowns (S n) ;; inits m) (LibState true cs) = Done tt s ∧
    lib_calls s = cs ++ mjoin (replicate (S n) [SocketsKill; LoggerShutdown]) ∧
    s_initialized s = true.
Proof.
  eexists. split; [|split].
  - rewrite (bind_Done _ _ _ _ _ (shutdowns_initialized (S n) cs)). apply inits_initialized.
  - done.
  - done.
Qed.
End properties.
